(* ===== verification/_CoqProject ===== *)
-Q . S2P
Prelude.v
GoTime.v
TimeText.v
Json.v
DurationText.v
Retry.v
Cursor.v
LogLine.v
Scanner.v
Consumer.v
Samples.v
Connection.v
Stream.v
Delivery.v
EndToEnd.v
Store.v
CursorJson.v
Metadata.v
PodDiscovery.v
K8sConfig.v
Config.v
Receiver.v
Factory.v
System.v
Typing.v
Lifecycle.v
Collector.v
