(* ===== verification/Prelude.v ===== *)
(** A verification library for the k8spodlog receiver, an OpenTelemetry Collector
    component that follows the logs of Kubernetes pods through the API server and
    hands them to a pipeline.

    * How the program works

    A pod informer calls the receiver for every pod added, updated or deleted
    ([internal/poddiscovery]).  For each container that has started the receiver
    ([receiver.go]) starts one goroutine, the log stream ([stream.go]), which
    connects to [pods/log?follow=true], reads it to the end, and connects again,
    with a backoff, until its context ends, the container is gone for good or it
    gives up.  Each connection ([streamConnection] of [receiver.go]) scans lines
    ([internal/logline]), drops what an earlier connection delivered
    ([internal/cursor], type [Filter]), batches the rest and hands the batches to
    the pipeline, which may refuse them ([internal/consumerretry] retries first).
    Positions ([Cursor]) live in a store that outlives the streams and can be
    persisted ([internal/cursor], type [Store]).

    The promise behind all of this is delivery: every line of a container's log
    reaches the pipeline, in order, once if it carries a timestamp, across broken
    connections, refused batches, recycled streams and restarts.  Two things bound
    it: a container that has no position yet is read from where the window of
    [since_seconds] begins, and a batch the pipeline refuses with a permanent
    error is discarded.

    * The files, in dependency order

    - Prelude.v (this file): machine integers, byte strings, list lemmas, results,
      the hint database [receiver] and the tactics [in_range] and [zcases].
    - GoTime.v: Go's instants and durations, [time.Parse] at RFC3339Nano.
    - TimeText.v: how an instant is written, with its calendar; writing and
      parsing are inverse ([parse_format]).
    - Json.v: the scanner, strings, integers and objects of [encoding/json].
    - DurationText.v: how a duration is written.
    - Retry.v: [internal/retry], with float64 arithmetic for [Spread].
    - Cursor.v: [Cursor] and [Filter]; positions [pos] of a log and the lemma
      [resumed_keep] on what a resumed connection forwards.
    - LogLine.v: [Line], [SplitFunc], [Batch] of [internal/logline].
    - Scanner.v: [Scanner] over the loop of [bufio.Scanner], and its equivalence
      with the one-pass reference [records].
    - Consumer.v: the interface of a pipeline (classes [Consumer],
      [ConsumerErrors]), its contract ([PipelineOk]) and [internal/consumerretry]
      (Module [ConsumerRetry]), which keeps that contract.
    - Samples.v: concrete instances the theorems are tried on.
    - Connection.v: [streamConnection] as a machine [conn_step] over lines, ticks
      and the closing of the channel, with its invariant [conn_inv]; what it does
      to the outside is a list of [conn_output] in order.
    - Stream.v: [run] as a fold of [run_iter] over connect attempts.  The class
      [ConsumeOk] states what the loop needs of a connection.
    - Delivery.v: Stream.v over Connection.v against a kubelet ([serves]); where a
      stream stands in its log ([stands]: read from some line on up to another)
      and how it moves ([reaches]); the connection meets [ConsumeOk] for every
      [since_seconds] (instance [consume_ok]); end-to-end delivery.
    - EndToEnd.v: the scanner in front of it, from the kubelet's bytes to records.
    - Store.v: [Store], over the interface [Codec] of its encoding.
    - CursorJson.v: the text of cursors ([Cursor.UnmarshalJSON], and what [Flush]
      writes and [Load] reads); it implements [Codec] (instance [json_codec_ok]).
    - Metadata.v: the generated telemetry and logs builders.
    - PodDiscovery.v: pods, and [internal/poddiscovery].
    - K8sConfig.v and Config.v: the configuration, its validation and defaults.
    - Receiver.v: the state of [logsReceiver] and every operation on it, one
      definition per critical section, composed into the handlers.
    - Factory.v: [factory.go], and the construction of a receiver.
    - System.v: the running receiver: goroutines and all interleavings of the
      critical sections ([exec], [reachable]), with the invariant [sys_inv].
    - Typing.v: the types and key shapes every step of System.v preserves.
    - Lifecycle.v: [Start], the background loops, one stream's goroutine from start
      to cleanup, [Shutdown], restarts, and streams of one container that follow
      one another.
    - Collector.v: System.v with what the streams of one container really read,
      hand over and report, step by step, the disk, crashes and restarts ([step],
      [co_reachable]), with the invariant [co_inv].

    * How state and operations correspond

    Structs are records with the source's fields, and each function or method is
    one definition of the same name (a trailing underscore where the name is
    taken: [Record_], [SinceSeconds_]).  Mutation is state passing.  What a
    function asks of the outside is an argument or a class: the clock, contexts,
    random draws, the API server's answers, the pipeline.  What it does to the
    outside is a list of outputs in order ([stream_output], [rcv_output]).  Go's
    64-bit integers are [Z] with [int64] and [uint64] written where the code can
    wrap; times are nanoseconds since Go's zero time.

    Concurrency: a connection's reader, ticker and loop meet in one [select], so a
    connection is a sequence of events, and theorems hold for every sequence.
    The receiver's goroutines meet under one mutex, so a run of the system is a
    sequence of critical sections, and theorems hold for every sequence; the
    pruner's two halves are separate steps, as in the source.

    * What the theorems show

    - Delivery (EndToEnd.v, Delivery.v, Lifecycle.v): from bytes to records,
      exactly once for stamped lines, no gaps for any, nothing left behind at a
      terminal container, and the same across streams and restarts.  They hold
      for every [since_seconds].  What they count are the records a stream is done
      with ([settled]): those the pipeline took ([accepted]) and those discarded
      because it refused them for good ([dropped]); with no permanent error the
      two lists are the same.  The lines they speak of begin where the cursor the
      stream started from stood or, for a stream without one, where the window of
      one of its own requests begins ([begins]): until a first record is taken
      that window moves with the clock, which [refused_first_batch_lost] and
      [refused_first_batch_ages] show.
    - The collector (Collector.v): in every interleaving, with overlapping streams
      and crashes anywhere, no position in memory or on disk passes a line that
      is neither taken nor refused for good ([no_gap]), counted from the log's
      first line or the beginning of a window, and a crash costs no more than the
      progress since the last flush.
    - Connections (Connection.v, Consumer.v): settled records are a prefix of the
      kept lines, cursors stand exactly after settled records, each report comes
      after the records behind it, and delivered batches have reached the pipeline
      behind the retries.
    - Reading (Scanner.v, LogLine.v): the scanner equals its reference for every
      way of cutting the stream; records are bounded; nothing is lost in split
      mode.
    - Positions (Cursor.v, Store.v): order, counting, filtering; writes commute
      and never go back.
    - Persistence (CursorJson.v, Lifecycle.v): the stored text is read back as the
      positions it was written from; what an earlier version stored leaves no gap.
    - The loop (Stream.v, Retry.v, Delivery.v): progress, bounded waits, the
      ladder, recycling, why a stream stops.
    - Bookkeeping (Receiver.v, System.v): tracked streams and live goroutines are
      the same, no stream is lost, stale streams are harmless, drained containers
      stay closed, deletes and expiry clean up, resyncs are idempotent; the state
      is well typed (Typing.v).  Taken without interruption, the steps of System.v
      are the handlers of Receiver.v ([handler_exec]).
    - Configuration and construction (Config.v, K8sConfig.v, PodDiscovery.v,
      Metadata.v, Factory.v, Lifecycle.v): validation accepts exactly the ranges
      the other components need; creating and starting are all or nothing and
      name what failed.

    A few closed examples and theorems record behaviour the program's comments do
    not promise: [broken_line_emitted], [refused_first_batch_lost],
    [refused_first_batch_ages], [legacy_within_second], [drain_reads_history], [gave_up_never_revived], [unseen_never_expires],
    [zero_interval_never_waits], [unwritable_zone], [joined_end_loses_lines],
    [since_wraps].

    * Fuel and bounds

    [scan_loop] runs on fuel computed from the bytes left, and [Scan_spec] proves
    it enough; [read_stream] likewise.  The retry loop's fuel is the attempt at
    which the backoff stops or the context ends, which its theorem takes as given.
    The JSON scanner's fuel is never used up ([document_fuel], [unquote_fuel]);
    twenty digits hold every 64-bit integer.
    [run] and [exec_all] recurse over the attempts or steps themselves.  A log has
    at most 2^63 - 1 lines (a cursor's count is 64-bit); stream generations are
    unique for the first 2^64 - 1 streams.  Collector.v's events carry the attempts
    a stream meets, as many as one likes, and a crash drops what is left of them.

    * Assumptions

    - The kubelet ([serves]): a request is answered with the log from the first
      line on that is stamped at its [sinceTime], written in whole seconds, or at
      [sinceSeconds] before the server's clock, or later; with all of it when it
      names neither; up to wherever the connection ends.  Stamps do not go back
      ([log_ok]), and the log is one list of lines: rotation has not discarded any
      a request asks for.  Connections break between lines; [broken_line_emitted]
      says what a break inside one does.
    - [io.Reader] ([plain_reader]): a read returns no empty data without an error.
      It may return its last data together with the final error in split mode, for
      streams that do not end on a carriage return; [joined_end_loses_lines] says
      what that does in truncate mode.
    - [rand.Int64N] is in range ([rand_ok]); wrapping with [%w] keeps an error's
      class ([ConsumerErrorsOk]).
    - Stored keys are ASCII, as Kubernetes names are, and times have a four-digit
      year and a zone of less than a day ([encodable]); [unwritable_zone] says
      what a longer zone does.
    - A refused batch counts as not handed over: a pipeline that took part of it
      before refusing sees that part again ([PipelineOk] lets it).
    - In Collector.v the sets of cursors flushed are [encodable], and batch sizes
      are machine integers.

    * Not modelled

    Logging, but for the fields of [Start]'s own line; TLS and HTTP; client-go's
    informers and list/watch; the YAML decoding of the configuration; the tracer,
    which nothing uses; the test support of [internal/metadatatest]. *)
From Stdlib Require Export Strings.Byte.
From Stdlib Require Export Lia.
From stdpp Require Export strings numbers.
From stdpp Require Export prelude gmap list.

#[export] Set Default Goal Selector "!".
Open Scope Z_scope.

(** * Machine integers

    Go's [int] and [int64] are 64-bit two's complement on every platform the
    receiver is built for; [uint64] is used for stream generations. *)

Definition min_int64 : Z := - 2 ^ 63.
Definition max_int64 : Z := 2 ^ 63 - 1.

(** The value a 64-bit signed operation leaves behind. *)
Definition int64 (z : Z) : Z := (z + 2 ^ 63) `mod` 2 ^ 64 - 2 ^ 63.

(** The value a 64-bit unsigned operation leaves behind. *)
Definition uint64 (z : Z) : Z := z `mod` 2 ^ 64.

Definition in_int64 (z : Z) : Prop := min_int64 ≤ z ≤ max_int64.

Lemma int64_small z : in_int64 z → int64 z = z.
Proof.
  unfold in_int64, min_int64, max_int64, int64. intros H.
  rewrite Z.mod_small; lia.
Qed.

Lemma int64_in_range z : in_int64 (int64 z).
Proof.
  unfold in_int64, min_int64, max_int64, int64.
  pose proof (Z.mod_pos_bound (z + 2 ^ 63) (2 ^ 64)). lia.
Qed.

Lemma uint64_small z : 0 ≤ z < 2 ^ 64 → uint64 z = z.
Proof. unfold uint64. apply Z.mod_small. Qed.

(** [in_range] closes the side conditions of [int64_small]. *)
Ltac in_range := unfold in_int64, min_int64, max_int64 in *; lia.

(** * Byte strings

    A Go [string] or [[]byte] is a finite sequence of bytes. *)

Abbreviation bytes := (list byte).

#[export] Instance byte_eq_decision : EqDecision byte := Byte.byte_eq_dec.

(** [bs "..."] is the byte string of an ASCII literal. *)
Definition bs (s : string) : bytes := String.list_byte_of_string s.

Declare Scope bytes_scope.
Delimit Scope bytes_scope with bytes.

(** The characters the program compares against. *)
Definition byte_newline : byte := x0a.
Definition byte_cr : byte := x0d.
Definition byte_space : byte := x20.
Definition byte_quote : byte := x22.

Definition byte_val (b : byte) : Z := Z.of_N (Byte.to_N b).

(** Go's [strings.IndexByte] / [bytes.IndexByte]: [None] is the result [-1]. *)
Fixpoint IndexByte (s : bytes) (c : byte) : option nat :=
  match s with
  | [] => None
  | b :: s' => if decide (b = c) then Some 0%nat else fmap S (IndexByte s' c)
  end.

Lemma IndexByte_Some s c i :
  IndexByte s c = Some i →
  s = take i s ++ c :: drop (S i) s ∧ c ∉ take i s ∧ (i < length s)%nat.
Proof.
  revert i. induction s as [|b s IH]; intros i Hi; [done|]. simpl in Hi.
  case_decide as Hb; simplify_eq.
  { split_and!; [done|set_solver|simpl; lia]. }
  destruct (IndexByte s c) as [j|] eqn:Hj; simplify_eq/=.
  destruct (IH j) as (Hs & Hn & Hl); [done|].
  split_and!; [by f_equal|set_solver|lia].
Qed.

Lemma IndexByte_None s c : IndexByte s c = None ↔ c ∉ s.
Proof.
  induction s as [|b s IH]; simpl; [set_solver|].
  case_decide; simplify_eq.
  { split; [done|set_solver]. }
  rewrite fmap_None, IH. set_solver.
Qed.

Lemma IndexByte_app_l s t c i : IndexByte s c = Some i → IndexByte (s ++ t) c = Some i.
Proof.
  revert i. induction s as [|b s IH]; intros i; simpl; [done|].
  case_decide; [done|]. destruct (IndexByte s c) as [j|]; [|done].
  intros [= <-]. by rewrite (IH j).
Qed.

Lemma IndexByte_here s c t : c ∉ s → IndexByte (s ++ c :: t) c = Some (length s).
Proof.
  induction s as [|b s IH]; simpl; intros Hn; [by rewrite decide_True|].
  rewrite decide_False by set_solver. rewrite IH by set_solver. done.
Qed.

(** * Lists *)

Lemma filter_all {A} (P : A → Prop) `{!∀ x, Decision (P x)} l :
  Forall P l → filter P l = l.
Proof.
  induction 1 as [|x l Hx Hl IH]; [done|]. by rewrite filter_cons_True, IH.
Qed.

Lemma filter_iff_in {A} (P Q : A → Prop) `{!∀ x, Decision (P x), !∀ x, Decision (Q x)} (l : list A) :
  (∀ x, x ∈ l → P x ↔ Q x) → filter P l = filter Q l.
Proof.
  induction l as [|x l IH]; intros Hl; [done|]. rewrite !filter_cons, IH by set_solver.
  apply decide_ext. apply Hl. set_solver.
Qed.

Lemma filter_none {A} (P : A → Prop) `{!∀ x, Decision (P x)} l :
  Forall (λ x, ¬ P x) l → filter P l = [].
Proof.
  induction 1 as [|x l Hx Hl IH]; [done|]. by rewrite filter_cons_False, IH.
Qed.

Lemma not_elem_of_take {A} (x : A) n l : x ∉ l → x ∉ take n l.
Proof. intros Hx Hin. apply Hx. rewrite <- (take_drop n l). set_solver. Qed.

Lemma not_elem_of_drop {A} (x : A) n l : x ∉ l → x ∉ drop n l.
Proof. intros Hx Hin. apply Hx. rewrite <- (take_drop n l). set_solver. Qed.

(** * Outcomes

    Go's [(T, error)] results: a value or an error. *)
Inductive result (E A : Type) : Type :=
| Ok (a : A)
| Err (e : E).
Arguments Ok {E A} _.
Arguments Err {E A} _.

Definition result_bind {E A B} (m : result E A) (f : A → result E B) : result E B :=
  match m with Ok a => f a | Err e => Err e end.

Declare Scope result_scope.
Delimit Scope result_scope with result.
Notation "'let?' x ':=' c1 'in' c2" := (result_bind c1 (fun x => c2))
  (at level 200, x pattern, c1 at level 100, c2 at level 200) : result_scope.

Lemma result_bind_Ok {E A B} (m : result E A) (f : A → result E B) b :
  result_bind m f = Ok b ↔ ∃ a, m = Ok a ∧ f a = Ok b.
Proof. destruct m; simpl; naive_solver. Qed.

(** * Automation *)

Create HintDb receiver discriminated.
#[export] Hint Resolve not_elem_of_take not_elem_of_drop : receiver.

(** Splits every [if]/[match] of the goal on a boolean comparison of integers
    into the corresponding order facts. *)
Ltac zcases :=
  repeat match goal with
  | |- context [Z.eqb ?a ?b] => destruct (Z.eqb_spec a b)
  | |- context [Z.ltb ?a ?b] => destruct (Z.ltb_spec a b)
  | |- context [Z.leb ?a ?b] => destruct (Z.leb_spec a b)
  | |- context [Z.gtb ?a ?b] => rewrite (Z.gtb_ltb a b)
  | |- context [Z.geb ?a ?b] => rewrite (Z.geb_leb a b)
  end.
