(* ===== verification/GoTime.v ===== *)
(** The part of Go's package [time] the receiver relies on: the instants of
    [time.Time] and [time.Parse] at the layout [time.RFC3339Nano].

    An instant is the number of nanoseconds since the zero [Time], which is
    0001-01-01T00:00:00 UTC; [IsZero], [Equal], [Before] and [After] depend on
    nothing else.  A [time.Duration] is its 64-bit count of nanoseconds. *)
From S2P Require Import Prelude.
Open Scope Z_scope.

Module Time.
Definition IsZero (t : Z) : bool := t =? 0.
Definition Equal (t u : Z) : bool := t =? u.
Definition After (t u : Z) : bool := u <? t.
Definition Before (t u : Z) : bool := t <? u.
End Time.

(** [time.Nanosecond] is 1. *)
Definition Millisecond : Z := 1000000.
Definition Second : Z := 1000000000.
Definition Minute : Z := 60 * Second.
Definition Hour : Z := 60 * Minute.

(** * The proleptic Gregorian calendar *)

Definition isLeap (year : Z) : bool :=
  (year `mod` 4 =? 0) && (negb (year `mod` 100 =? 0) || (year `mod` 400 =? 0)).

Definition daysIn (month year : Z) : Z :=
  if month =? 2 then if isLeap year then 29 else 28
  else if (month =? 4) || (month =? 6) || (month =? 9) || (month =? 11) then 30
  else 31.

(** Days from 0001-01-01 to the first of January of [year], and from there to
    the first of [month]. *)
Definition daysBeforeYear (year : Z) : Z :=
  let y := year - 1 in 365 * y + y / 4 - y / 100 + y / 400.

Definition daysBeforeMonth (month year : Z) : Z :=
  foldr (λ m acc, daysIn (Z.of_nat m) year + acc) 0 (seq 1 (Z.to_nat (month - 1))).

(** [time.Date] in UTC, for fields already in range. *)
Definition Date (year month day hour min sec nsec : Z) : Z :=
  (((daysBeforeYear year + daysBeforeMonth month year + (day - 1)) * 24 + hour) * 60 + min)
    * Minute + sec * Second + nsec.

(** * Scanning digits *)

Definition isDigit (b : byte) : bool := (48 <=? byte_val b) && (byte_val b <=? 57).
Definition digit (b : byte) : Z := byte_val b - 48.

(** [getnum(s, fixed)]: a one- or two-digit number; [fixed] insists on two. *)
Definition getnum (s : bytes) (fixed : bool) : option (Z * bytes) :=
  match s with
  | a :: s1 =>
      if isDigit a then
        match s1 with
        | b :: s2 =>
            if isDigit b then Some (digit a * 10 + digit b, s2)
            else if fixed then None else Some (digit a, s1)
        | [] => if fixed then None else Some (digit a, s1)
        end
      else None
  | [] => None
  end.

(** The longest run of leading digits, and what follows it. *)
Fixpoint span_digits (s : bytes) : bytes * bytes :=
  match s with
  | b :: s' => if isDigit b then let '(d, r) := span_digits s' in (b :: d, r) else ([], s)
  | [] => ([], [])
  end.

Definition digits_value (s : bytes) : Z := foldl (λ x b, x * 10 + digit b) 0 s.

(** [atoi] on a string of digits. *)
Definition atoi (s : bytes) : option Z :=
  match span_digits s with
  | (_ :: _, []) => Some (digits_value s)
  | _ => None
  end.

(** [skip(value, prefix)] for a prefix without spaces. *)
Fixpoint skip_prefix (value prefix : bytes) : option bytes :=
  match prefix with
  | [] => Some value
  | p :: prefix' =>
      match value with
      | b :: value' => if decide (b = p) then skip_prefix value' prefix' else None
      | [] => None
      end
  end.

Definition commaOrPeriod (b : byte) : bool := bool_decide (b = x2e ∨ b = x2c).

(** [parseNanoseconds]: digits past the ninth are dropped, and fewer than nine
    are scaled up. *)
Definition parseNanoseconds (digits : bytes) : Z :=
  let d := take 9 digits in
  digits_value d * 10 ^ (9 - Z.of_nat (length d)).

(** * [time.Parse(time.RFC3339Nano, value)]

    The layout is 2006-01-02T15:04:05.999999999Z07:00; its chunks are parsed in
    turn.  [None] is any error. *)
Definition stdLongYear (value : bytes) : option (Z * bytes) :=
  match value with
  | a :: b :: c :: d :: rest =>
      if isDigit a then y ← atoi [a; b; c; d]; Some (y, rest) else None
  | _ => None
  end.

Definition in_bounds (lo hi x : Z) : bool := (lo <=? x) && (x <=? hi).

(** A number followed by a range test, as each of the month, hour, minute and
    second chunks does. *)
Definition stdNum (fixed : bool) (lo hi : Z) (value : bytes) : option (Z * bytes) :=
  '(n, rest) ← getnum value fixed;
  if in_bounds lo hi n then Some (n, rest) else None.

(** The optional fractional second. *)
Definition stdFracSecond9 (value : bytes) : Z * bytes :=
  match value with
  | p :: (d :: _) as rest =>
      if commaOrPeriod p && isDigit d then
        let '(ds, r) := span_digits (tail value) in (parseNanoseconds ds, r)
      else (0, value)
  | _ => (0, value)
  end.

(** The zone: [Z] or a signed hh:mm offset, in seconds east of UTC. *)
Definition stdISO8601ColonTZ (value : bytes) : option (Z * bytes) :=
  match value with
  | x5a :: rest => Some (0, rest)
  | sign :: h1 :: h2 :: colon :: m1 :: m2 :: rest =>
      if decide (colon = x3a) then
        '(hr, _) ← getnum [h1; h2] true;
        '(mm, _) ← getnum [m1; m2] true;
        if (24 <? hr) || (60 <? mm) then None
        else
          let off := (hr * 60 + mm) * 60 in
          if decide (sign = x2b) then Some (off, rest)
          else if decide (sign = x2d) then Some (- off, rest)
          else None
      else None
  | _ => None
  end.

Definition Parse_RFC3339Nano (value : bytes) : option Z :=
  '(year, value) ← stdLongYear value;
  value ← skip_prefix value (bs "-");
  '(month, value) ← stdNum true 1 12 value;
  value ← skip_prefix value (bs "-");
  '(day, value) ← getnum value true;
  value ← skip_prefix value (bs "T");
  '(hour, value) ← stdNum false 0 23 value;
  value ← skip_prefix value (bs ":");
  '(min, value) ← stdNum true 0 59 value;
  value ← skip_prefix value (bs ":");
  '(sec, value) ← stdNum true 0 59 value;
  let '(nsec, value) := stdFracSecond9 value in
  '(off, value) ← stdISO8601ColonTZ value;
  match value with
  | [] =>
      if in_bounds 1 (daysIn month year) day
      then Some (Date year month day hour min sec nsec - off * Second)
      else None
  | _ => None
  end.
