(* ===== verification/TimeText.v ===== *)
(** How Go's package [time] writes an instant: [Time.AppendFormat] at
    [RFC3339Nano], and [Time.MarshalJSON] and [Time.UnmarshalJSON], which the
    stored cursors go through.  GoTime.v has the parser; here the two are shown to
    be inverse to one another. *)
From S2P Require Import Prelude GoTime.
Open Scope Z_scope.

(** * The date of a day *)

(** [absDate], the year: cycles of 400, 100, 4 and 1 years are cut off in turn.
    [days] counts from 0001-01-01; the result is the year and the day in it. *)
Definition absYear (days : Z) : Z * Z :=
  let n400 := days / 146097 in
  let d := days - 146097 * n400 in
  let n100 := d / 36524 in
  let n100 := n100 - n100 / 4 in
  let d := d - 36524 * n100 in
  let n4 := d / 1461 in
  let d := d - 1461 * n4 in
  let n1 := d / 365 in
  let n1 := n1 - n1 / 4 in
  (400 * n400 + 100 * n100 + 4 * n4 + n1 + 1, d - 365 * n1).

(** The table [daysBefore] of a year that is not a leap year, from 0. *)
Definition daysBefore : list Z := [0; 31; 59; 90; 120; 151; 181; 212; 243; 273; 304; 334; 365].

(** [absDate], the month and the day in it. *)
Definition absMonthDay (leap : bool) (yday : Z) : Z * Z :=
  if leap && (yday =? 31 + 29 - 1) then (2, 29)
  else
    let day := if leap && (31 + 29 - 1 <? yday) then yday - 1 else yday in
    let month := day / 31 in
    let end_ := nth (Z.to_nat (month + 1)) daysBefore 0 in
    let '(month, begin) :=
      if end_ <=? day then (month + 1, end_) else (month, nth (Z.to_nat month) daysBefore 0) in
    (month + 1, day - begin + 1).

Definition absDate (days : Z) : Z * Z * Z :=
  let '(year, yday) := absYear days in
  let '(month, day) := absMonthDay (isLeap year) yday in
  (year, month, day).

(** * Digits *)

Definition digit_byte (d : Z) : byte := default x30 (Byte.of_N (Z.to_N (48 + d))).

(** [appendInt(b, x, width)] for [x] that has no more digits than [width]. *)
Fixpoint pad (width : nat) (x : Z) : bytes :=
  match width with
  | O => []
  | S w => pad w (x / 10) ++ [digit_byte (x `mod` 10)]
  end.

(** [appendNano] leaves out trailing zeros. *)
Fixpoint trim_zeros (ds : bytes) : bytes :=
  match ds with
  | [] => []
  | d :: ds' =>
      match trim_zeros ds' with
      | [] => if decide (d = x30) then [] else [d]
      | ds'' => d :: ds''
      end
  end.

Definition appendNano (nsec : Z) : bytes :=
  match trim_zeros (pad 9 nsec) with [] => [] | ds => x2e :: ds end.

(** [off] is the zone of the instant, in minutes east of UTC. *)
Definition appendZone (off : Z) : bytes :=
  if off =? 0 then bs "Z"
  else (if off <? 0 then x2d else x2b) :: pad 2 (Z.abs off / 60) ++ bs ":" ++ pad 2 (Z.abs off `mod` 60).

(** [Time.AppendFormat(RFC3339Nano)], for years of four digits. *)
Definition AppendFormat_RFC3339Nano (t off : Z) : bytes :=
  let abs := t + off * Minute in
  let '(year, month, day) := absDate (abs / (24 * Hour)) in
  let clock := abs `mod` (24 * Hour) in
  pad 4 year ++ bs "-" ++ pad 2 month ++ bs "-" ++ pad 2 day ++ bs "T" ++
  pad 2 (clock / Hour) ++ bs ":" ++ pad 2 (clock `mod` Hour / Minute) ++ bs ":" ++
  pad 2 (clock `mod` Minute / Second) ++ appendNano (clock `mod` Second) ++ appendZone off.

(** * JSON *)

(** The instants [MarshalJSON] writes: those whose year has four digits and
    whose zone is less than a day. *)
Definition marshalable (t off : Z) : bool :=
  in_bounds 0 9999 (absDate ((t + off * Minute) / (24 * Hour))).1.1 && (Z.abs off <? 24 * 60).

Definition Time_MarshalJSON (t off : Z) : option bytes :=
  if marshalable t off then Some (byte_quote :: AppendFormat_RFC3339Nano t off ++ [byte_quote])
  else None.

(** [UnmarshalJSON] on a [Time] that holds [t]. *)
Definition Time_UnmarshalJSON (t : Z) (data : bytes) : option Z :=
  if decide (data = bs "null") then Some t
  else
    match data with
    | b :: data' =>
        if decide (b = byte_quote ∧ data' ≠ [] ∧ last data' = Some byte_quote)
        then Parse_RFC3339Nano (take (length data' - 1) data') else None
    | [] => None
    end.

(** * The calendar *)

(** A year by its place in the cycles of 400, 100, 4 and 1 years. *)
Lemma year_in_cycles a b c e :
  0 ≤ b ≤ 3 → 0 ≤ c ≤ 24 → 0 ≤ e ≤ 3 →
  let year := 400 * a + 100 * b + 4 * c + e + 1 in
  daysBeforeYear year = 146097 * a + 36524 * b + 1461 * c + 365 * e ∧
  isLeap year = (e =? 3) && (negb (c =? 24) || (b =? 3)).
Proof.
  intros Hb Hc He year. split.
  - unfold daysBeforeYear.
    rewrite <- (Z.div_unique (year - 1) 4 (100 * a + 25 * b + c) e) by lia.
    rewrite <- (Z.div_unique (year - 1) 100 (4 * a + b) (4 * c + e)) by lia.
    rewrite <- (Z.div_unique (year - 1) 400 a (100 * b + 4 * c + e)) by lia. lia.
  - unfold isLeap.
    assert ((year `mod` 4 =? 0) = (e =? 3)) as ->.
    { apply Z.b2z_inj. zcases; simpl; Z.to_euclidean_division_equations; lia. }
    assert ((year `mod` 100 =? 0) = (e =? 3) && (c =? 24)) as ->.
    { zcases; simpl; Z.to_euclidean_division_equations; lia. }
    assert ((year `mod` 400 =? 0) = (e =? 3) && (c =? 24) && (b =? 3)) as ->.
    { zcases; simpl; Z.to_euclidean_division_equations; lia. }
    by destruct (e =? 3), (c =? 24), (b =? 3).
Qed.

Lemma cut_quarter n : 0 ≤ n ≤ 4 → n - n / 4 = Z.min n 3.
Proof. intros. Z.to_euclidean_division_equations. lia. Qed.

Lemma absYear_spec days year yday :
  absYear days = (year, yday) →
  daysBeforeYear year + yday = days ∧ 0 ≤ yday ≤ 364 + (if isLeap year then 1 else 0).
Proof.
  unfold absYear.
  pose proof (Z.div_mod days 146097 ltac:(lia)) as Ha.
  pose proof (Z.mod_pos_bound days 146097 ltac:(lia)).
  set (a := days / 146097) in *. set (d1 := days - 146097 * a).
  pose proof (Z.div_mod d1 36524 ltac:(lia)). pose proof (Z.mod_pos_bound d1 36524 ltac:(lia)).
  rewrite (cut_quarter (d1 / 36524)) by lia.
  set (b := Z.min (d1 / 36524) 3). set (d2 := d1 - 36524 * b).
  pose proof (Z.div_mod d2 1461 ltac:(lia)). pose proof (Z.mod_pos_bound d2 1461 ltac:(lia)).
  set (c := d2 / 1461) in *. set (d3 := d2 - 1461 * c).
  pose proof (Z.div_mod d3 365 ltac:(lia)). pose proof (Z.mod_pos_bound d3 365 ltac:(lia)).
  rewrite (cut_quarter (d3 / 365)) by lia. set (e := Z.min (d3 / 365) 3).
  intros [= <- <-]. destruct (year_in_cycles a b c e) as [-> ->]; [lia..|].
  split; [lia|]. split; [lia|]. zcases; simpl; lia.
Qed.

(** Months depend on the year only by its length. *)
Definition sample_year (leap : bool) : Z := if leap then 2000 else 2001.

Lemma daysIn_leap month year : daysIn month year = daysIn month (sample_year (isLeap year)).
Proof. unfold daysIn, sample_year. by destruct (isLeap year). Qed.

Lemma daysBeforeMonth_leap month year :
  daysBeforeMonth month year = daysBeforeMonth month (sample_year (isLeap year)).
Proof.
  unfold daysBeforeMonth. induction (seq _ _) as [|m l IH]; [done|]. simpl.
  by rewrite IH, daysIn_leap.
Qed.

Definition month_day_ok (leap : bool) (yday : Z) : bool :=
  let '(month, day) := absMonthDay leap yday in
  let year := sample_year leap in
  (daysBeforeMonth month year + (day - 1) =? yday) &&
  in_bounds 1 12 month && in_bounds 1 (daysIn month year) day.

Lemma month_days_ok leap yday :
  0 ≤ yday ≤ 364 + (if leap : bool then 1 else 0) → month_day_ok leap yday = true.
Proof.
  intros Hd.
  assert (Hall : forallb (λ n, month_day_ok leap (Z.of_nat n)) (seq 0 (if leap then 366 else 365)) = true).
  { destruct leap; vm_compute; reflexivity. }
  rewrite forallb_forall in Hall. specialize (Hall (Z.to_nat yday)).
  rewrite Z2Nat.id in Hall by lia. apply Hall, in_seq. destruct leap; lia.
Qed.

(** The date of a day is that day's date. *)
Lemma absDate_spec days year month day :
  absDate days = (year, month, day) →
  daysBeforeYear year + daysBeforeMonth month year + (day - 1) = days ∧
  1 ≤ month ≤ 12 ∧ 1 ≤ day ≤ daysIn month year.
Proof.
  unfold absDate. destruct (absYear days) as [y yday] eqn:Hy.
  destruct (absMonthDay (isLeap y) yday) as [m d] eqn:Hm. intros [= <- <- <-].
  apply absYear_spec in Hy as [Hy Hr]. pose proof (month_days_ok _ _ Hr) as Hok.
  unfold month_day_ok in Hok. rewrite Hm in Hok.
  rewrite daysBeforeMonth_leap, (daysIn_leap m). unfold in_bounds in Hok. lia.
Qed.

(** [time.Date] of the fields of an instant is the instant. *)
Lemma Date_of_fields t year month day :
  absDate (t / (24 * Hour)) = (year, month, day) →
  let clock := t `mod` (24 * Hour) in
  Date year month day (clock / Hour) (clock `mod` Hour / Minute) (clock `mod` Minute / Second)
    (clock `mod` Second) = t.
Proof.
  intros Hd clock. apply absDate_spec in Hd as [Hd _]. unfold Date. rewrite Hd.
  unfold clock, Hour, Minute, Second. Z.to_euclidean_division_equations. lia.
Qed.

(** * Digits are read back *)

Lemma digit_cases d : 0 ≤ d ≤ 9 → d ∈ [0; 1; 2; 3; 4; 5; 6; 7; 8; 9].
Proof.
  intros. assert (d = 0 ∨ d = 1 ∨ d = 2 ∨ d = 3 ∨ d = 4 ∨ d = 5 ∨ d = 6 ∨ d = 7 ∨ d = 8 ∨ d = 9) by lia.
  set_solver.
Qed.

Lemma digit_byte_ok d : 0 ≤ d ≤ 9 → isDigit (digit_byte d) = true ∧ digit (digit_byte d) = d.
Proof.
  intros Hd. apply digit_cases in Hd.
  assert (Hall : Forall (λ d, isDigit (digit_byte d) = true ∧ digit (digit_byte d) = d)
    [0; 1; 2; 3; 4; 5; 6; 7; 8; 9]) by (repeat constructor).
  by rewrite Forall_forall in Hall; apply Hall.
Qed.

Lemma mod10_digit x : isDigit (digit_byte (x `mod` 10)) = true ∧ digit (digit_byte (x `mod` 10)) = x `mod` 10.
Proof. apply digit_byte_ok. pose proof (Z.mod_pos_bound x 10). lia. Qed.

Lemma pad_digits w x : Forall (λ b, isDigit b = true) (pad w x).
Proof.
  revert x. induction w as [|w IH]; intros x; simpl; [done|].
  apply Forall_app; split; [done|]. repeat constructor. apply mod10_digit.
Qed.

Lemma pad_length w x : length (pad w x) = w.
Proof. revert x. induction w as [|w IH]; intros x; simpl; [done|]. rewrite length_app, IH. simpl. lia. Qed.

Lemma digits_value_snoc ds d : digits_value (ds ++ [d]) = digits_value ds * 10 + digit d.
Proof. unfold digits_value. by rewrite foldl_app. Qed.

Lemma digits_value_pad w x : 0 ≤ x < 10 ^ Z.of_nat w → digits_value (pad w x) = x.
Proof.
  revert x. induction w as [|w IH]; intros x Hx; [simpl in *; unfold digits_value; simpl; lia|].
  cbn [pad].
  rewrite digits_value_snoc, IH, (proj2 (mod10_digit x)).
  - pose proof (Z.div_mod x 10). lia.
  - rewrite Nat2Z.inj_succ, Z.pow_succ_r in Hx by lia. Z.to_euclidean_division_equations. lia.
Qed.

Lemma span_digits_app ds r :
  Forall (λ b, isDigit b = true) ds → (∀ b r', r = b :: r' → isDigit b = false) →
  span_digits (ds ++ r) = (ds, r).
Proof.
  intros Hds Hr. induction Hds as [|d ds Hd Hds IH]; simpl.
  - destruct r as [|b r]; [done|]. simpl. by rewrite (Hr b r).
  - by rewrite Hd, IH.
Qed.

Lemma atoi_pad w x : (0 < w)%nat → 0 ≤ x < 10 ^ Z.of_nat w → atoi (pad w x) = Some x.
Proof.
  intros Hw Hx. unfold atoi. rewrite <- (app_nil_r (pad w x)), span_digits_app; [|apply pad_digits|done].
  rewrite app_nil_r. pose proof (digits_value_pad w x Hx) as Hv.
  destruct (pad w x) eqn:Hp; [|by f_equal]. apply (f_equal length) in Hp. rewrite pad_length in Hp. simpl in Hp. lia.
Qed.

Lemma getnum_pad n r fixed : 0 ≤ n ≤ 99 → getnum (pad 2 n ++ r) fixed = Some (n, r).
Proof.
  intros Hn. cbn -[Z.div Z.modulo]. destruct (mod10_digit n) as [-> ->].
  destruct (mod10_digit (n / 10)) as [-> ->]. f_equal. f_equal.
  Z.to_euclidean_division_equations. lia.
Qed.

Lemma stdNum_pad n r fixed lo hi :
  0 ≤ lo → hi ≤ 99 → lo ≤ n ≤ hi → stdNum fixed lo hi (pad 2 n ++ r) = Some (n, r).
Proof.
  intros. unfold stdNum. rewrite getnum_pad by lia. simpl. unfold in_bounds.
  by rewrite (proj2 (Z.leb_le _ _)), (proj2 (Z.leb_le _ _)) by lia.
Qed.

Lemma stdLongYear_pad y r : 0 ≤ y ≤ 9999 → stdLongYear (pad 4 y ++ r) = Some (y, r).
Proof.
  intros Hy. pose proof (atoi_pad 4 y ltac:(lia) ltac:(simpl; lia)) as Ha.
  pose proof (pad_digits 4 y) as Hd. pose proof (pad_length 4 y) as Hl.
  destruct (pad 4 y) as [|a [|b [|c [|d [|]]]]]; try done. simpl.
  inversion Hd as [|? ? H1]. by rewrite H1, Ha.
Qed.

(** ** The fraction *)

Lemma trim_zeros_spec ds : ∃ k, ds = trim_zeros ds ++ replicate k x30.
Proof.
  induction ds as [|d ds [k IH]]; simpl; [by exists 0%nat|].
  destruct (trim_zeros ds) as [|t ts] eqn:Ht; simpl in IH.
  - case_decide as Hd; [exists (S k); subst; simpl; by f_equal|exists k; simpl; by f_equal].
  - exists k. simpl. by f_equal.
Qed.

Lemma digits_value_zeros ds k : digits_value (ds ++ replicate k x30) = digits_value ds * 10 ^ Z.of_nat k.
Proof.
  induction k as [|k IH]; [by rewrite app_nil_r, Z.mul_1_r|].
  rewrite replicate_S_end, app_assoc, digits_value_snoc, IH, Nat2Z.inj_succ, Z.pow_succ_r by lia.
  change (digit x30) with 0. lia.
Qed.

Lemma parseNanoseconds_trim nsec :
  0 ≤ nsec < Second → parseNanoseconds (trim_zeros (pad 9 nsec)) = nsec.
Proof.
  intros Hn. destruct (trim_zeros_spec (pad 9 nsec)) as [k Hk].
  pose proof (digits_value_pad 9 nsec ltac:(unfold Second in Hn; simpl; lia)) as Hv.
  pose proof (pad_length 9 nsec) as Hl. rewrite Hk, length_app, length_replicate in Hl.
  rewrite Hk, digits_value_zeros in Hv. unfold parseNanoseconds.
  rewrite take_ge by lia. etrans; [|exact Hv]. do 2 f_equal. lia.
Qed.

(** What follows the fraction starts neither with a digit nor with a point. *)
Lemma appendZone_start off :
  ∃ b r, appendZone off = b :: r ∧ isDigit b = false ∧ commaOrPeriod b = false.
Proof. unfold appendZone. repeat case_match; eexists _, _; done. Qed.

Lemma stdFracSecond9_append nsec off :
  0 ≤ nsec < Second → stdFracSecond9 (appendNano nsec ++ appendZone off) = (nsec, appendZone off).
Proof.
  intros Hn. pose proof (parseNanoseconds_trim nsec Hn) as Hp.
  destruct (trim_zeros_spec (pad 9 nsec)) as [k Hk]. pose proof (pad_digits 9 nsec) as Hd.
  rewrite Hk in Hd. apply Forall_app in Hd as [Hd _].
  destruct (appendZone_start off) as (b & r & Hz & Hb & Hc). unfold appendNano.
  destruct (trim_zeros (pad 9 nsec)) as [|d ds] eqn:Ht.
  - rewrite Hz. simpl. unfold stdFracSecond9. rewrite Hc. unfold parseNanoseconds in Hp.
    simpl in Hp. subst. by destruct r.
  - cbn [app]. unfold stdFracSecond9. inversion Hd as [|? ? H1]. rewrite H1.
    change (commaOrPeriod x2e) with true. cbn [andb tail].
    change (d :: ds ++ appendZone off) with ((d :: ds) ++ appendZone off).
    rewrite span_digits_app; [by rewrite Hp|done|]. intros ? ? Heq. rewrite Hz in Heq. by injection Heq as <- <-.
Qed.

Lemma stdISO8601ColonTZ_append off :
  Z.abs off < 24 * 60 → stdISO8601ColonTZ (appendZone off) = Some (off * 60, []).
Proof.
  intros Hoff. unfold appendZone. destruct (Z.eqb_spec off 0) as [->|Hne]; [done|].
  assert (Hh : 0 ≤ Z.abs off / 60 ≤ 23) by (Z.to_euclidean_division_equations; lia).
  assert (Hm : 0 ≤ Z.abs off `mod` 60 ≤ 59) by (Z.to_euclidean_division_equations; lia).
  pose proof (getnum_pad (Z.abs off / 60) [] true ltac:(lia)) as H1.
  pose proof (getnum_pad (Z.abs off `mod` 60) [] true ltac:(lia)) as H2.
  pose proof (pad_length 2 (Z.abs off / 60)) as L1. pose proof (pad_length 2 (Z.abs off `mod` 60)) as L2.
  destruct (pad 2 (Z.abs off / 60)) as [|h1 [|h2 [|]]]; try done.
  destruct (pad 2 (Z.abs off `mod` 60)) as [|m1 [|m2 [|]]]; try done.
  rewrite !app_nil_r in *. pose proof (Z.div_mod (Z.abs off) 60 ltac:(lia)).
  change (bs ":") with [x3a].
  destruct (Z.ltb_spec off 0); cbn [app stdISO8601ColonTZ];
    rewrite decide_True by done; rewrite H1; cbn [mbind option_bind]; rewrite H2;
    cbn [mbind option_bind]; rewrite (proj2 (Z.ltb_ge _ _)), (proj2 (Z.ltb_ge _ _)) by lia;
    cbn [orb]; [rewrite decide_False, decide_True by done|rewrite decide_True by done];
    do 2 f_equal; lia.
Qed.

(** ** The whole *)

Lemma skip_prefix_app p r : skip_prefix (p ++ r) p = Some r.
Proof. induction p as [|b p IH]; [by destruct r|]. simpl. by rewrite decide_True. Qed.

(** [Parse] reads back what [AppendFormat] writes, in whatever zone. *)
Lemma parse_format t off :
  marshalable t off = true → Parse_RFC3339Nano (AppendFormat_RFC3339Nano t off) = Some t.
Proof.
  unfold marshalable, AppendFormat_RFC3339Nano.
  destruct (absDate _) as [[year month] day] eqn:Hd. cbn [fst]. unfold in_bounds. intros Hok.
  pose proof (Date_of_fields _ _ _ _ Hd) as Hdate. cbv zeta in Hdate.
  apply absDate_spec in Hd as (_ & Hmonth & Hday).
  pose proof (Z.mod_pos_bound (t + off * Minute) (24 * Hour) ltac:(done)) as Hclock.
  set (clock := (t + off * Minute) `mod` (24 * Hour)) in *.
  assert (Hh : 0 ≤ clock / Hour ≤ 23) by (unfold Hour, Minute, Second in *; Z.to_euclidean_division_equations; lia).
  assert (Hm : 0 ≤ clock `mod` Hour / Minute ≤ 59) by (unfold Hour, Minute, Second in *; Z.to_euclidean_division_equations; lia).
  assert (Hs : 0 ≤ clock `mod` Minute / Second ≤ 59) by (unfold Minute, Second in *; Z.to_euclidean_division_equations; lia).
  pose proof (Z.mod_pos_bound clock Second ltac:(done)) as Hns.
  assert (Hday31 : day ≤ 31).
  { destruct Hday as [_ Hday]. etrans; [exact Hday|]. unfold daysIn. by repeat case_match. }
  unfold Parse_RFC3339Nano. rewrite stdLongYear_pad by lia. cbn [mbind option_bind].
  repeat (rewrite skip_prefix_app; cbn [mbind option_bind];
    first [rewrite stdNum_pad by lia | rewrite getnum_pad by lia]; cbn [mbind option_bind]).
  rewrite stdFracSecond9_append by done. rewrite stdISO8601ColonTZ_append by lia.
  cbn [mbind option_bind]. unfold in_bounds.
  rewrite (proj2 (Z.leb_le 1 day)), (proj2 (Z.leb_le day _)) by lia. cbn [andb].
  rewrite Hdate. f_equal. unfold Minute. lia.
Qed.

(** Nothing but digits and marks is written. *)
Lemma format_bytes (P : byte → Prop) t off :
  (∀ b, isDigit b = true → P b) → Forall P (bs "-:T.Z+") →
  Forall P (AppendFormat_RFC3339Nano t off).
Proof.
  intros Hd Hm. change (bs "-:T.Z+") with [x2d; x3a; x54; x2e; x5a; x2b] in Hm.
  rewrite !Forall_cons in Hm. destruct Hm as (? & ? & ? & ? & ? & ? & _).
  assert (Hp : ∀ w x, Forall P (pad w x)).
  { intros w x. eapply Forall_impl; [apply pad_digits|done]. }
  unfold AppendFormat_RFC3339Nano. destruct (absDate _) as [[y mo] d].
  assert (Hn : ∀ n, Forall P (appendNano n)).
  { intros n. unfold appendNano. destruct (trim_zeros_spec (pad 9 n)) as [k Hk].
    pose proof (Hp 9%nat n) as Hnine. rewrite Hk in Hnine. apply Forall_app in Hnine as [Hnine _].
    destruct (trim_zeros (pad 9 n)); [done|]. by constructor. }
  assert (Hz : Forall P (appendZone off)).
  { unfold appendZone. destruct (off =? 0); [by repeat constructor|].
    constructor; [by destruct (off <? 0)|]. rewrite !Forall_app. split_and!; auto; by repeat constructor. }
  rewrite !Forall_app. split_and!; auto; by repeat constructor.
Qed.

Lemma Time_json_roundtrip t t0 off raw :
  Time_MarshalJSON t off = Some raw → Time_UnmarshalJSON t0 raw = Some t.
Proof.
  unfold Time_MarshalJSON. destruct (marshalable t off) eqn:Hm; [|done]. intros [= <-].
  unfold Time_UnmarshalJSON. rewrite decide_False by done. rewrite decide_True.
  - rewrite length_app. simpl. rewrite take_app_length' by lia. by apply parse_format.
  - split_and!; [done|by destruct (AppendFormat_RFC3339Nano t off)|by rewrite last_snoc].
Qed.

Example format_sample :
  AppendFormat_RFC3339Nano (Date 2026 8 14 10 0 1 200000000) 0 = bs "2026-08-14T10:00:01.2Z" ∧
  AppendFormat_RFC3339Nano (Date 2024 2 29 23 30 0 0) 90 = bs "2024-03-01T01:00:00+01:30".
Proof. split; vm_compute; reflexivity. Qed.
