(* ===== verification/Json.v ===== *)
(** The part of Go's package [encoding/json] the stored cursors go through: the
    scanner that delimits values, the text of strings and numbers, and the writing
    of an object.  Nothing here knows about cursors; CursorJson.v does.

    Like Go's decoder, the model hands a value on as the bytes it occupies, and
    the code that decodes it scans them again. *)
From S2P Require Import Prelude GoTime TimeText.
Open Scope Z_scope.

Definition byte_backslash : byte := x5c.

(** * Scanning *)

Definition isSpace (b : byte) : bool := bool_decide (b = x20 ∨ b = x09 ∨ b = x0d ∨ b = x0a).

Fixpoint skip_ws (s : bytes) : bytes :=
  match s with
  | b :: s' => if isSpace b then skip_ws s' else s
  | [] => []
  end.

Definition isHex (b : byte) : bool :=
  isDigit b || in_bounds 97 102 (byte_val b) || in_bounds 65 70 (byte_val b).

(** The characters that may follow a backslash, [u] apart. *)
Definition simple_escape (b : byte) : option byte :=
  if decide (b = x62) then Some x08        (* \b *)
  else if decide (b = x66) then Some x0c   (* \f *)
  else if decide (b = x6e) then Some x0a   (* \n *)
  else if decide (b = x72) then Some x0d   (* \r *)
  else if decide (b = x74) then Some x09   (* \t *)
  else if decide (b = x5c ∨ b = x2f ∨ b = x22) then Some b
  else None.

Definition push (p : bytes) (r : option (bytes * bytes)) : option (bytes * bytes) :=
  '(raw, rest) ← r; Some (p ++ raw, rest).

(** A string, from behind its opening quote: the bytes before the closing one,
    and what follows it. *)
Fixpoint lex_string (s : bytes) : option (bytes * bytes) :=
  match s with
  | [] => None
  | b :: s' =>
      if decide (b = byte_quote) then Some ([], s')
      else if decide (b = byte_backslash) then
        match s' with
        | e :: s'' =>
            if decide (e = x75) then
              match s'' with
              | h1 :: h2 :: h3 :: h4 :: s3 =>
                  if isHex h1 && isHex h2 && isHex h3 && isHex h4
                  then push [b; e; h1; h2; h3; h4] (lex_string s3) else None
              | _ => None
              end
            else
              match simple_escape e with
              | Some _ => push [b; e] (lex_string s'')
              | None => None
              end
        | [] => None
        end
      else if byte_val b <? 32 then None
      else push [b] (lex_string s')
  end.

(** A number: the states [stateNeg] to [stateE0] of the scanner. *)
Definition scan_digits1 (s : bytes) : option bytes :=
  match span_digits s with ([], _) => None | (_, rest) => Some rest end.

Definition scan_int (s : bytes) : option bytes :=
  match s with
  | b :: s' => if decide (b = x30) then Some s' else scan_digits1 s
  | [] => None
  end.

Definition scan_frac (s : bytes) : option bytes :=
  match s with
  | b :: s' => if decide (b = x2e) then scan_digits1 s' else Some s
  | [] => Some s
  end.

Definition scan_exp (s : bytes) : option bytes :=
  match s with
  | b :: s' =>
      if decide (b = x65 ∨ b = x45) then
        match s' with
        | sign :: s'' => if decide (sign = x2b ∨ sign = x2d) then scan_digits1 s'' else scan_digits1 s'
        | [] => None
        end
      else Some s
  | [] => Some s
  end.

Definition scan_number (s : bytes) : option bytes :=
  let s := match s with b :: s' => if decide (b = x2d) then s' else s | [] => s end in
  s ← scan_int s; s ← scan_frac s; scan_exp s.

(** What follows an opening bracket: the closing one, or the first element. *)
Definition opened {A} (close : byte) (elements : bytes → option (list A * bytes)) (s : bytes)
    : option (list A * bytes) :=
  match skip_ws s with
  | b :: s' => if decide (b = close) then Some ([], s') else elements (b :: s')
  | [] => None
  end.

(** The bytes of [s] before [rest]. *)
Definition before (s rest : bytes) : bytes := take (length s - length rest) s.

(** A value: what follows it.  [depth] is how many more brackets may be opened.
    The elements of an array and the members of an object (the raw keys and
    values) are collected; the caller of a nested one ignores them. *)
Fixpoint scan_value (fuel : nat) (depth : Z) (s : bytes) : option bytes :=
  match fuel with
  | O => None
  | S fuel =>
      match s with
      | [] => None
      | b :: s' =>
          if decide (b = byte_quote) then snd <$> lex_string s'
          else if decide (b = x7b) then
            if depth <=? 0 then None else snd <$> opened x7d (scan_members fuel (depth - 1)) s'
          else if decide (b = x5b) then
            if depth <=? 0 then None else snd <$> opened x5d (scan_elements fuel (depth - 1)) s'
          else if decide (b = x74) then skip_prefix s (bs "true")
          else if decide (b = x66) then skip_prefix s (bs "false")
          else if decide (b = x6e) then skip_prefix s (bs "null")
          else scan_number s
      end
  end
with scan_members (fuel : nat) (depth : Z) (s : bytes) : option (list (bytes * bytes) * bytes) :=
  match fuel with
  | O => None
  | S fuel =>
      match skip_ws s with
      | q :: s1 =>
          if decide (q = byte_quote) then
            '(key, s2) ← lex_string s1;
            match skip_ws s2 with
            | c :: s3 =>
                if decide (c = x3a) then
                  let v := skip_ws s3 in
                  s4 ← scan_value fuel depth v;
                  match skip_ws s4 with
                  | d :: s5 =>
                      if decide (d = x2c) then
                        '(ms, rest) ← scan_members fuel depth s5;
                        Some ((key, before v s4) :: ms, rest)
                      else if decide (d = x7d) then Some ([(key, before v s4)], s5)
                      else None
                  | [] => None
                  end
                else None
            | [] => None
            end
          else None
      | [] => None
      end
  end
with scan_elements (fuel : nat) (depth : Z) (s : bytes) : option (list bytes * bytes) :=
  match fuel with
  | O => None
  | S fuel =>
      let v := skip_ws s in
      s4 ← scan_value fuel depth v;
      match skip_ws s4 with
      | d :: s5 =>
          if decide (d = x2c) then
            '(vs, rest) ← scan_elements fuel depth s5; Some (before v s4 :: vs, rest)
          else if decide (d = x5d) then Some ([before v s4], s5)
          else None
      | [] => None
      end
  end.

Definition maxNestingDepth : Z := 10000.

(** Fuel that no text of this length uses up: [scan_fuel]. *)
Definition scan_fuel_for (s : bytes) : nat := (2 * length s + 1)%nat.

(** A whole text: the one value in it. *)
Definition document (s : bytes) : option bytes :=
  let v := skip_ws s in
  rest ← scan_value (scan_fuel_for v) maxNestingDepth v;
  if decide (skip_ws rest = []) then Some (before v rest) else None.

(** The members of an object, in order; [Some None] is the literal null. *)
Definition object_of (s : bytes) : option (option (list (bytes * bytes))) :=
  v ← document s;
  if decide (v = bs "null") then Some None
  else
    match v with
    | b :: v' =>
        if decide (b = x7b) then
          '(ms, _) ← opened x7d (scan_members (scan_fuel_for v) (maxNestingDepth - 1)) v'; Some (Some ms)
        else None
    | [] => None
    end.

(** * UTF-8 *)

Definition in_byte (lo hi : Z) (b : byte) : bool := in_bounds lo hi (byte_val b).

(** [utf8.DecodeRune]: the length of the well-formed character at the front of a
    string; [None] is [RuneError] for a string that is not well-formed there. *)
Definition rune_len (s : bytes) : option nat :=
  match s with
  | [] => None
  | a :: s' =>
      if byte_val a <? 128 then Some 1%nat
      else if in_byte 194 223 a then
        match s' with b :: _ => if in_byte 128 191 b then Some 2%nat else None | _ => None end
      else if in_byte 224 239 a then
        let lo := if byte_val a =? 224 then 160 else 128 in
        let hi := if byte_val a =? 237 then 159 else 191 in
        match s' with
        | b :: c :: _ => if in_byte lo hi b && in_byte 128 191 c then Some 3%nat else None
        | _ => None
        end
      else if in_byte 240 244 a then
        let lo := if byte_val a =? 240 then 144 else 128 in
        let hi := if byte_val a =? 244 then 143 else 191 in
        match s' with
        | b :: c :: d :: _ =>
            if in_byte lo hi b && in_byte 128 191 c && in_byte 128 191 d then Some 4%nat else None
        | _ => None
        end
      else None
  end.

Definition byte_of (z : Z) : byte := default x00 (Byte.of_N (Z.to_N z)).

(** [utf8.AppendRune] *)
Definition append_rune (r : Z) : bytes :=
  if r <? 128 then [byte_of r]
  else if r <? 2048 then [byte_of (192 + r / 64); byte_of (128 + r `mod` 64)]
  else if r <? 65536 then
    [byte_of (224 + r / 4096); byte_of (128 + r / 64 `mod` 64); byte_of (128 + r `mod` 64)]
  else
    [byte_of (240 + r / 262144); byte_of (128 + r / 4096 `mod` 64);
     byte_of (128 + r / 64 `mod` 64); byte_of (128 + r `mod` 64)].

Definition RuneError : Z := 65533.

(** * Reading a string *)

Definition hex_val (b : byte) : Z :=
  if isDigit b then digit b else if 97 <=? byte_val b then byte_val b - 87 else byte_val b - 55.

(** [getu4] *)
Definition getu4 (s : bytes) : option Z :=
  match s with
  | b :: u :: h1 :: h2 :: h3 :: h4 :: _ =>
      if decide (b = byte_backslash ∧ u = x75) then
        if isHex h1 && isHex h2 && isHex h3 && isHex h4
        then Some (((hex_val h1 * 16 + hex_val h2) * 16 + hex_val h3) * 16 + hex_val h4)
        else None
      else None
  | _ => None
  end.

Definition isSurrogate (r : Z) : bool := in_bounds 55296 57343 r.

(** [utf16.DecodeRune]; [None] is the replacement character. *)
Definition decode_pair (r1 r2 : Z) : option Z :=
  if in_bounds 55296 56319 r1 && in_bounds 56320 57343 r2
  then Some ((r1 - 55296) * 1024 + (r2 - 56320) + 65536) else None.

(** [unquote], on the bytes between the quotes. *)
Fixpoint unquote_loop (fuel : nat) (s : bytes) : option bytes :=
  match fuel with
  | O => None
  | S fuel =>
      match s with
      | [] => Some []
      | b :: s' =>
          if decide (b = byte_backslash) then
            match s' with
            | [] => None
            | e :: s'' =>
                if decide (e = x75) then
                  rr ← getu4 s;
                  let '(rr, rest) :=
                    if isSurrogate rr then
                      match getu4 (drop 6 s) with
                      | Some rr1 =>
                          match decode_pair rr rr1 with
                          | Some dec => (dec, drop 12 s)
                          | None => (RuneError, drop 6 s)
                          end
                      | None => (RuneError, drop 6 s)
                      end
                    else (rr, drop 6 s) in
                  app (append_rune rr) <$> unquote_loop fuel rest
                else
                  c ← simple_escape e; app [c] <$> unquote_loop fuel s''
            end
          else if decide (b = byte_quote) then None
          else if byte_val b <? 32 then None
          else
            match rune_len s with
            | Some n => app (take n s) <$> unquote_loop fuel (drop n s)
            | None => app (append_rune RuneError) <$> unquote_loop fuel s'
            end
      end
  end.

Definition unquote (s : bytes) : option bytes := unquote_loop (S (length s)) s.

(** * Writing a string *)

Definition hex_digit (d : Z) : byte := if d <? 10 then byte_of (48 + d) else byte_of (87 + d).

(** The ASCII characters [appendString] does not copy, with [escapeHTML] set. *)
Definition escape_ascii (b : byte) : bytes :=
  if decide (b = x5c ∨ b = x22) then [x5c; b]
  else if decide (b = x08) then bs "\b"
  else if decide (b = x0c) then bs "\f"
  else if decide (b = x0a) then bs "\n"
  else if decide (b = x0d) then bs "\r"
  else if decide (b = x09) then bs "\t"
  else if (byte_val b <? 32) || bool_decide (b = x3c ∨ b = x3e ∨ b = x26)
  then bs "\u00" ++ [hex_digit (byte_val b / 16); hex_digit (byte_val b `mod` 16)]
  else [b].

Fixpoint escape_loop (fuel : nat) (s : bytes) : bytes :=
  match fuel with
  | O => []
  | S fuel =>
      match s with
      | [] => []
      | b :: s' =>
          if byte_val b <? 128 then escape_ascii b ++ escape_loop fuel s'
          else
            match rune_len s with
            | None => bs "\ufffd" ++ escape_loop fuel s'
            | Some n =>
                (if decide (take n s = [xe2; x80; xa8]) then bs "\u2028"
                 else if decide (take n s = [xe2; x80; xa9]) then bs "\u2029"
                 else take n s) ++ escape_loop fuel (drop n s)
            end
      end
  end.

(** The bytes [appendString] puts between the quotes. *)
Definition escape (s : bytes) : bytes := escape_loop (length s) s.

(** * Integers *)

(** [strconv.AppendInt(b, x, 10)] for a 64-bit [x]. *)
Fixpoint append_uint (fuel : nat) (x : Z) : bytes :=
  match fuel with
  | O => []
  | S fuel => (if x <? 10 then [] else append_uint fuel (x / 10)) ++ [digit_byte (x `mod` 10)]
  end.

Definition AppendInt (x : Z) : bytes :=
  if x <? 0 then x2d :: append_uint 20 (- x) else append_uint 20 x.

(** [strconv.ParseInt(s, 10, 64)] *)
Definition ParseInt (s : bytes) : option Z :=
  let '(neg, ds) :=
    match s with
    | b :: s' => if decide (b = x2d) then (true, s') else if decide (b = x2b) then (false, s') else (false, s)
    | [] => (false, [])
    end in
  x ← atoi ds;
  let x := if neg : bool then - x else x in
  if in_bounds min_int64 max_int64 x then Some x else None.

(** * Writing an object *)

Definition print_member (m : bytes * bytes) : bytes :=
  byte_quote :: m.1 ++ [byte_quote; x3a] ++ m.2.

Fixpoint print_members (ms : list (bytes * bytes)) : bytes :=
  match ms with
  | [] => []
  | [m] => print_member m
  | m :: ms' => print_member m ++ x2c :: print_members ms'
  end.

Definition print_object (ms : list (bytes * bytes)) : bytes := x7b :: print_members ms ++ [x7d].

(** * The scanner stays within its text *)

Lemma skip_ws_length s : (length (skip_ws s) ≤ length s)%nat.
Proof. induction s as [|b s IH]; simpl; [done|]. destruct (isSpace b); simpl; lia. Qed.

Lemma push_Some p r raw rest :
  push p r = Some (raw, rest) → ∃ raw', r = Some (raw', rest) ∧ raw = p ++ raw'.
Proof. destruct r as [[raw' rest']|]; simpl; [|done]. intros [= <- <-]. by exists raw'. Qed.

Lemma lex_string_length s raw rest :
  lex_string s = Some (raw, rest) → (length rest < length s)%nat.
Proof.
  revert raw. induction s as [s IH] using (induction_ltof1 _ (@length byte)). unfold ltof in IH.
  intros raw. destruct s as [|b s]; [done|]. cbn [lex_string].
  destruct (decide (b = byte_quote)); [intros [= _ <-]; simpl; lia|].
  destruct (decide (b = byte_backslash)).
  - destruct s as [|e' s]; [done|]. destruct (decide (e' = x75)).
    + destruct s as [|h1 [|h2 [|h3 [|h4 s]]]]; try done. destruct (isHex h1 && _ && _ && _); [|done].
      intros (raw' & Hr & _)%push_Some. apply IH in Hr; simpl; lia.
    + destruct (simple_escape e'); [|done].
      intros (raw' & Hr & _)%push_Some. apply IH in Hr; simpl; lia.
  - destruct (byte_val b <? 32); [done|].
    intros (raw' & Hr & _)%push_Some. apply IH in Hr; simpl; lia.
Qed.

Lemma span_digits_length s ds rest :
  span_digits s = (ds, rest) → (length ds + length rest = length s)%nat.
Proof.
  revert ds. induction s as [|b s IH]; intros ds; simpl; [by intros [= <- <-]|].
  destruct (isDigit b); [|by intros [= <- <-]].
  destruct (span_digits s) as [ds' r] eqn:Hs. intros [= <- <-]. simpl. by rewrite (IH ds').
Qed.

Lemma scan_digits1_length s rest : scan_digits1 s = Some rest → (length rest < length s)%nat.
Proof.
  unfold scan_digits1. destruct (span_digits s) as [[|d ds] r] eqn:Hs; [done|].
  intros [= <-]. apply span_digits_length in Hs. simpl in Hs. lia.
Qed.

Lemma scan_int_length s rest : scan_int s = Some rest → (length rest < length s)%nat.
Proof.
  unfold scan_int. destruct s as [|b s]; [done|]. case_decide; [intros [= <-]; simpl; lia|].
  apply scan_digits1_length.
Qed.

Lemma scan_frac_length s rest : scan_frac s = Some rest → (length rest ≤ length s)%nat.
Proof.
  unfold scan_frac. destruct s as [|b s]; [by intros [= <-]|].
  case_decide; [|by intros [= <-]]. intros Hr%scan_digits1_length. simpl. lia.
Qed.

Lemma scan_exp_length s rest : scan_exp s = Some rest → (length rest ≤ length s)%nat.
Proof.
  unfold scan_exp. destruct s as [|b s]; [by intros [= <-]|]. case_decide; [|by intros [= <-]].
  destruct s as [|sign s]; [done|].
  case_decide; intros Hr%scan_digits1_length; simpl in *; lia.
Qed.

Lemma scan_number_length s rest : scan_number s = Some rest → (length rest < length s)%nat.
Proof.
  unfold scan_number. intros (s1 & H1 & (s2 & H2 & H3)%bind_Some)%bind_Some.
  apply scan_int_length in H1. apply scan_frac_length in H2. apply scan_exp_length in H3.
  destruct s as [|b s]; simpl in *; [lia|]. case_decide; simpl in *; lia.
Qed.

Lemma skip_prefix_length s p rest :
  skip_prefix s p = Some rest → (length rest + length p = length s)%nat.
Proof.
  revert s. induction p as [|b p IH]; intros [|c s]; simpl; try done; [by intros [= <-]..|].
  case_decide; [|done]. intros Hr%IH. lia.
Qed.

Lemma opened_length {A} close (f : bytes → option (list A * bytes)) s l rest :
  (∀ s' l' rest', f s' = Some (l', rest') → (length rest' < length s')%nat) →
  opened close f s = Some (l, rest) → (length rest < length s)%nat.
Proof.
  intros Hf. unfold opened. pose proof (skip_ws_length s) as Hw.
  destruct (skip_ws s) as [|b s']; [done|]. simpl in Hw.
  case_decide; [by intros [= _ <-]|]. intros Hr%Hf. simpl in Hr. lia.
Qed.

Lemma scan_lengths fuel :
  (∀ d s rest, scan_value fuel d s = Some rest → (length rest < length s)%nat) ∧
  (∀ d s l rest, scan_members fuel d s = Some (l, rest) → (length rest < length s)%nat) ∧
  (∀ d s l rest, scan_elements fuel d s = Some (l, rest) → (length rest < length s)%nat).
Proof.
  induction fuel as [|fuel (IHv & IHm & IHe)]; [split_and!; done|]. split_and!.
  - intros d [|b s] rest; [done|]. cbn [scan_value].
    repeat case_decide; intros Hr.
    + apply fmap_Some in Hr as ([raw r] & Hr%lex_string_length & ->). simpl. lia.
    + destruct (d <=? 0); [done|]. apply fmap_Some in Hr as ([l r] & Hr & ->).
      apply opened_length in Hr; [simpl; lia|]. intros; by eapply IHm.
    + destruct (d <=? 0); [done|]. apply fmap_Some in Hr as ([l r] & Hr & ->).
      apply opened_length in Hr; [simpl; lia|]. intros; by eapply IHe.
    + apply skip_prefix_length in Hr. simpl in *. lia.
    + apply skip_prefix_length in Hr. simpl in *. lia.
    + apply skip_prefix_length in Hr. simpl in *. lia.
    + by apply scan_number_length in Hr.
  - intros d s l rest. cbn [scan_members]. pose proof (skip_ws_length s) as Hw.
    destruct (skip_ws s) as [|q s1]; [done|]. case_decide; [|done].
    intros ([key s2] & Hk & Hr)%bind_Some. apply lex_string_length in Hk.
    pose proof (skip_ws_length s2). destruct (skip_ws s2) as [|c s3]; [done|].
    case_decide; [|done]. apply bind_Some in Hr as (s4 & Hv & Hr). apply IHv in Hv.
    pose proof (skip_ws_length s3). pose proof (skip_ws_length s4).
    destruct (skip_ws s4) as [|x s5]; [done|]. simpl in *. case_decide.
    + apply bind_Some in Hr as ([ms r] & Hm & [= _ <-]). apply IHm in Hm. lia.
    + case_decide; [|done]. injection Hr as _ <-. lia.
  - intros d s l rest. cbn [scan_elements]. pose proof (skip_ws_length s) as Hw.
    intros (s4 & Hv & Hr)%bind_Some. apply IHv in Hv.
    pose proof (skip_ws_length s4). destruct (skip_ws s4) as [|x s5]; [done|]. simpl in *. case_decide.
    + apply bind_Some in Hr as ([ms r] & Hm & [= _ <-]). apply IHe in Hm. lia.
    + case_decide; [|done]. injection Hr as _ <-. lia.
Qed.

(** More fuel than the text is long makes no difference. *)
Lemma opened_ext {A} close (f g : bytes → option (list A * bytes)) s :
  (∀ s', (length s' ≤ length s)%nat → f s' = g s') → opened close f s = opened close g s.
Proof.
  intros Hfg. unfold opened. pose proof (skip_ws_length s).
  destruct (skip_ws s); [done|]. case_decide; [done|]. by apply Hfg.
Qed.

Lemma scan_fuel fuel :
  (∀ fuel' d s, 2 * length s < fuel → 2 * length s < fuel' →
     scan_value fuel d s = scan_value fuel' d s)%nat ∧
  (∀ fuel' d s, 2 * length s + 1 < fuel → 2 * length s + 1 < fuel' →
     scan_members fuel d s = scan_members fuel' d s)%nat ∧
  (∀ fuel' d s, 2 * length s + 1 < fuel → 2 * length s + 1 < fuel' →
     scan_elements fuel d s = scan_elements fuel' d s)%nat.
Proof.
  induction fuel as [|fuel (IHv & IHm & IHe)]; [split_and!; intros; lia|].
  split_and!; (intros [|fuel'] d s Hf Hf'; [lia|]).
  - destruct s as [|b s]; [done|]. cbn [scan_value]. simpl in *.
    repeat (case_decide; [first [done|destruct (d <=? 0); [done|]; f_equal; apply opened_ext;
      intros; first [apply IHm|apply IHe]; lia]|]). done.
  - cbn [scan_members]. pose proof (skip_ws_length s).
    destruct (skip_ws s) as [|q s1]; [done|]. case_decide; [|done].
    destruct (lex_string s1) as [[key s2]|] eqn:Hk; [|done]. cbn [mbind option_bind].
    apply lex_string_length in Hk. pose proof (skip_ws_length s2).
    destruct (skip_ws s2) as [|c s3]; [done|]. case_decide; [|done]. cbv zeta.
    pose proof (skip_ws_length s3). simpl in *. rewrite (IHv fuel') by lia.
    destruct (scan_value fuel' d (skip_ws s3)) as [s4|] eqn:Hv; [|done]. cbn [mbind option_bind].
    apply (proj1 (scan_lengths fuel')) in Hv. pose proof (skip_ws_length s4).
    destruct (skip_ws s4) as [|x s5]; [done|]. simpl in *. case_decide; [|done].
    by rewrite (IHm fuel') by lia.
  - cbn [scan_elements]. pose proof (skip_ws_length s). cbv zeta. rewrite (IHv fuel') by lia.
    destruct (scan_value fuel' d (skip_ws s)) as [s4|] eqn:Hv; [|done]. cbn [mbind option_bind].
    apply (proj1 (scan_lengths fuel')) in Hv. pose proof (skip_ws_length s4).
    destruct (skip_ws s4) as [|x s5]; [done|]. simpl in *. case_decide; [|done].
    by rewrite (IHe fuel') by lia.
Qed.

(** The verdict on a text does not depend on the fuel. *)
Lemma document_fuel fuel s :
  (scan_fuel_for (skip_ws s) ≤ fuel)%nat →
  document s =
    (rest ← scan_value fuel maxNestingDepth (skip_ws s);
     if decide (skip_ws rest = []) then Some (before (skip_ws s) rest) else None).
Proof.
  unfold scan_fuel_for. intros Hf. unfold document.
  by rewrite (proj1 (scan_fuel _) fuel) by (unfold scan_fuel_for; lia).
Qed.

Lemma rune_len_pos s n : rune_len s = Some n → (0 < n ≤ length s)%nat.
Proof.
  unfold rune_len. intros Hr. repeat (case_match; simplify_eq/=); lia.
Qed.

(** Nor does what a string stands for. *)
Lemma unquote_fuel fuel fuel' s :
  (length s < fuel)%nat → (length s < fuel')%nat → unquote_loop fuel s = unquote_loop fuel' s.
Proof.
  revert fuel' s. induction fuel as [|fuel IH]; intros [|fuel'] s Hf Hf'; [lia..|].
  destruct s as [|b s]; [done|]. simpl in Hf, Hf'. cbn [unquote_loop].
  destruct (decide (b = byte_backslash)) as [->|Hb].
  - destruct s as [|e s]; [done|]. simpl in Hf, Hf'. destruct (decide (e = x75)).
    + destruct (getu4 (byte_backslash :: e :: s)) as [rr|]; [|done]. cbn [mbind option_bind].
      set (rest := if isSurrogate rr then _ else _).
      assert (Hrest : (length rest.2 ≤ length s)%nat).
      { unfold rest. repeat case_match; cbn [snd drop]; rewrite length_drop; lia. }
      destruct rest as [r t]. cbn [snd] in Hrest. by rewrite (IH fuel') by lia.
    + destruct (simple_escape e); [|done]. cbn [mbind option_bind]. by rewrite (IH fuel') by lia.
  - destruct (decide (b = byte_quote)); [done|]. destruct (byte_val b <? 32); [done|].
    destruct (rune_len (b :: s)) as [k|] eqn:Hn.
    + apply rune_len_pos in Hn. assert (length (drop k (b :: s)) ≤ length s)%nat.
      { rewrite length_drop. simpl in *. lia. }
      by rewrite (IH fuel') by lia.
    + by rewrite (IH fuel') by lia.
Qed.

(** * Strings are read back *)

Definition is_ascii (s : bytes) : Prop := Forall (λ b, byte_val b < 128) s.

#[export] Instance is_ascii_dec s : Decision (is_ascii s).
Proof. unfold is_ascii. apply _. Defined.

Lemma lex_escape_ascii b s :
  byte_val b < 128 → lex_string (escape_ascii b ++ s) = push (escape_ascii b) (lex_string s).
Proof.
  intros Hb. destruct b; try (exfalso; vm_compute in Hb; discriminate); reflexivity.
Qed.

Lemma unquote_escape_ascii fuel b s :
  byte_val b < 128 →
  unquote_loop (S fuel) (escape_ascii b ++ s) = app [b] <$> unquote_loop fuel s.
Proof.
  intros Hb. destruct b; try (exfalso; vm_compute in Hb; discriminate); reflexivity.
Qed.

Lemma escape_cons b s : byte_val b < 128 → escape (b :: s) = escape_ascii b ++ escape s.
Proof. intros Hb. unfold escape. simpl. by rewrite (proj2 (Z.ltb_lt _ _)). Qed.

Lemma push_app p q r : push p (push q r) = push (p ++ q) r.
Proof. destruct r as [[? ?]|]; simpl; [by rewrite app_assoc|done]. Qed.

Lemma lex_string_escape s rest :
  is_ascii s → lex_string (escape s ++ byte_quote :: rest) = Some (escape s, rest).
Proof.
  induction 1 as [|b s Hb Hs IH]; [done|].
  rewrite escape_cons, <- app_assoc, lex_escape_ascii, IH by done. done.
Qed.

Lemma unquote_escape s : is_ascii s → unquote (escape s) = Some s.
Proof.
  intros Hs. unfold unquote.
  assert (Hl : ∀ f, (length s < f)%nat → unquote_loop f (escape s) = Some s).
  { induction Hs as [|b s Hb Hs IH]; intros [|f] Hf; simpl in Hf; [lia|done|lia|].
    rewrite escape_cons, unquote_escape_ascii, IH by (done || lia). done. }
  apply Hl. clear Hl. apply Nat.lt_succ_r.
  induction Hs as [|b s Hb Hs IH]; [done|]. rewrite escape_cons, length_app by done.
  assert (0 < length (escape_ascii b))%nat by (destruct b; compute; lia). simpl. lia.
Qed.

(** * Integers are read back *)

Lemma append_uint_spec fuel x :
  (0 < fuel)%nat → 0 ≤ x < 10 ^ Z.of_nat fuel →
  Forall (λ b, isDigit b = true) (append_uint fuel x) ∧ digits_value (append_uint fuel x) = x ∧
  append_uint fuel x ≠ [] ∧ (x ≠ 0 → hd_error (append_uint fuel x) ≠ Some x30).
Proof.
  revert x. induction fuel as [|fuel IH]; intros x Hf Hx; [lia|]. cbn [append_uint].
  destruct (mod10_digit x) as [Hd Hv]. destruct (Z.ltb_spec x 10) as [Hlt|Hge].
  - rewrite Z.mod_small in * by lia. simpl. split_and!; [by repeat constructor| |done|].
    + unfold digits_value. simpl. lia.
    + intros Hne [= Heq]. rewrite Heq in Hv. change (digit x30) with 0 in Hv. lia.
  - assert (Hf' : (0 < fuel)%nat) by (destruct fuel; [simpl in Hx; lia|lia]).
    assert (Hx' : 0 ≤ x / 10 < 10 ^ Z.of_nat fuel).
    { rewrite Nat2Z.inj_succ, Z.pow_succ_r in Hx by lia. Z.to_euclidean_division_equations. lia. }
    destruct (IH (x / 10) Hf' Hx') as (Hds & Hval & Hne & Hz). split_and!.
    + apply Forall_app. split; [done|by repeat constructor].
    + rewrite digits_value_snoc, Hval, Hv. Z.to_euclidean_division_equations. lia.
    + by destruct (append_uint fuel (x / 10)).
    + intros _. destruct (append_uint fuel (x / 10)); [done|]. apply Hz.
      Z.to_euclidean_division_equations. lia.
Qed.

Lemma atoi_digits ds :
  Forall (λ b, isDigit b = true) ds → ds ≠ [] → atoi ds = Some (digits_value ds).
Proof.
  intros Hds Hne. unfold atoi. rewrite <- (app_nil_r ds), span_digits_app, app_nil_r by done.
  by destruct ds.
Qed.

Lemma digit_not_sign b : isDigit b = true → b ≠ x2d ∧ b ≠ x2b ∧ b ≠ x2e ∧ b ≠ x65 ∧ b ≠ x45.
Proof. intros Hb. split_and!; intros ->; discriminate. Qed.

(** The digits of an integer, with the sign apart. *)
Lemma AppendInt_cases x :
  in_int64 x →
  ∃ sign ds, AppendInt x = sign ++ ds ∧ sign = (if x <? 0 then [x2d] else []) ∧
    Forall (λ b, isDigit b = true) ds ∧ digits_value ds = Z.abs x ∧ ds ≠ [] ∧
    (x ≠ 0 → hd_error ds ≠ Some x30) ∧ (x = 0 → ds = [x30]).
Proof.
  intros Hx. unfold AppendInt.
  assert (H20 : 0 ≤ Z.abs x < 10 ^ Z.of_nat 20).
  { change (10 ^ Z.of_nat 20) with 100000000000000000000. in_range. }
  destruct (append_uint_spec 20 (Z.abs x) ltac:(lia) H20) as (Hd & Hv & Hne & Hz).
  exists (if x <? 0 then [x2d] else []), (append_uint 20 (Z.abs x)).
  split_and!; [|reflexivity|exact Hd|exact Hv|exact Hne|intros; apply Hz; lia|by intros ->].
  destruct (Z.ltb_spec x 0); cbn [app].
  - by replace (Z.abs x) with (- x) by lia.
  - by replace (Z.abs x) with x by lia.
Qed.

Lemma ParseInt_AppendInt x : in_int64 x → ParseInt (AppendInt x) = Some x.
Proof.
  intros Hx. destruct (AppendInt_cases x Hx) as (sign & ds & -> & -> & Hd & Hv & Hne & _).
  pose proof (atoi_digits ds Hd Hne) as Ha. unfold ParseInt.
  assert (Hr : in_bounds min_int64 max_int64 x = true).
  { unfold in_int64 in Hx. unfold in_bounds. by rewrite (proj2 (Z.leb_le _ _)), (proj2 (Z.leb_le _ _)) by lia. }
  destruct (Z.ltb_spec x 0); cbn [app].
  - rewrite decide_True by done. rewrite Ha, Hv. cbn [mbind option_bind].
    replace (- Z.abs x) with x by lia. by rewrite Hr.
  - destruct ds as [|b ds]; [done|]. inversion Hd as [|? ? Hb]. apply digit_not_sign in Hb as (? & ? & _).
    rewrite !decide_False by done. rewrite Ha, Hv. cbn [mbind option_bind].
    replace (Z.abs x) with x by lia. by rewrite Hr.
Qed.

(** * Printed values are delimited *)

(** What may follow a value inside an object, or at the end of the text. *)
Definition delimited (rest : bytes) : Prop :=
  match rest with [] => True | b :: _ => b = x2c ∨ b = x7d end.

(** [raw] is a value: the scanner stops behind it whatever follows. *)
Definition value_text (d : Z) (raw : bytes) : Prop :=
  (∀ rest, skip_ws (raw ++ rest) = raw ++ rest) ∧
  ∀ fuel rest, (2 * length (raw ++ rest) < fuel)%nat → delimited rest →
    scan_value fuel d (raw ++ rest) = Some rest.

(** [raw] is the inside of a string. *)
Definition string_text (raw : bytes) : Prop :=
  ∀ rest, lex_string (raw ++ byte_quote :: rest) = Some (raw, rest).

Definition member_text (d : Z) (m : bytes * bytes) : Prop := string_text m.1 ∧ value_text d m.2.

(** Compares the lengths of concatenations. *)
Ltac lengths := repeat (rewrite ?length_app in *; cbn [length app] in *); lia.

Lemma before_app raw rest : before (raw ++ rest) rest = raw.
Proof. unfold before. rewrite length_app. apply take_app_length'. lia. Qed.

Lemma escape_string_text s : is_ascii s → string_text (escape s).
Proof. intros Hs rest. by apply lex_string_escape. Qed.

(** Printable characters other than a quote and a backslash stand for themselves. *)
Definition plain (b : byte) : Prop := b ≠ byte_quote ∧ b ≠ byte_backslash ∧ 32 ≤ byte_val b.

Lemma plain_string_text s : Forall plain s → string_text s.
Proof.
  intros Hs rest. induction Hs as [|b s (Hq & Hb & Hv) Hs IH]; [done|]. cbn [app lex_string].
  rewrite !decide_False by done. rewrite (proj2 (Z.ltb_ge _ _)) by done. by rewrite IH.
Qed.

Lemma string_value d raw : string_text raw → value_text d (byte_quote :: raw ++ [byte_quote]).
Proof.
  intros Hr. split; [done|]. intros [|fuel] rest Hf _; [lia|]. cbn [app scan_value].
  rewrite decide_True by done. rewrite <- app_assoc. cbn [app]. by rewrite Hr.
Qed.

Lemma delimited_not_digit rest b r : delimited rest → rest = b :: r → isDigit b = false.
Proof. intros Hd ->. by destruct Hd as [-> | ->]. Qed.

Lemma scan_tail rest : delimited rest → (s ← scan_frac rest; scan_exp s) = Some rest.
Proof. destruct rest as [|b r]; [done|]. by intros [-> | ->]. Qed.

Lemma scan_int_digits ds x rest :
  Forall (λ b, isDigit b = true) ds → ds ≠ [] →
  (x ≠ 0 → hd_error ds ≠ Some x30) → (x = 0 → ds = [x30]) → delimited rest →
  scan_int (ds ++ rest) = Some rest.
Proof.
  intros Hd Hne Hnz Hz Hr. destruct (decide (x = 0)) as [->|Hx]; [by rewrite Hz|].
  specialize (Hnz Hx). destruct ds as [|b ds]; [done|]. simpl in Hnz. cbn [app scan_int].
  rewrite decide_False by congruence. unfold scan_digits1.
  change (b :: ds ++ rest) with ((b :: ds) ++ rest). rewrite span_digits_app; [done..|].
  intros. by eapply delimited_not_digit.
Qed.

Lemma int_value d x : in_int64 x → value_text d (AppendInt x).
Proof.
  intros Hx. destruct (AppendInt_cases x Hx) as (sign & ds & -> & -> & Hd & _ & Hne & Hnz & Hz).
  destruct ds as [|b ds]; [done|]. inversion Hd as [|? ? Hb Hds]. subst.
  assert (Hstart : isSpace b = false ∧ Forall (λ c, b ≠ c) [byte_quote; x7b; x5b; x74; x66; x6e; x2d]).
  { split; [|repeat constructor]; try (intros ->; discriminate).
    unfold isSpace. apply bool_decide_false. by intros [-> |[-> |[-> | ->]]]. }
  destruct Hstart as [Hsp Hst]. rewrite !Forall_cons in Hst.
  destruct Hst as (? & ? & ? & ? & ? & ? & ? & _).
  assert (Hint : ∀ rest, delimited rest → scan_int (b :: ds ++ rest) = Some rest).
  { intros. by apply (scan_int_digits (b :: ds) x). }
  split.
  - intros rest. destruct (x <? 0); simpl; [done|by rewrite Hsp].
  - intros [|fuel] rest Hf Hr; [lia|].
    destruct (x <? 0); cbn [app scan_value].
    + repeat rewrite decide_False by done. unfold scan_number.
      rewrite decide_True by done. rewrite Hint by done. by apply scan_tail.
    + repeat rewrite decide_False by done. unfold scan_number.
      rewrite decide_False by done. rewrite Hint by done. by apply scan_tail.
Qed.

(** One member, up to the mark that follows it. *)
Lemma scan_member fuel d m mark rest :
  member_text d m → mark = x2c ∨ mark = x7d →
  (2 * length (print_member m ++ mark :: rest) + 1 < S fuel)%nat →
  scan_members (S fuel) d (print_member m ++ mark :: rest) =
    if decide (mark = x2c) then '(ms, rest') ← scan_members fuel d rest; Some (m :: ms, rest')
    else Some ([m], rest).
Proof.
  intros [Hk [Hws Hv]] Hmark Hf. destruct m as [key raw]. unfold print_member in *. cbn [fst snd] in *.
  assert (Hlen : (2 * length (raw ++ mark :: rest) < fuel)%nat).
  { lengths. }
  cbn [app scan_members]. rewrite <- !app_assoc. cbn [skip_ws].
  change (isSpace byte_quote) with false. cbn [app]. rewrite decide_True by done.
  rewrite Hk. cbn [mbind option_bind]. cbn [skip_ws]. change (isSpace x3a) with false. cbn iota.
  rewrite decide_True by done. cbv zeta. rewrite Hws, Hv; [|done|done].
  cbn [mbind option_bind skip_ws]. rewrite before_app.
  by destruct Hmark as [-> | ->].
Qed.

Lemma scan_members_print fuel d ms rest :
  Forall (member_text d) ms → ms ≠ [] →
  (2 * length (print_members ms ++ x7d :: rest) + 1 < fuel)%nat →
  scan_members fuel d (print_members ms ++ x7d :: rest) = Some (ms, rest).
Proof.
  intros Hms. revert fuel. induction Hms as [|m ms Hm Hms IH]; intros [|fuel] Hne Hf; try done; [lia|].
  destruct ms as [|m' ms].
  - cbn [print_members] in *. rewrite scan_member by auto. done.
  - change (print_members (m :: m' :: ms)) with (print_member m ++ x2c :: print_members (m' :: ms)) in *.
    rewrite <- app_assoc in *. cbn [app] in *. rewrite scan_member by auto.
    rewrite decide_True by done. rewrite IH; [done|done|].
    lengths.
Qed.

Lemma print_members_start m ms : ∃ r, print_members (m :: ms) = byte_quote :: r.
Proof. destruct ms; eexists; reflexivity. Qed.

Lemma opened_print fuel d ms rest :
  Forall (member_text d) ms → (2 * length (print_members ms ++ x7d :: rest) + 1 < fuel)%nat →
  opened x7d (scan_members fuel d) (print_members ms ++ x7d :: rest) = Some (ms, rest).
Proof.
  intros Hms Hf. destruct ms as [|m ms]; [done|]. unfold opened.
  pose proof (scan_members_print fuel d (m :: ms) rest Hms ltac:(done) Hf) as Hs.
  destruct (print_members_start m ms) as [r Hr]. rewrite Hr in *. exact Hs.
Qed.

Lemma object_value d ms :
  0 < d → Forall (member_text (d - 1)) ms → value_text d (print_object ms).
Proof.
  intros Hd Hms. split; [done|]. intros [|fuel] rest Hf _; [lia|].
  unfold print_object in *. cbn [app scan_value]. rewrite decide_False, decide_True by done.
  rewrite (proj2 (Z.leb_gt _ _)) by done. rewrite <- app_assoc. cbn [app].
  rewrite opened_print; [done|done|]. lengths.
Qed.

(** The members of a printed object are the members printed. *)
Lemma object_of_print ms :
  Forall (member_text (maxNestingDepth - 1)) ms → object_of (print_object ms) = Some (Some ms).
Proof.
  intros Hms. pose proof (object_value maxNestingDepth ms ltac:(done) Hms) as [Hws Hv].
  specialize (Hws []). rewrite app_nil_r in Hws.
  assert (Hdoc : document (print_object ms) = Some (print_object ms)).
  { unfold document. rewrite Hws. rewrite <- (app_nil_r (print_object ms)) at 2.
    rewrite Hv; [|rewrite app_nil_r; unfold scan_fuel_for; lia|done].
    cbn [mbind option_bind skip_ws]. rewrite decide_True by done.
    f_equal. rewrite <- (app_nil_r (print_object ms)) at 1. apply before_app. }
  unfold object_of. rewrite Hdoc. cbn [mbind option_bind]. rewrite decide_False by done.
  unfold print_object at 1. rewrite decide_True by done.
  rewrite opened_print; [done|done|]. unfold scan_fuel_for, print_object. lengths.
Qed.
