(* ===== verification/DurationText.v ===== *)
(** How Go's package [time] writes a duration ([Duration.String]), which the
    receiver logs its starting point with. *)
From S2P Require Import Prelude GoTime TimeText Json.
Open Scope Z_scope.

(** [fmtInt]: a 64-bit count in decimal. *)
Definition fmtInt (v : Z) : bytes := append_uint 20 v.

(** [fmtFrac]: the fraction [v / 10**prec] without trailing zeros, and its point
    only when digits are left; with what remains of [v]. *)
Definition fmtFrac (v : Z) (prec : nat) : bytes * Z :=
  let scale := 10 ^ Z.of_nat prec in
  (match trim_zeros (pad prec (v `mod` scale)) with [] => [] | ds => x2e :: ds end, v / scale).

(** A duration of a second or more, from its seconds and fraction. *)
Definition fmtClock (secs : Z) (frac : bytes) : bytes :=
  let s := fmtInt (secs `mod` 60) ++ frac ++ bs "s" in
  let mins := secs / 60 in
  if mins =? 0 then s
  else
    let m := fmtInt (mins `mod` 60) ++ bs "m" ++ s in
    let hours := mins / 60 in
    if hours =? 0 then m else fmtInt hours ++ bs "h" ++ m.

(** The units below a second; the micro sign is two bytes. *)
Definition fmtBelowSecond (u : Z) : bytes :=
  if u =? 0 then bs "0s"
  else
    let '(prec, unit_) :=
      if u <? 1000 then (0%nat, bs "ns")
      else if u <? 1000000 then (3%nat, [xc2; xb5; x73])
      else (6%nat, bs "ms") in
    let '(frac, u) := fmtFrac u prec in
    fmtInt u ++ frac ++ unit_.

Definition Duration_String (d : Z) : bytes :=
  let u := Z.abs d in
  let text :=
    if u <? Second then fmtBelowSecond u
    else let '(frac, secs) := fmtFrac u 9 in fmtClock secs frac in
  if d <? 0 then x2d :: text else text.

Example duration_texts :
  Duration_String 0 = bs "0s" ∧ Duration_String 1500 = [x31; x2e; x35; xc2; xb5; x73] ∧
  Duration_String (Second + Second / 2) = bs "1.5s" ∧ Duration_String (5 * Minute) = bs "5m0s" ∧
  Duration_String (- (25 * Hour + Second)) = bs "-25h0m1s" ∧
  Duration_String min_int64 = bs "-2562047h47m16.854775808s".
Proof. repeat split; vm_compute; reflexivity. Qed.

(** * Reading it back *)

(** A reader of hours, minutes and seconds: the total so far and the number being
    read. *)
Definition unit_secs (b : byte) : Z :=
  if decide (b = x68) then 3600 else if decide (b = x6d) then 60 else 1.

Definition read_step (st : Z * Z) (b : byte) : Z * Z :=
  let '(total, n) := st in
  if isDigit b then (total, n * 10 + digit b)
  else (total + n * unit_secs b, 0).

Definition read_clock (s : bytes) : Z := (foldl read_step (0, 0) s).1.

Lemma read_digits total n ds :
  Forall (λ b, isDigit b = true) ds →
  foldl read_step (total, n) ds = (total, foldl (λ x b, x * 10 + digit b) n ds).
Proof.
  intros Hd. revert n. induction Hd as [|b ds Hb Hd IH]; intros n; [done|].
  cbn [foldl]. unfold read_step at 2. rewrite Hb. apply IH.
Qed.

Lemma read_fmtInt total v unit_ :
  0 ≤ v < 10 ^ 20 → isDigit unit_ = false →
  foldl read_step (total, 0) (fmtInt v ++ [unit_]) =
    (total + v * unit_secs unit_, 0).
Proof.
  intros Hv Hu. destruct (append_uint_spec 20 v ltac:(lia) Hv) as (Hd & Hval & _).
  rewrite foldl_app, read_digits by done. fold (digits_value (fmtInt v)). unfold fmtInt.
  rewrite Hval. cbn [foldl read_step]. by rewrite Hu.
Qed.

Lemma foldl_read_app st a b : foldl read_step st (a ++ b) = foldl read_step (foldl read_step st a) b.
Proof. apply foldl_app. Qed.

(** Whole seconds are read back. *)
Lemma read_fmtClock n : 0 ≤ n < 10 ^ 20 → read_clock (fmtClock n []) = n.
Proof.
  intros Hn. unfold read_clock, fmtClock. cbn [app].
  pose proof (Z.div_mod n 60 ltac:(lia)). pose proof (Z.mod_pos_bound n 60 ltac:(lia)).
  pose proof (Z.div_mod (n / 60) 60 ltac:(lia)). pose proof (Z.mod_pos_bound (n / 60) 60 ltac:(lia)).
  assert (0 ≤ n / 60 < 10 ^ 20) by lia. assert (0 ≤ n / 60 / 60 < 10 ^ 20) by lia.
  change (bs "s") with [x73]. change (bs "m") with [x6d]. change (bs "h") with [x68].
  destruct (Z.eqb_spec (n / 60) 0); [|destruct (Z.eqb_spec (n / 60 / 60) 0)];
    repeat first [rewrite read_fmtInt by (lia || done)
                 |match goal with |- context[fmtInt ?v ++ [?u] ++ ?r] =>
                    rewrite (app_assoc (fmtInt v) [u] r), (foldl_read_app _ (fmtInt v ++ [u])) end];
    change (unit_secs x73) with 1; change (unit_secs x6d) with 60; change (unit_secs x68) with 3600;
    cbn [fst]; lia.
Qed.

Lemma Duration_String_seconds n :
  0 ≤ n < 10 ^ 20 → Duration_String (n * Second) = fmtClock n [].
Proof.
  intros Hn. unfold Duration_String. rewrite Z.abs_eq by (unfold Second; lia).
  replace (n * Second <? 0) with false by (symmetry; unfold Second; lia).
  destruct (Z.ltb_spec (n * Second) Second) as [Hlt|Hge].
  - assert (n = 0) as -> by (unfold Second in *; lia). reflexivity.
  - unfold fmtFrac. change (10 ^ Z.of_nat 9) with Second.
    rewrite Z.mod_mul, Z.div_mul by (unfold Second; lia). reflexivity.
Qed.
