(* ===== verification/Retry.v ===== *)
(** Package [internal/retry] ([retry.go]): the backoff ladder, the jitter of a
    wait and of a stream's lifetime, and a cancellable sleep. *)
From Stdlib Require Import Floats.SpecFloat.
From S2P Require Import Prelude GoTime.
Open Scope Z_scope.

(** * Randomness

    [rand.Int64N(n)] of [math/rand/v2]: for [n > 0], some integer of [0, n). *)
Class Rand := Int64N : Z → Z.

Definition rand_ok (r : Rand) : Prop := ∀ n, 0 < n → 0 ≤ Int64N n < n.

(** * The operations *)

(** [SleepOrDone]: [done_at] is when the context ends, counted from the call
    ([None] when it never does); a timer for [d <= 0] fires at once.  When both
    happen together [select] picks either one. *)
Definition SleepOrDone (done_at : option Z) (d : Z) (tie : bool) : bool :=
  let fires := Z.max 0 d in
  match done_at with
  | None => true
  | Some t => if t <? fires then false else if fires <? t then true else tie
  end.

Definition NextBackoff (current max : Z) : Z :=
  let next := int64 (current * 2) in
  if max <? next then max else next.

Definition Jitter `{Rand} (d : Z) : Z :=
  let half := Z.quot d 2 in
  if half <=? 0 then d else int64 (half + Int64N half).

(** ** Binary64 numbers

    [float64] is the binary64 format of IEEE 754: 53 bits of precision,
    exponents up to 1024. *)
Definition float64 := spec_float.
Definition float64_of_int64 (d : Z) : float64 := binary_normalize 53 1024 d 0 false.
Definition float64_mul (x y : float64) : float64 := SFmul 53 1024 x y.
Definition float64_zero : float64 := S754_zero false.
Definition float64_one : float64 := float64_of_int64 1.

(** [int64(f)] truncates; a value it cannot represent gives [other], which the
    language leaves to the implementation. *)
Definition int64_of_float64 (other : Z) (f : float64) : Z :=
  match f with
  | S754_zero _ => 0
  | S754_finite s m e =>
      let a := if e <? 0 then Z.pos m / 2 ^ (- e) else Z.pos m * 2 ^ e in
      let v := if s then - a else a in
      if (min_int64 <=? v) && (v <=? max_int64) then v else other
  | _ => other
  end.

Definition Spread `{Rand} (other : Z) (d : Z) (frac : float64) : Z :=
  if (d <=? 0) || SFleb frac float64_zero then d
  else
    let frac := if SFltb float64_one frac then float64_one else frac in
    let span := int64_of_float64 other (float64_mul (float64_of_int64 d) frac) in
    if span <=? 0 then d else int64 (d - Int64N span).

(** The constant 0.1 as a float64. *)
Definition float64_tenth : float64 := S754_finite false 7205759403792794 (-56).

(** * The backoff ladder *)

(** [n] failures after [initial]. *)
Definition ladder (initial max : Z) (n : nat) : Z :=
  Nat.iter n (λ b, NextBackoff b max) initial.

Lemma NextBackoff_small c m :
  0 ≤ c ≤ 2 ^ 62 - 1 → NextBackoff c m = Z.min (2 * c) m.
Proof.
  intros Hc. unfold NextBackoff. rewrite int64_small by in_range. zcases; lia.
Qed.

(** A step of the ladder stays between 0 and the larger of the two settings. *)
Lemma NextBackoff_range c m hi :
  0 ≤ c ≤ hi → 0 ≤ m ≤ hi → hi ≤ 2 ^ 62 - 1 → 0 ≤ NextBackoff c m ≤ hi.
Proof. intros. rewrite NextBackoff_small by lia. lia. Qed.

Lemma NextBackoff_le_max c m : NextBackoff c m ≤ m.
Proof. unfold NextBackoff. zcases; lia. Qed.

Lemma ladder_closed initial max n :
  0 ≤ initial → initial ≤ 2 ^ 62 - 1 → 0 ≤ max ≤ 2 ^ 62 - 1 → (0 < n)%nat →
  ladder initial max n = Z.min (initial * 2 ^ Z.of_nat n) max.
Proof.
  intros Hi Hi2 Hm Hn. destruct n as [|n]; [lia|]. clear Hn.
  induction n as [|n IH].
  { unfold ladder; simpl. rewrite NextBackoff_small by lia. change (Z.of_nat 1) with 1. rewrite Z.pow_1_r. lia. }
  change (ladder initial max (S (S n))) with (NextBackoff (ladder initial max (S n)) max).
  rewrite IH. rewrite NextBackoff_small by nia.
  replace (Z.of_nat (S (S n))) with (1 + Z.of_nat (S n)) by lia.
  rewrite Z.pow_add_r by lia. change (2 ^ 1) with 2. lia.
Qed.

(** * Jitter *)

Lemma Jitter_range `{r : Rand} d :
  rand_ok r → 0 ≤ d ≤ max_int64 → Z.quot d 2 ≤ Jitter d ∧ Jitter d ≤ d ∧ (1 < d → Jitter d < d).
Proof.
  intros Hr Hd. unfold Jitter. zcases.
  - split_and!; [lia|lia|]. intros Hd1. rewrite Z.quot_div_nonneg in * by lia.
    assert (1 ≤ d / 2) by (apply Z.div_le_lower_bound; lia). lia.
  - destruct (Hr (d ÷ 2)) as [Hr0 Hr1]; [lia|]. rewrite Z.quot_div_nonneg in * by lia.
    assert (2 * (d / 2) ≤ d) by (apply Z.mul_div_le; lia).
    rewrite int64_small by in_range. lia.
Qed.

(** * Rounding at most doubles *)

Section rounding.
Notation fexp64 := (fexp 53 1024).

Lemma shr_1_m r : 0 ≤ shr_m r → shr_m (shr_1 r) = shr_m r / 2.
Proof. rewrite <- Z.div2_div. destruct r as [[|[p|p|]|p] rr s]; intros Hr; done || lia. Qed.

Lemma iter_shr_m p r : 0 ≤ shr_m r →
  shr_m (SpecFloat.iter_pos shr_1 p r) = shr_m r / 2 ^ Z.pos p.
Proof.
  revert r. induction p as [p IH|p IH|]; intros r Hr; simpl.
  - pose proof (shr_1_m r Hr) as H1.
    assert (0 ≤ shr_m (shr_1 r)) by (rewrite H1; apply Z.div_pos; lia).
    assert (0 ≤ shr_m (SpecFloat.iter_pos shr_1 p (shr_1 r))) by (rewrite IH by done; apply Z.div_pos; lia).
    rewrite !IH, H1 by done. rewrite !Z.div_div by lia. f_equal.
    rewrite Pos2Z.inj_xI, Z.pow_add_r, Z.mul_comm, Z.pow_mul_r, Z.pow_2_r by lia.
    rewrite <- Z.pow_mul_l. lia.
  - assert (0 ≤ shr_m (SpecFloat.iter_pos shr_1 p r)) by (rewrite IH by done; apply Z.div_pos; lia).
    rewrite !IH by done. rewrite !Z.div_div by lia. f_equal.
    rewrite Pos2Z.inj_xO, <- Z.pow_add_r by lia. f_equal. lia.
  - by apply shr_1_m.
Qed.
Lemma shr_spec m e n : 0 ≤ m →
  shr_m (shr (Build_shr_record m false false) e n).1 = m / 2 ^ Z.max n 0 ∧
  (shr (Build_shr_record m false false) e n).2 = e + Z.max n 0 ∧
  (n ≤ 0 → (shr (Build_shr_record m false false) e n).1 = Build_shr_record m false false).
Proof.
  intros Hm. destruct n as [|p|p]; simpl shr.
  - rewrite Z.max_id. cbn [fst snd shr_m]. rewrite Z.pow_0_r, Z.div_1_r. split_and!; [done|lia|done].
  - rewrite Z.max_l by lia. cbn [fst snd]. rewrite iter_shr_m by done. split_and!; [done|lia|lia].
  - rewrite Z.max_r by lia. cbn [fst snd shr_m]. rewrite Z.pow_0_r, Z.div_1_r. split_and!; [done|lia|done].
Qed.

Lemma digits2_lower p : 2 ^ (Z.pos (digits2_pos p) - 1) ≤ Z.pos p.
Proof.
  assert (∀ q, 2 ^ (Z.pos (Pos.succ (digits2_pos q)) - 1) = 2 * 2 ^ (Z.pos (digits2_pos q) - 1)) as Hs.
  { intros q. rewrite <- Z.pow_succ_r by lia. f_equal. lia. }
  induction p as [p IH|p IH|]; simpl digits2_pos; rewrite ?Hs; lia.
Qed.

Lemma round_even_bound m l : 0 ≤ m →
  m ≤ round_nearest_even m l ≤ m + 1 ∧ (l = loc_Exact → round_nearest_even m l = m).
Proof. intros. unfold round_nearest_even. repeat case_match; split; (done || lia). Qed.

(** The value of a shifted number, compared at the smaller exponent. *)
Lemma div_pow_bound m k : 0 ≤ m → 0 ≤ k → (m / 2 ^ k) * 2 ^ k ≤ m.
Proof. intros. rewrite Z.mul_comm. apply Z.mul_div_le. lia. Qed.

Lemma round_aux_bound m e :
  -1074 ≤ e →
  match binary_round_aux 53 1024 false (Z.pos m) e loc_Exact with
  | S754_zero _ => True
  | S754_finite s m' e' => s = false ∧ e ≤ e' ∧ Z.pos m' * 2 ^ (e' - e) ≤ 2 * Z.pos m
  | S754_infinity _ => ∃ m' e', 971 < e' ∧ Z.pos m' * 2 ^ (e' - e) ≤ 2 * Z.pos m
  | S754_nan => False
  end.
Proof.
  intros He. unfold binary_round_aux, shr_fexp. simpl shr_record_of_loc.
  set (n := fexp64 (Zdigits2 (Z.pos m) + e) - e).
  destruct (shr_spec (Z.pos m) e n) as (Hm1 & He1 & Hex); [lia|].
  destruct (shr (Build_shr_record (Z.pos m) false false) e n) as [r1 e1]. cbn [fst snd] in *.
  set (m1 := shr_m r1) in *.
  assert (0 ≤ m1) by (rewrite Hm1; apply Z.div_pos; lia).
  destruct (round_even_bound m1 (loc_of_shr_record r1)) as [Hr Hre]; [done|].
  set (m2 := round_nearest_even m1 _) in *.
  assert (m2 * 2 ^ Z.max n 0 ≤ 2 * Z.pos m) as Hm2.
  { pose proof (div_pow_bound (Z.pos m) (Z.max n 0)). rewrite <- Hm1 in *.
    destruct (decide (n ≤ 0)) as [Hn|Hn].
    { rewrite Hex in Hre by done. rewrite Hre by done. nia. }
    assert (1 ≤ m1); [|nia]. rewrite Hm1. apply Z.div_le_lower_bound; [lia|].
    rewrite Z.mul_1_r, Z.max_l by lia. pose proof (digits2_lower m).
    trans (2 ^ (Z.pos (digits2_pos m) - 1)); [|done]. apply Z.pow_le_mono_r; [lia|].
    unfold n, fexp, emin. simpl Zdigits2. lia. }
  set (n2 := fexp64 (Zdigits2 m2 + e1) - e1).
  destruct (shr_spec m2 e1 n2) as (Hm3 & He3 & _); [lia|].
  destruct (shr (Build_shr_record m2 false false) e1 n2) as [r3 e3]. cbn [fst snd] in *.
  assert (shr_m r3 * 2 ^ (e3 - e) ≤ 2 * Z.pos m) as Hfin.
  { replace (e3 - e) with (Z.max n2 0 + Z.max n 0) by lia. rewrite Z.pow_add_r by lia.
    pose proof (div_pow_bound m2 (Z.max n2 0)). rewrite <- Hm3 in *. nia. }
  assert (0 ≤ shr_m r3) by (rewrite Hm3; apply Z.div_pos; lia).
  destruct (shr_m r3) as [|p|p]; [done| |lia].
  destruct (Z.leb_spec e3 (1024 - 53)); [split_and!; [done|lia|done]|].
  exists p, e3. split; [lia|done].
Qed.

End rounding.

Lemma iter_xO p n : Z.pos (Pos.iter xO p n) = Z.pos p * 2 ^ Z.pos n.
Proof.
  induction n as [|n IH] using Pos.peano_ind; [simpl; lia|].
  rewrite Pos.iter_succ, Pos2Z.inj_xO, IH, Pos2Z.inj_succ, Z.pow_succ_r by lia. lia.
Qed.

(** [float64(d)] is at most twice [d]; the exponents are scaled by [k] to stay
    on integers. *)
Lemma of_int64_bound p :
  Z.pos p ≤ max_int64 →
  match float64_of_int64 (Z.pos p) with
  | S754_zero _ => True
  | S754_finite s m e =>
      s = false ∧ ∃ k, 0 ≤ k ≤ 53 ∧ - k ≤ e ∧ Z.pos m * 2 ^ (e + k) ≤ 2 * Z.pos p * 2 ^ k
  | _ => False
  end.
Proof.
  intros Hp. unfold float64_of_int64, binary_normalize, binary_round.
  assert (∃ mz ez k, shl_align p 0 (fexp 53 1024 (Z.pos (digits2_pos p) + 0)) = (mz, ez) ∧
    ez = - k ∧ 0 ≤ k ≤ 53 ∧ Z.pos mz = Z.pos p * 2 ^ k) as (mz & ez & k & -> & -> & Hk & Hmz).
  { unfold shl_align, fexp, emin. rewrite Z.sub_0_r, Z.add_0_r.
    destruct (Z.max _ _) as [|q|q] eqn:Hmax.
    - eexists _, _, 0. split_and!; [done|done|lia|lia|lia].
    - eexists _, _, 0. split_and!; [done|done|lia|lia|lia].
    - eexists _, _, (Z.pos q). split_and!; [done|done|lia|lia|apply iter_xO]. }
  pose proof (round_aux_bound mz (- k)) as Hb.
  destruct (binary_round_aux _ _ _ _ _ _) as [s|s| |s m e]; [done| |apply Hb; lia|].
  - destruct Hb as (m' & e' & He' & Hb); [lia|].
    assert (2 ^ 200 ≤ 2 ^ (e' - - k)) by (apply Z.pow_le_mono_r; lia).
    assert (2 ^ k ≤ 2 ^ 53) by (apply Z.pow_le_mono_r; lia).
    unfold max_int64 in Hp. nia.
  - destruct Hb as (-> & He & Hb); [lia|]. split; [done|]. exists k.
    replace (e - - k) with (e + k) in Hb by lia. split_and!; lia.
Qed.

(** A tenth of a duration never rounds up to the whole of it. *)
Lemma span_tenth_bound other d :
  0 < d ≤ max_int64 →
  int64_of_float64 other (float64_mul (float64_of_int64 d) float64_tenth) ≤ d / 2.
Proof.
  intros Hd. destruct d as [|p|p]; [lia| |lia].
  pose proof (of_int64_bound p) as Hf. destruct Hd as [_ Hd]. specialize (Hf Hd).
  assert (0 ≤ Z.pos p / 2) by (apply Z.div_pos; lia).
  destruct (float64_of_int64 (Z.pos p)) as [s|s| |s m e]; [done|done|done|].
  destruct Hf as (-> & k & Hk & He & Hm). unfold float64_mul, SFmul, float64_tenth. simpl xorb.
  pose proof (round_aux_bound (m * 7205759403792794) (e + -56)) as Hb.
  assert (Hmm : ∀ x e', 0 ≤ e' - (e + -56) →
    x * 2 ^ (e' - (e + -56)) ≤ 2 * Z.pos (m * 7205759403792794) →
    x * 2 ^ (e' + 56 + k) ≤ 4 * 7205759403792794 * Z.pos p * 2 ^ k).
  { intros x e' He' Hx. replace (e' + 56 + k) with ((e' - (e + -56)) + (e + k)) by lia.
    rewrite Z.pow_add_r by lia. rewrite Pos2Z.inj_mul in Hx. nia. }
  assert (0 < 2 ^ k) by (apply Z.pow_pos_nonneg; lia).
  assert (e ≤ 64).
  { destruct (decide (e ≤ 64)) as [|He64]; [done|exfalso].
    assert (2 ^ 65 * 2 ^ k ≤ 2 ^ (e + k)).
    { rewrite <- Z.pow_add_r by lia. apply Z.pow_le_mono_r; lia. }
    unfold max_int64 in Hd. nia. }
  destruct (binary_round_aux _ _ _ _ _ _) as [s|s| |s m' e']; [done| |exfalso; apply Hb; lia|].
  - exfalso. destruct Hb as (m' & e' & He' & Hb); [lia|]. apply Hmm in Hb; [|lia].
    assert (2 ^ 200 * 2 ^ k ≤ 2 ^ (e' + 56 + k)).
    { rewrite <- Z.pow_add_r by lia. apply Z.pow_le_mono_r; lia. }
    unfold max_int64 in Hd. nia.
  - destruct Hb as (-> & He' & Hb); [lia|]. apply Hmm in Hb; [|lia]. clear Hmm.
    unfold int64_of_float64.
    set (a := if e' <? 0 then Z.pos m' / 2 ^ (- e') else Z.pos m' * 2 ^ e').
    assert (Ha : a * 2 ^ (56 + k) ≤ Z.pos m' * 2 ^ (e' + 56 + k) ∧ 0 ≤ a).
    { unfold a. destruct (Z.ltb_spec e' 0).
      - split; [|apply Z.div_pos; lia].
        assert (Hsplit : 2 ^ (56 + k) = 2 ^ (- e') * 2 ^ (e' + 56 + k)).
        { rewrite <- Z.pow_add_r by lia. f_equal. lia. }
        rewrite Hsplit. pose proof (div_pow_bound (Z.pos m') (- e')) as Hdiv.
        assert (0 ≤ 2 ^ (e' + 56 + k)) by (apply Z.pow_nonneg; lia). nia.
      - split; [|lia]. replace (e' + 56 + k) with (e' + (56 + k)) by lia.
        rewrite (Z.pow_add_r 2 e') by lia. lia. }
    assert (2 * a ≤ Z.pos p).
    { rewrite Z.pow_add_r in Ha by lia. nia. }
    rewrite (andb_true_intro (b1 := min_int64 <=? a)) by
      (split; apply Z.leb_le; unfold min_int64, max_int64 in *; lia).
    apply Z.div_le_lower_bound; lia.
Qed.

(** The lifetime of a connection with the receiver's fraction: positive, and
    never above the configured cap. *)
Lemma Spread_tenth_range `{r : Rand} other d :
  rand_ok r → 0 < d ≤ max_int64 → 0 < Spread other d float64_tenth ≤ d.
Proof.
  intros Hr Hd. unfold Spread.
  destruct (Z.leb_spec d 0); [lia|]. simpl orb.
  change (SFleb float64_tenth float64_zero) with false.
  change (SFltb float64_one float64_tenth) with false. cbv iota.
  pose proof (span_tenth_bound other d Hd) as Hb.
  set (span := int64_of_float64 _ _) in *.
  destruct (Z.leb_spec span 0); [lia|]. destruct (Hr span); [done|].
  assert (2 * (d / 2) ≤ d) by (apply Z.mul_div_le; lia).
  rewrite int64_small by in_range. lia.
Qed.

(** * Properties *)

(** After [n > 0] consecutive failures the wait is the initial interval doubled
    [n] times, capped at the maximum, with no overflow for any setting below
    2^62 ns (146 years); before that it is the initial interval. *)
Theorem backoff_ladder initial max n :
  0 ≤ initial ≤ 2 ^ 62 - 1 → 0 ≤ max ≤ 2 ^ 62 - 1 →
  ladder initial max n =
    match n with O => initial | S _ => Z.min (initial * 2 ^ Z.of_nat n) max end.
Proof. intros Hi Hm. destruct n; [done|]. apply ladder_closed; lia. Qed.

Lemma backoff_ladder_witness :
  (0 ≤ 1 * Second ≤ 2 ^ 62 - 1) ∧ (0 ≤ 30 * Second ≤ 2 ^ 62 - 1) ∧
  ladder (1 * Second) (30 * Second) 5 = Z.min (1 * Second * 2 ^ 5) (30 * Second).
Proof.
  assert (H1 : 0 ≤ 1 * Second ≤ 2 ^ 62 - 1) by (unfold Second; lia).
  assert (H2 : 0 ≤ 30 * Second ≤ 2 ^ 62 - 1) by (unfold Second; lia).
  exact (conj H1 (conj H2 (backoff_ladder (1 * Second) (30 * Second) 5 H1 H2))).
Defined.

(** The jitter in [connectionContext] only ever shortens a stream's lifetime,
    and never to nothing, whatever the random draw and despite the float
    arithmetic. *)
Theorem lifetime_spread (r : Rand) other d :
  rand_ok r → 0 < d ≤ max_int64 → 0 < @Spread r other d float64_tenth ≤ d.
Proof. apply Spread_tenth_range. Qed.

Definition sample_rand : Rand := λ n, n - 1.

Lemma lifetime_spread_witness :
  rand_ok sample_rand ∧ 0 < @Spread sample_rand 0 (1 * Hour) float64_tenth ≤ 1 * Hour.
Proof.
  assert (Hr : rand_ok sample_rand).
  { intros n Hn. change (0 ≤ n - 1 < n). lia. }
  assert (Hh : 0 < 1 * Hour ≤ max_int64) by (unfold Hour, Minute, Second, max_int64; lia).
  exact (conj Hr (lifetime_spread sample_rand 0 (1 * Hour) Hr Hh)).
Defined.
