(* ===== verification/Cursor.v ===== *)
(** Package [internal/cursor], the position itself and the overlap filter:
    [cursor.go] (type [Cursor]) and [filter.go] (type [Filter]). *)
From S2P Require Import Prelude GoTime.
Open Scope Z_scope.

(** * [type Cursor] *)

Record Cursor := MkCursor {
  TS : Z;          (* the timestamp of the last record handed over *)
  Delivered : Z;   (* how many records carrying exactly [TS] were handed over *)
}.

Module Cur.
Definition zero : Cursor := MkCursor 0 0.

Definition IsZero (c : Cursor) : bool := Time.IsZero c.(TS).

Definition After (c other : Cursor) : bool :=
  if Time.Equal c.(TS) other.(TS) then other.(Delivered) <? c.(Delivered)
  else Time.After c.(TS) other.(TS).

(** [Record] mutates its receiver; the model returns the new cursor next to
    the boolean result.  [Delivered++] is 64-bit. *)
Definition Record_ (c : Cursor) (ts : Z) : Cursor * bool :=
  if Time.IsZero ts then (c, false)
  else if Time.After ts c.(TS) then (MkCursor ts 1, true)
  else if Time.Equal ts c.(TS) then (MkCursor c.(TS) (int64 (c.(Delivered) + 1)), true)
  else (c, false).

(** The cursor after a run of records. *)
Definition record_all (c : Cursor) (tss : list Z) : Cursor :=
  foldl (λ c ts, (Record_ c ts).1) c tss.
End Cur.

#[export] Instance cursor_eq_dec : EqDecision Cursor.
Proof. solve_decision. Defined.

(** * [type Filter] *)

Record Filter := MkFilter {
  f_ts : Z;
  f_skip : Z;
  f_done : bool;
}.

Module Filt.
Definition NewFilter (from : Cursor) : Filter :=
  MkFilter from.(TS) from.(Delivered) (Cur.IsZero from).

Definition Keep (f : Filter) (ts : Z) : Filter * bool :=
  if f.(f_done) then (f, true)
  else if Time.IsZero ts then (f, true)
  else if Time.Before ts f.(f_ts) then (f, false)
  else if Time.After ts f.(f_ts) then (MkFilter f.(f_ts) f.(f_skip) true, true)
  else if 0 <? f.(f_skip) then (MkFilter f.(f_ts) (f.(f_skip) - 1) f.(f_done), false)
  else (f, true).

(** What a connection forwards of a run of records: the filter is asked about
    each in order. *)
Fixpoint keep_all {A} (stamp : A → Z) (f : Filter) (l : list A) : list A :=
  match l with
  | [] => []
  | x :: l' =>
      let '(f', keep) := Keep f (stamp x) in
      if keep then x :: keep_all stamp f' l' else keep_all stamp f' l'
  end.
End Filt.

(** * The order on positions *)

(** [cur_lt c d]: [d] is strictly further along than [c]. *)
Definition cur_lt (c d : Cursor) : Prop := Cur.After d c = true.
Definition cur_le (c d : Cursor) : Prop := c = d ∨ cur_lt c d.

Lemma cur_lt_spec c d :
  cur_lt c d ↔ TS c < TS d ∨ (TS c = TS d ∧ Delivered c < Delivered d).
Proof.
  unfold cur_lt, Cur.After, Time.Equal, Time.After. zcases; lia.
Qed.

#[export] Instance cur_lt_dec c d : Decision (cur_lt c d).
Proof. unfold cur_lt. apply _. Defined.

#[export] Instance cur_lt_strict : StrictOrder cur_lt.
Proof.
  split.
  - intros c. unfold complement. rewrite cur_lt_spec. lia.
  - intros c d e. rewrite !cur_lt_spec. lia.
Qed.

Lemma cur_le_spec c d :
  cur_le c d ↔ TS c < TS d ∨ (TS c = TS d ∧ Delivered c ≤ Delivered d).
Proof.
  unfold cur_le. rewrite cur_lt_spec. destruct c as [t n], d as [u m]; simpl.
  split; [naive_solver lia|]. intros [?|[-> ?]]; [by right; left|].
  destruct (decide (n = m)) as [->|]; [by left|right; right; lia].
Qed.

#[export] Instance cur_le_preorder : PreOrder cur_le.
Proof.
  split; [by left|]. intros c d e. rewrite !cur_le_spec. lia.
Qed.

Lemma cur_lt_le c d : cur_lt c d → cur_le c d.
Proof. by right. Qed.

(** The order is total: of two distinct positions one is further along. *)
Lemma cur_trichotomy c d : cur_lt c d ∨ c = d ∨ cur_lt d c.
Proof.
  rewrite !cur_lt_spec. destruct c as [t n], d as [u m]; simpl.
  destruct (decide (t = u)) as [->|]; [|lia].
  destruct (decide (n = m)) as [->|]; [by right; left|lia].
Qed.

(** The zero cursor is behind every position. *)
Lemma cur_zero_min c : 0 ≤ TS c → 0 ≤ Delivered c → cur_le Cur.zero c.
Proof. intros. rewrite cur_le_spec. simpl. lia. Qed.

#[export] Hint Resolve cur_lt_le cur_zero_min : receiver.

(** * What [Record] does to a position *)

(** [Record_moves c ts] is the case in which the record counts. *)
Lemma Record_false c ts c' : Cur.Record_ c ts = (c', false) → c' = c ∧ (ts = 0 ∨ ts < TS c).
Proof.
  unfold Cur.Record_, Time.IsZero, Time.After, Time.Equal. zcases; naive_solver lia.
Qed.

Lemma Record_true c ts c' :
  Cur.Record_ c ts = (c', true) →
  ts ≠ 0 ∧ TS c' = ts ∧
  ((TS c < ts ∧ Delivered c' = 1) ∨ (TS c = ts ∧ Delivered c' = int64 (Delivered c + 1))).
Proof.
  unfold Cur.Record_, Time.IsZero, Time.After, Time.Equal. zcases; naive_solver lia.
Qed.

Lemma Record_unstamped c : Cur.Record_ c 0 = (c, false).
Proof. done. Qed.

Lemma Record_fst_le c ts : in_int64 (Delivered c + 1) → cur_le c (Cur.Record_ c ts).1.
Proof.
  intros Hr. destruct (Cur.Record_ c ts) as [c' []] eqn:E; simpl.
  - apply Record_true in E as (_ & Ht & [[? ?]|[? Hd]]); rewrite cur_le_spec; [lia|].
    rewrite int64_small in Hd by done. lia.
  - apply Record_false in E as [-> _]. by left.
Qed.

Lemma record_all_app c l k :
  Cur.record_all c (l ++ k) = Cur.record_all (Cur.record_all c l) k.
Proof. apply foldl_app. Qed.

(** * Positions of a log

    [pos l] is the cursor of a container whose stream [l] has been delivered
    from the start. *)
Section positions.
Context {A : Type} (stamp : A → Z).

Definition pos (l : list A) : Cursor := Cur.record_all Cur.zero (stamp <$> l).

(** Records carrying no timestamp, and records carrying exactly [t]. *)
Definition unstamped (l : list A) : list A := filter (λ x, stamp x = 0) l.
Definition count_at (t : Z) (l : list A) : Z :=
  Z.of_nat (length (filter (λ x, stamp x = t) l)).

Lemma count_at_cons t x l :
  count_at t (x :: l) = (if decide (stamp x = t) then 1 else 0) + count_at t l.
Proof. unfold count_at. rewrite filter_cons. case_decide; simpl; lia. Qed.

Lemma count_at_app t l k : count_at t (l ++ k) = count_at t l + count_at t k.
Proof. unfold count_at. rewrite filter_app, length_app. lia. Qed.

Lemma count_at_bound t l : 0 ≤ count_at t l ≤ Z.of_nat (length l).
Proof.
  unfold count_at. pose proof (length_filter (λ x, stamp x = t) l). lia.
Qed.

Lemma count_at_none t l : Forall (λ x, stamp x ≠ t) l → count_at t l = 0.
Proof.
  induction 1; [done|]. rewrite count_at_cons. rewrite decide_False by done. lia.
Qed.

Lemma pos_snoc l x : pos (l ++ [x]) = (Cur.Record_ (pos l) (stamp x)).1.
Proof. unfold pos. rewrite fmap_app, record_all_app. done. Qed.

Lemma pos_app l k : pos (l ++ k) = Cur.record_all (pos l) (stamp <$> k).
Proof. unfold pos. by rewrite fmap_app, record_all_app. Qed.

Lemma record_all_unstamped c l :
  Forall (λ x, stamp x = 0) l → Cur.record_all c (stamp <$> l) = c.
Proof.
  induction 1 as [|x l Hx Hl IH]; [done|]. cbn [fmap list_fmap].
  unfold Cur.record_all in *. cbn [foldl]. by rewrite Hx, Record_unstamped.
Qed.

(** A position is zero or the stamp of a record behind it. *)
Lemma pos_in l : TS (pos l) = 0 ∨ ∃ x, x ∈ l ∧ stamp x = TS (pos l).
Proof.
  induction l as [|x l IH] using rev_ind; [by left|]. rewrite pos_snoc.
  destruct (Cur.Record_ (pos l) (stamp x)) as [c' []] eqn:Hr; simpl.
  - apply Record_true in Hr as (_ & -> & _). right. exists x. split; [set_solver|done].
  - apply Record_false in Hr as [-> _]. destruct IH as [?|(y & ? & ?)]; [by left|right].
    exists y. split; [set_solver|done].
Qed.

(** Older records in front leave no trace in a position. *)
Lemma pos_app_newer l k :
  Forall (λ x, 0 ≤ stamp x) (l ++ k) →
  (∀ x y, x ∈ l → y ∈ k → stamp y ≠ 0 → stamp x < stamp y) →
  ¬ Forall (λ x, stamp x = 0) k → pos (l ++ k) = pos k.
Proof.
  induction k as [|y k IH] using rev_ind; intros Hs Hlt Hk; [by destruct Hk|].
  rewrite app_assoc in Hs |- *. apply Forall_app in Hs as [Hs Hy]. rewrite Forall_singleton in Hy.
  rewrite !pos_snoc. destruct (decide (Forall (λ x, stamp x = 0) k)) as [Hk0|Hk0].
  - assert (Hy0 : stamp y ≠ 0).
    { intros Hy0. apply Hk. apply Forall_app. by rewrite Forall_singleton. }
    assert (Hl : TS (pos l) < stamp y).
    { destruct (pos_in l) as [->|(x & Hx & <-)]; [lia|]. apply Hlt; set_solver. }
    rewrite pos_app, record_all_unstamped by done.
    assert (pos k = Cur.zero) as -> by by apply record_all_unstamped.
    unfold Cur.Record_, Time.IsZero, Time.After. simpl. zcases; try lia. done.
  - rewrite IH; [done|done| |done]. intros x z ? ?. apply Hlt; set_solver.
Qed.

(** The position is the latest stamp seen, and the count of the records that
    carry it; in any order of arrival. *)
Lemma pos_spec l :
  Forall (λ x, 0 ≤ stamp x) l → Z.of_nat (length l) ≤ max_int64 →
  0 ≤ TS (pos l) ∧
  Forall (λ x, stamp x ≤ TS (pos l)) l ∧
  (TS (pos l) = 0 → Delivered (pos l) = 0) ∧
  (TS (pos l) ≠ 0 → Delivered (pos l) = count_at (TS (pos l)) l).
Proof.
  induction l as [|x l IH] using rev_ind; intros Hpos Hlen; [done|].
  apply Forall_app in Hpos as [Hpos Hx]. apply Forall_singleton in Hx.
  rewrite length_app in Hlen. simpl in Hlen.
  destruct IH as (H0 & Hle & Hz & Hnz); [done|lia|].
  rewrite pos_snoc. set (c := pos l) in *.
  destruct (Cur.Record_ c (stamp x)) as [c' []] eqn:E; simpl.
  - apply Record_true in E as (Hxz & -> & Hcase).
    split_and!; [lia| |lia|intros _].
    + apply Forall_app; split; [|by apply Forall_singleton].
      eapply Forall_impl; [done|]. simpl. lia.
    + rewrite count_at_app, count_at_cons, decide_True by done.
      pose proof (count_at_bound (stamp x) l).
      destruct Hcase as [[Hlt ->]|[Heq ->]].
      * rewrite (count_at_none _ l); [done|].
        eapply Forall_impl; [done|]. simpl. lia.
      * rewrite Hnz, Heq by lia. change (count_at (stamp x) []) with 0.
        rewrite int64_small; [lia|in_range].
  - apply Record_false in E as [-> Hcase].
    split_and!; [lia| |done|intros Hne].
    + apply Forall_app; split; [done|]. apply Forall_singleton. lia.
    + rewrite count_at_app, count_at_cons, decide_False by lia.
      change (count_at (TS c) []) with 0. rewrite Hnz by done. lia.
Qed.
End positions.

(** * What the filter forwards *)

(** A filter that has not yet seen a record past its position. *)
Definition armed (t skip : Z) : Filter := MkFilter t skip false.

Section filtering.
Context {A : Type} (stamp : A → Z).
Implicit Types (l k pre suf q : list A).

Notation keep_all := (Filt.keep_all stamp).

Lemma keep_all_done f l : f_done f = true → keep_all f l = l.
Proof.
  induction l as [|x l IH]; [done|]. intros Hf. simpl. unfold Filt.Keep.
  rewrite Hf. by rewrite IH.
Qed.

(** One step of an armed filter, by the position of the record. *)
Lemma keep_armed t s x l :
  keep_all (armed t s) (x :: l) =
    if decide (stamp x = 0) then x :: keep_all (armed t s) l
    else if decide (stamp x < t) then keep_all (armed t s) l
    else if decide (t < stamp x) then x :: l
    else if decide (0 < s) then keep_all (armed t (s - 1)) l
    else x :: keep_all (armed t s) l.
Proof.
  simpl. unfold Filt.Keep, armed, Time.IsZero, Time.Before, Time.After; simpl.
  repeat case_decide; zcases; try lia; try done.
  by rewrite keep_all_done.
Qed.

(** Through the part of the log already behind the position: only records
    without a timestamp come out, and the skip budget is spent exactly. *)
Lemma keep_all_behind t s q l :
  t ≠ 0 → Forall (λ x, stamp x = 0 ∨ stamp x ≤ t) q →
  0 ≤ s →
  keep_all (armed t (s + count_at stamp t q)) (q ++ l) =
    unstamped stamp q ++ keep_all (armed t s) l.
Proof.
  intros Ht Hq Hs. induction Hq as [|x q Hx Hq IH].
  { change (count_at stamp t []) with 0. by rewrite Z.add_0_r. }
  pose proof (count_at_bound stamp t q) as Hb.
  rewrite count_at_cons. rewrite <- app_comm_cons, keep_armed.
  unfold unstamped. rewrite filter_cons.
  destruct (decide (stamp x = 0)) as [Hx0|Hx0].
  { rewrite decide_False by lia. rewrite Z.add_0_l, IH. done. }
  destruct (decide (stamp x < t)) as [Hlt|Hge].
  { rewrite decide_False by lia. rewrite Z.add_0_l, IH. done. }
  rewrite (decide_False (P := t < stamp x)) by lia.
  rewrite (decide_True (P := stamp x = t)) by lia.
  rewrite decide_True by lia.
  replace (s + (1 + count_at stamp t q) - 1) with (s + count_at stamp t q) by lia.
  by rewrite IH.
Qed.

(** Past the position nothing is dropped. *)
Lemma keep_all_ahead t l :
  Forall (λ x, stamp x = 0 ∨ t ≤ stamp x) l → keep_all (armed t 0) l = l.
Proof.
  induction 1 as [|x l Hx Hl IH]; [done|]. rewrite keep_armed.
  repeat case_decide; try lia; by rewrite ?IH.
Qed.

(** The filter only ever drops records; it neither reorders nor invents any. *)
Lemma keep_all_sublist f l : keep_all f l `sublist_of` l.
Proof.
  revert f. induction l as [|x l IH]; intros f; [done|]. simpl.
  destruct (Filt.Keep f (stamp x)) as [f' []]; by constructor.
Qed.

(** [resumed pre q suf]: [pre] was delivered, the server re-reads from some
    point of [pre] on, skipping only records older than the position, and
    [q ++ suf] is what it sends. *)
Record resumed (pre q suf : list A) : Prop := {
  re_stamps : Forall (λ x, 0 ≤ stamp x) pre;
  re_length : Z.of_nat (length pre) ≤ max_int64;
  re_overlap : ∃ p0, pre = p0 ++ q ∧
    Forall (λ x, stamp x < TS (pos stamp pre)) (filter (λ x, stamp x ≠ 0) p0) ∧
    (TS (pos stamp pre) = 0 → p0 = []);
  re_ahead : Forall (λ x, stamp x = 0 ∨ TS (pos stamp pre) ≤ stamp x) suf;
}.

(** What a resumed connection forwards: the records that cannot be placed,
    then everything not yet delivered. *)
Lemma resumed_keep pre q suf :
  resumed pre q suf →
  keep_all (Filt.NewFilter (pos stamp pre)) (q ++ suf) = unstamped stamp q ++ suf.
Proof.
  intros [Hpos Hlen (p0 & Hpre & Hp0 & Hz0) Hsuf].
  destruct (pos_spec stamp pre) as (H0 & Hle & Hz & Hnz); [done|done|].
  set (c := pos stamp pre) in *.
  destruct (decide (TS c = 0)) as [Hc|Hc].
  - rewrite keep_all_done.
    + f_equal. rewrite Hz0 in Hpre by done. simpl in Hpre. subst q.
      unfold unstamped. symmetry. apply filter_all.
      apply Forall_forall. intros x Hx.
      rewrite Forall_forall in Hpos, Hle. specialize (Hpos x Hx). specialize (Hle x Hx). lia.
    + unfold Filt.NewFilter, Cur.IsZero, Time.IsZero. simpl. by apply Z.eqb_eq.
  - replace (Filt.NewFilter c) with (armed (TS c) (0 + count_at stamp (TS c) q)).
    + rewrite keep_all_behind; [|done| |lia].
      * f_equal. by apply keep_all_ahead.
      * rewrite Hpre in Hle. apply Forall_app in Hle as [_ Hle].
        eapply Forall_impl; [done|]. simpl. auto.
    + unfold armed, Filt.NewFilter, Cur.IsZero, Time.IsZero. f_equal.
      * rewrite Hnz by done. rewrite Hpre, count_at_app.
        rewrite (count_at_none _ _ p0); [lia|].
        apply Forall_forall. intros x Hx Heq. rewrite Forall_forall in Hp0.
        specialize (Hp0 x). rewrite list_elem_of_filter in Hp0.
        assert (stamp x < TS c) by (apply Hp0; split; [lia|done]). lia.
      * symmetry. by apply Z.eqb_neq.
Qed.
End filtering.

(** * Filtering piece by piece *)

Section after.
Context {A : Type} (stamp : A → Z).

(** The filter once it has been asked about [l]. *)
Definition filter_after (f : Filter) (l : list A) : Filter :=
  foldl (λ f x, (Filt.Keep f (stamp x)).1) f l.

Lemma filter_after_snoc f l x :
  filter_after f (l ++ [x]) = (Filt.Keep (filter_after f l) (stamp x)).1.
Proof. unfold filter_after. by rewrite foldl_app. Qed.

Lemma keep_all_prefix f l k :
  l `prefix_of` k → Filt.keep_all stamp f l `prefix_of` Filt.keep_all stamp f k.
Proof.
  intros [r ->]. revert f. induction l as [|y l IH]; intros f; simpl; [apply prefix_nil|].
  destruct (Filt.Keep f (stamp y)) as [f' []]; [by apply prefix_cons|done].
Qed.

Lemma keep_all_snoc f l x :
  Filt.keep_all stamp f (l ++ [x]) =
    Filt.keep_all stamp f l ++
    (if (Filt.Keep (filter_after f l) (stamp x)).2 then [x] else []).
Proof.
  revert f. induction l as [|y l IH]; intros f; simpl.
  { by destruct (Filt.Keep f (stamp x)) as [f' []]. }
  destruct (Filt.Keep f (stamp y)) as [f' []]; simpl; by rewrite IH.
Qed.
End after.

(** * Properties *)

(** [Record] reports that the position moved exactly when the new position is
    [After] the old one, in whatever order records arrive, and otherwise leaves
    it alone. *)
Theorem Record_reports_progress c ts :
  in_int64 (Delivered c + 1) →
  (Cur.Record_ c ts).2 = Cur.After (Cur.Record_ c ts).1 c ∧
  ((Cur.Record_ c ts).2 = false → (Cur.Record_ c ts).1 = c).
Proof.
  intros Hr. unfold Cur.Record_, Cur.After, Time.IsZero, Time.After, Time.Equal.
  rewrite (int64_small (Delivered c + 1)) by done. zcases; simpl in *; zcases; split; try done; exfalso; lia.
Qed.

Lemma Record_reports_progress_witness :
  in_int64 (3 + 1) ∧
  (Cur.Record_ (MkCursor 7 3) 7).2 = Cur.After (Cur.Record_ (MkCursor 7 3) 7).1 (MkCursor 7 3).
Proof.
  assert (H : in_int64 (3 + 1)) by in_range.
  exact (conj H (proj1 (Record_reports_progress (MkCursor 7 3) 7 H))).
Defined.

(** C36: The cursor of a delivered run of records stands at the latest timestamp
    seen, one that some record of the run carries unless none carries any, and
    counts exactly the records carrying it, in any order of arrival and for any
    number of records a 64-bit counter can hold. *)
Theorem position_counts {A} (stamp : A → Z) (l : list A) :
  Forall (λ x, 0 ≤ stamp x) l → Z.of_nat (length l) ≤ max_int64 →
  let c := pos stamp l in
  Forall (λ x, stamp x ≤ TS c) l ∧
  (if decide (Forall (λ x, stamp x = 0) l) then TS c = 0 else ∃ x, x ∈ l ∧ stamp x = TS c ∧ TS c ≠ 0) ∧
  Delivered c = (if decide (TS c = 0) then 0 else count_at stamp (TS c) l).
Proof.
  intros Hs Hl c. destruct (pos_spec stamp l Hs Hl) as (H0 & Hle & Hz & Hnz). fold c in H0, Hle, Hz, Hnz.
  split_and!; [done| |case_decide; auto]. case_decide as Hun.
  - unfold c, pos. by rewrite record_all_unstamped.
  - destruct (decide (TS c = 0)) as [Hc|Hc].
    + exfalso. apply Hun. rewrite Forall_forall in Hs, Hle |- *. intros x Hx.
      specialize (Hs x Hx). specialize (Hle x Hx). lia.
    + destruct (pos_in stamp l) as [?|(x & ? & ?)]; [done|]. by exists x.
Qed.

Lemma position_counts_witness :
  Forall (λ x, 0 ≤ id x) [5; 9; 0; 9; 7] ∧
  Forall (λ x, id x ≤ TS (pos id [5; 9; 0; 9; 7])) [5; 9; 0; 9; 7] ∧
  Delivered (pos id [5; 9; 0; 9; 7]) =
    (if decide (TS (pos id [5; 9; 0; 9; 7]) = 0) then 0
     else count_at id (TS (pos id [5; 9; 0; 9; 7])) [5; 9; 0; 9; 7]).
Proof.
  assert (H1 : Forall (λ x, 0 ≤ id x) [5; 9; 0; 9; 7]) by (repeat constructor; unfold id; lia).
  assert (H2 : Z.of_nat (length [5; 9; 0; 9; 7]) ≤ max_int64) by (unfold max_int64; simpl; lia).
  destruct (position_counts id [5; 9; 0; 9; 7] H1 H2) as (Hle & _ & Hd).
  exact (conj H1 (conj Hle Hd)).
Defined.

(** C15: On a reconnect the overlap filter drops every stamped record already
    delivered and nothing else: of what the server re-sends it forwards the
    records without a timestamp, followed by everything new. *)
Theorem filter_forwards_rest {A} (stamp : A → Z) (pre q suf : list A) :
  resumed stamp pre q suf →
  Filt.keep_all stamp (Filt.NewFilter (pos stamp pre)) (q ++ suf) = unstamped stamp q ++ suf.
Proof. apply resumed_keep. Qed.

Lemma filter_forwards_rest_witness :
  Filt.keep_all id (Filt.NewFilter (pos id [3; 8; 0; 8])) ([8; 0; 8] ++ [8; 9]) =
    unstamped id [8; 0; 8] ++ [8; 9].
Proof.
  apply (filter_forwards_rest id [3; 8; 0; 8] [8; 0; 8] [8; 9]). split.
  - repeat constructor; unfold id; lia.
  - unfold max_int64; simpl; lia.
  - exists [3]. split; [reflexivity|]. split; [|vm_compute; discriminate].
    vm_compute. repeat constructor.
  - change (TS (pos id [3; 8; 0; 8])) with 8. repeat constructor; unfold id; lia.
Defined.
