(* ===== verification/LogLine.v ===== *)
(** Package [internal/logline]: one log line and its leading timestamp
    ([line.go]), the splitting of oversized lines ([split.go]) and the record
    batch ([batch.go]).  The scanner over a stream ([scanner.go]) is in
    Scanner.v. *)
From S2P Require Import Prelude GoTime.
Open Scope Z_scope.

(** * line.go *)

Record Line := MkLine {
  Body : bytes;
  Timestamp : Z;
}.

#[export] Instance line_eq_dec : EqDecision Line.
Proof. solve_decision. Defined.

(** Returns the timestamp and the rest of the line; the zero time and the whole
    line when there is no space or the prefix does not parse. *)
Definition ParseLeadingTimestamp (line : bytes) : Z * bytes :=
  match IndexByte line byte_space with
  | None => (0, line)
  | Some idx =>
      match Parse_RFC3339Nano (take idx line) with
      | None => (0, line)
      | Some ts => (ts, drop (idx + 1) line)
      end
  end.

(** * split.go *)

Inductive Behavior := BehaviorSplit | BehaviorTruncate.

#[export] Instance behavior_eq_dec : EqDecision Behavior.
Proof. solve_decision. Defined.

Definition BehaviorSplitName : string := "split".
Definition BehaviorTruncateName : string := "truncate".

Definition Behavior_String (b : Behavior) : string :=
  if decide (b = BehaviorTruncate) then BehaviorTruncateName else BehaviorSplitName.

Inductive BehaviorError := MustBe (this that : string).

Definition ParseBehavior (s : string) : result BehaviorError Behavior :=
  if decide (s = EmptyString ∨ s = BehaviorSplitName) then Ok BehaviorSplit
  else if decide (s = BehaviorTruncateName) then Ok BehaviorTruncate
  else Err (MustBe BehaviorSplitName BehaviorTruncateName).

(** [bufio.ScanLines], with [dropCR]. *)
Definition dropCR (data : bytes) : bytes :=
  match last data with
  | Some c => if decide (c = byte_cr) then take (length data - 1) data else data
  | None => data
  end.

Definition ScanLines (data : bytes) (atEOF : bool) : nat * option bytes :=
  if atEOF && bool_decide (data = []) then (0%nat, None)
  else
    match IndexByte data byte_newline with
    | Some i => ((i + 1)%nat, Some (dropCR (take i data)))
    | None => if atEOF then (length data, Some (dropCR data)) else (0%nat, None)
    end.

(** The closure [SplitFunc] returns, with its captured variable [skipping]
    passed and returned; the last component says whether [onOversize] ran.  The
    error it returns is always nil. *)
Definition SplitFunc (maxSize : nat) (behavior : Behavior)
    (skipping : bool) (data : bytes) (atEOF : bool) : nat * option bytes * bool * bool :=
  if bool_decide (behavior = BehaviorTruncate) && skipping then
    match IndexByte data byte_newline with
    | Some i => ((i + 1)%nat, None, false, false)
    | None =>
        if atEOF then (length data, None, false, false)
        else if decide (maxSize ≤ length data)%nat then (length data, None, skipping, false)
        else (0%nat, None, skipping, false)
    end
  else
    let '(advance, token) := ScanLines data atEOF in
    if bool_decide (advance = 0%nat) && bool_decide (token = None)
       && bool_decide (maxSize ≤ length data)%nat
    then (maxSize, Some (take maxSize data),
          (if decide (behavior = BehaviorTruncate) then true else skipping), true)
    else (advance, token, skipping, false).

(** * batch.go *)

(** The collector's [pdata] library, which the batch is built with: the
    conversion of a [time.Time] to a pdata timestamp, and the schema URL of the
    semantic conventions. *)
Class PData := {
  NewTimestampFromTime : Z → Z;
  SchemaURL : string;
}.

(** [logline.Meta]. *)
Record Meta := MkMeta {
  Namespace : string;
  PodName : string;
  PodUID : string;
  ContainerName : string;
  NodeName : string;
  RestartCount : Z;
}.

(** The attribute keys of the semantic conventions, by the names the code uses. *)
Inductive AttrKey :=
| K8SNamespaceNameKey | K8SPodNameKey | K8SPodUIDKey | K8SContainerNameKey
| K8SNodeNameKey | K8SContainerRestartCountKey.

#[export] Instance attrkey_eq_dec : EqDecision AttrKey.
Proof. solve_decision. Defined.

Inductive AttrValue := Str (s : string) | Int (z : Z).

Record LogRecord := MkLogRecord {
  lr_observed : Z;
  lr_timestamp : Z;
  lr_body : bytes;
}.

Record Batch := MkBatch {
  b_schema : string;
  b_resource : list (AttrKey * AttrValue);
  b_scope : string;
  b_records : list LogRecord;
  b_count : Z;
}.

Definition ScopeName : string := "github.com/eugenekurasov/k8spodlogreceiver".

Section batch.
Context `{!PData}.

(** [pcommon.Map.PutStr]/[PutInt]: sets the value of a key, adding it at the
    end when it is new. *)
Fixpoint put (k : AttrKey) (v : AttrValue) (m : list (AttrKey * AttrValue)) :=
  match m with
  | [] => [(k, v)]
  | (k', v') :: m' => if decide (k' = k) then (k, v) :: m' else (k', v') :: put k v m'
  end.

Definition NewBatch (m : Meta) : Batch :=
  let attrs := [] in
  let attrs := put K8SNamespaceNameKey (Str m.(Namespace)) attrs in
  let attrs := put K8SPodNameKey (Str m.(PodName)) attrs in
  let attrs := put K8SPodUIDKey (Str m.(PodUID)) attrs in
  let attrs := put K8SContainerNameKey (Str m.(ContainerName)) attrs in
  let attrs := put K8SNodeNameKey (Str m.(NodeName)) attrs in
  let attrs := put K8SContainerRestartCountKey (Int m.(RestartCount)) attrs in
  MkBatch SchemaURL attrs ScopeName [] 0.

(** [now] is what [time.Now()] returns. *)
Definition Append (b : Batch) (body : bytes) (ts now : Z) : Batch :=
  let ts := if Time.IsZero ts then now else ts in
  let lr := MkLogRecord (NewTimestampFromTime now) (NewTimestampFromTime ts) body in
  MkBatch b.(b_schema) b.(b_resource) b.(b_scope) (b.(b_records) ++ [lr])
    (int64 (b.(b_count) + 1)).

Definition Count (b : Batch) : Z := b.(b_count).
End batch.

(** * Properties *)

(** Every oversize behaviour survives being written to configuration and read
    back, and the empty setting means the default. *)
Theorem Behavior_roundtrip b :
  ParseBehavior (Behavior_String b) = Ok b ∧ ParseBehavior EmptyString = Ok BehaviorSplit ∧
  ∀ s b', ParseBehavior s = Ok b' → s = EmptyString ∨ s = Behavior_String b'.
Proof.
  split_and!; [by destruct b|done|]. intros s b'. unfold ParseBehavior.
  repeat case_decide; naive_solver.
Qed.

(** The records a batch holds, as [Append] is called. *)
Definition append_all `{!PData} (b : Batch) (l : list (Line * Z)) : Batch :=
  foldl (λ b e, Append b e.1.(Body) e.1.(Timestamp) e.2) b l.

Lemma append_all_spec `{!PData} b l :
  Z.of_nat (length b.(b_records)) + Z.of_nat (length l) ≤ max_int64 →
  Count b = Z.of_nat (length b.(b_records)) →
  let b' := append_all b l in
  b'.(b_resource) = b.(b_resource) ∧ b'.(b_schema) = b.(b_schema) ∧ b'.(b_scope) = b.(b_scope) ∧
  b'.(b_records) = b.(b_records) ++
    ((λ e, MkLogRecord (NewTimestampFromTime e.2)
       (NewTimestampFromTime (if decide (e.1.(Timestamp) = 0) then e.2 else e.1.(Timestamp)))
       e.1.(Body)) <$> l) ∧
  Count b' = Z.of_nat (length b'.(b_records)).
Proof.
  revert b. induction l as [|[x now] l IH]; intros b Hlen Hc; simpl.
  { split_and!; [done..|by rewrite app_nil_r|done]. }
  simpl in Hlen. unfold Count in *.
  destruct (IH (Append b (Body x) (Timestamp x) now)) as (-> & -> & -> & Hr & ->); simpl.
  - rewrite length_app; simpl. lia.
  - rewrite length_app, Hc, int64_small by in_range. simpl. lia.
  - split_and!; try done. unfold append_all in *. simpl in *. rewrite Hr, <- app_assoc. simpl.
    unfold Time.IsZero. by destruct (Z.eqb_spec (Timestamp x) 0); case_decide.
Qed.

(** A batch carries the pod's identity on its resource, holds one record per
    appended line in order, stamped with the line's own time or, for a line
    without one, with the time it was read; its count is the number of its
    records. *)
Theorem batch_contents `{!PData} m l :
  Z.of_nat (length l) ≤ max_int64 →
  let b := append_all (NewBatch m) l in
  b.(b_resource) =
    [(K8SNamespaceNameKey, Str m.(Namespace)); (K8SPodNameKey, Str m.(PodName));
     (K8SPodUIDKey, Str m.(PodUID)); (K8SContainerNameKey, Str m.(ContainerName));
     (K8SNodeNameKey, Str m.(NodeName)); (K8SContainerRestartCountKey, Int m.(RestartCount))] ∧
  lr_body <$> b.(b_records) = (λ e, e.1.(Body)) <$> l ∧
  lr_timestamp <$> b.(b_records) =
    (λ e, NewTimestampFromTime (if decide (e.1.(Timestamp) = 0) then e.2 else e.1.(Timestamp))) <$> l ∧
  Count b = Z.of_nat (length l).
Proof.
  intros Hl b. destruct (append_all_spec (NewBatch m) l Hl eq_refl) as (Hres & _ & _ & Hr & Hc).
  unfold b. rewrite Hres, Hc, Hr. simpl. rewrite <- !list_fmap_compose, length_fmap. done.
Qed.

Lemma batch_contents_witness :
  Count (append_all (H := Build_PData id EmptyString)
    (NewBatch (H := Build_PData id EmptyString) (MkMeta "ns" "p" "u" "c" "n" 2))
    [(MkLine (bs "a") 5, 7); (MkLine (bs "b") 0, 8)]) = 2.
Proof.
  assert (Hl : Z.of_nat (length [(MkLine (bs "a") 5, 7); (MkLine (bs "b") 0, 8)]) ≤ max_int64)
    by (unfold max_int64; simpl; lia).
  exact (proj2 (proj2 (proj2 (batch_contents (H := Build_PData id EmptyString)
    (MkMeta "ns" "p" "u" "c" "n" 2) _ Hl)))).
Defined.
