(* ===== verification/Scanner.v ===== *)
(** [internal/logline/scanner.go]: reading a pod log stream as records.

    [Scanner] is a thin wrapper over [bufio.Scanner]; the module models the
    [Scan] loop of [bufio.Scanner] as far as the receiver uses it (its buffer
    window, growth and read loop) over an [io.Reader] that delivers a stream in
    arbitrary pieces. *)
From S2P Require Import Prelude GoTime LogLine.
Open Scope Z_scope.

(** * [io.Reader] *)

Inductive ReadErr := EOF | ErrTooLong | ErrNoProgress | ReadFailed (why : string).

#[export] Instance readerr_eq_dec : EqDecision ReadErr.
Proof. solve_decision. Defined.

(** A reader holds the pieces it will deliver and the error it ends with.  An
    [io.Reader] may return that error together with the last piece or by itself
    on the following call: [rd_joined] says which this one does. *)
Record Reader := MkReader {
  rd_chunks : list bytes;
  rd_err : ReadErr;
  rd_joined : bool;
}.

(** [Read(p)] with [len(p) = k]. *)
Definition Read (k : nat) (r : Reader) : bytes * option ReadErr * Reader :=
  match r.(rd_chunks) with
  | [] => ([], Some r.(rd_err), r)
  | c :: rest =>
      if decide (length c ≤ k)%nat then
        (c, (if r.(rd_joined) && bool_decide (rest = []) then Some r.(rd_err) else None),
          MkReader rest r.(rd_err) r.(rd_joined))
      else (take k c, None, MkReader (drop k c :: rest) r.(rd_err) r.(rd_joined))
  end.

Definition maxConsecutiveEmptyReads : nat := 100.

(** The inner read loop of [bufio.Scanner.Scan]. *)
Fixpoint read_loop (tries : nat) (k : nat) (r : Reader) : bytes * option ReadErr * Reader :=
  let '(b, e, r') := Read k r in
  match e with
  | Some _ => (b, e, r')
  | None =>
      if decide (b = []) then
        match tries with
        | O => ([], Some ErrNoProgress, r')
        | S tries' => read_loop tries' k r'
        end
      else (b, None, r')
  end.

(** * [Scanner] *)

Definition initialBufSize : nat := Z.to_nat (64 * 1024).

(** [sc_data] is the window [buf[start:end]], [sc_cap] is [len(buf)]. *)
Record Scanner := MkScanner {
  sc_reader : Reader;
  sc_maxTokenSize : nat;
  sc_behavior : Behavior;
  sc_start : nat;
  sc_data : bytes;
  sc_cap : nat;
  sc_err : option ReadErr;
  sc_skipping : bool;      (* the variable [SplitFunc] captures *)
  sc_oversize : Z;         (* how often [onOversize] ran *)
}.

Definition NewScanner (r : Reader) (maxSize : nat) (behavior : Behavior) : Scanner :=
  let initial := if decide (maxSize < initialBufSize)%nat then maxSize else initialBufSize in
  MkScanner r maxSize behavior 0 [] initial None false 0.

(** Moving data to the front of the buffer, and growing it when it is full;
    [None] is [ErrTooLong]. *)
Definition startBufSize : nat := Z.to_nat 4096.

Definition make_room (maxTokenSize start : nat) (data : bytes) (cap : nat) : option (nat * nat) :=
  let end_ := (start + length data)%nat in
  let start := if decide (0 < start ∧ (end_ = cap ∨ cap / 2 < start))%nat then 0%nat else start in
  let end_ := (start + length data)%nat in
  if decide (end_ = cap) then
    if decide (maxTokenSize ≤ cap)%nat then None
    else
      let newSize := (cap * 2)%nat in
      let newSize := if decide (newSize = 0)%nat then startBufSize else newSize in
      Some (0%nat, Nat.min newSize maxTokenSize)
  else Some (start, cap).

(** The first half of an iteration of [Scan]: when there is data, or the stream
    has ended, the split function is asked for a token and the window moves. *)
Definition split_once (s : Scanner) : Scanner * option bytes :=
  if negb (bool_decide (s.(sc_data) = [])) || bool_decide (is_Some s.(sc_err)) then
    let '(advance, token, skipping, oversize) :=
      SplitFunc s.(sc_maxTokenSize) s.(sc_behavior) s.(sc_skipping) s.(sc_data)
        (bool_decide (is_Some s.(sc_err))) in
    (MkScanner s.(sc_reader) s.(sc_maxTokenSize) s.(sc_behavior) (s.(sc_start) + advance)
       (drop advance s.(sc_data)) s.(sc_cap) s.(sc_err) skipping
       (if oversize : bool then s.(sc_oversize) + 1 else s.(sc_oversize)), token)
  else (s, None).

(** The second half, reached without a token: stop if the stream has ended,
    otherwise make room and read. *)
Definition refill (s : Scanner) : Scanner * option (option bytes) :=
  match s.(sc_err) with
  | Some _ =>
      (MkScanner s.(sc_reader) s.(sc_maxTokenSize) s.(sc_behavior) 0 [] s.(sc_cap)
         s.(sc_err) s.(sc_skipping) s.(sc_oversize), Some None)
  | None =>
      match make_room s.(sc_maxTokenSize) s.(sc_start) s.(sc_data) s.(sc_cap) with
      | None =>
          (MkScanner s.(sc_reader) s.(sc_maxTokenSize) s.(sc_behavior) s.(sc_start) s.(sc_data)
             s.(sc_cap) (Some ErrTooLong) s.(sc_skipping) s.(sc_oversize), Some None)
      | Some (start, cap) =>
          let '(b, e, r) :=
            read_loop maxConsecutiveEmptyReads (cap - (start + length s.(sc_data)))
              s.(sc_reader) in
          (MkScanner r s.(sc_maxTokenSize) s.(sc_behavior) start (s.(sc_data) ++ b) cap e
             s.(sc_skipping) s.(sc_oversize), None)
      end
  end.

(** One iteration of the loop of [Scan]: [Some (Some tok)] returns true with a
    token, [Some None] returns false, [None] goes round again. *)
Definition scan_iter (s : Scanner) : Scanner * option (option bytes) :=
  let '(s, token) := split_once s in
  match token with
  | Some tok => (s, Some (Some tok))
  | None => refill s
  end.

Fixpoint scan_loop (fuel : nat) (s : Scanner) : option (Scanner * option bytes) :=
  match fuel with
  | O => None
  | S fuel' =>
      let '(s', r) := scan_iter s in
      match r with
      | Some tok => Some (s', tok)
      | None => scan_loop fuel' s'
      end
  end.

(** Bytes the reader has still to deliver. *)
Definition rd_bytes (r : Reader) : bytes := concat r.(rd_chunks).

(** Every further iteration reads a byte or meets the end of the stream. *)
Definition scan_fuel (s : Scanner) : nat :=
  (length (rd_bytes s.(sc_reader)) + 2)%nat.

(** [Scanner.Scan] with [Scanner.Text]. *)
Definition Scan (s : Scanner) : option (Scanner * option bytes) := scan_loop (scan_fuel s) s.

(** [Scanner.Line]. *)
Definition Scanner_Line (tok : bytes) : Line :=
  let '(ts, body) := ParseLeadingTimestamp tok in MkLine body ts.

(** [Scanner.Err]: reaching the end of the stream is not an error. *)
Definition Scanner_Err (s : Scanner) : option ReadErr :=
  match s.(sc_err) with
  | Some EOF => None
  | e => e
  end.

(** The loop [for scanner.Scan() { ... scanner.Line() }] run to its end. *)
Fixpoint scan_lines (fuel : nat) (s : Scanner) : option (list Line * option ReadErr) :=
  match fuel with
  | O => None
  | S fuel' =>
      match Scan s with
      | None => None
      | Some (s', None) => Some ([], Scanner_Err s')
      | Some (s', Some tok) =>
          '(ls, e) ← scan_lines fuel' s'; Some (Scanner_Line tok :: ls, e)
      end
  end.

(** Enough calls of [Scan] for a whole stream: each token takes a byte. *)
Definition stream_fuel (s : Scanner) : nat :=
  (length s.(sc_data) + length (rd_bytes s.(sc_reader)) + 1)%nat.

(** Everything a connection's reader goroutine produces from a stream. *)
Definition read_stream (r : Reader) (maxSize : nat) (behavior : Behavior)
    : option (list Line * option ReadErr) :=
  let s := NewScanner r maxSize behavior in scan_lines (stream_fuel s) s.

(** * The reference: records of a whole stream

    One pass over the bytes of the stream, remembering the current record so
    far ([acc]) and whether the tail of a truncated line is being skipped.  It
    knows nothing of buffers, reads or calls of [SplitFunc]. *)
Fixpoint records (maxSize : nat) (behavior : Behavior) (skipping : bool) (acc s : bytes)
    : list bytes :=
  match s with
  | [] => if skipping || bool_decide (acc = []) then [] else [dropCR acc]
  | b :: s' =>
      if skipping then
        records maxSize behavior (negb (bool_decide (b = byte_newline))) [] s'
      else if decide (b = byte_newline) then
        dropCR acc :: records maxSize behavior false [] s'
      else if decide (maxSize ≤ S (length acc))%nat then
        (acc ++ [b]) :: records maxSize behavior (bool_decide (behavior = BehaviorTruncate)) [] s'
      else records maxSize behavior false (acc ++ [b]) s'
  end.

Section records_lemmas.
Context (mx : nat) (bh : Behavior).
Notation recs := (records mx bh).

Lemma records_skip_line w t :
  byte_newline ∉ w → recs true [] (w ++ byte_newline :: t) = recs false [] t.
Proof.
  induction w as [|b w IH]; intros Hn; simpl; [done|].
  rewrite bool_decide_false by set_solver. apply IH. set_solver.
Qed.

Lemma records_skip_more w t :
  byte_newline ∉ w → recs true [] (w ++ t) = recs true [] t.
Proof.
  induction w as [|b w IH]; intros Hn; simpl; [done|].
  rewrite bool_decide_false by set_solver. apply IH. set_solver.
Qed.

(** Bytes of the current line that leave it below the cap are remembered. *)
Lemma records_take acc w t :
  byte_newline ∉ w → (length acc + length w < mx)%nat →
  recs false acc (w ++ t) = recs false (acc ++ w) t.
Proof.
  revert acc. induction w as [|b w IH]; intros acc Hn Hl; simpl in *.
  { by rewrite app_nil_r. }
  rewrite decide_False by set_solver. rewrite decide_False by lia.
  rewrite IH; [by rewrite <- app_assoc|set_solver|rewrite length_app; simpl; lia].
Qed.

Lemma records_line w t :
  byte_newline ∉ w → (length w < mx)%nat →
  recs false [] (w ++ byte_newline :: t) = dropCR w :: recs false [] t.
Proof. intros. rewrite records_take by done. done. Qed.

Lemma records_chop w t :
  byte_newline ∉ w → length w = mx → (0 < mx)%nat →
  recs false [] (w ++ t) = w :: recs (bool_decide (bh = BehaviorTruncate)) [] t.
Proof.
  intros Hn Hl Hmx. destruct w as [|b w _] using rev_ind; [simpl in *; lia|].
  rewrite length_app in Hl. simpl in Hl. rewrite <- app_assoc.
  rewrite records_take; [|set_solver|simpl; lia]. simpl.
  rewrite decide_False by set_solver. by rewrite decide_True by lia.
Qed.

Lemma records_tail w :
  byte_newline ∉ w → (length w < mx)%nat →
  recs false [] w = if bool_decide (w = []) then [] else [dropCR w].
Proof.
  intros Hn Hl. rewrite <- (app_nil_r w) at 1. by rewrite records_take by done.
Qed.
End records_lemmas.

(** * [SplitFunc], case by case *)

Section split_cases.
Context (mx : nat) (bh : Behavior).
Notation is_trunc := (bool_decide (bh = BehaviorTruncate)).

Lemma split_skip_newline data eof i :
  bh = BehaviorTruncate → IndexByte data byte_newline = Some i →
  SplitFunc mx bh true data eof = ((i + 1)%nat, None, false, false).
Proof. intros -> Hi. unfold SplitFunc. simpl. by rewrite Hi. Qed.

Lemma split_line sk data eof i :
  is_trunc && sk = false → IndexByte data byte_newline = Some i →
  SplitFunc mx bh sk data eof = ((i + 1)%nat, Some (dropCR (take i data)), sk, false).
Proof.
  intros Hsk Hi. unfold SplitFunc, ScanLines. rewrite Hsk.
  rewrite (bool_decide_false (data = [])), andb_false_r by (by intros ->).
  rewrite Hi. rewrite (bool_decide_false (_ = 0%nat)) by lia. done.
Qed.

Lemma split_final sk data :
  is_trunc && sk = false → data ≠ [] → byte_newline ∉ data →
  SplitFunc mx bh sk data true = (length data, Some (dropCR data), sk, false).
Proof.
  intros Hsk Hd Hn. unfold SplitFunc, ScanLines. rewrite Hsk.
  rewrite (bool_decide_false (data = [])) by done.
  apply IndexByte_None in Hn. rewrite Hn.
  by destruct data.
Qed.

Lemma split_chop sk data :
  is_trunc && sk = false → byte_newline ∉ data → length data = mx → (0 < mx)%nat →
  SplitFunc mx bh sk data false = (mx, Some data, (if is_trunc then true else sk), true).
Proof.
  intros Hsk Hn Hl Hmx. unfold SplitFunc, ScanLines. rewrite Hsk. simpl.
  apply IndexByte_None in Hn. rewrite Hn.
  rewrite (bool_decide_true (mx ≤ length data)%nat) by lia. simpl.
  rewrite take_ge by lia. by destruct bh.
Qed.

Lemma split_wait sk data :
  is_trunc && sk = false → byte_newline ∉ data → (length data < mx)%nat →
  SplitFunc mx bh sk data false = (0%nat, None, sk, false).
Proof.
  intros Hsk Hn Hl. unfold SplitFunc, ScanLines. rewrite Hsk. simpl.
  apply IndexByte_None in Hn. rewrite Hn.
  by rewrite (bool_decide_false (mx ≤ length data)%nat), andb_false_r by lia.
Qed.
End split_cases.

(** * The scanner against the reference *)

Lemma dropCR_last w : last w ≠ Some byte_cr → dropCR w = w.
Proof. intros Hl. unfold dropCR. destruct (last w); [|done]. by rewrite decide_False by congruence. Qed.

Lemma dropCR_id w : byte_cr ∉ w → dropCR w = w.
Proof. intros Hn. apply dropCR_last. intros Hl%last_Some_elem_of. done. Qed.

Lemma last_app_cons {A} (l k : list A) x : last (l ++ x :: k) = last (x :: k).
Proof. induction l as [|y l IH]; [done|]. rewrite <- app_comm_cons, last_cons, IH, last_cons. by destruct (last k). Qed.

(** The stream a scanner has still to turn into records. *)
Definition sc_stream (s : Scanner) : bytes := s.(sc_data) ++ rd_bytes s.(sc_reader).

Definition sc_records (s : Scanner) : list bytes :=
  records s.(sc_maxTokenSize) s.(sc_behavior) s.(sc_skipping) [] (sc_stream s).

(** A reader that never returns an empty piece without an error (which the
    contract of [io.Reader] discourages).  It may return its final error together
    with the last piece in split mode, if the stream does not end in the middle
    of a line on a carriage return. *)
Definition plain_reader (bh : Behavior) (r : Reader) : Prop :=
  (r.(rd_joined) = true → bh = BehaviorSplit ∧ last (rd_bytes r) ≠ Some byte_cr) ∧
  Forall (λ c, c ≠ []) r.(rd_chunks).

Record sc_inv (s : Scanner) : Prop := {
  inv_cap : (0 < s.(sc_cap) ≤ s.(sc_maxTokenSize))%nat;
  inv_win : (s.(sc_start) + length s.(sc_data) ≤ s.(sc_cap))%nat;
  inv_reader : plain_reader s.(sc_behavior) s.(sc_reader);
  inv_skip : s.(sc_skipping) = true → s.(sc_behavior) = BehaviorTruncate;
  inv_end : ∀ e, s.(sc_err) = Some e →
    s.(sc_reader).(rd_chunks) = [] ∧ e = s.(sc_reader).(rd_err) ∧
    (length s.(sc_data) = s.(sc_maxTokenSize) → last s.(sc_data) ≠ Some byte_cr) ∧
    (s.(sc_skipping) = true → byte_newline ∉ s.(sc_data));
}.

(** What no operation of the scanner changes. *)
Definition sc_same (s s' : Scanner) : Prop :=
  s'.(sc_maxTokenSize) = s.(sc_maxTokenSize) ∧ s'.(sc_behavior) = s.(sc_behavior) ∧
  s'.(sc_reader).(rd_err) = s.(sc_reader).(rd_err).

Lemma read_plain bh k c cs err j :
  plain_reader bh (MkReader (c :: cs) err j) → (0 < k)%nat →
  ∃ b e r', Read k (MkReader (c :: cs) err j) = (b, e, r') ∧ plain_reader bh r' ∧
    r'.(rd_err) = err ∧ concat (c :: cs) = b ++ rd_bytes r' ∧ (length b ≤ k)%nat ∧ b ≠ [] ∧
    (e = None ∨ e = Some err ∧ r'.(rd_chunks) = [] ∧ bh = BehaviorSplit ∧ last b ≠ Some byte_cr).
Proof.
  intros [Hj Hne] Hk. simpl in Hj, Hne. apply Forall_cons in Hne as [Hc Hcs].
  unfold Read; simpl. destruct (decide (length c ≤ k)%nat) as [Hl|Hl].
  - assert (Hrest : cs ≠ [] → last (concat cs) = last (c ++ concat cs)).
    { intros Hcs'. destruct (concat cs) as [|x l] eqn:Hcc; [|by rewrite last_app_cons].
      destruct cs as [|c' cs]; [done|]. apply Forall_cons in Hcs as [Hc' _]. simpl in Hcc.
      by apply app_eq_nil in Hcc as [? _]. }
    exists c. eexists _, (MkReader cs err j). split_and!; [done| |done|done|done|done|].
    + split; [|done]. simpl. intros Hjt. destruct (Hj Hjt) as [? Hlast]. split; [done|].
      unfold rd_bytes in *. simpl in *. destruct (decide (cs = [])) as [->|Hcs']; [done|].
      by rewrite Hrest.
    + destruct j; simpl; [|by left]. case_bool_decide; [|by left]. right. subst cs.
      destruct (Hj eq_refl) as [? Hlast]. unfold rd_bytes in Hlast. simpl in Hlast.
      by rewrite app_nil_r in Hlast.
  - exists (take k c), None, (MkReader (drop k c :: cs) err j).
    assert (Hd : drop k c ≠ []).
    { intros Hd%(f_equal length). rewrite length_drop in Hd. simpl in Hd. lia. }
    split_and!; [done| |done| | | |by left].
    + split; [|by constructor]. simpl. intros Hjt. destruct (Hj Hjt) as [? Hlast]. split; [done|].
      unfold rd_bytes in *. simpl in *. rewrite <- (take_drop k c) in Hlast.
      rewrite <- app_assoc in Hlast. destruct (drop k c) as [|x l]; [done|].
      simpl in *. by rewrite last_app_cons in Hlast.
    + unfold rd_bytes; simpl. by rewrite app_assoc, take_drop.
    + rewrite length_take. lia.
    + intros Ht%(f_equal length). rewrite length_take in Ht. simpl in Ht. destruct c; [done|].
      simpl in *. lia.
Qed.

Lemma read_loop_plain bh n k r :
  plain_reader bh r → (0 < k)%nat →
  ∃ b e r', read_loop n k r = (b, e, r') ∧ plain_reader bh r' ∧ r'.(rd_err) = r.(rd_err) ∧
    rd_bytes r = b ++ rd_bytes r' ∧ (length b ≤ k)%nat ∧
    ((e = None ∧ b ≠ []) ∨
     (e = Some r.(rd_err) ∧ r'.(rd_chunks) = [] ∧
      (b = [] ∨ bh = BehaviorSplit ∧ b ≠ [] ∧ last b ≠ Some byte_cr))).
Proof.
  intros Hr Hk. destruct r as [[|c cs] err j].
  { exists [], (Some err), (MkReader [] err j).
    split_and!; [by destruct n|done|done|done|simpl; lia|right; auto]. }
  destruct (read_plain bh k c cs err j Hr Hk) as (b & e & r' & Hread & ? & ? & ? & ? & Hb & He).
  exists b, e, r'. split_and!; try done.
  - destruct He as [-> |(-> & _)]; destruct n; cbn [read_loop]; rewrite Hread; try done;
      by rewrite decide_False.
  - destruct He as [-> |(-> & ? & ? & ?)]; [by left|right]. auto 10.
Qed.

Lemma make_room_spec mx start data cap :
  (0 < cap ≤ mx)%nat → (start + length data ≤ cap)%nat → (length data < mx)%nat →
  ∃ start' cap', make_room mx start data cap = Some (start', cap') ∧
    (start' + length data < cap' ≤ mx)%nat ∧ (0 < cap')%nat.
Proof.
  intros Hcap Hwin Hlen. unfold make_room.
  repeat case_decide; try lia; eexists _, _; (split; [done|]); lia.
Qed.

(** The window after [SplitFunc] asked to advance over [n] bytes of it. *)
Definition advanced (s : Scanner) (n : nat) (skipping : bool) (over : Z) : Scanner :=
  MkScanner s.(sc_reader) s.(sc_maxTokenSize) s.(sc_behavior) (s.(sc_start) + n)
    (drop n s.(sc_data)) s.(sc_cap) s.(sc_err) skipping over.

Lemma advanced_inv s n sk over :
  sc_inv s → (n ≤ length s.(sc_data))%nat →
  (sk = true → s.(sc_behavior) = BehaviorTruncate) →
  (is_Some s.(sc_err) → sk = true → byte_newline ∉ drop n s.(sc_data)) →
  sc_inv (advanced s n sk over).
Proof.
  intros [Hc Hw Hr Hs He] Hn Hsk Hnl. split; simpl; rewrite ?length_drop; [done|lia|done|done|].
  intros e Herr. destruct (He e Herr) as (? & ? & Hfull & ?). split_and!; [done|done| |].
  - intros Hlen. assert (n = 0%nat) as -> by lia. rewrite drop_0. apply Hfull. lia.
  - intros ->. apply Hnl; [by eexists|done].
Qed.

(** The cases of one call of the split function, as the scanner makes it. *)
Definition split_post (s s' : Scanner) (tok : option bytes) : Prop :=
  sc_inv s' ∧ sc_same s s' ∧ s'.(sc_reader) = s.(sc_reader) ∧ s'.(sc_err) = s.(sc_err) ∧
  match tok with
  | Some t => sc_records s = t :: sc_records s' ∧
              (length s'.(sc_data) < length s.(sc_data))%nat
  | None => sc_records s = sc_records s' ∧ (length s'.(sc_data) ≤ length s.(sc_data))%nat ∧
            (length s'.(sc_data) < s.(sc_maxTokenSize))%nat ∧
            (s'.(sc_skipping) = true → byte_newline ∉ s'.(sc_data)) ∧
            (is_Some s.(sc_err) → sc_records s = [])
  end.

Lemma split_post_advance s n sk over tok :
  sc_inv s → (n ≤ length s.(sc_data))%nat →
  (sk = true → s.(sc_behavior) = BehaviorTruncate) →
  (is_Some s.(sc_err) → sk = true → byte_newline ∉ drop n s.(sc_data)) →
  match tok with
  | Some t => sc_records s = t :: sc_records (advanced s n sk over) ∧ (0 < n)%nat
  | None => sc_records s = sc_records (advanced s n sk over) ∧
            (length s.(sc_data) < n + s.(sc_maxTokenSize))%nat ∧
            (sk = true → byte_newline ∉ drop n s.(sc_data)) ∧
            (is_Some s.(sc_err) → sc_records s = [])
  end →
  split_post s (advanced s n sk over) tok.
Proof.
  intros Hinv Hn Hsk Hnl Htok. unfold split_post.
  split_and!; [by apply advanced_inv|done|done|done|].
  destruct tok; simpl; rewrite length_drop; [naive_solver lia|].
  destruct Htok as (? & ? & ? & ?). split_and!; [done|lia|lia|done|done].
Qed.

Lemma sc_data_at_index s i :
  IndexByte s.(sc_data) byte_newline = Some i →
  sc_stream s = take i s.(sc_data) ++ byte_newline :: (drop (i + 1) s.(sc_data) ++ rd_bytes s.(sc_reader)).
Proof.
  intros Hi. destruct (IndexByte_Some _ _ _ Hi) as (Hd & _ & _).
  unfold sc_stream. rewrite Hd at 1. rewrite <- app_assoc. simpl. by rewrite Nat.add_1_r.
Qed.

(** While the tail of a truncated line is skipped. *)
Lemma split_once_skipping s :
  sc_inv s → s.(sc_skipping) = true → s.(sc_data) ≠ [] →
  ∃ s', split_once s = (s', None) ∧ split_post s s' None.
Proof.
  intros Hinv Hsk Hd. pose proof (inv_skip _ Hinv Hsk) as Hb.
  unfold split_once. rewrite (bool_decide_false (sc_data s = [])) by done. simpl. rewrite Hsk.
  destruct (IndexByte (sc_data s) byte_newline) as [i|] eqn:Hi.
  - rewrite (split_skip_newline _ _ _ _ i) by done.
    destruct (IndexByte_Some _ _ _ Hi) as (_ & Hn & Hl).
    eexists; split; [done|]. apply (split_post_advance s (i + 1) false (sc_oversize s) None);
      [done|lia|done|done|].
    split_and!; [|pose proof (inv_win _ Hinv); pose proof (inv_cap _ Hinv); lia|done|].
    + unfold sc_records at 1. rewrite Hsk, (sc_data_at_index _ _ Hi).
      by rewrite records_skip_line.
    + intros [e He]. destruct (inv_end _ Hinv e He) as (_ & _ & _ & Hnl).
      specialize (Hnl Hsk). apply IndexByte_None in Hnl. congruence.
  - pose proof (proj1 (IndexByte_None _ _) Hi) as Hn.
    assert (Hrec : ∀ n over, n = length (sc_data s) ∨ n = 0%nat →
      sc_records s = sc_records (advanced s n true over)).
    { intros n over Hcase. unfold sc_records, sc_stream; simpl. rewrite Hsk.
      rewrite records_skip_more by done. destruct Hcase as [->| ->].
      - by rewrite drop_all.
      - by rewrite records_skip_more. }
    assert (Hend : is_Some (sc_err s) → sc_records s = []).
    { intros [e He]. destruct (inv_end _ Hinv e He) as (Hch & _).
      unfold sc_records, sc_stream. rewrite Hsk. rewrite records_skip_more by done.
      unfold rd_bytes. by rewrite Hch. }
    pose proof (inv_cap _ Hinv) as Hcap.
    unfold SplitFunc. rewrite (bool_decide_true (sc_behavior s = _)) by done. simpl. rewrite Hi.
    destruct (bool_decide (is_Some (sc_err s))) eqn:Heof; [|case_decide].
    + apply bool_decide_eq_true in Heof.
      eexists; split; [done|]. eapply (split_post_advance s _ false (sc_oversize s) None);
        [done|lia|done|done|].
      split_and!; [|lia|done|done]. rewrite Hend by done. destruct Heof as [e He].
      destruct (inv_end _ Hinv e He) as (Hch & _).
      unfold sc_records, sc_stream, rd_bytes; simpl. by rewrite drop_all, Hch.
    + eexists; split; [done|]. eapply (split_post_advance s _ true (sc_oversize s) None); auto.
      * intros _ _. rewrite drop_all. set_solver.
      * split_and!; [by apply Hrec; left|lia|rewrite drop_all; set_solver|done].
    + eexists; split; [done|]. eapply (split_post_advance s _ true (sc_oversize s) None);
        [done|lia|done|intros _ _; by rewrite drop_0|].
      split_and!; [by apply Hrec; right|lia|by rewrite drop_0|done].
Qed.

(** While a line is being collected. *)
Lemma split_once_collecting s :
  sc_inv s → s.(sc_skipping) = false → s.(sc_data) ≠ [] →
  ∃ s' tok, split_once s = (s', tok) ∧ split_post s s' tok.
Proof.
  intros Hinv Hsk Hd.
  pose proof (inv_win _ Hinv) as Hwin. pose proof (inv_cap _ Hinv) as Hcap.
  unfold split_once. rewrite (bool_decide_false (sc_data s = [])) by done. simpl. rewrite Hsk.
  destruct (IndexByte (sc_data s) byte_newline) as [i|] eqn:Hi.
  { rewrite (split_line _ _ _ _ _ i) by (done || by rewrite andb_false_r).
    destruct (IndexByte_Some _ _ _ Hi) as (_ & Hn & Hl).
    eexists _, _; split; [done|].
    eapply (split_post_advance s (i + 1) false (sc_oversize s) (Some _));
      [done|lia|done|done|].
    split; [|lia]. unfold sc_records at 1. rewrite Hsk, (sc_data_at_index _ _ Hi).
    rewrite records_line; [done|done|rewrite length_take; lia]. }
  pose proof (proj1 (IndexByte_None _ _) Hi) as Hn.
  destruct (bool_decide (is_Some (sc_err s))) eqn:Heof.
  { apply bool_decide_eq_true in Heof as [e He].
    destruct (inv_end _ Hinv e He) as (Hch & _ & Hfull & _).
    rewrite split_final by (done || by rewrite andb_false_r).
    eexists _, _; split; [done|].
    eapply (split_post_advance s (length (sc_data s)) false (sc_oversize s) (Some _));
      [done|lia|done|done|].
    split; [|destruct (sc_data s); simpl; [done|lia]].
    unfold sc_records, sc_stream, rd_bytes; simpl. rewrite Hsk, Hch, drop_all, app_nil_r.
    destruct (decide (length (sc_data s) = sc_maxTokenSize s)) as [Hlen|Hlen].
    - rewrite <- (app_nil_r (sc_data s)) at 1. rewrite records_chop by (done || lia).
      rewrite (dropCR_last (sc_data s)) by auto. f_equal. by case_bool_decide.
    - rewrite records_tail by (done || lia). by rewrite bool_decide_false by done. }
  destruct (decide (length (sc_data s) = sc_maxTokenSize s)) as [Hfull|Hfull].
  - rewrite split_chop by (done || lia || by rewrite andb_false_r).
    eexists _, _; split; [done|].
    eapply (split_post_advance s (sc_maxTokenSize s) _ (sc_oversize s + 1) (Some _));
      [done|lia|by destruct (sc_behavior s)| |].
    + intros [e He]. rewrite He in Heof. by rewrite bool_decide_true in Heof by done.
    + split; [|lia]. unfold sc_records, sc_stream; simpl. rewrite Hsk.
      rewrite records_chop by (done || lia). rewrite <- Hfull, drop_all.
      by destruct (sc_behavior s).
  - rewrite split_wait by (done || lia || by rewrite andb_false_r).
    eexists _, _; split; [done|].
    eapply (split_post_advance s 0 false (sc_oversize s) None); [done|lia|done|done|].
    split_and!; [|lia|done|].
    + unfold sc_records, sc_stream; simpl. by rewrite Hsk, drop_0.
    + intros [e He]. rewrite He in Heof. by rewrite bool_decide_true in Heof by done.
Qed.

Lemma split_once_empty s :
  sc_inv s → s.(sc_data) = [] →
  ∃ s', split_once s = (s', None) ∧ split_post s s' None.
Proof.
  intros Hinv Hd. pose proof (inv_cap _ Hinv) as Hcap.
  assert (Hrec : is_Some (sc_err s) → sc_records s = []).
  { intros [e He]. destruct (inv_end _ Hinv e He) as (Hch & _).
    unfold sc_records, sc_stream, rd_bytes. rewrite Hd, Hch. simpl.
    by destruct (sc_skipping s). }
  unfold split_once. rewrite Hd. rewrite (bool_decide_true ([] = [])) by done. simpl.
  destruct (bool_decide (is_Some (sc_err s))) eqn:Heof.
  2: { exists s. split; [done|]. unfold split_post. split_and!; try done; rewrite Hd; [simpl; lia|set_solver]. }
  apply bool_decide_eq_true in Heof.
  assert (∃ sk, SplitFunc (sc_maxTokenSize s) (sc_behavior s) (sc_skipping s) [] true =
    (0%nat, None, sk, false) ∧ (sk = true → sc_skipping s = true)) as (sk & Hs & Hsk).
  { unfold SplitFunc, ScanLines. simpl. destruct (bool_decide _ && _); simpl; [by eexists|].
    rewrite (bool_decide_false (sc_maxTokenSize s ≤ 0)%nat) by lia. by eexists. }
  rewrite Hs. eexists; split; [done|].
  replace (drop 0 []) with (drop 0 (sc_data s)) by by rewrite Hd.
  eapply (split_post_advance s 0 sk (sc_oversize s) None); [done|lia| |intros _ _; rewrite drop_0, Hd; apply not_elem_of_nil|].
  - intros ?. apply (inv_skip _ Hinv). auto.
  - split_and!; [|rewrite Hd; simpl; lia|rewrite drop_0, Hd; set_solver|done].
    rewrite Hrec by done.
    destruct Heof as [e He]. destruct (inv_end _ Hinv e He) as (Hch & _).
    unfold sc_records, sc_stream, rd_bytes; simpl. rewrite drop_0, Hd, Hch. simpl.
    by destruct sk.
Qed.

Lemma split_once_spec s :
  sc_inv s → ∃ s' tok, split_once s = (s', tok) ∧ split_post s s' tok.
Proof.
  intros Hinv. destruct (decide (sc_data s = [])) as [Hd|Hd].
  { destruct (split_once_empty s) as (s' & ? & ?); eauto. }
  destruct (sc_skipping s) eqn:Hsk.
  - destruct (split_once_skipping s) as (s' & ? & ?); eauto.
  - by apply split_once_collecting.
Qed.

(** Reading more of the stream. *)
Lemma refill_spec s :
  sc_inv s → (length s.(sc_data) < s.(sc_maxTokenSize))%nat →
  (s.(sc_skipping) = true → byte_newline ∉ s.(sc_data)) →
  s.(sc_err) = None →
  ∃ s', refill s = (s', None) ∧ sc_inv s' ∧ sc_same s s' ∧ sc_stream s' = sc_stream s ∧
    sc_records s' = sc_records s ∧
    ((s'.(sc_err) = None ∧
      (length (rd_bytes s'.(sc_reader)) < length (rd_bytes s.(sc_reader)))%nat) ∨
     (is_Some s'.(sc_err) ∧
      (length (rd_bytes s'.(sc_reader)) ≤ length (rd_bytes s.(sc_reader)))%nat)).
Proof.
  intros Hinv Hlt Hnl Herr. unfold refill. rewrite Herr.
  destruct (make_room_spec (sc_maxTokenSize s) (sc_start s) (sc_data s) (sc_cap s))
    as (start & cap & -> & Hroom & Hpos);
    [apply (inv_cap _ Hinv)|apply (inv_win _ Hinv)|done|].
  destruct (read_loop_plain (sc_behavior s) maxConsecutiveEmptyReads (cap - (start + length (sc_data s)))
    (sc_reader s)) as (b & e & r & -> & Hr & Hre & Hb & Hbl & He);
    [apply (inv_reader _ Hinv)|lia|].
  assert (Hstr : sc_data s ++ rd_bytes (sc_reader s) = (sc_data s ++ b) ++ rd_bytes r).
  { by rewrite Hb, app_assoc. }
  eexists; split; [done|]. split_and!; try done.
  - split; simpl; rewrite ?length_app; [lia|lia|done|apply (inv_skip _ Hinv)|].
    intros e' ->. destruct He as [[? _]|(He & Hch & Hcase)]; [done|]. simplify_eq.
    destruct Hcase as [-> |(Hsplit & Hbne & Hlast)].
    + rewrite app_nil_r. split_and!; [done|done|simpl; lia|done].
    + split_and!; [done|done| |].
      * intros _. destruct b as [|x l]; [done|]. by rewrite last_app_cons.
      * intros Hsk. apply (inv_skip _ Hinv) in Hsk. congruence.
  - unfold sc_records, sc_stream; simpl. by rewrite Hstr.
  - simpl. rewrite Hb, length_app. destruct He as [[-> Hne]|(-> & _ & _)].
    + left. split; [done|]. destruct b; simpl; [done|lia].
    + right. split; [by eexists|simpl; lia].
Qed.

Lemma refill_end s : is_Some s.(sc_err) →
  ∃ s', refill s = (s', Some None) ∧ sc_same s s' ∧ s'.(sc_err) = s.(sc_err).
Proof. intros [e He]. unfold refill. rewrite He. by eexists. Qed.

(** * One call of [Scan] *)

(** How many more iterations one call can take. *)
Definition scan_rank (s : Scanner) : nat :=
  (length (rd_bytes s.(sc_reader)) + (if decide (s.(sc_err) = None) then 1 else 0))%nat.

Definition scan_post (s s' : Scanner) (tok : option bytes) : Prop :=
  sc_same s s' ∧
  match tok with
  | Some t => sc_inv s' ∧ sc_records s = t :: sc_records s' ∧
              (length (sc_stream s') < length (sc_stream s))%nat
  | None => sc_records s = [] ∧ s'.(sc_err) = Some s.(sc_reader).(rd_err)
  end.

Lemma sc_same_trans s s' s'' : sc_same s s' → sc_same s' s'' → sc_same s s''.
Proof. unfold sc_same. naive_solver congruence. Qed.

Lemma scan_loop_spec fuel s :
  sc_inv s → (scan_rank s < fuel)%nat →
  ∃ s' tok, scan_loop fuel s = Some (s', tok) ∧ scan_post s s' tok.
Proof.
  revert s. induction fuel as [|fuel IH]; intros s Hinv Hfuel; [lia|].
  destruct (split_once_spec s Hinv) as (s1 & tok & Hsplit & Hinv1 & Hsame1 & Hrd & Herr & Htok).
  simpl. unfold scan_iter. rewrite Hsplit. destruct tok as [t|].
  { exists s1, (Some t). split; [done|]. destruct Htok as [Hrec Hlen]. split_and!; try done.
    unfold sc_stream. rewrite !length_app, Hrd. lia. }
  destruct Htok as (Hrec & Hlen & Hlt & Hnl & Hend).
  destruct (decide (sc_err s = None)) as [Hn|Hn].
  - destruct (refill_spec s1) as (s2 & -> & Hinv2 & Hsame2 & Hstr2 & Hrec2 & Hrank);
      [done| |done|congruence|].
    { by destruct Hsame1 as (-> & _). }
    destruct (IH s2) as (s3 & tok & -> & Hsame3 & Htok); [done| |].
    { unfold scan_rank in *. rewrite Hrd in Hrank. rewrite decide_True in Hfuel by done.
      destruct Hrank as [[-> ?]|[[e ->] ?]]; simpl; lia. }
    exists s3, tok. split; [done|]. split; [by eauto using sc_same_trans|].
    destruct tok as [t|].
    + destruct Htok as (? & ? & Hl). split_and!; [done|congruence|].
      rewrite Hstr2 in Hl. unfold sc_stream in *. rewrite !length_app in *. rewrite Hrd in Hl. lia.
    + destruct Htok as (? & ->). split; [congruence|].
      by destruct Hsame1 as (_ & _ & <-), Hsame2 as (_ & _ & <-).
  - assert (is_Some (sc_err s)) as Hs by by apply not_eq_None_Some.
    destruct (refill_end s1) as (s2 & -> & Hsame2 & Herr2); [by rewrite Herr|].
    exists s2, None. split; [done|]. split; [by eauto using sc_same_trans|].
    split; [auto|]. rewrite Herr2, Herr. destruct Hs as [e He].
    destruct (inv_end _ Hinv e He) as (_ & -> & _). done.
Qed.

Lemma Scan_spec s :
  sc_inv s → ∃ s' tok, Scan s = Some (s', tok) ∧ scan_post s s' tok.
Proof.
  intros. apply scan_loop_spec; [done|]. unfold scan_rank, scan_fuel. case_decide; lia.
Qed.

(** * The whole stream *)

Definition err_of (e : ReadErr) : option ReadErr := if decide (e = EOF) then None else Some e.

Lemma scan_lines_spec fuel s :
  sc_inv s → (length (sc_stream s) < fuel)%nat →
  scan_lines fuel s = Some (Scanner_Line <$> sc_records s, err_of s.(sc_reader).(rd_err)).
Proof.
  revert s. induction fuel as [|fuel IH]; intros s Hinv Hfuel; [lia|]. simpl.
  destruct (Scan_spec s Hinv) as (s' & tok & -> & (_ & _ & Hrd) & Hpost).
  destruct tok as [t|].
  - destruct Hpost as (Hinv' & -> & Hlen). rewrite IH by (done || lia). by rewrite Hrd.
  - destruct Hpost as [-> Herr]. unfold Scanner_Err. rewrite Herr. unfold err_of.
    by destruct (rd_err (sc_reader s)).
Qed.

Lemma NewScanner_inv r mx bh : (0 < mx)%nat → plain_reader bh r → sc_inv (NewScanner r mx bh).
Proof.
  intros Hmx Hr. unfold NewScanner.
  assert (0 < initialBufSize)%nat by (unfold initialBufSize; lia).
  split; simpl; [case_decide; lia|lia|done|done|done].
Qed.

(** * What the reference guarantees *)

Lemma length_dropCR w : (length (dropCR w) ≤ length w)%nat.
Proof. unfold dropCR. repeat case_match; rewrite ?length_take; lia. Qed.

(** Nor does a record's body outgrow it. *)
Lemma Body_length tok : (length (Body (Scanner_Line tok)) ≤ length tok)%nat.
Proof.
  unfold Scanner_Line, ParseLeadingTimestamp. repeat case_match; simplify_eq/=; rewrite ?length_drop; lia.
Qed.

(** No record is longer than the cap. *)
Lemma records_bounded mx bh sk acc s :
  (length acc < mx)%nat → Forall (λ t, length t ≤ mx)%nat (records mx bh sk acc s).
Proof.
  revert sk acc. induction s as [|b s IH]; intros sk acc Hacc; simpl.
  { pose proof (length_dropCR acc). case_match; repeat constructor; lia. }
  assert (0 < mx)%nat by lia.
  destruct sk; [apply IH; simpl; lia|]. case_decide; [|case_decide].
  - pose proof (length_dropCR acc). constructor; [lia|]. apply IH. simpl; lia.
  - constructor; [rewrite length_app; simpl; lia|]. apply IH. simpl; lia.
  - apply IH. rewrite length_app; simpl; lia.
Qed.

(** Splitting loses no byte of the stream but its line ends. *)
Lemma records_split_lossless mx acc s :
  byte_cr ∉ acc → byte_cr ∉ s → byte_newline ∉ acc →
  concat (records mx BehaviorSplit false acc s) = acc ++ filter (λ b, b ≠ byte_newline) s.
Proof.
  revert acc. induction s as [|b s IH]; intros acc Hcr Hcs Hnl; simpl.
  { destruct acc; simpl; [done|]. by rewrite dropCR_id. }
  case_decide as Hb; [|case_decide].
  - subst b. rewrite filter_cons_False by (intros Hx; by apply Hx). simpl.
    rewrite IH by set_solver. by rewrite dropCR_id.
  - rewrite filter_cons_True by done. simpl. rewrite IH by set_solver. by rewrite <- app_assoc.
  - rewrite filter_cons_True by done. rewrite IH by set_solver. by rewrite <- app_assoc.
Qed.

(** In either mode the records are bytes of the stream, in order. *)
Lemma dropCR_sublist w : dropCR w `sublist_of` w.
Proof. unfold dropCR. repeat case_match; try done. apply sublist_take. Qed.

Lemma records_sublist mx bh sk acc s :
  concat (records mx bh sk acc s) `sublist_of` acc ++ s.
Proof.
  revert sk acc. induction s as [|b s IH]; intros sk acc; simpl.
  { case_match; simpl; [apply sublist_nil_l|]. rewrite !app_nil_r. apply dropCR_sublist. }
  destruct sk.
  { etrans; [apply IH|]. simpl. apply sublist_inserts_l. by apply sublist_cons. }
  case_decide; [|case_decide].
  - simpl. apply sublist_app; [apply dropCR_sublist|]. apply sublist_cons. apply (IH false []).
  - simpl. rewrite (cons_middle b acc s), app_assoc. apply sublist_app; [done|apply (IH _ [])].
  - rewrite (cons_middle b acc s), app_assoc. apply IH.
Qed.

(** The records of one line. *)
Fixpoint chop (fuel mx : nat) (line : bytes) : list bytes :=
  match fuel with
  | O => []
  | S fuel' =>
      if decide (length line < mx)%nat then [dropCR line]
      else take mx line :: chop fuel' mx (drop mx line)
  end.

Definition line_records (mx : nat) (bh : Behavior) (line : bytes) : list bytes :=
  match bh with
  | BehaviorSplit => chop (S (length line)) mx line
  | BehaviorTruncate => if decide (length line < mx)%nat then [dropCR line] else [take mx line]
  end.

Lemma records_chop_line fuel mx line t :
  (0 < mx)%nat → byte_newline ∉ line → (length line < fuel)%nat →
  records mx BehaviorSplit false [] (line ++ byte_newline :: t) =
    chop fuel mx line ++ records mx BehaviorSplit false [] t.
Proof.
  intros Hmx. revert line. induction fuel as [|fuel IH]; intros line Hn Hf; [lia|].
  cbn [chop]. case_decide; [by rewrite records_line|].
  rewrite <- (take_drop mx line) at 1. rewrite <- app_assoc.
  rewrite records_chop; [|auto with receiver|rewrite length_take; lia|done].
  rewrite bool_decide_false by done.
  rewrite (IH (drop mx line)); [done|auto with receiver|rewrite length_drop; lia].
Qed.

(** A stream of complete lines yields the records of each, in order. *)
Lemma records_line_by_line mx bh line t :
  (0 < mx)%nat → byte_newline ∉ line →
  records mx bh false [] (line ++ byte_newline :: t) =
    line_records mx bh line ++ records mx bh false [] t.
Proof.
  intros Hmx Hn. unfold line_records. destruct bh.
  { apply records_chop_line; [done|done|lia]. }
  case_decide; [by rewrite records_line|].
  rewrite <- (take_drop mx line) at 1. rewrite <- app_assoc.
  rewrite records_chop; [|auto with receiver|rewrite length_take; lia|done].
  rewrite bool_decide_true by done. rewrite records_skip_line by auto with receiver. done.
Qed.

Lemma records_lines mx bh lines :
  (0 < mx)%nat → Forall (λ l, byte_newline ∉ l) lines →
  records mx bh false [] (concat ((λ l, l ++ [byte_newline]) <$> lines)) =
    concat (line_records mx bh <$> lines).
Proof.
  intros Hmx. induction 1 as [|l lines Hl Hls IH]; [done|].
  rewrite !fmap_cons. cbn [concat]. rewrite <- app_assoc.
  change ([byte_newline] ++ ?t) with (byte_newline :: t).
  rewrite records_line_by_line by done. by rewrite IH.
Qed.

(** * Properties *)

(** C13: However the stream is cut into reads, and at whatever size its buffer
    starts, the scanner's loop ends and produces exactly the records of the
    one-pass reference, then the reader's error, with the end of the stream
    reported as none. *)
Theorem scanner_equivalence r mx bh :
  (0 < mx)%nat → plain_reader bh r →
  read_stream r mx bh =
    Some (Scanner_Line <$> records mx bh false [] (rd_bytes r), err_of r.(rd_err)).
Proof.
  intros Hmx Hr. unfold read_stream.
  rewrite (scan_lines_spec _ (NewScanner r mx bh)); [done|by apply NewScanner_inv|].
  unfold stream_fuel, sc_stream, NewScanner. simpl. lia.
Qed.

Definition sample_reader : Reader :=
  MkReader [bs "2024-05-01T10:00:00.5Z he"; bs "llo
2024-05-01T10:00:01Z "; bs "world
"] EOF false.

Lemma sample_reader_plain bh : plain_reader bh sample_reader.
Proof. split; [done|repeat constructor; done]. Qed.

Lemma scanner_equivalence_witness :
  read_stream sample_reader 64 BehaviorSplit =
    Some (Scanner_Line <$> records 64 BehaviorSplit false [] (rd_bytes sample_reader), None).
Proof.
  assert (Hmx : (0 < 64)%nat) by lia.
  exact (scanner_equivalence sample_reader 64 BehaviorSplit Hmx (sample_reader_plain _)).
Defined.

(** C26: The records read from a stream are at most [maxSize] bytes long before
    their timestamps come off, and so are their bodies.  In either mode they are
    bytes of the stream in its order, none doubled or made up; in split mode, for
    a stream without carriage returns, put together they are the whole stream
    less its newlines. *)
Theorem split_loses_nothing r mx bh :
  (0 < mx)%nat → plain_reader bh r →
  ∃ toks, read_stream r mx bh = Some (Scanner_Line <$> toks, err_of r.(rd_err)) ∧
    Forall (λ t, length t ≤ mx)%nat toks ∧
    Forall (λ x, length (Body x) ≤ mx)%nat (Scanner_Line <$> toks) ∧
    concat toks `sublist_of` rd_bytes r ∧
    (bh = BehaviorSplit → byte_cr ∉ rd_bytes r →
     concat toks = filter (λ b, b ≠ byte_newline) (rd_bytes r)).
Proof.
  intros Hmx Hr. exists (records mx bh false [] (rd_bytes r)).
  pose proof (records_bounded mx bh false [] (rd_bytes r) Hmx) as Hb. split_and!.
  - unfold read_stream. rewrite (scan_lines_spec _ (NewScanner r mx bh)); [done|by apply NewScanner_inv|].
    unfold stream_fuel, sc_stream, NewScanner. simpl. lia.
  - done.
  - apply Forall_fmap. eapply Forall_impl; [exact Hb|]. intros t Ht.
    exact (Nat.le_trans _ _ _ (Body_length t) Ht).
  - apply records_sublist.
  - intros -> Hcr. by rewrite records_split_lossless by set_solver.
Qed.

Lemma split_loses_nothing_witness :
  ∃ toks, read_stream sample_reader 8 BehaviorSplit = Some (Scanner_Line <$> toks, None) ∧
    concat toks = filter (λ b, b ≠ byte_newline) (rd_bytes sample_reader).
Proof.
  assert (Hmx : (0 < 8)%nat) by lia.
  destruct (split_loses_nothing sample_reader 8 BehaviorSplit Hmx (sample_reader_plain _))
    as (toks & Hread & _ & _ & _ & Hall).
  exists toks. split; [exact Hread|]. apply Hall; [reflexivity|].
  apply (bool_decide_eq_true_1 _). vm_compute. reflexivity.
Defined.

(** C25: A stream of complete lines is read line by line: each shorter than
    [maxSize] gives one record, its timestamp split off; a longer one gives
    consecutive pieces of [maxSize] bytes in split mode and its first [maxSize]
    bytes in truncate mode, and never disturbs the lines after it. *)
Theorem lines_read_in_order r mx bh lines :
  (0 < mx)%nat → plain_reader bh r → Forall (λ l, byte_newline ∉ l) lines →
  rd_bytes r = concat ((λ l, l ++ [byte_newline]) <$> lines) →
  read_stream r mx bh =
    Some (Scanner_Line <$> concat (line_records mx bh <$> lines), err_of r.(rd_err)) ∧
  (∀ l, (length l < mx)%nat → line_records mx bh l = [dropCR l]) ∧
  (∀ l, (mx ≤ length l)%nat → line_records mx BehaviorTruncate l = [take mx l]) ∧
  (∀ l, byte_cr ∉ l → concat (line_records mx BehaviorSplit l) = l).
Proof.
  intros Hmx Hr Hl Hb. split_and!.
  - unfold read_stream. rewrite (scan_lines_spec _ (NewScanner r mx bh)).
    + unfold sc_records, sc_stream, NewScanner. simpl. by rewrite Hb, records_lines.
    + by apply NewScanner_inv.
    + unfold stream_fuel, sc_stream, NewScanner. simpl. lia.
  - intros l Hlen. unfold line_records. destruct bh; simpl; by rewrite decide_True.
  - intros l Hlen. unfold line_records. by rewrite decide_False by lia.
  - intros l Hcr. unfold line_records. generalize (Nat.lt_succ_diag_r (length l)).
    generalize (S (length l)) as fuel. intros fuel. revert l Hcr.
    induction fuel as [|fuel IH]; intros l Hcr Hf; [lia|]. cbn [chop].
    case_decide; [by simpl; rewrite app_nil_r, dropCR_id|].
    cbn [concat]. rewrite IH; [apply take_drop|auto with receiver|rewrite length_drop; lia].
Qed.

Lemma lines_read_in_order_witness :
  read_stream sample_reader 64 BehaviorTruncate =
    Some (Scanner_Line <$> concat (line_records 64 BehaviorTruncate <$>
      [bs "2024-05-01T10:00:00.5Z hello"; bs "2024-05-01T10:00:01Z world"]), None).
Proof.
  assert (Hmx : (0 < 64)%nat) by lia.
  assert (Hl : Forall (λ l, byte_newline ∉ l)
    [bs "2024-05-01T10:00:00.5Z hello"; bs "2024-05-01T10:00:01Z world"]).
  { apply (bool_decide_eq_true_1 _). vm_compute. reflexivity. }
  exact (proj1 (lines_read_in_order sample_reader 64 BehaviorTruncate _ Hmx
    (sample_reader_plain _) Hl eq_refl)).
Defined.

(** When a connection breaks in the middle of a line, the fragment read so far
    is emitted as a record of its own before the error is reported. *)
Theorem broken_line_emitted r mx bh line frag :
  plain_reader bh r → byte_newline ∉ line → byte_newline ∉ frag → frag ≠ [] →
  (length line < mx)%nat → (length frag < mx)%nat →
  rd_bytes r = line ++ byte_newline :: frag →
  read_stream r mx bh =
    Some ([Scanner_Line (dropCR line); Scanner_Line (dropCR frag)], err_of r.(rd_err)).
Proof.
  intros Hr Hn1 Hn2 Hne Hl1 Hl2 Hb. unfold read_stream.
  rewrite (scan_lines_spec _ (NewScanner r mx bh)).
  - unfold sc_records, sc_stream, NewScanner. simpl. rewrite Hb, records_line by done.
    rewrite <- (app_nil_r frag) at 1. rewrite records_take by done. simpl.
    by rewrite bool_decide_false.
  - apply NewScanner_inv; [lia|done].
  - unfold stream_fuel, sc_stream, NewScanner. simpl. lia.
Qed.

Definition broken_reader : Reader :=
  MkReader [bs "2024-05-01T10:00:00Z whole
2024-05-01T10:00:01Z the li"] (ReadFailed "connection reset by peer") false.

Lemma broken_line_emitted_witness :
  read_stream broken_reader 64 BehaviorSplit =
    Some ([Scanner_Line (dropCR (bs "2024-05-01T10:00:00Z whole"));
           Scanner_Line (dropCR (bs "2024-05-01T10:00:01Z the li"))],
          Some (ReadFailed "connection reset by peer")).
Proof.
  apply (broken_line_emitted broken_reader 64 BehaviorSplit
    (bs "2024-05-01T10:00:00Z whole") (bs "2024-05-01T10:00:01Z the li")).
  - split; [discriminate|repeat constructor; discriminate].
  - apply (bool_decide_eq_true_1 _). vm_compute. reflexivity.
  - apply (bool_decide_eq_true_1 _). vm_compute. reflexivity.
  - discriminate.
  - vm_compute. lia.
  - vm_compute. lia.
  - vm_compute. reflexivity.
Defined.

(** In truncate mode a reader that returns its last piece together with the end
    of the stream can cost whole lines: the split function steps over the tail of
    a truncated line without a token, and [bufio.Scanner] stops there, because
    the stream has ended, with the lines behind it still in its buffer. *)
Definition joined_reader : Reader := MkReader [bs "01234567"; bs "89
next
"] EOF true.

Example joined_end_loses_lines :
  read_stream joined_reader 8 BehaviorTruncate = Some ([MkLine (bs "01234567") 0], None) ∧
  read_stream (MkReader joined_reader.(rd_chunks) EOF false) 8 BehaviorTruncate =
    Some ([MkLine (bs "01234567") 0; MkLine (bs "next") 0], None) ∧
  records 8 BehaviorTruncate false [] (rd_bytes joined_reader) = [bs "01234567"; bs "next"].
Proof. repeat split; vm_compute; reflexivity. Qed.
