(* ===== verification/Consumer.v ===== *)
(** Handing batches to the pipeline: the interface of a logs consumer, and
    package [internal/consumerretry] ([config.go], [logs.go]), which wraps one
    consumer in another that retries. *)
From S2P Require Import Prelude GoTime.
Open Scope Z_scope.

(** * The collector's side

    [consumer.Logs]: taking a batch either succeeds ([None]) or fails with an
    error; [S] is whatever state the consumer keeps. *)
Class Consumer (S L E : Type) := ConsumeLogs : S → L → option E * S.

(** Package [consumererror], and Go's error wrapping: whether an error is
    permanent, the part of the data a retryable error hands back, and the
    wrapping that [fmt.Errorf("... %w", err)] performs. *)
Class ConsumerErrors (L E : Type) := {
  IsPermanent : E → bool;
  AsLogs : E → option L;
  ContextError : E → E;
}.

(** Wrapping with [%w] keeps the class of the error and what it hands back. *)
Class ConsumerErrorsOk (L E : Type) `{ConsumerErrors L E} := {
  ContextError_permanent e : IsPermanent (ContextError e) = IsPermanent e;
  ContextError_AsLogs e : AsLogs (ContextError e) = AsLogs e;
}.

(** What a consumer promises: [records] is what a batch holds and [taken] what it
    has taken so far.  Success is having taken the whole batch; an error that
    hands data back has taken everything else; any other may have taken some.
    It is the contract of both the pipeline and the consumer that retries in
    front of it. *)
Class PipelineOk (S L E : Type) {R} `{Consumer S L E} `{ConsumerErrors L E}
    (records : L → list R) (taken : S → list R) := {
  po_success s l s' : ConsumeLogs s l = (None, s') → taken s ++ records l ⊆+ taken s';
  po_error s l e s' : ConsumeLogs s l = (Some e, s') →
    taken s ⊆+ taken s' ∧
    ∀ rest, AsLogs e = Some rest → taken s ++ records l ⊆+ taken s' ++ records rest;
}.

(** * config.go *)

Module ConsumerRetry.

Record Config := MkConfig {
  Enabled : bool;
  InitialInterval : Z;
  MaxInterval : Z;
  MaxElapsedTime : Z;
}.

Definition NewDefaultConfig : Config :=
  MkConfig true (1 * Second) (30 * Second) (5 * Minute).

Inductive ConfigError := NegativeInitialInterval | NegativeMaxInterval | NegativeMaxElapsedTime.

(** [None] is a nil error. *)
Definition Validate (cfg : Config) : option ConfigError :=
  if cfg.(InitialInterval) <? 0 then Some NegativeInitialInterval
  else if cfg.(MaxInterval) <? 0 then Some NegativeMaxInterval
  else if cfg.(MaxElapsedTime) <? 0 then Some NegativeMaxElapsedTime
  else None.

(** * logs.go *)

(** The [backoff] package, reduced to what the loop asks of it: the n-th
    [NextBackOff] after [Reset], [None] for [backoff.Stop]. *)
Class Backoff := NextBackOff : Config → nat → option Z.

(** [ctx] at the n-th wait: whether it ends before the delay is over. *)
Definition CtxDone := nat → bool.

Section consume.
Context {S L E : Type} `{!Consumer S L E} `{!ConsumerErrors L E} `{!Backoff}.

(** The retry loop; [n] is [retryNum].  [None] is a loop still running when the
    fuel is spent. *)
Fixpoint retry_loop (fuel : nat) (cfg : Config) (done : CtxDone) (n : nat) (logs : L) (s : S)
    : option (option E * S) :=
  match fuel with
  | O => None
  | Datatypes.S fuel' =>
      let '(err, s) := ConsumeLogs s logs in
      match err with
      | None => Some (None, s)
      | Some e =>
          if IsPermanent e then Some (Some e, s)
          else
            let logs := match AsLogs e with Some data => data | None => logs end in
            match NextBackOff cfg n with
            | None => Some (Some e, s)
            | Some _ =>
                if done n then Some (Some (ContextError e), s)
                else retry_loop fuel' cfg done (Datatypes.S n) logs s
            end
      end
  end.

Definition RetryConsumeLogs (fuel : nat) (cfg : Config) (done : CtxDone) (logs : L) (s : S)
    : option (option E * S) :=
  if cfg.(Enabled) then retry_loop fuel cfg done 0 logs s
  else Some (ConsumeLogs s logs).

(** The downstream calls a run of the loop makes: what is sent at each attempt. *)
Fixpoint attempts (fuel : nat) (cfg : Config) (done : CtxDone) (n : nat) (logs : L) (s : S)
    : list (L * option E) :=
  match fuel with
  | O => []
  | Datatypes.S fuel' =>
      let '(err, s) := ConsumeLogs s logs in
      (logs, err) ::
      match err with
      | None => []
      | Some e =>
          if IsPermanent e then []
          else
            let logs := match AsLogs e with Some data => data | None => logs end in
            match NextBackOff cfg n with
            | None => []
            | Some _ => if done n then [] else attempts fuel' cfg done (Datatypes.S n) logs s
            end
      end
  end.

(** ** Results *)

Implicit Types (cfg : Config) (done : CtxDone) (logs : L) (s : S).

(** More fuel never changes a result. *)
Lemma retry_loop_mono fuel fuel' cfg done n logs s r :
  retry_loop fuel cfg done n logs s = Some r → (fuel ≤ fuel')%nat →
  retry_loop fuel' cfg done n logs s = Some r.
Proof.
  revert fuel' n logs s. induction fuel as [|fuel IH]; intros fuel' n logs s Hr Hle; [done|].
  destruct fuel' as [|fuel']; [lia|]. simpl in *.
  destruct (ConsumeLogs s logs) as [[e|] s']; [|done].
  destruct (IsPermanent e); [done|]. destruct (NextBackOff cfg n); [|done].
  destruct (done n); [done|]. apply IH; [done|lia].
Qed.

(** The loop ends by the attempt at which the backoff stops or the context
    ends. *)
Lemma retry_loop_terminates cfg done k n logs s :
  (NextBackOff cfg (n + k) = None ∨ done (n + k)%nat = true) →
  ∃ r, retry_loop (Datatypes.S k) cfg done n logs s = Some r.
Proof.
  revert n logs s. induction k as [|k IH]; intros n logs s Hstop.
  - rewrite Nat.add_0_r in Hstop. simpl. destruct (ConsumeLogs s logs) as [[e|] s']; [|eauto].
    destruct (IsPermanent e); [eauto|]. destruct (NextBackOff cfg n); [|eauto].
    destruct Hstop as [?|Hd]; [done|]. rewrite Hd. eauto.
  - cbn [retry_loop]. destruct (ConsumeLogs s logs) as [[e|] s']; [|eauto].
    destruct (IsPermanent e); [eauto|]. destruct (NextBackOff cfg n); [|eauto].
    destruct (done n); [eauto|]. apply IH.
    by replace (Datatypes.S n + k)%nat with (n + Datatypes.S k)%nat by lia.
Qed.

(** Every attempt but the last was refused with a retryable error, and the
    result is the last answer. *)
Lemma retry_loop_attempts fuel cfg done n logs s r s' :
  retry_loop fuel cfg done n logs s = Some (r, s') →
  ∃ pre sent last, attempts fuel cfg done n logs s = pre ++ [(sent, last)] ∧
    Forall (λ a, ∃ e, a.2 = Some e ∧ IsPermanent e = false) pre ∧
    (r = last ∨ ∃ e, last = Some e ∧ IsPermanent e = false ∧ r = Some (ContextError e)).
Proof.
  revert n logs s. induction fuel as [|fuel IH]; intros n logs s Hr; [done|]. simpl in *.
  destruct (ConsumeLogs s logs) as [[e|] s1] eqn:Hc; simplify_eq.
  2: { exists [], logs, None. naive_solver. }
  destruct (IsPermanent e) eqn:Hp; simplify_eq.
  { exists [], logs, (Some e). naive_solver. }
  destruct (NextBackOff cfg n); simplify_eq.
  2: { exists [], logs, (Some e). naive_solver. }
  destruct (done n); simplify_eq.
  { exists [], logs, (Some e). split_and!; [done|done|]. right. by exists e. }
  destruct (IH _ _ _ Hr) as (pre & sent & lst & -> & Hpre & Hlast).
  exists ((logs, Some e) :: pre), sent, lst. split_and!; [done| |done].
  constructor; [by exists e|done].
Qed.

(** ** The contract, kept *)

Section contract.
Context {R : Type} (records : L → list R) (taken : S → list R).
Context `{!ConsumerErrorsOk L E} `{!PipelineOk S L E records taken}.

(** What an attempt and its answer leave to be sent. *)
Lemma resend_contract s logs e s1 :
  ConsumeLogs s logs = (Some e, s1) →
  let logs' := match AsLogs e with Some data => data | None => logs end in
  taken s ++ records logs ⊆+ taken s1 ++ records logs'.
Proof.
  intros Hc logs'. destruct (po_error _ _ _ _ Hc) as [Hgrow Hrest]. unfold logs'.
  destruct (AsLogs e) as [data|]; [by apply Hrest|by apply submseteq_skips_r].
Qed.

Lemma retry_loop_contract fuel cfg done n logs s r s' :
  retry_loop fuel cfg done n logs s = Some (r, s') →
  taken s ⊆+ taken s' ∧
  match r with
  | None => taken s ++ records logs ⊆+ taken s'
  | Some e => ∀ rest, AsLogs e = Some rest → taken s ++ records logs ⊆+ taken s' ++ records rest
  end.
Proof.
  revert n logs s. induction fuel as [|fuel IH]; intros n logs s Hr; [done|]. simpl in Hr.
  destruct (ConsumeLogs s logs) as [[e|] s1] eqn:Hc; simplify_eq.
  2: { pose proof (po_success _ _ _ Hc) as Ht. split; [|done].
       etrans; [|exact Ht]. by apply submseteq_inserts_r. }
  pose proof (po_error _ _ _ _ Hc) as [Hgrow Hrest]. pose proof (resend_contract _ _ _ _ Hc) as Hsend.
  destruct (IsPermanent e); simplify_eq; [done|].
  destruct (NextBackOff cfg n); simplify_eq; [|done].
  destruct (done n); simplify_eq; [by setoid_rewrite ContextError_AsLogs|].
  destruct (IH _ _ _ Hr) as [Hg Hres]. split; [by etrans|].
  destruct r; [|by etrans]. intros rest Ha. etrans; [exact Hsend|by apply Hres].
Qed.
End contract.

(** The consumer [NewLogs] returns, for a backoff that stops or a context that
    ends by the [k]-th wait of every batch.  The default, which is never used
    then, is the answer to the first attempt: an error, if the loop goes on. *)
Definition NewLogs (k : nat) (cfg : Config) (done : S → CtxDone) : Consumer S L E :=
  λ s logs, default (ConsumeLogs s logs) (RetryConsumeLogs (Datatypes.S k) cfg (done s) logs s).

(** It answers every batch: the default is never used. *)
Lemma NewLogs_answers k cfg (done : S → CtxDone) s logs :
  NextBackOff cfg k = None ∨ done s k = true →
  RetryConsumeLogs (Datatypes.S k) cfg (done s) logs s = Some (NewLogs k cfg done s logs).
Proof.
  intros Hk. unfold NewLogs, RetryConsumeLogs. destruct (Enabled cfg); [|done].
  destruct (retry_loop_terminates cfg (done s) k 0 logs s Hk) as [r Hr]. by rewrite Hr.
Qed.

(** Each retry sends exactly what the refusal handed back, or the same again. *)
Lemma attempts_data fuel cfg done n logs s i a b :
  attempts fuel cfg done n logs s !! i = Some a →
  attempts fuel cfg done n logs s !! Datatypes.S i = Some b →
  ∃ e, a.2 = Some e ∧ IsPermanent e = false ∧ b.1 = default a.1 (AsLogs e).
Proof.
  revert n logs s i. induction fuel as [|fuel IH]; intros n logs s i Ha Hb; [done|]. simpl in *.
  destruct (ConsumeLogs s logs) as [[e|] s1]; [|by destruct i].
  destruct (IsPermanent e) eqn:Hp; [by destruct i|].
  destruct (NextBackOff cfg n); [|by destruct i].
  destruct (done n); [by destruct i|].
  destruct i as [|i]; simpl in *; [|by eapply IH].
  simplify_eq. exists e. split_and!; [done|done|].
  destruct fuel; simpl in *; [done|]. destruct (ConsumeLogs s1 _).
  injection Hb as <-. simpl.
  by destruct (AsLogs e).
Qed.
End consume.
End ConsumerRetry.

(** * Properties *)

Section properties.
Context {S L E : Type} `{!Consumer S L E} `{!ConsumerErrors L E} `{!ConsumerErrorsOk L E}
  `{!ConsumerRetry.Backoff}.

Lemma attempts_length fuel cfg done n (logs : L) (s : S) :
  (length (ConsumerRetry.attempts fuel cfg done n logs s) ≤ fuel)%nat.
Proof.
  revert n logs s. induction fuel as [|fuel IH]; intros n logs s; simpl; [lia|].
  destruct (ConsumeLogs s logs) as [[e|] s']; simpl; [|lia].
  destruct (IsPermanent e); simpl; [lia|]. destruct (ConsumerRetry.NextBackOff cfg n); simpl; [|lia].
  destruct (done n); simpl; [lia|]. specialize (IH (Datatypes.S n)). simpl in IH.
  pose proof (IH (match AsLogs e with Some data => data | None => logs end) s'). lia.
Qed.

(** C28: Retrying a batch ends within [k + 1] attempts when the backoff stops, or the
    context ends, at the [k]-th wait.  Every attempt but the last was refused
    with a retryable error; the result is success exactly when the last attempt
    was taken, and permanent exactly when the last attempt failed permanently. *)
Theorem retry_outcome cfg done k (logs : L) (s : S) :
  cfg.(ConsumerRetry.Enabled) = true →
  (ConsumerRetry.NextBackOff cfg k = None ∨ done k = true) →
  ∃ err s' pre sent lst,
    ConsumerRetry.RetryConsumeLogs (Datatypes.S k) cfg done logs s = Some (err, s') ∧
    ConsumerRetry.attempts (Datatypes.S k) cfg done 0 logs s = pre ++ [(sent, lst)] ∧
    (length pre ≤ k)%nat ∧
    Forall (λ a, ∃ e, a.2 = Some e ∧ IsPermanent e = false) pre ∧
    (err = None ↔ lst = None) ∧
    (is_Some err → from_option IsPermanent false err = from_option IsPermanent false lst).
Proof.
  intros He Hstop. unfold ConsumerRetry.RetryConsumeLogs. rewrite He.
  destruct (ConsumerRetry.retry_loop_terminates cfg done k 0 logs s Hstop) as [[err s'] Hr].
  destruct (ConsumerRetry.retry_loop_attempts _ _ _ _ _ _ _ _ Hr) as (pre & sent & lst & Ha & Hpre & Hlast).
  exists err, s', pre, sent, lst. split_and!; try done.
  - pose proof (attempts_length (Datatypes.S k) cfg done 0 logs s) as Hlen.
    rewrite Ha, length_app in Hlen. simpl in Hlen. lia.
  - destruct Hlast as [->|(e & -> & _ & ->)]; done.
  - intros _. destruct Hlast as [->|(e & -> & Hp & ->)]; [done|]. simpl.
    by rewrite ContextError_permanent.
Qed.

(** C27: Retrying keeps the pipeline's contract: whatever it refuses on the way and
    hands back in parts, a batch the retrying consumer reports as taken has been
    taken whole, and one it hands back in part has been taken but for that
    part. *)
Theorem retry_keeps_contract {R} (records : L → list R) (taken : S → list R) k cfg
    (done : S → ConsumerRetry.CtxDone) :
  PipelineOk S L E records taken →
  (∀ s, ConsumerRetry.NextBackOff cfg k = None ∨ done s k = true) →
  @PipelineOk S L E R (ConsumerRetry.NewLogs k cfg done) _ records taken.
Proof.
  intros Hp Hk.
  assert (Hc : ∀ s l r s', ConsumerRetry.NewLogs k cfg done s l = (r, s') →
    taken s ⊆+ taken s' ∧
    match r with
    | None => taken s ++ records l ⊆+ taken s'
    | Some e => ∀ rest, AsLogs e = Some rest → taken s ++ records l ⊆+ taken s' ++ records rest
    end).
  { intros s l r s' Hr. pose proof (ConsumerRetry.NewLogs_answers k cfg done s l (Hk s)) as Ha.
    rewrite Hr in Ha. unfold ConsumerRetry.RetryConsumeLogs in Ha.
    destruct (ConsumerRetry.Enabled cfg); [by eapply ConsumerRetry.retry_loop_contract|].
    injection Ha as Ha. destruct r as [e|]; [by apply po_error|].
    pose proof (po_success _ _ _ Ha) as Ht. split; [|done]. etrans; [|exact Ht].
    by apply submseteq_inserts_r. }
  split; intros s l; [intros s' Hr|intros e s' Hr]; by apply (Hc s l _ s' Hr).
Qed.

(** A retry never loses part of a batch: each attempt sends exactly what the
    refusal before it handed back as not taken, or the same data again. *)
Theorem retry_resends fuel cfg done (logs : L) (s : S) i a b :
  ConsumerRetry.attempts fuel cfg done 0 logs s !! i = Some a →
  ConsumerRetry.attempts fuel cfg done 0 logs s !! Datatypes.S i = Some b →
  ∃ e, a.2 = Some e ∧ IsPermanent e = false ∧ b.1 = default a.1 (AsLogs e).
Proof. apply ConsumerRetry.attempts_data. Qed.
End properties.

Module RetrySample.
(** A pipeline that takes two records of a batch at a time and hands back the
    rest, and a backoff that stops after three waits. *)
#[local] Instance consumer : Consumer nat (list nat) (list nat) :=
  λ n l, match drop 2 l with [] => (None, (n + 1)%nat) | rest => (Some rest, (n + 1)%nat) end.
#[local] Instance errors : ConsumerErrors (list nat) (list nat) := {
  IsPermanent _ := false;
  AsLogs rest := Some rest;
  ContextError e := e;
}.
#[local] Instance errors_ok : ConsumerErrorsOk (list nat) (list nat).
Proof. by split. Qed.
#[local] Instance backoff : ConsumerRetry.Backoff :=
  λ cfg n, if decide (n < 3)%nat then Some cfg.(ConsumerRetry.InitialInterval) else None.

Lemma retry_outcome_witness :
  ∃ err s' pre sent lst,
    ConsumerRetry.RetryConsumeLogs 4 ConsumerRetry.NewDefaultConfig (λ _, false) [1; 2; 3; 4; 5]%nat 0%nat
      = Some (err, s') ∧
    ConsumerRetry.attempts 4 ConsumerRetry.NewDefaultConfig (λ _, false) 0 [1; 2; 3; 4; 5]%nat 0%nat
      = pre ++ [(sent, lst)] ∧ (length pre ≤ 3)%nat ∧
    Forall (λ a, ∃ e, a.2 = Some e ∧ IsPermanent e = false) pre ∧
    (err = None ↔ lst = None) ∧
    (is_Some err → from_option IsPermanent false err = from_option IsPermanent false lst).
Proof.
  exact (retry_outcome ConsumerRetry.NewDefaultConfig (λ _, false) 3 [1; 2; 3; 4; 5]%nat 0%nat
    eq_refl (or_introl eq_refl)).
Defined.

(** The same pipeline, keeping what it takes. *)
Module Taker.
#[local] Instance taker : Consumer (list nat) (list nat) (list nat) :=
  λ taken l, match drop 2 l with [] => (None, taken ++ l) | rest => (Some rest, taken ++ take 2 l) end.

Lemma taker_ok : PipelineOk (list nat) (list nat) (list nat) id id.
Proof.
  split; intros s l; unfold ConsumeLogs, taker, id.
  - intros s'. destruct (drop 2 l) eqn:Hd; [|done]. by intros [= <-].
  - intros e s'. destruct (drop 2 l) eqn:Hd; [done|]. intros [= <- <-]. split; [by apply submseteq_inserts_r|].
    intros rest [= <-]. rewrite <- Hd, <- app_assoc, take_drop. done.
Qed.

Lemma retry_keeps_contract_witness :
  @PipelineOk (list nat) (list nat) (list nat) nat
    (ConsumerRetry.NewLogs 3 ConsumerRetry.NewDefaultConfig (λ _ _, false)) _ id id.
Proof. exact (retry_keeps_contract id id 3 ConsumerRetry.NewDefaultConfig (λ _ _, false) taker_ok (λ _, or_introl eq_refl)). Defined.

Example taker_run :
  ConsumerRetry.NewLogs 3 ConsumerRetry.NewDefaultConfig (λ _ _, false) [9]%nat [1; 2; 3; 4; 5]%nat =
    (None, [9; 1; 2; 3; 4; 5]%nat).
Proof. reflexivity. Qed.
End Taker.

Lemma retry_resends_witness :
  ∃ e, Some [3; 4; 5]%nat = Some e ∧ IsPermanent e = false ∧ [3; 4; 5]%nat = default [1; 2; 3; 4; 5]%nat (AsLogs e).
Proof.
  exact (retry_resends 4 ConsumerRetry.NewDefaultConfig (λ _, false) [1; 2; 3; 4; 5]%nat 0%nat 0
    ([1; 2; 3; 4; 5]%nat, Some [3; 4; 5]%nat) ([3; 4; 5]%nat, Some [5]%nat) eq_refl eq_refl).
Defined.
End RetrySample.
