(* ===== verification/Samples.v ===== *)
(** Concrete instances of what the receiver is connected to (the [pdata] library,
    a pipeline that answers from a script, the classes of its errors), with which
    the theorems' hypotheses are shown to be satisfiable.  They are not declared
    as instances here; a module that evaluates something makes them local ones. *)
From S2P Require Import Prelude GoTime LogLine Consumer.
Open Scope Z_scope.

(** A pdata timestamp is the nanoseconds since 1970. *)
Definition unix_epoch : Z := Date 1970 1 1 0 0 0 0.

Definition sample_pdata : PData := {|
  NewTimestampFromTime t := t - unix_epoch;
  SchemaURL := "https://opentelemetry.io/schemas/1.27.0";
|}.

Inductive sample_err := Retryable | Permanent.

(** The pipeline answers from a script, and takes everything once it is spent. *)
Definition script := list (option sample_err).

Definition sample_consumer : Consumer script Batch sample_err :=
  λ answers _, match answers with [] => (None, []) | r :: rest => (r, rest) end.

Definition sample_errors : ConsumerErrors Batch sample_err := {|
  IsPermanent e := match e with Permanent => true | Retryable => false end;
  AsLogs _ := None;
  ContextError e := e;
|}.

Definition sample_meta : Meta := MkMeta "default" "web-0" "6f1c" "app" "node-1" 0.

(** A line stamped [t] nanoseconds into 2024. *)
Definition sample_line (t : Z) (body : string) : Line :=
  MkLine (bs body) (Date 2024 1 1 0 0 0 t).
