(* ===== verification/Connection.v ===== *)
(** One open log connection: [streamConnection] and [consumeBatch] of
    [receiver.go].

    The two goroutines and the ticker of [streamConnection] meet in one
    [select]; what the loop observes is a sequence of events, the lines of the
    stream in order, interleaved arbitrarily with ticks and ended by the closing
    of the line channel.  The theorems quantify over every such sequence. *)
From S2P Require Import Prelude GoTime Cursor LogLine Scanner Consumer Samples.
Open Scope Z_scope.

(** * What the pipeline did with a batch *)

Inductive batchOutcome := batchDelivered | batchRefused | batchDropped.

#[export] Instance batchOutcome_eq_dec : EqDecision batchOutcome.
Proof. solve_decision. Defined.

(** Why a connection ended. *)
Inductive StreamErr := errPipelineRefused | errRead (e : ReadErr).

#[export] Instance streamerr_eq_dec : EqDecision StreamErr.
Proof. solve_decision. Defined.

(** What the loop of [streamConnection] receives: a line, with the clock
    reading [Append] takes for it; a tick of the flush timer; the closing of the
    channel, with [readErr]. *)
Inductive conn_event :=
| EvLine (item : Line) (now : Z)
| EvTick
| EvClosed (readErr : option ReadErr).

(** What a connection does to the outside, in order. *)
Inductive conn_output :=
| ConnAccepted (l : list bytes)   (* the bodies of a batch the pipeline took *)
| ConnDropped (l : list bytes)    (* of one it refused for good, and so discarded *)
| ConnProgress (c : Cursor).      (* a call of onProgress *)

(** The records the pipeline took, those discarded, and both in order: what the
    connection is done with. *)
Definition conn_accepted (out : list conn_output) : list bytes :=
  concat (omap (λ o, match o with ConnAccepted l => Some l | _ => None end) out).
Definition conn_dropped (out : list conn_output) : list bytes :=
  concat (omap (λ o, match o with ConnDropped l => Some l | _ => None end) out).
Definition conn_settled (out : list conn_output) : list bytes :=
  concat (omap (λ o, match o with ConnAccepted l | ConnDropped l => Some l | _ => None end) out).
Definition conn_progress (out : list conn_output) : list Cursor :=
  omap (λ o, match o with ConnProgress c => Some c | _ => None end) out.

Definition batch_bodies (b : Batch) : list bytes := lr_body <$> b.(b_records).

(** The local variables of [streamConnection] and, for the statements about
    them, what it has handed out: each batch with its outcome, and its outputs. *)
Record Conn (S : Type) := MkConn {
  c_filter : Filter;
  c_pending : Cursor;
  c_batchAdvanced : bool;
  c_batch : Batch;
  c_delivered : Cursor;
  c_world : S;
  c_log : list (Batch * batchOutcome);
  c_out : list conn_output;
}.
Arguments MkConn {S} _ _ _ _ _ _ _ _.
Arguments c_filter {S} _. Arguments c_pending {S} _. Arguments c_batchAdvanced {S} _.
Arguments c_batch {S} _. Arguments c_delivered {S} _. Arguments c_world {S} _.
Arguments c_log {S} _. Arguments c_out {S} _.

Section connection.
Context {S E : Type} `{!PData} `{!Consumer S Batch E} `{!ConsumerErrors Batch E}.

Definition consumeBatch (s : S) (logs : Batch) : batchOutcome * S :=
  let '(err, s) := ConsumeLogs s logs in
  match err with
  | None => (batchDelivered, s)
  | Some e => if IsPermanent e then (batchDropped, s) else (batchRefused, s)
  end.

(** The variables as [streamConnection] initialises them. *)
Definition conn_init (m : Meta) (resume : Cursor) (s : S) : Conn S :=
  MkConn (Filt.NewFilter resume) resume false (NewBatch m) Cur.zero s [] [].

(** The closure [flush]. *)
Definition flush (m : Meta) (c : Conn S) : Conn S * bool :=
  if Count c.(c_batch) =? 0 then (c, true)
  else
    let '(outcome, s) := consumeBatch c.(c_world) c.(c_batch) in
    let moved := negb (bool_decide (outcome = batchRefused)) && c.(c_batchAdvanced) in
    let delivered := if moved then c.(c_pending) else c.(c_delivered) in
    let settled :=
      match outcome with
      | batchDelivered => [ConnAccepted (batch_bodies c.(c_batch))]
      | batchDropped => [ConnDropped (batch_bodies c.(c_batch))]
      | batchRefused => []
      end in
    let progress := if moved then [ConnProgress delivered] else [] in
    (MkConn c.(c_filter) c.(c_pending) false (NewBatch m) delivered s
       (c.(c_log) ++ [(c.(c_batch), outcome)]) (c.(c_out) ++ settled ++ progress),
     negb (bool_decide (outcome = batchRefused))).

(** The closure [appendLine]. *)
Definition appendLine (c : Conn S) (item : Line) (now : Z) : Conn S :=
  let batch := Append c.(c_batch) item.(Body) item.(Timestamp) now in
  let '(pending, moved) := Cur.Record_ c.(c_pending) item.(Timestamp) in
  MkConn c.(c_filter) pending (if moved : bool then true else c.(c_batchAdvanced)) batch
    c.(c_delivered) c.(c_world) c.(c_log) c.(c_out).

Definition set_filter (c : Conn S) (f : Filter) : Conn S :=
  MkConn f c.(c_pending) c.(c_batchAdvanced) c.(c_batch) c.(c_delivered) c.(c_world)
    c.(c_log) c.(c_out).

(** One turn of the loop; [Some err] returns. *)
Definition conn_step (maxBatch : Z) (m : Meta) (c : Conn S) (ev : conn_event)
    : Conn S * option (option StreamErr) :=
  match ev with
  | EvLine item now =>
      let '(f, keep) := Filt.Keep c.(c_filter) item.(Timestamp) in
      let c := set_filter c f in
      if negb keep then (c, None)
      else
        let c := appendLine c item now in
        if maxBatch <=? Count c.(c_batch) then
          let '(c, ok) := flush m c in
          if negb ok then (c, Some (Some errPipelineRefused)) else (c, None)
        else (c, None)
  | EvTick =>
      let '(c, ok) := flush m c in
      if negb ok then (c, Some (Some errPipelineRefused)) else (c, None)
  | EvClosed readErr =>
      let '(c, ok) := flush m c in
      if negb ok then (c, Some (Some errPipelineRefused))
      else (c, Some (errRead <$> readErr))
  end.

(** The loop over the events, up to the return. *)
Fixpoint conn_run (maxBatch : Z) (m : Meta) (c : Conn S) (evs : list conn_event)
    : Conn S * option (option StreamErr) :=
  match evs with
  | [] => (c, None)
  | ev :: evs' =>
      let '(c, r) := conn_step maxBatch m c ev in
      match r with
      | Some _ => (c, r)
      | None => conn_run maxBatch m c evs'
      end
  end.

(** [streamConnection]: the delivered cursor and the error, with what it did to
    the outside and the consumer's state; [None] while the connection is open. *)
Definition streamConnection (maxBatch : Z) (m : Meta) (resume : Cursor) (s : S)
    (evs : list conn_event) : option (Cursor * option StreamErr * list conn_output * S) :=
  let '(c, r) := conn_run maxBatch m (conn_init m resume s) evs in
  err ← r; Some (c.(c_delivered), err, c.(c_out), c.(c_world)).
End connection.

(** The lines a sequence of events carries. *)
Definition ev_lines (evs : list conn_event) : list Line :=
  omap (λ ev, match ev with EvLine l _ => Some l | _ => None end) evs.

(** * What the loop maintains *)

Lemma conn_settled_app l k : conn_settled (l ++ k) = conn_settled l ++ conn_settled k.
Proof. unfold conn_settled. by rewrite omap_app, concat_app. Qed.

Lemma conn_progress_app l k : conn_progress (l ++ k) = conn_progress l ++ conn_progress k.
Proof. apply omap_app. Qed.

Lemma conn_dropped_app l k : conn_dropped (l ++ k) = conn_dropped l ++ conn_dropped k.
Proof. unfold conn_dropped. by rewrite omap_app, concat_app. Qed.

(** Where nothing is discarded, all that is settled is taken. *)
Lemma conn_settled_accepted out : conn_dropped out = [] → conn_settled out = conn_accepted out.
Proof.
  unfold conn_dropped, conn_settled, conn_accepted.
  induction out as [|[l|l|c] out IH]; intros Hd; simpl in *; [done|f_equal; by apply IH| |by apply IH].
  apply app_nil in Hd as [-> Hd]. by apply IH.
Qed.

Notation stamps := (fmap Timestamp).

(** The records of [lines] a connection resumed at [resume] forwards. *)
Definition kept (resume : Cursor) (lines : list Line) : list Line :=
  Filt.keep_all Timestamp (Filt.NewFilter resume) lines.

(** The runs of records behind a list of progress reports: each extends the one
    before, the last is part of [top]. *)
Fixpoint prefix_chain (base : list Line) (fls : list (list Line)) (top : list Line) : Prop :=
  match fls with
  | [] => base `prefix_of` top
  | fl :: fls' => base `prefix_of` fl ∧ prefix_chain fl fls' top
  end.

Lemma prefix_chain_snoc base fls top top' :
  prefix_chain base fls top → top `prefix_of` top' → prefix_chain base (fls ++ [top']) top'.
Proof.
  revert base. induction fls as [|fl fls IH]; intros base; simpl.
  - intros. split; [by etrans|done].
  - intros [? ?] ?. split; [done|]. by apply IH.
Qed.

Lemma prefix_chain_weaken base fls top top' :
  prefix_chain base fls top → top `prefix_of` top' → prefix_chain base fls top'.
Proof.
  revert base. induction fls as [|fl fls IH]; intros base; simpl; [by intros; etrans|].
  intros [? ?] ?. split; [done|]. by apply IH.
Qed.

(** The cursors reported so far each stand after some run of flushed records,
    ever further on; the cursor to return is the last of them, and stands after
    all of [flushed].  It is the zero cursor until a batch has moved it. *)
Definition delivered_at (resume : Cursor) (flushed : list Line) (delivered : Cursor)
    (progress : list Cursor) : Prop :=
  (∃ fls, progress = (λ fl, Cur.record_all resume (stamps fl)) <$> fls ∧
     prefix_chain [] fls flushed) ∧
  Forall (λ d, Cur.IsZero d = false) progress ∧
  ((delivered = Cur.zero ∧ progress = [] ∧ Cur.record_all resume (stamps flushed) = resume) ∨
   (last progress = Some delivered ∧ delivered = Cur.record_all resume (stamps flushed))).

(** What a flush does to the cursor: nothing when the batch did not move it... *)
Lemma delivered_at_still resume flushed buf delivered progress :
  delivered_at resume flushed delivered progress →
  Cur.record_all resume (stamps (flushed ++ buf)) = Cur.record_all resume (stamps flushed) →
  delivered_at resume (flushed ++ buf) delivered progress.
Proof.
  intros ((fls & -> & Hchain) & Hnz & Hd) Heq. unfold delivered_at. rewrite Heq.
  split_and!; [|done|done]. exists fls. split; [done|].
  eapply prefix_chain_weaken; [done|by apply prefix_app_r].
Qed.

(** ... and otherwise it becomes the position after the batch. *)
Lemma delivered_at_moved resume flushed buf delivered progress :
  delivered_at resume flushed delivered progress →
  let pending := Cur.record_all resume (stamps (flushed ++ buf)) in
  Cur.IsZero pending = false →
  delivered_at resume (flushed ++ buf) pending (progress ++ [pending]).
Proof.
  intros ((fls & -> & Hchain) & Hnz & Hd) pending Hp. unfold delivered_at. split_and!.
  - exists (fls ++ [flushed ++ buf]). rewrite fmap_app. split; [done|].
    eapply prefix_chain_snoc; [done|by apply prefix_app_r].
  - apply Forall_app. split; [done|]. by apply Forall_singleton.
  - right. by rewrite last_snoc.
Qed.

(** Each report comes after the records it stands behind have been taken, and
    before any others have. *)
Definition reported (resume : Cursor) (flushed : list Line) (out : list conn_output) : Prop :=
  ∀ p c q, out = p ++ ConnProgress c :: q →
  ∃ fl, fl `prefix_of` flushed ∧ conn_settled p = Body <$> fl ∧
    c = Cur.record_all resume (stamps fl).

Lemma reported_nil resume flushed : reported resume flushed [].
Proof. intros p c q Hp. by destruct p. Qed.

(** A batch settled adds to what may be reported... *)
Lemma reported_settled resume flushed buf out o :
  (∀ c, o ≠ ConnProgress c) →
  reported resume flushed out → reported resume (flushed ++ buf) (out ++ [o]).
Proof.
  intros Ho Hr p c q Hp. destruct q as [|o' q _] using rev_ind.
  { apply app_inj_tail in Hp as [_ Heq]. by destruct (Ho c). }
  rewrite app_comm_cons, app_assoc in Hp. apply app_inj_tail in Hp as [-> _].
  destruct (Hr p c q eq_refl) as (fl & Hfl & Ha & Hc). exists fl. split_and!; [|done|done].
  etrans; [done|by apply prefix_app_r].
Qed.

(** ... and the report behind everything taken is in order. *)
Lemma reported_moved resume flushed out :
  reported resume flushed out → conn_settled out = Body <$> flushed →
  reported resume flushed (out ++ [ConnProgress (Cur.record_all resume (stamps flushed))]).
Proof.
  intros Hr Ha p c q Hp. destruct q as [|o q _] using rev_ind.
  { apply app_inj_tail in Hp as [<- [= <-]]. by exists flushed. }
  rewrite app_comm_cons, app_assoc in Hp. apply app_inj_tail in Hp as [-> _]. by eapply Hr.
Qed.

Record conn_inv {S} (maxBatch : Z) (resume : Cursor) (lines : list Line)
    (flushed buf : list Line) (c : Conn S) : Prop := {
  ci_kept : kept resume lines = flushed ++ buf;
  ci_filter : c.(c_filter) = filter_after Timestamp (Filt.NewFilter resume) lines;
  ci_pending : c.(c_pending) = Cur.record_all resume (stamps (flushed ++ buf));
  ci_advanced : c.(c_batchAdvanced) = false →
    Cur.record_all resume (stamps flushed) = c.(c_pending);
  ci_moved : c.(c_batchAdvanced) = true → Cur.IsZero c.(c_pending) = false;
  ci_batch : batch_bodies c.(c_batch) = Body <$> buf;
  ci_count : Count c.(c_batch) = Z.of_nat (length buf);
  ci_room : Z.of_nat (length buf) ≤ maxBatch;
  ci_out : conn_settled c.(c_out) = Body <$> flushed;
  ci_reported : reported resume flushed c.(c_out);
  ci_taken : Forall (λ e, e.2 ≠ batchRefused) c.(c_log);
  ci_sizes : Forall (λ e, 0 < Z.of_nat (length e.1.(b_records)) ≤ maxBatch) c.(c_log);
  ci_delivered : delivered_at resume flushed c.(c_delivered) (conn_progress c.(c_out));
}.

Section invariant.
Context {S E : Type} `{!PData} `{!Consumer S Batch E} `{!ConsumerErrors Batch E}.
Context (maxBatch : Z) (m : Meta) (resume : Cursor).
Hypothesis maxBatch_pos : 0 < maxBatch ≤ max_int64.
Implicit Types (c : Conn S) (lines flushed buf : list Line).

Lemma conn_init_inv (s : S) : conn_inv maxBatch resume [] [] [] (conn_init m resume s).
Proof.
  split; simpl; try done; [lia|apply reported_nil|]. unfold delivered_at. split.
  { exists []. split; [done|apply prefix_nil]. }
  split; [constructor|by left].
Qed.

(** What a refusal leaves behind: nothing of the refused batch counts. *)
Definition refused_after lines flushed c : Prop :=
  ∃ rest log b, kept resume lines = flushed ++ rest ∧ rest ≠ [] ∧
    c.(c_log) = log ++ [(b, batchRefused)] ∧ batch_bodies b = Body <$> rest ∧
    conn_settled c.(c_out) = Body <$> flushed ∧ reported resume flushed c.(c_out) ∧
    delivered_at resume flushed c.(c_delivered) (conn_progress c.(c_out)) ∧
    Forall (λ e, e.2 ≠ batchRefused) log ∧
    Forall (λ e, 0 < Z.of_nat (length e.1.(b_records)) ≤ maxBatch) c.(c_log).

Lemma batch_bodies_length b : length (batch_bodies b) = length b.(b_records).
Proof. apply length_fmap. Qed.

(** [flush] empties the buffer into the delivered part, or reports a refusal. *)
Lemma flush_inv lines flushed buf c c' ok :
  conn_inv maxBatch resume lines flushed buf c → flush m c = (c', ok) →
  if ok then conn_inv maxBatch resume lines (flushed ++ buf) [] c'
  else refused_after lines flushed c'.
Proof.
  intros [Hk Hf Hp Ha Hm Hb Hc Hlen Hout Hrep Htk Hsz Hd] Hfl. unfold flush in Hfl.
  rewrite Hc in Hfl. destruct (Z.eqb_spec (Z.of_nat (length buf)) 0) as [H0|H0].
  { simplify_eq. destruct buf; [|simpl in *; lia]. rewrite !app_nil_r in *.
    split; rewrite ?app_nil_r; done. }
  assert (Hne : buf ≠ []) by (by intros ->).
  destruct (consumeBatch (c_world c) (c_batch c)) as [o s].
  destruct (decide (o = batchRefused)) as [->|Ho].
  - rewrite !(bool_decide_true (batchRefused = _)) in Hfl by done. simplify_eq; simpl.
    exists buf, (c_log c), (c_batch c). unfold refused_after. simpl. rewrite app_nil_r.
    split_and!; try done.
    apply Forall_app. split; [done|]. apply Forall_singleton. simpl.
    rewrite <- batch_bodies_length, Hb, length_fmap. lia.
  - rewrite !(bool_decide_false (o = _)) in Hfl by done.
    set (settled := match o with batchDelivered => _ | _ => _ end) in Hfl.
    assert (Hset : ∃ x, settled = [x] ∧ conn_settled [x] = Body <$> buf ∧ ∀ d, x ≠ ConnProgress d).
    { rewrite <- Hb. unfold settled, conn_settled.
      destruct o; [eexists|done|eexists]; (split_and!; [done|apply app_nil_r|done]). }
    destruct Hset as (x & Hx & Hxb & Hxp). clearbody settled. subst settled. simplify_eq; simpl.
    assert (Hlen' : length (b_records (c_batch c)) = length buf).
    { by rewrite <- batch_bodies_length, Hb, length_fmap. }
    assert (Htaken : conn_settled (c_out c ++ [x]) = Body <$> flushed ++ buf).
    { by rewrite conn_settled_app, Hout, fmap_app, Hxb. }
    assert (Hxq : conn_progress [x] = []) by (destruct x as [l|l|d]; [done|done|by destruct (Hxp d)]).
    pose proof (reported_settled _ _ buf _ x Hxp Hrep) as Hrep'.
    assert (Hout' : let out' := c_out c ++ [x] ++
        (if c_batchAdvanced c then [ConnProgress (c_pending c)] else []) in
      conn_settled out' = Body <$> flushed ++ buf ∧ reported resume (flushed ++ buf) out' ∧
      delivered_at resume (flushed ++ buf)
        (if c_batchAdvanced c then c_pending c else c_delivered c) (conn_progress out')).
    { cbv zeta. rewrite app_assoc. destruct (c_batchAdvanced c).
      - split_and!; [by rewrite conn_settled_app, Htaken, app_nil_r|rewrite Hp; by apply reported_moved|].
        rewrite !conn_progress_app, Hxq. simpl. rewrite app_nil_r, Hp.
        apply (delivered_at_moved _ _ _ _ _ Hd). rewrite <- Hp. by apply Hm.
      - rewrite app_nil_r. split_and!; [done|done|]. rewrite conn_progress_app, Hxq, app_nil_r.
        apply delivered_at_still; [done|]. by rewrite <- Hp, <- Ha. }
    destruct Hout' as (Hout1 & Hout2 & Hout3).
    split; cbn [c_filter c_pending c_batchAdvanced c_batch c_delivered c_world c_log c_out andb negb];
      rewrite ?app_nil_r; try done; try by destruct (c_batchAdvanced c).
    + simpl; lia.
    + apply Forall_app; split; [done|]. by apply Forall_singleton.
    + apply Forall_app; split; [done|]. apply Forall_singleton. simpl. lia.
Qed.

(** A record the filter keeps joins the buffer. *)
Lemma appendLine_inv lines flushed buf c item now f :
  conn_inv maxBatch resume lines flushed buf c → Z.of_nat (length buf) < maxBatch →
  Filt.Keep c.(c_filter) item.(Timestamp) = (f, true) →
  conn_inv maxBatch resume (lines ++ [item]) flushed (buf ++ [item])
    (appendLine (set_filter c f) item now).
Proof.
  intros [Hk Hf Hp Ha Hm Hb Hc Hlen Hout Hrep Htk Hsz Hd] Hroom Hkeep. unfold appendLine. simpl.
  destruct (Cur.Record_ (c_pending c) (Timestamp item)) as [pending moved] eqn:Hrec.
  assert (Hpend : pending = Cur.record_all resume (stamps (flushed ++ buf ++ [item]))).
  { rewrite app_assoc, fmap_app, record_all_app, <- Hp. simpl. by rewrite Hrec. }
  split; simpl; try done.
  - unfold kept in *. rewrite keep_all_snoc, Hk, <- Hf, Hkeep. simpl. by rewrite <- app_assoc.
  - by rewrite filter_after_snoc, <- Hf, Hkeep.
  - destruct moved; [done|]. intros Hadv. apply Record_false in Hrec as [-> _]. auto.
  - destruct moved.
    + intros _. apply Record_true in Hrec as (Hnz & Hts & _).
      unfold Cur.IsZero, Time.IsZero. rewrite Hts. by apply Z.eqb_neq.
    + intros Hadv. apply Record_false in Hrec as [-> _]. auto.
  - unfold batch_bodies in *. simpl. by rewrite !fmap_app, Hb.
  - unfold Count in *. rewrite Hc, length_app. simpl. rewrite int64_small by in_range. lia.
  - rewrite length_app. simpl. lia.
Qed.

(** A record the filter drops leaves everything but the filter alone. *)
Lemma skipLine_inv lines flushed buf c item f :
  conn_inv maxBatch resume lines flushed buf c →
  Filt.Keep c.(c_filter) item.(Timestamp) = (f, false) →
  conn_inv maxBatch resume (lines ++ [item]) flushed buf (set_filter c f).
Proof.
  intros [Hk Hf Hp Ha Hm Hb Hc Hlen Hout Hrep Htk Hsz Hd] Hkeep. split; simpl; try done.
  - unfold kept in *. rewrite keep_all_snoc, Hk, <- Hf, Hkeep. simpl. by rewrite app_nil_r.
  - by rewrite filter_after_snoc, <- Hf, Hkeep.
Qed.

(** How a connection ends. *)
Definition conn_done lines flushed c (readErr : option StreamErr) (err : option StreamErr) : Prop :=
  (err = readErr ∧ conn_inv maxBatch resume lines flushed [] c) ∨
  (err = Some errPipelineRefused ∧ refused_after lines flushed c).

Lemma conn_step_inv lines flushed buf c ev c' r :
  conn_inv maxBatch resume lines flushed buf c → Z.of_nat (length buf) < maxBatch →
  conn_step maxBatch m c ev = (c', r) →
  let lines' := lines ++ ev_lines [ev] in
  match r with
  | None => ∃ flushed' buf', conn_inv maxBatch resume lines' flushed' buf' c' ∧
              Z.of_nat (length buf') < maxBatch
  | Some err => ∃ flushed',
      (err = Some errPipelineRefused ∧ refused_after lines' flushed' c') ∨
      (∃ readErr, ev = EvClosed readErr ∧ err = errRead <$> readErr ∧
         conn_inv maxBatch resume lines' flushed' [] c')
  end.
Proof.
  intros Hinv Hroom Hstep. destruct ev as [item now| |readErr]; simpl in *.
  - destruct (Filt.Keep (c_filter c) (Timestamp item)) as [f keep] eqn:Hkeep.
    destruct keep; simpl in Hstep; simplify_eq.
    2: { exists flushed, buf. split; [by apply skipLine_inv|done]. }
    pose proof (appendLine_inv _ _ _ _ _ now _ Hinv Hroom Hkeep) as Happ.
    destruct (Z.leb_spec maxBatch (Count (c_batch (appendLine (set_filter c f) item now)))) as [Hfull|Hfull].
    + destruct (flush m _) as [c2 ok] eqn:Hfl. apply (flush_inv _ _ _ _ _ _ Happ) in Hfl.
      destruct ok; simpl in Hstep; simplify_eq.
      * exists (flushed ++ buf ++ [item]), []. split; [done|simpl; lia].
      * exists flushed. by left.
    + simplify_eq. rewrite (ci_count _ _ _ _ _ _ Happ) in Hfull.
      exists flushed, (buf ++ [item]). split; done.
  - rewrite app_nil_r. destruct (flush m c) as [c2 ok] eqn:Hfl.
    apply (flush_inv _ _ _ _ _ _ Hinv) in Hfl. destruct ok; simpl in Hstep; simplify_eq.
    + exists (flushed ++ buf), []. split; [done|simpl; lia].
    + exists flushed. by left.
  - rewrite app_nil_r. destruct (flush m c) as [c2 ok] eqn:Hfl.
    apply (flush_inv _ _ _ _ _ _ Hinv) in Hfl. destruct ok; simpl in Hstep; simplify_eq.
    + exists (flushed ++ buf). right. by exists readErr.
    + exists flushed. by left.
Qed.

Lemma ev_lines_cons ev evs : ev_lines (ev :: evs) = ev_lines [ev] ++ ev_lines evs.
Proof. by destruct ev. Qed.

Lemma ev_lines_app evs evs' : ev_lines (evs ++ evs') = ev_lines evs ++ ev_lines evs'.
Proof. unfold ev_lines. by rewrite omap_app. Qed.

(** A stream's events: lines and ticks, then the closing of the channel. *)
Definition open_events (evs : list conn_event) : Prop :=
  Forall (λ ev, ∀ readErr, ev ≠ EvClosed readErr) evs.

Lemma conn_run_inv lines flushed buf c evs readErr :
  conn_inv maxBatch resume lines flushed buf c → Z.of_nat (length buf) < maxBatch →
  open_events evs →
  ∃ c' err lines' flushed', conn_run maxBatch m c (evs ++ [EvClosed readErr]) = (c', Some err) ∧
    conn_done lines' flushed' c' (errRead <$> readErr) err ∧
    lines' `prefix_of` lines ++ ev_lines evs ∧
    (err ≠ Some errPipelineRefused → lines' = lines ++ ev_lines evs).
Proof.
  revert lines flushed buf c. induction evs as [|ev evs IH]; intros lines flushed buf c Hinv Hroom Hev.
  - simpl. destruct (flush m c) as [c2 ok] eqn:Hfl. apply (flush_inv _ _ _ _ _ _ Hinv) in Hfl.
    rewrite app_nil_r. destruct ok; simpl.
    + exists c2, (errRead <$> readErr), lines, (flushed ++ buf).
      split_and!; [done|by left|done|done].
    + exists c2, (Some errPipelineRefused), lines, flushed.
      split_and!; [done|by right|done|done].
  - apply Forall_cons in Hev as [Hne Hev].
    cbn [conn_run app]. destruct (conn_step maxBatch m c ev) as [c1 r] eqn:Hstep.
    pose proof (conn_step_inv _ _ _ _ _ _ _ Hinv Hroom Hstep) as Hpost.
    rewrite ev_lines_cons, app_assoc. destruct r as [err|]; simpl in Hpost.
    + destruct Hpost as (flushed' & [[-> Href]|(re & -> & _)]); [|by destruct (Hne re)].
      exists c1, (Some errPipelineRefused), (lines ++ ev_lines [ev]), flushed'.
      split_and!; [done|by right|by apply prefix_app_r|done].
    + destruct Hpost as (flushed' & buf' & Hinv' & Hroom').
      destruct (IH _ _ _ _ Hinv' Hroom' Hev) as (c' & err & lines' & flushed'' & -> & Hrest).
      by exists c', err, lines', flushed''.
Qed.
End invariant.

(** * Permanent errors *)

(** A pipeline none of whose errors is permanent has nothing discarded. *)
Section permanent.
Context {S E : Type} `{!PData} `{!Consumer S Batch E} `{!ConsumerErrors Batch E}.
Hypothesis no_permanent : ∀ e : E, IsPermanent e = false.
Implicit Types (c : Conn S).

Lemma flush_drops_nothing m c c' ok :
  conn_dropped c.(c_out) = [] → flush m c = (c', ok) → conn_dropped c'.(c_out) = [].
Proof.
  unfold flush, consumeBatch. intros Hc Hf. destruct (_ =? 0); [by simplify_eq|].
  destruct (ConsumeLogs (c_world c) (c_batch c)) as [[e|] s].
  - rewrite no_permanent in Hf. simplify_eq. simpl. by rewrite app_nil_r.
  - injection Hf as <- _. simpl. rewrite !conn_dropped_app, Hc. by destruct (c_batchAdvanced c).
Qed.

Lemma conn_run_drops_nothing maxBatch m c evs :
  conn_dropped c.(c_out) = [] → conn_dropped (conn_run maxBatch m c evs).1.(c_out) = [].
Proof.
  revert c. induction evs as [|ev evs IH]; intros c Hc; [done|]. cbn [conn_run].
  destruct (conn_step maxBatch m c ev) as [c1 r] eqn:Hst.
  assert (H1 : conn_dropped c1.(c_out) = []).
  { destruct ev as [item now| |e]; simpl in Hst.
    - destruct (Filt.Keep _ _) as [f []]; simpl in Hst; [|by simplify_eq].
      set (c2 := appendLine _ _ _) in Hst. assert (H2 : conn_dropped c2.(c_out) = []).
      { unfold c2, appendLine. by destruct (Cur.Record_ _ _). }
      clearbody c2. repeat (case_match; simplify_eq/=; eauto using flush_drops_nothing).
    - repeat (case_match; simplify_eq/=; eauto using flush_drops_nothing).
    - repeat (case_match; simplify_eq/=; eauto using flush_drops_nothing). }
  destruct r; [done|by apply IH].
Qed.

Lemma streamConnection_drops_nothing maxBatch m resume (s : S) evs delivered err out s' :
  streamConnection maxBatch m resume s evs = Some (delivered, err, out, s') → conn_dropped out = [].
Proof.
  unfold streamConnection. pose proof (conn_run_drops_nothing maxBatch m (conn_init m resume s) evs eq_refl) as Hd.
  destruct (conn_run _ _ _ _) as [c r]. simpl in Hd. destruct r; intros; by simplify_eq/=.
Qed.
End permanent.

(** * The pipeline's side *)

(** The records of the batches that were delivered. *)
Definition delivered_bodies (log : list (Batch * batchOutcome)) : list bytes :=
  concat (batch_bodies ∘ fst <$> filter (λ e, e.2 = batchDelivered) log).

Section pipeline.
Context {S E : Type} `{!PData} `{!Consumer S Batch E} `{!ConsumerErrors Batch E}.
Context (taken : S → list bytes) `{!PipelineOk S Batch E batch_bodies taken}.
Implicit Types (c : Conn S).

(** All that was delivered since [s] has been taken. *)
Definition taken_since (s : S) c : Prop :=
  taken s ++ delivered_bodies c.(c_log) ⊆+ taken c.(c_world).

Lemma delivered_bodies_snoc log b o :
  delivered_bodies (log ++ [(b, o)]) =
    delivered_bodies log ++ (if decide (o = batchDelivered) then batch_bodies b else []).
Proof.
  unfold delivered_bodies. rewrite filter_app, fmap_app, concat_app. f_equal.
  rewrite filter_cons. simpl. case_decide; simpl; by rewrite ?app_nil_r.
Qed.

Lemma flush_taken s m c c' ok : taken_since s c → flush m c = (c', ok) → taken_since s c'.
Proof.
  unfold taken_since, flush. intros Ht Hf. destruct (_ =? 0); [by simplify_eq|].
  destruct (consumeBatch (c_world c) (c_batch c)) as [o s1] eqn:Hc.
  assert (Hstep : taken (c_world c) ++ (if decide (o = batchDelivered) then batch_bodies (c_batch c) else []) ⊆+ taken s1).
  { unfold consumeBatch in Hc. destruct (ConsumeLogs (c_world c) (c_batch c)) as [[e|] s2] eqn:He.
    - destruct (po_error _ _ _ _ He) as [Hg _]. destruct (IsPermanent e); simplify_eq; simpl;
        by rewrite app_nil_r.
    - simplify_eq. rewrite decide_True by done. by apply (po_success _ _ _ He). }
  injection Hf as <- _. cbn [c_log c_world]. rewrite delivered_bodies_snoc, app_assoc.
  etrans; [|exact Hstep]. by apply submseteq_skips_r.
Qed.

Lemma conn_step_taken s maxBatch m c ev c' r :
  taken_since s c → conn_step maxBatch m c ev = (c', r) → taken_since s c'.
Proof.
  intros Ht Hst. assert (Hfl : ∀ c1 c2 ok, taken_since s c1 → flush m c1 = (c2, ok) → taken_since s c2)
    by (intros; by eapply flush_taken).
  destruct ev as [item now| |e]; simpl in Hst.
  - destruct (Filt.Keep _ _) as [f keep]. destruct keep; simpl in Hst; [|by simplify_eq].
    set (c1 := appendLine _ _ _) in Hst. assert (H1 : taken_since s c1).
    { unfold c1, appendLine. by destruct (Cur.Record_ _ _). }
    clearbody c1. repeat (case_match; simplify_eq/=; eauto).
  - repeat (case_match; simplify_eq/=; eauto).
  - repeat (case_match; simplify_eq/=; eauto).
Qed.

Lemma conn_run_taken s maxBatch m c evs :
  taken_since s c → taken_since s (conn_run maxBatch m c evs).1.
Proof.
  revert c. induction evs as [|ev evs IH]; intros c Ht; simpl; [done|].
  destruct (conn_step maxBatch m c ev) as [c1 r] eqn:Hst.
  pose proof (conn_step_taken _ _ _ _ _ _ _ Ht Hst) as H1. destruct r; [done|by apply IH].
Qed.
End pipeline.

(** * A whole connection *)

Section whole.
Context {S E : Type} `{!PData} `{!Consumer S Batch E} `{!ConsumerErrors Batch E}.
Context (maxBatch : Z) (m : Meta) (resume : Cursor).

(** The batches handed to the pipeline over the events, with what became of
    them. *)
Definition pushed (s : S) (evs : list conn_event) : list (Batch * batchOutcome) :=
  (conn_run maxBatch m (conn_init m resume s) evs).1.(c_log).

Lemma streamConnection_spec (s : S) evs readErr :
  0 < maxBatch ≤ max_int64 → open_events evs →
  ∃ delivered err out s' flushed,
    streamConnection maxBatch m resume s (evs ++ [EvClosed readErr]) =
      Some (delivered, err, out, s') ∧
    flushed `prefix_of` kept resume (ev_lines evs) ∧
    conn_settled out = Body <$> flushed ∧ reported resume flushed out ∧
    delivered_at resume flushed delivered (conn_progress out) ∧
    (err = Some errPipelineRefused ∨
     (err = errRead <$> readErr ∧ flushed = kept resume (ev_lines evs))).
Proof.
  intros Hmax Hev. unfold streamConnection.
  destruct (conn_run_inv maxBatch m resume Hmax [] [] [] (conn_init m resume s) evs readErr)
    as (c & err & lines & flushed & -> & Hdone & Hpre & Hall);
    [by apply conn_init_inv|simpl; lia|done|]. simpl in *.
  exists (c_delivered c), err, (c_out c), (c_world c), flushed. split; [done|].
  assert (kept resume lines `prefix_of` kept resume (ev_lines evs)) as Hkp
    by by apply keep_all_prefix.
  destruct Hdone as [[-> Hinv]|[-> (rest & log & b & Hk & _ & _ & _ & Hacc & Hrep & Hd & _)]].
  - pose proof (ci_kept _ _ _ _ _ _ Hinv) as Hk. rewrite app_nil_r in Hk.
    split_and!; [by rewrite <- Hk|by apply Hinv|by apply Hinv|by apply Hinv|].
    destruct (decide (errRead <$> readErr = Some errPipelineRefused)) as [?|Hne]; [by destruct readErr|].
    right. rewrite <- Hk, Hall by done. done.
  - split_and!; [|done|done|done|by left]. etrans; [|done]. rewrite Hk. by apply prefix_app_r.
Qed.

Lemma pushed_spec (s : S) evs readErr :
  0 < maxBatch ≤ max_int64 → open_events evs →
  let log := pushed s (evs ++ [EvClosed readErr]) in
  Forall (λ e, 0 < Z.of_nat (length e.1.(b_records)) ≤ maxBatch) log ∧
  ∀ pre x post, log = pre ++ x :: post → x.2 = batchRefused → post = [].
Proof.
  intros Hmax Hev log. unfold log, pushed.
  destruct (conn_run_inv maxBatch m resume Hmax [] [] [] (conn_init m resume s) evs readErr)
    as (c & err & lines & flushed & -> & Hdone & _); [by apply conn_init_inv|simpl; lia|done|]. simpl in *.
  destruct Hdone as [[_ Hinv]|(_ & rest & log' & b & _ & _ & Hlog & _ & _ & _ & _ & Htk & Hsz)].
  - split; [apply (ci_sizes _ _ _ _ _ _ Hinv)|]. intros pre x post Hl Hx.
    pose proof (ci_taken _ _ _ _ _ _ Hinv) as Htk. rewrite Hl in Htk.
    apply Forall_app in Htk as [_ Htk]. apply Forall_cons in Htk as [Htk _]. done.
  - split; [done|]. intros pre x post Hl Hx. rewrite Hlog in Hl.
    destruct post as [|y post _] using rev_ind; [done|]. exfalso.
    rewrite app_comm_cons, app_assoc in Hl. apply app_inj_tail in Hl as [-> _].
    apply Forall_app in Htk as [_ Htk]. apply Forall_cons in Htk as [Htk _]. done.
Qed.
End whole.

(** * Properties *)

(** C11: For every interleaving of lines and flush ticks and every behaviour of the
    pipeline, a connection hands over a prefix of the lines its filter kept, in
    order, whole and once each; it stops short of all of them only when a batch
    is refused.  The cursor it returns stands exactly after the records the
    pipeline took or discarded, and each one it reports on the way after exactly
    those it had taken by then. *)
Theorem connection_delivers {S E : Type} `{!PData} `{!Consumer S Batch E} `{!ConsumerErrors Batch E}
    maxBatch m resume (s : S) evs readErr :
  0 < maxBatch ≤ max_int64 → open_events evs →
  ∃ delivered err out s' flushed,
    streamConnection maxBatch m resume s (evs ++ [EvClosed readErr]) =
      Some (delivered, err, out, s') ∧
    flushed `prefix_of` kept resume (ev_lines evs) ∧
    conn_settled out = Body <$> flushed ∧ reported resume flushed out ∧
    delivered_at resume flushed delivered (conn_progress out) ∧
    (err = Some errPipelineRefused ∨
     (err = errRead <$> readErr ∧ flushed = kept resume (ev_lines evs))).
Proof. apply streamConnection_spec. Qed.

(** C29: No batch is empty or larger than the configured maximum, and nothing is
    handed over after a batch the pipeline refused. *)
Theorem batches_bounded {S E : Type} `{!PData} `{!Consumer S Batch E} `{!ConsumerErrors Batch E}
    maxBatch m resume (s : S) evs readErr :
  0 < maxBatch ≤ max_int64 → open_events evs →
  let log := pushed maxBatch m resume s (evs ++ [EvClosed readErr]) in
  Forall (λ e, 0 < Z.of_nat (length e.1.(b_records)) ≤ maxBatch) log ∧
  ∀ pre x post, log = pre ++ x :: post → x.2 = batchRefused → post = [].
Proof. apply pushed_spec. Qed.

(** C12: What a connection counts as delivered has reached the pipeline behind the
    retries: with a consumer that retries in front of a pipeline that may take a
    batch in parts, refuse and hand back the rest any number of times, the
    records of every batch delivered are among those the pipeline has taken
    since. *)
Theorem delivered_reaches_pipeline {S E : Type} `{!PData} (pipeline : Consumer S Batch E)
    `{!ConsumerErrors Batch E} `{!ConsumerErrorsOk Batch E} `{!ConsumerRetry.Backoff}
    (taken : S → list bytes) k cfg (done : S → ConsumerRetry.CtxDone)
    maxBatch m resume (s : S) evs readErr :
  @PipelineOk S Batch E bytes pipeline _ batch_bodies taken →
  (∀ s, ConsumerRetry.NextBackOff cfg k = None ∨ done s k = true) →
  0 < maxBatch ≤ max_int64 → open_events evs →
  let retrying : Consumer S Batch E := ConsumerRetry.NewLogs k cfg done in
  ∃ delivered err out s',
    @streamConnection S E _ retrying _ maxBatch m resume s (evs ++ [EvClosed readErr]) =
      Some (delivered, err, out, s') ∧
    taken s ++ delivered_bodies (@pushed S E _ retrying _ maxBatch m resume s (evs ++ [EvClosed readErr]))
      ⊆+ taken s'.
Proof.
  intros Hp Hk Hmax Hev retrying.
  pose proof (retry_keeps_contract batch_bodies taken k cfg done Hp Hk) as Hok.
  destruct (@streamConnection_spec S E _ retrying _ maxBatch m resume s evs readErr Hmax Hev)
    as (delivered & err & out & s' & _ & Hst & _).
  exists delivered, err, out, s'. split; [done|].
  pose proof (@conn_run_taken S E _ retrying _ taken Hok s maxBatch m (conn_init m resume s)
    (evs ++ [EvClosed readErr])) as Ht.
  unfold streamConnection in Hst. unfold pushed. destruct (conn_run _ _ _ _) as [c r]. simpl in *.
  destruct r; simplify_eq/=. apply Ht. unfold taken_since. simpl. by rewrite app_nil_r.
Qed.

Module ConnectionSample.
#[local] Existing Instance sample_pdata.
#[local] Existing Instance sample_consumer.
#[local] Existing Instance sample_errors.

(** Three lines and a tick, into a pipeline that refuses the second batch. *)
Definition events : list conn_event :=
  [EvLine (sample_line 1 "a") 100; EvTick; EvLine (sample_line 1 "b") 101;
   EvLine (sample_line 2 "c") 102].

Lemma events_open : open_events events.
Proof. repeat constructor; discriminate. Defined.

Lemma connection_delivers_witness :
  ∃ delivered err out s' flushed,
    streamConnection 2 sample_meta Cur.zero [None; Some Retryable] (events ++ [EvClosed None]) =
      Some (delivered, err, out, s') ∧
    flushed `prefix_of` kept Cur.zero (ev_lines events) ∧
    conn_settled out = Body <$> flushed ∧ reported Cur.zero flushed out ∧
    delivered_at Cur.zero flushed delivered (conn_progress out) ∧
    (err = Some errPipelineRefused ∨
     (err = errRead <$> None ∧ flushed = kept Cur.zero (ev_lines events))).
Proof.
  assert (Hb : 0 < 2 ≤ max_int64) by (unfold max_int64; lia).
  exact (connection_delivers 2 sample_meta Cur.zero [None; Some Retryable] events None Hb events_open).
Defined.

Lemma batches_bounded_witness :
  let log := pushed 2 sample_meta Cur.zero [None; Some Retryable] (events ++ [EvClosed None]) in
  Forall (λ e, 0 < Z.of_nat (length e.1.(b_records)) ≤ 2) log ∧
  ∀ pre x post, log = pre ++ x :: post → x.2 = batchRefused → post = [].
Proof.
  assert (Hb : 0 < 2 ≤ max_int64) by (unfold max_int64; lia).
  exact (batches_bounded 2 sample_meta Cur.zero [None; Some Retryable] events None Hb events_open).
Defined.

(** A pipeline that takes one record of a batch at a time and hands back the rest,
    behind a consumer that retries three times. *)
Module Piecewise.
Definition rest_of (b : Batch) : Batch :=
  MkBatch b.(b_schema) b.(b_resource) b.(b_scope) (drop 1 b.(b_records)) b.(b_count).

Definition pipeline : Consumer (list bytes) Batch Batch := λ taken b,
  (if decide (drop 1 b.(b_records) = []) then None else Some (rest_of b),
   taken ++ take 1 (batch_bodies b)).

#[local] Instance errors : ConsumerErrors Batch Batch := {
  IsPermanent _ := false; AsLogs b := Some b; ContextError b := b;
}.
#[local] Instance errors_ok : ConsumerErrorsOk Batch Batch.
Proof. by split. Qed.
#[local] Instance backoff : ConsumerRetry.Backoff :=
  λ cfg n, if decide (n < 3)%nat then Some cfg.(ConsumerRetry.InitialInterval) else None.

Lemma pipeline_ok : @PipelineOk (list bytes) Batch Batch bytes pipeline _ batch_bodies id.
Proof.
  split; intros s l; unfold ConsumeLogs, pipeline, id; case_decide as Hd; try done.
  - intros s' [= <-]. apply submseteq_app; [done|]. unfold batch_bodies.
    by destruct (b_records l) as [|r [|r' rs]].
  - intros e s' [= <- <-]. split; [by apply submseteq_inserts_r|]. intros rest [= <-].
    rewrite <- app_assoc. apply submseteq_app; [done|]. unfold rest_of, batch_bodies; simpl.
    by destruct (b_records l).
Qed.

Definition events : list conn_event :=
  [EvLine (sample_line 1 "a") 100; EvLine (sample_line 2 "b") 101; EvLine (sample_line 3 "c") 102].

Definition retrying : Consumer (list bytes) Batch Batch :=
  @ConsumerRetry.NewLogs _ _ _ pipeline _ _ 3 ConsumerRetry.NewDefaultConfig (λ _ _, false).

Lemma delivered_reaches_pipeline_witness :
  ∃ delivered err out s',
    @streamConnection _ _ _ retrying _ 2 sample_meta Cur.zero [] (events ++ [EvClosed None]) =
      Some (delivered, err, out, s') ∧
    [] ++ delivered_bodies (@pushed _ _ _ retrying _ 2 sample_meta Cur.zero [] (events ++ [EvClosed None])) ⊆+ s'.
Proof.
  apply (delivered_reaches_pipeline pipeline id 3 ConsumerRetry.NewDefaultConfig (λ _ _, false)
    2 sample_meta Cur.zero [] events None).
  - exact pipeline_ok.
  - intros s. left. reflexivity.
  - vm_compute. split; [reflexivity|discriminate].
  - repeat constructor; discriminate.
Defined.

Example piecewise_run :
  delivered_bodies (@pushed _ _ _ retrying _ 2 sample_meta Cur.zero [] (events ++ [EvClosed None])) =
    [bs "a"; bs "b"; bs "c"].
Proof. vm_compute. reflexivity. Qed.
End Piecewise.

(** The run itself: one batch taken, the second refused, the cursor after the
    first. *)
Example connection_run :
  streamConnection 2 sample_meta Cur.zero [None; Some Retryable] (events ++ [EvClosed None]) =
    Some (MkCursor (Date 2024 1 1 0 0 0 1) 1, Some errPipelineRefused,
          [ConnAccepted [bs "a"]; ConnProgress (MkCursor (Date 2024 1 1 0 0 0 1) 1)], []).
Proof. vm_compute. reflexivity. Qed.
End ConnectionSample.
