(* ===== verification/Stream.v ===== *)
(** The log-follow loop of one container: [stream.go] (type [containerStream]),
    with [classifyStreamError] of [receiver.go].

    [run] is modelled one connect attempt at a time.  What an attempt meets
    outside the program (the state of its contexts, the clock, the API server's
    answer, the container's fate, random draws) is a record of answers, and the
    theorems quantify over every sequence of attempts. *)
From S2P Require Import Prelude GoTime Retry Cursor LogLine Consumer Samples Connection.
Open Scope Z_scope.

(** * The API server *)

(** The fields of [corev1.PodLogOptions] the receiver sets. *)
Record PodLogOptions := MkPodLogOptions {
  Container : string;
  Follow : bool;
  Timestamps : bool;
  SinceTime : option Z;
  SinceSeconds : option Z;
}.

(** Package [apierrors]. *)
Class ApiErrors (E : Type) := {
  IsForbidden : E → bool;
  IsNotFound : E → bool;
}.

Definition reasonRBACDenied : string := "rbac_denied".
Definition reasonPodGone : string := "pod_gone".
Definition reasonOther : string := "other".

Definition classifyStreamError {E} `{!ApiErrors E} (err : E) : string :=
  if IsForbidden err then reasonRBACDenied
  else if IsNotFound err then reasonPodGone
  else reasonOther.

(** * Configuration and state *)

Record ReconnectBackoffConfig := MkReconnectBackoff {
  InitialInterval : Z;
  MaxInterval : Z;
  MaxElapsedTime : Z;
}.

(** What a stream is constructed with and does not change. *)
Record stream_cfg := MkStreamCfg {
  sinceSeconds : option Z;
  backoffCfg : ReconnectBackoffConfig;
  maxStreamLifetime : Z;
  telemetry : bool;          (* whether the telemetry builder is non-nil *)
}.

(** The fields [run] changes. *)
Record containerStream := MkContainerStream {
  meta : Meta;
  backoff : Z;
  resume : Cursor;
  retryingSince : Z;
  firstAttempt : bool;
}.

(** What a stream does to the outside, in order. *)
Inductive stream_output :=
| OutReconnect                      (* LogConnectionReconnectsTotal *)
| OutConnectError (reason : string) (* LogConnectionErrorsTotal *)
| OutOpen (opts : PodLogOptions) (server : Z)
                                    (* a pods/log request, and the API server's clock *)
| OutAccepted (l : list bytes)      (* a batch the pipeline took *)
| OutDropped (l : list bytes)       (* a batch discarded, refused for good *)
| OutDelivered (c : Cursor)         (* a call of onDelivered *)
| OutSleep (d : Z).                 (* the length of a wait *)

(** Why [run] returned. *)
Inductive stop_reason := StopCancelled | StopGaveUp | StopTerminal.

Definition set_resume (s : containerStream) (c : Cursor) : containerStream :=
  MkContainerStream s.(meta) s.(backoff) c s.(retryingSince) s.(firstAttempt).
Definition set_backoff (s : containerStream) (b : Z) : containerStream :=
  MkContainerStream s.(meta) b s.(resume) s.(retryingSince) s.(firstAttempt).
Definition set_retryingSince (s : containerStream) (t : Z) : containerStream :=
  MkContainerStream s.(meta) s.(backoff) s.(resume) t s.(firstAttempt).
Definition set_restartCount (s : containerStream) (n : Z) : containerStream :=
  let m := s.(meta) in
  MkContainerStream (MkMeta m.(Namespace) m.(PodName) m.(PodUID) m.(ContainerName) m.(NodeName) n)
    s.(backoff) s.(resume) s.(retryingSince) s.(firstAttempt).

Definition streamStartPoint (resumeFrom : Z) (sinceSeconds : option Z) (now : Z)
    : option Z * option Z :=
  if negb (Time.IsZero resumeFrom) then (Some resumeFrom, None)
  else if bool_decide (sinceSeconds = Some 0) then (Some now, None)
  else (None, sinceSeconds).

(** [connectionContext]: the deadline of a connection, counted from its start;
    [None] when there is no cap. *)
Definition connectionContext `{Rand} (other : Z) (cfg : stream_cfg) : option Z :=
  if cfg.(maxStreamLifetime) <=? 0 then None
  else Some (Spread other cfg.(maxStreamLifetime) float64_tenth).

(** [lifetimeReached], from whether [ctx] has ended and how long the connection
    has lasted. *)
Definition lifetimeReached (deadline : option Z) (cancelled : bool) (elapsed : Z) : bool :=
  negb cancelled && match deadline with Some d => d <=? elapsed | None => false end.

Definition countReconnect (cfg : stream_cfg) (s : containerStream)
    : containerStream * list stream_output :=
  if s.(firstAttempt) then
    (MkContainerStream s.(meta) s.(backoff) s.(resume) s.(retryingSince) false, [])
  else (s, if cfg.(telemetry) then [OutReconnect] else []).

Section stream.
Context {E Str : Type} `{!ApiErrors E}.

(** [consume]: one open stream fed to the pipeline.  Next to its results stands
    what it does to the outside on the way: the records the pipeline takes or
    refuses for good, and the cursors it reports. *)
Definition consume_fn := Str → Meta → Cursor → Cursor * option StreamErr * list conn_output.

(** The same as the stream's own outputs: [onProgress] is [onDelivered]. *)
Definition consume_outputs (out : list conn_output) : list stream_output :=
  (λ o, match o with
        | ConnAccepted l => OutAccepted l
        | ConnDropped l => OutDropped l
        | ConnProgress c => OutDelivered c
        end) <$> out.

(** What one turn of the loop of [run] meets. *)
Record attempt := {
  at_cancelled : bool;             (* ctx.Err() at the head of the loop *)
  at_restartCount : Z;             (* restartCount() *)
  at_now : Z;                      (* time.Now() in open *)
  at_server : Z;                   (* the API server's clock when a request comes in *)
  at_open : PodLogOptions → E + Str;
  at_consume : consume_fn;
  at_elapsed : Z;                  (* how long the connection lasted *)
  at_cancelled_after : bool;       (* ctx.Err() once it has ended *)
  at_terminal : bool;              (* isTerminal() *)
  at_err_now : Z;                  (* time.Now() in retryAfterConnectError *)
  at_ctx_done : option Z;          (* when ctx ends, counted from the wait *)
  at_tie : bool;
  at_since : Z;                    (* time.Now() read by time.Since *)
  at_rand_cap : Rand;              (* the draw in connectionContext *)
  at_rand : Rand;                  (* the draw before a wait *)
  at_other : Z;
}.

Definition open_options (cfg : stream_cfg) (s : containerStream) (now : Z) : PodLogOptions :=
  let '(since_time, since_seconds) := streamStartPoint s.(resume).(TS) cfg.(sinceSeconds) now in
  MkPodLogOptions s.(meta).(ContainerName) true true since_time since_seconds.

Definition drain_options (s : containerStream) : PodLogOptions :=
  MkPodLogOptions s.(meta).(ContainerName) false true
    (if Cur.IsZero s.(resume) then None else Some s.(resume).(TS)) None.

Definition retryAfterConnectError (cfg : stream_cfg) (s : containerStream) (a : attempt) (err : E)
    : containerStream * list stream_output * option stop_reason :=
  let s := if Time.IsZero s.(retryingSince) then set_retryingSince s a.(at_err_now) else s in
  let out := if cfg.(telemetry) then [OutConnectError (classifyStreamError err)] else [] in
  let maxElapsed := cfg.(backoffCfg).(MaxElapsedTime) in
  if (0 <? maxElapsed) && (maxElapsed <? a.(at_since) - s.(retryingSince))
  then (s, out, Some StopGaveUp)
  else
    let d := @Jitter a.(at_rand) s.(backoff) in
    let out := out ++ [OutSleep d] in
    if negb (SleepOrDone a.(at_ctx_done) d a.(at_tie)) then (s, out, Some StopCancelled)
    else (set_backoff s (NextBackoff s.(backoff) cfg.(backoffCfg).(MaxInterval)), out, None).

Definition drainTerminalLogs (s : containerStream) (a : attempt)
    : containerStream * list stream_output :=
  let opts := drain_options s in
  match a.(at_open) opts with
  | inl _ => (s, [OutOpen opts a.(at_server)])
  | inr stream =>
      let '(lst, _, progress) := a.(at_consume) stream s.(meta) s.(resume) in
      (if Cur.IsZero lst then s else set_resume s lst,
       OutOpen opts a.(at_server) :: consume_outputs progress)
  end.

(** [follow]; the boolean says whether to reconnect. *)
Definition follow (s : containerStream) (a : attempt) (stream : Str)
    : containerStream * list stream_output * bool :=
  let s := set_retryingSince s 0 in
  let '(lst, scanErr, progress) := a.(at_consume) stream s.(meta) s.(resume) in
  let out := consume_outputs progress in
  let '(s, out) :=
    if Cur.IsZero lst then (s, out) else (set_resume s lst, out ++ [OutDelivered lst]) in
  if negb a.(at_terminal) then (s, out, true)
  else
    match scanErr with
    | None => (s, out, false)
    | Some _ => let '(s, out') := drainTerminalLogs s a in (s, out ++ out', false)
    end.

(** One turn of the loop of [run]; [None] goes round again. *)
Definition run_iter (cfg : stream_cfg) (s : containerStream) (a : attempt)
    : containerStream * list stream_output * option stop_reason :=
  if a.(at_cancelled) then (s, [], Some StopCancelled)
  else
    let '(s, out0) := countReconnect cfg s in
    let s := set_restartCount s a.(at_restartCount) in
    let deadline := @connectionContext a.(at_rand_cap) a.(at_other) cfg in
    let recycled := lifetimeReached deadline a.(at_cancelled_after) a.(at_elapsed) in
    let opts := open_options cfg s a.(at_now) in
    let out0 := out0 ++ [OutOpen opts a.(at_server)] in
    match a.(at_open) opts with
    | inl err =>
        if recycled then (s, out0, None)
        else
          let '(s, out, stop) := retryAfterConnectError cfg s a err in
          (s, out0 ++ out, stop)
    | inr stream =>
        let before := s.(resume) in
        let '(s, out, keepGoing) := follow s a stream in
        let out := out0 ++ out in
        let s :=
          if Cur.After s.(resume) before then set_backoff s cfg.(backoffCfg).(InitialInterval)
          else if negb recycled then
            set_backoff s (NextBackoff s.(backoff) cfg.(backoffCfg).(MaxInterval))
          else s in
        if negb keepGoing then (s, out, Some StopTerminal)
        else if recycled then (s, out, None)
        else
          let d := @Jitter a.(at_rand) s.(backoff) in
          let out := out ++ [OutSleep d] in
          if negb (SleepOrDone a.(at_ctx_done) d a.(at_tie)) then (s, out, Some StopCancelled)
          else (s, out, None)
    end.

Fixpoint run_loop (cfg : stream_cfg) (s : containerStream) (attempts : list attempt)
    : containerStream * list stream_output * option stop_reason :=
  match attempts with
  | [] => (s, [], None)
  | a :: attempts' =>
      let '(s, out, stop) := run_iter cfg s a in
      match stop with
      | Some _ => (s, out, stop)
      | None =>
          let '(s, out', stop) := run_loop cfg s attempts' in (s, out ++ out', stop)
      end
  end.

Definition run (cfg : stream_cfg) (s : containerStream) (attempts : list attempt)
    : containerStream * list stream_output * option stop_reason :=
  run_loop cfg (set_backoff s cfg.(backoffCfg).(InitialInterval)) attempts.
End stream.
Arguments attempt : clear implicits.

(** * The contract of [consume]

    What the loop needs of a connection: the cursor it returns is zero or not
    behind the one it resumed from, and so is everything it reports on the way,
    in order, up to what it returns. *)
Fixpoint ascending (c : Cursor) (l : list Cursor) : Prop :=
  match l with
  | [] => True
  | d :: l' => cur_le c d ∧ ascending d l'
  end.

Definition consume_post (ok : Cursor → Prop) (resume : Cursor)
    (r : Cursor * option StreamErr * list conn_output) : Prop :=
  let '(lst, _, out) := r in
  let progress := conn_progress out in
  ascending resume progress ∧ Forall ok progress ∧
  ((Cur.IsZero lst = true ∧ progress = []) ∨ (Cur.IsZero lst = false ∧ last progress = Some lst)).

(** A request made without a position: at the starting point [sinceSeconds]
    asks for, or for all there is, as the final drain does. *)
Definition from_nothing (since : option Z) (opts : PodLogOptions) : Prop :=
  (∃ now, (opts.(SinceTime), opts.(SinceSeconds)) = streamStartPoint 0 since now) ∨
  (opts.(Follow) = false ∧ opts.(SinceTime) = None ∧ opts.(SinceSeconds) = None).

(** A request resumes from a position: it names the position's time, when there
    is one. *)
Definition asks (since : option Z) (resume : Cursor) (opts : PodLogOptions) : Prop :=
  (TS resume ≠ 0 → opts.(SinceTime) = Some (TS resume) ∧ opts.(SinceSeconds) = None) ∧
  (TS resume = 0 → from_nothing since opts).

(** [ok] is the set of cursors a client resumes from, e.g. the positions of one
    log; the contract keeps within it, for the streams that answer a request
    from such a cursor. *)
Class ConsumeOk {E Str} (ok : Cursor → Prop) (since : option Z)
    (open : PodLogOptions → E + Str)
    (consume : Str → Meta → Cursor → Cursor * option StreamErr * list conn_output) :=
  consume_contract : ∀ opts stream m resume, ok resume → asks since resume opts →
    open opts = inr stream → consume_post ok resume (consume stream m resume).

Lemma ascending_le c l d : ascending c l → last l = Some d → cur_le c d.
Proof.
  revert c. induction l as [|x l IH]; intros c Hl Hd; [done|]. destruct Hl as [Hx Hl].
  destruct l as [|y l]; [by simplify_eq/=|]. etrans; [done|]. by apply IH.
Qed.

Lemma ascending_app c l k :
  ascending c (l ++ k) ↔ ascending c l ∧ ascending (default c (last l)) k.
Proof.
  revert c. induction l as [|x l IH]; intros c; cbn [app ascending]; [simpl; tauto|].
  rewrite IH, last_cons. destruct (last l); simpl; tauto.
Qed.

Lemma ascending_weaken c d l : cur_le c d → ascending d l → ascending c l.
Proof. destruct l; simpl; [done|]. intros ? [? ?]. split; [by etrans|done]. Qed.

(** The cursors a stream publishes. *)
Definition published (out : list stream_output) : list Cursor :=
  omap (λ o, match o with OutDelivered c => Some c | _ => None end) out.

Definition sleeps (out : list stream_output) : list Z :=
  omap (λ o, match o with OutSleep d => Some d | _ => None end) out.

(** The requests, each with the API server's clock. *)
Definition opens (out : list stream_output) : list (PodLogOptions * Z) :=
  omap (λ o, match o with OutOpen opts server => Some (opts, server) | _ => None end) out.

(** The records of a run the pipeline took, those discarded because it refused
    them for good, and both in order: what the stream is done with. *)
Definition accepted (out : list stream_output) : list bytes :=
  concat (omap (λ o, match o with OutAccepted l => Some l | _ => None end) out).
Definition dropped (out : list stream_output) : list bytes :=
  concat (omap (λ o, match o with OutDropped l => Some l | _ => None end) out).
Definition settled (out : list stream_output) : list bytes :=
  concat (omap (λ o, match o with OutAccepted l | OutDropped l => Some l | _ => None end) out).

Lemma published_app a b : published (a ++ b) = published a ++ published b.
Proof. apply omap_app. Qed.
Lemma sleeps_app a b : sleeps (a ++ b) = sleeps a ++ sleeps b.
Proof. apply omap_app. Qed.
Lemma opens_app a b : opens (a ++ b) = opens a ++ opens b.
Proof. apply omap_app. Qed.
Lemma accepted_app a b : accepted (a ++ b) = accepted a ++ accepted b.
Proof. unfold accepted. by rewrite omap_app, concat_app. Qed.
Lemma dropped_app a b : dropped (a ++ b) = dropped a ++ dropped b.
Proof. unfold dropped. by rewrite omap_app, concat_app. Qed.
Lemma settled_app a b : settled (a ++ b) = settled a ++ settled b.
Proof. unfold settled. by rewrite omap_app, concat_app. Qed.

Lemma settled_accepted out : dropped out = [] → settled out = accepted out.
Proof.
  unfold dropped, settled, accepted.
  induction out as [|o out IH]; intros Hd; [done|].
  destruct o; simpl in *; try by apply IH.
  - f_equal. by apply IH.
  - apply app_nil in Hd as [-> Hd]. by apply IH.
Qed.

(** Both together are what is settled, in some order. *)
Lemma settled_split out : settled out ≡ₚ accepted out ++ dropped out.
Proof.
  unfold dropped, settled, accepted.
  induction out as [|o out IH]; [done|].
  destruct o; simpl; try exact IH.
  - by rewrite IH, <- app_assoc.
  - rewrite IH. apply Permutation_app_swap_app.
Qed.

Lemma omap_consume {B} (f : stream_output → option B) (g : conn_output → option B) out :
  (∀ l, f (OutAccepted l) = g (ConnAccepted l)) → (∀ l, f (OutDropped l) = g (ConnDropped l)) →
  (∀ c, f (OutDelivered c) = g (ConnProgress c)) →
  omap f (consume_outputs out) = omap g out.
Proof.
  intros Ha Hp Hd.
  induction out as [|[l|l|c] out IH]; [done|..]; cbn; rewrite ?Ha, ?Hp, ?Hd;
    (case_match; [f_equal|]; exact IH).
Qed.

(** A report of the connection is a report of the stream, at the same place. *)
Lemma consume_outputs_split out p c q :
  consume_outputs out = p ++ OutDelivered c :: q →
  ∃ p' q', out = p' ++ ConnProgress c :: q' ∧ p = consume_outputs p' ∧ q = consume_outputs q'.
Proof.
  intros Hp. apply fmap_app_inv in Hp as (p' & k & -> & Hk & ->).
  symmetry in Hk. apply fmap_cons_inv in Hk as ([l|l|c'] & q' & Heq & -> & ->); [done|done|].
  injection Heq as ->. by exists p', q'.
Qed.

Lemma published_consume out : published (consume_outputs out) = conn_progress out.
Proof. by apply omap_consume. Qed.
Lemma dropped_consume out : dropped (consume_outputs out) = conn_dropped out.
Proof. unfold dropped, conn_dropped. f_equal. by apply omap_consume. Qed.
Lemma settled_consume out : settled (consume_outputs out) = conn_settled out.
Proof. unfold settled, conn_settled. f_equal. by apply omap_consume. Qed.

Lemma omap_none {A B} (l : list A) : omap (λ _, @None B) l = [].
Proof. by induction l. Qed.

Lemma sleeps_consume out : sleeps (consume_outputs out) = [].
Proof. unfold sleeps. by rewrite (omap_consume _ (λ _, None)), omap_none. Qed.
Lemma opens_consume out : opens (consume_outputs out) = [].
Proof. unfold opens. by rewrite (omap_consume _ (λ _, None)), omap_none. Qed.

#[export] Hint Rewrite published_app sleeps_app opens_app settled_app dropped_app published_consume
  sleeps_consume opens_consume settled_consume dropped_consume : outputs.

(** * Where a stream starts reading *)

(** The request names one starting point at most, and never the zero
    [SinceSeconds] the API server refuses. *)
Lemma streamStartPoint_valid resumeFrom sinceSeconds now :
  (∀ n, sinceSeconds = Some n → 0 ≤ n) →
  match streamStartPoint resumeFrom sinceSeconds now with
  | (Some t, Some _) => False
  | (Some t, None) => t = resumeFrom ∨ (resumeFrom = 0 ∧ sinceSeconds = Some 0 ∧ t = now)
  | (None, Some n) => resumeFrom = 0 ∧ sinceSeconds = Some n ∧ 0 < n
  | (None, None) => resumeFrom = 0 ∧ sinceSeconds = None
  end.
Proof.
  intros Hs. unfold streamStartPoint, Time.IsZero. destruct (Z.eqb_spec resumeFrom 0); simpl; [|by left].
  case_bool_decide; [auto|]. destruct sinceSeconds as [n|]; [|done].
  split_and!; [done|done|]. pose proof (Hs n eq_refl). assert (n ≠ 0) by congruence. lia.
Qed.

(** * Progress of a stream *)

Section progress.
Context {E Str : Type} `{!ApiErrors E} (ok : Cursor → Prop) (since : option Z).
Implicit Types (s : containerStream) (a : attempt E Str) (cfg : stream_cfg).

(** The position a stream resumes from is the last one it published, and what
    it publishes never goes back. *)
Definition publishes s (out : list stream_output) s' : Prop :=
  ascending s.(resume) (published out) ∧ Forall ok (published out) ∧
  s'.(resume) = default s.(resume) (last (published out)).

Lemma publishes_nothing s out s' :
  published out = [] → s'.(resume) = s.(resume) → publishes s out s'.
Proof. intros Hp Hr. unfold publishes. by rewrite Hp. Qed.

Lemma publishes_trans s1 out1 s2 out2 s3 :
  publishes s1 out1 s2 → publishes s2 out2 s3 → publishes s1 (out1 ++ out2) s3.
Proof.
  intros (Ha1 & Ho1 & Hr1) (Ha2 & Ho2 & Hr2). unfold publishes. rewrite published_app.
  split_and!; [apply ascending_app; by rewrite <- Hr1|by apply Forall_app|].
  rewrite Hr2, Hr1, last_app. by destruct (last (published out2)).
Qed.

Lemma publishes_le s out s' : publishes s out s' → cur_le s.(resume) s'.(resume).
Proof.
  intros (Ha & _ & ->). destruct (last (published out)) eqn:Hl; [|done].
  by eapply ascending_le.
Qed.

Lemma publishes_ok s out s' : ok s.(resume) → publishes s out s' → ok s'.(resume).
Proof.
  intros Hs (_ & Ho & ->). destruct (last (published out)) as [c|] eqn:Hl; [|done]. simpl.
  apply last_Some_elem_of in Hl. rewrite Forall_forall in Ho. by apply Ho.
Qed.

Lemma drain_asks s : asks since s.(resume) (drain_options s).
Proof.
  unfold asks, from_nothing, drain_options, Cur.IsZero, Time.IsZero; simpl.
  destruct (Z.eqb_spec (TS (resume s)) 0); naive_solver.
Qed.

Lemma open_asks cfg s now : cfg.(sinceSeconds) = since → asks since s.(resume) (open_options cfg s now).
Proof.
  intros <-. unfold asks, from_nothing, open_options.
  destruct (decide (TS (resume s) = 0)) as [Hz|Hz].
  - rewrite Hz. split; [done|]. intros _. left. exists now. by destruct (streamStartPoint _ _ _).
  - unfold streamStartPoint, Time.IsZero. apply Z.eqb_neq in Hz as Hz'. rewrite Hz'. naive_solver.
Qed.

Abbreviation attempt_ok a := (ConsumeOk ok since a.(at_open) a.(at_consume)) (only parsing).

Lemma drain_publishes s a s' out :
  attempt_ok a → ok s.(resume) →
  drainTerminalLogs s a = (s', out) → publishes s out s'.
Proof.
  intros Hc Hok Hd. unfold drainTerminalLogs in Hd.
  destruct (at_open a (drain_options s)) as [e|stream] eqn:Ho; [by simplify_eq; apply publishes_nothing|].
  pose proof (Hc _ stream (meta s) (resume s) Hok (drain_asks s) Ho) as Hpost.
  destruct (at_consume a stream (meta s) (resume s)) as [[lst err] progress].
  destruct Hpost as (Hasc & Hall & Hlast).
  assert (published (OutOpen (drain_options s) (at_server a) :: consume_outputs progress) = conn_progress progress) as Hpub
    by apply published_consume.
  destruct Hlast as [[Hz Hno]|[Hz Hl]]; rewrite Hz in Hd; simplify_eq.
  - apply publishes_nothing; [by rewrite Hpub|done].
  - unfold publishes. rewrite Hpub, Hl. done.
Qed.

Lemma follow_publishes s a opts stream s' out keep :
  attempt_ok a → ok s.(resume) → asks since s.(resume) opts → a.(at_open) opts = inr stream →
  follow s a stream = (s', out, keep) →
  publishes s out s'.
Proof.
  intros Hc Hok Hasks Ho Hf. unfold follow in Hf.
  pose proof (Hc _ stream (meta s) (resume s) Hok Hasks Ho) as Hpost.
  cbn [meta resume set_retryingSince] in Hf.
  destruct (at_consume a stream (meta s) (resume s)) as [[lst err] progress].
  destruct Hpost as (Hasc & Hall & Hlast).
  set (s1 := set_retryingSince s 0) in *.
  set (r := if Cur.IsZero lst then _ else _) in Hf.
  assert (Hpub : publishes s r.2 r.1).
  { unfold r. destruct Hlast as [[-> Hno]|[-> Hl]]; cbn [fst snd].
    { apply publishes_nothing; [by rewrite published_consume|done]. }
    unfold publishes. rewrite published_app, published_consume. cbn.
    split_and!; [|apply Forall_app; split; [done|]|by rewrite last_snoc].
    - apply ascending_app. by rewrite Hl.
    - apply Forall_singleton. apply last_Some_elem_of in Hl. rewrite Forall_forall in Hall.
      by apply Hall. }
  destruct r as [s2 out2]. simpl in Hpub.
  destruct (negb (at_terminal a)); [by simplify_eq|]. destruct err as [e|]; [|by simplify_eq].
  destruct (drainTerminalLogs s2 a) as [s3 out3] eqn:Hd. simplify_eq.
  eapply publishes_trans; [done|]. eapply drain_publishes; [done| |done].
  by eapply publishes_ok.
Qed.

Lemma retry_resume cfg s a err s' out stop :
  retryAfterConnectError cfg s a err = (s', out, stop) → publishes s out s'.
Proof.
  unfold retryAfterConnectError. intros Hr.
  apply publishes_nothing; repeat (case_match; simplify_eq/=; try done).
Qed.

Lemma run_iter_publishes cfg s a s' out stop :
  attempt_ok a → cfg.(sinceSeconds) = since → ok s.(resume) →
  run_iter cfg s a = (s', out, stop) → publishes s out s'.
Proof.
  intros Hc Hsince Hok Hi. unfold run_iter in Hi.
  destruct (at_cancelled a); [simplify_eq; by apply publishes_nothing|].
  destruct (countReconnect cfg s) as [s1 out1] eqn:Hcount.
  assert (resume s1 = resume s ∧ published out1 = []) as [Hr1 Hp1].
  { unfold countReconnect in Hcount. repeat (case_match; simplify_eq/=); done. }
  set (s2 := set_restartCount s1 (at_restartCount a)) in *.
  assert (Hs2 : publishes s (out1 ++ [OutOpen (open_options cfg s2 (at_now a)) (at_server a)]) s2).
  { apply publishes_nothing; [by rewrite published_app, Hp1|done]. }
  pose proof (open_asks cfg s2 (at_now a) Hsince) as Hasks.
  destruct (at_open a _) as [e|stream] eqn:Hopen.
  - destruct (lifetimeReached _ _ _); [by simplify_eq|].
    destruct (retryAfterConnectError cfg s2 a e) as [[s3 out3] stop3] eqn:Hr. simplify_eq.
    eapply publishes_trans; [done|]. by eapply retry_resume.
  - destruct (follow s2 a stream) as [[s3 out3] keep] eqn:Hf.
    eapply follow_publishes in Hf; [|done|by eapply publishes_ok|done|done].
    pose proof (publishes_trans _ _ _ _ _ Hs2 Hf) as Hall. clear Hs2 Hf.
    set (s4 := if Cur.After _ _ then _ else _) in Hi.
    assert (resume s4 = resume s3) as Hr4 by (unfold s4; repeat case_match; done).
    assert (Hall4 : publishes s ((out1 ++ [OutOpen (open_options cfg s2 (at_now a)) (at_server a)]) ++ out3) s4).
    { unfold publishes. by rewrite Hr4. }
    repeat (case_match; simplify_eq/=; try done);
      (eapply publishes_trans; [done|by apply publishes_nothing]).
Qed.

Lemma run_loop_publishes cfg s attempts s' out stop :
  Forall (λ a, attempt_ok a) attempts → cfg.(sinceSeconds) = since → ok s.(resume) →
  run_loop cfg s attempts = (s', out, stop) → publishes s out s'.
Proof.
  revert s s' out stop. induction attempts as [|a attempts IH]; intros s s' out stop Ha Hsince Hok Hr; simpl in Hr.
  { simplify_eq. by apply publishes_nothing. }
  apply Forall_cons in Ha as [Ha Hrest].
  destruct (run_iter cfg s a) as [[s1 out1] stop1] eqn:Hi.
  pose proof (run_iter_publishes _ _ _ _ _ _ Ha Hsince Hok Hi) as Hp.
  destruct stop1; [by simplify_eq|].
  destruct (run_loop cfg s1 attempts) as [[s2 out2] stop2] eqn:Hl. simplify_eq.
  eapply publishes_trans; [done|]. eapply IH; [done|done| |done]. by eapply publishes_ok.
Qed.
End progress.

(** * Waiting and stopping *)

Section waiting.
Context {E Str : Type} `{!ApiErrors E}.
Implicit Types (s : containerStream) (a : attempt E Str) (cfg : stream_cfg).

Definition is_reconnect (o : stream_output) : bool :=
  match o with OutReconnect => true | _ => false end.

(** How many reconnects a run counted. *)
Definition reconnects (out : list stream_output) : nat := length (filter is_reconnect out).

Lemma reconnects_app l k : reconnects (l ++ k) = (reconnects l + reconnects k)%nat.
Proof. unfold reconnects. by rewrite filter_app, length_app. Qed.

Lemma reconnects_consume out : reconnects (consume_outputs out) = 0%nat.
Proof. unfold consume_outputs, reconnects. by induction out as [|[] out IH]. Qed.

Lemma reconnects_OutSleep d : reconnects [OutSleep d] = 0%nat.
Proof. done. Qed.

(** What the parts of a turn leave alone. *)
Definition quiet s (out : list stream_output) s' : Prop :=
  s'.(backoff) = s.(backoff) ∧ s'.(firstAttempt) = s.(firstAttempt) ∧
  sleeps out = [] ∧ reconnects out = 0%nat.

Lemma quiet_trans s1 out1 s2 out2 s3 :
  quiet s1 out1 s2 → quiet s2 out2 s3 → quiet s1 (out1 ++ out2) s3.
Proof.
  unfold quiet. rewrite sleeps_app, reconnects_app.
  intros (-> & -> & -> & ->) (-> & -> & -> & ->). done.
Qed.

Lemma drain_quiet s a s' out : drainTerminalLogs s a = (s', out) → quiet s out s'.
Proof.
  unfold drainTerminalLogs. intros Hd. destruct (at_open a _); [by simplify_eq|].
  destruct (at_consume a _ _ _) as [[lst err] progress].
  assert (sleeps (OutOpen (drain_options s) (at_server a) :: consume_outputs progress) = [] ∧
    reconnects (OutOpen (drain_options s) (at_server a) :: consume_outputs progress) = 0%nat) as [? ?].
  { split; [apply sleeps_consume|apply reconnects_consume]. }
  simplify_eq. by destruct (Cur.IsZero lst).
Qed.

Lemma follow_quiet s a stream s' out keep :
  follow s a stream = (s', out, keep) →
  quiet s out s' ∧ s'.(retryingSince) = 0 ∧ keep = negb a.(at_terminal).
Proof.
  unfold follow. intros Hf. cbn [meta resume set_retryingSince] in Hf.
  destruct (at_consume a _ _ _) as [[lst err] progress].
  set (r := if Cur.IsZero lst then _ else _) in Hf.
  assert (Hq : quiet s r.2 r.1 ∧ retryingSince r.1 = 0).
  { unfold r, quiet. destruct (Cur.IsZero lst); cbn [fst snd];
      rewrite ?sleeps_app, ?reconnects_app, ?sleeps_consume, ?reconnects_consume; done. }
  destruct r as [s2 out2]. simpl in Hq. destruct Hq as [Hq Hr].
  destruct (at_terminal a); simpl in *; [|by simplify_eq]. destruct err as [e|]; [|by simplify_eq].
  destruct (drainTerminalLogs s2 a) as [s3 out3] eqn:Hd. simplify_eq.
  split_and!; [by eapply quiet_trans, drain_quiet| |done].
  unfold drainTerminalLogs in Hd. repeat (case_match; simplify_eq/=; try done).
Qed.
(** The settings and the current rung of the ladder are within [0, hi]. *)
Definition ladder_ok cfg (hi b : Z) : Prop :=
  0 ≤ cfg.(backoffCfg).(InitialInterval) ≤ hi ∧ 0 ≤ cfg.(backoffCfg).(MaxInterval) ≤ hi ∧
  hi ≤ 2 ^ 62 - 1 ∧ 0 ≤ b ≤ hi.

Lemma ladder_ok_initial cfg hi b :
  ladder_ok cfg hi b → ladder_ok cfg hi cfg.(backoffCfg).(InitialInterval).
Proof. unfold ladder_ok. naive_solver. Qed.

Lemma ladder_ok_next cfg hi b :
  ladder_ok cfg hi b → ladder_ok cfg hi (NextBackoff b cfg.(backoffCfg).(MaxInterval)).
Proof.
  intros (? & Hm & ? & ?). pose proof (NextBackoff_range b _ hi ltac:(done) Hm ltac:(done)).
  unfold ladder_ok. lia.
Qed.

Lemma ladder_ok_jitter cfg hi b (r : Rand) :
  ladder_ok cfg hi b → rand_ok r → 0 ≤ Jitter b ≤ hi.
Proof.
  intros (? & ? & ? & ?) Hr. destruct (Jitter_range b Hr) as (Hlo & Hhi & _);
    [unfold max_int64; lia|]. rewrite Z.quot_div_nonneg in Hlo by lia.
  assert (0 ≤ b / 2) by (apply Z.div_pos; lia). lia.
Qed.

(** Any bound on the rungs of the ladder that holds of the first, survives a step
    and bounds a jittered wait is a bound on every wait. *)
Section waits.
Context cfg (P Q : Z → Prop).
Hypothesis P_initial : P cfg.(backoffCfg).(InitialInterval).
Hypothesis P_next : ∀ b, P b → P (NextBackoff b cfg.(backoffCfg).(MaxInterval)).
Hypothesis P_jitter : ∀ b (r : Rand), P b → rand_ok r → Q (Jitter b).

Lemma retry_wait s a err s' out stop :
  P s.(backoff) → rand_ok a.(at_rand) →
  retryAfterConnectError cfg s a err = (s', out, stop) →
  P s'.(backoff) ∧ Forall Q (sleeps out).
Proof.
  intros Hl Hr Hretry. unfold retryAfterConnectError in Hretry.
  set (s1 := if Time.IsZero _ then _ else _) in Hretry.
  assert (Hb : backoff s1 = backoff s) by (unfold s1; by destruct (Time.IsZero _)).
  rewrite Hb in Hretry.
  set (out1 := if telemetry cfg then _ else _) in Hretry.
  assert (Ho : sleeps out1 = []) by (unfold out1; by destruct (telemetry cfg)).
  pose proof (P_jitter _ _ Hl Hr).
  repeat (case_match; simplify_eq/=); rewrite ?sleeps_app, ?Ho, ?Hb; simpl; auto.
Qed.

Lemma run_iter_wait s a s' out stop :
  P s.(backoff) → rand_ok a.(at_rand) →
  run_iter cfg s a = (s', out, stop) →
  P s'.(backoff) ∧ Forall Q (sleeps out).
Proof.
  intros Hl Hr Hi. unfold run_iter in Hi.
  destruct (at_cancelled a); [by simplify_eq|].
  destruct (countReconnect cfg s) as [s1 out1] eqn:Hcount.
  assert (backoff s1 = backoff s ∧ sleeps out1 = []) as [Hb1 Ho1].
  { unfold countReconnect in Hcount. repeat (case_match; simplify_eq/=); done. }
  set (s2 := set_restartCount s1 (at_restartCount a)) in *.
  assert (Hb2 : backoff s2 = backoff s) by by unfold s2.
  set (out2 := out1 ++ [OutOpen (open_options cfg s2 (at_now a)) (at_server a)]) in Hi.
  assert (Ho2 : sleeps out2 = []) by (unfold out2; by rewrite sleeps_app, Ho1).
  clearbody out2 s2.
  destruct (at_open a _) as [e|stream].
  - destruct (lifetimeReached _ _ _); [simplify_eq; by rewrite Ho2, Hb2|].
    destruct (retryAfterConnectError cfg s2 a e) as [[s3 out3] stop3] eqn:Hretry. simplify_eq.
    apply retry_wait in Hretry; [|by rewrite Hb2|done]. by rewrite sleeps_app, Ho2.
  - destruct (follow s2 a stream) as [[s3 out3] keep] eqn:Hf.
    apply follow_quiet in Hf as ((Hb3 & _ & Ho3 & _) & _ & _).
    set (s4 := if Cur.After _ _ then _ else _) in Hi.
    assert (P (backoff s4)).
    { assert (Hb3' : P (backoff s3)) by by rewrite Hb3, Hb2.
      unfold s4. repeat case_match; simpl; auto. }
    pose proof (P_jitter (backoff s4) _ ltac:(done) Hr).
    repeat (case_match; simplify_eq/=); rewrite !sleeps_app, Ho2, Ho3; simpl; auto.
Qed.

Lemma run_loop_wait s attempts s' out stop :
  P s.(backoff) → Forall (λ a, rand_ok a.(at_rand)) attempts →
  run_loop cfg s attempts = (s', out, stop) →
  P s'.(backoff) ∧ Forall Q (sleeps out).
Proof.
  revert s s' out stop. induction attempts as [|a attempts IH]; intros s s' out stop Hl Ha Hr; simpl in Hr.
  { by simplify_eq. }
  apply Forall_cons in Ha as [Ha Hrest].
  destruct (run_iter cfg s a) as [[s1 out1] stop1] eqn:Hi.
  destruct (run_iter_wait _ _ _ _ _ Hl Ha Hi) as [Hl1 Ho1].
  destruct stop1; [by simplify_eq|].
  destruct (run_loop cfg s1 attempts) as [[s2 out2] stop2] eqn:Hloop. simplify_eq.
  destruct (IH _ _ _ _ Hl1 Hrest Hloop) as [? ?]. split; [done|].
  rewrite sleeps_app. by apply Forall_app.
Qed.
End waits.

(** The connect of a turn from [s] fails. *)
Definition connect_fails cfg s a : Prop :=
  a.(at_cancelled) = false ∧ ∃ err, a.(at_open) (open_options cfg s a.(at_now)) = inl err.

Lemma connect_fails_ext cfg s1 s2 a :
  s1.(resume) = s2.(resume) → s1.(meta).(ContainerName) = s2.(meta).(ContainerName) →
  connect_fails cfg s1 a → connect_fails cfg s2 a.
Proof. unfold connect_fails, open_options. by intros -> ->. Qed.

Lemma open_options_count cfg s a s1 out1 :
  countReconnect cfg s = (s1, out1) →
  open_options cfg (set_restartCount s1 a.(at_restartCount)) a.(at_now) =
    open_options cfg s a.(at_now).
Proof. unfold countReconnect. destruct (firstAttempt s); intros; by simplify_eq. Qed.

(** Why a turn ends the loop. *)
Lemma run_iter_stop cfg s a s' out stop :
  run_iter cfg s a = (s', out, Some stop) →
  match stop with
  | StopCancelled => a.(at_cancelled) = true ∨ is_Some a.(at_ctx_done)
  | StopTerminal => a.(at_terminal) = true
  | StopGaveUp => 0 < cfg.(backoffCfg).(MaxElapsedTime) ∧
      cfg.(backoffCfg).(MaxElapsedTime) < a.(at_since) - s'.(retryingSince) ∧
      connect_fails cfg s a ∧
      s'.(retryingSince) =
        if Time.IsZero s.(retryingSince) then a.(at_err_now) else s.(retryingSince)
  end.
Proof.
  assert (Hsleep : ∀ d, SleepOrDone (at_ctx_done a) d (at_tie a) = false → is_Some (at_ctx_done a)).
  { intros d. unfold SleepOrDone. by destruct (at_ctx_done a). }
  intros Hi. unfold run_iter in Hi. destruct (at_cancelled a) eqn:Hca; [simplify_eq; by left|].
  destruct (countReconnect cfg s) as [s1 out1] eqn:Hcount. cbv zeta in Hi.
  pose proof (open_options_count _ _ a _ _ Hcount) as Hopts. rewrite Hopts in Hi.
  destruct (at_open a _) as [e|stream] eqn:Hopen.
  - destruct (lifetimeReached _ _ _); [done|].
    unfold retryAfterConnectError in Hi.
    set (s3 := if Time.IsZero _ then _ else _) in Hi.
    destruct (_ && _) eqn:Hgave.
    + assert (Ht3 : retryingSince s3 =
        if Time.IsZero (retryingSince s) then at_err_now a else retryingSince s).
      { assert (retryingSince s1 = retryingSince s) as Ht1.
        { unfold countReconnect in Hcount. by destruct (firstAttempt s); simplify_eq. }
        unfold s3; simpl. rewrite Ht1. destruct (Time.IsZero (retryingSince s)); simpl; auto. }
      clearbody s3. simplify_eq. apply andb_true_iff in Hgave as [Hm Hg].
      split_and!; [lia|lia| |done].
      split; [done|by exists e].
    + destruct (SleepOrDone _ _ _) eqn:Hs; simplify_eq/=. right. by eapply Hsleep.
  - destruct (follow _ a stream) as [[s3 out3] keep] eqn:Hf.
    apply follow_quiet in Hf as (_ & _ & ->). rewrite negb_involutive in Hi.
    destruct (at_terminal a); [by simplify_eq|].
    destruct (lifetimeReached _ _ _); [done|].
    destruct (SleepOrDone _ _ _) eqn:Hs; simplify_eq/=. right. by eapply Hsleep.
Qed.

Lemma run_loop_stop cfg s attempts s' out stop :
  run_loop cfg s attempts = (s', out, Some stop) →
  ∃ pre a post s1 out1, attempts = pre ++ a :: post ∧ run_iter cfg s1 a = (s', out1, Some stop).
Proof.
  revert s s' out. induction attempts as [|a attempts IH]; intros s s' out Hr; simpl in Hr; [done|].
  destruct (run_iter cfg s a) as [[s1 out1] stop1] eqn:Hi.
  destruct stop1; simplify_eq; [by exists [], a, attempts, s, out|].
  destruct (run_loop cfg s1 attempts) as [[s2 out2] stop2] eqn:Hloop. simplify_eq.
  destruct (IH _ _ _ Hloop) as (pre & b & post & s3 & out3 & -> & ?).
  by exists (a :: pre), b, post, s3, out3.
Qed.

Lemma retry_reconnects cfg s a err s' out stop :
  retryAfterConnectError cfg s a err = (s', out, stop) →
  reconnects out = 0%nat ∧ s'.(firstAttempt) = s.(firstAttempt).
Proof.
  unfold retryAfterConnectError. intros Hretry.
  set (s1 := if Time.IsZero _ then _ else _) in Hretry.
  assert (Hb : firstAttempt s1 = firstAttempt s) by (unfold s1; by destruct (Time.IsZero _)).
  set (out1 := if telemetry cfg then _ else _) in Hretry.
  assert (Ho : reconnects out1 = 0%nat) by (unfold out1; by destruct (telemetry cfg)).
  repeat (case_match; simplify_eq/=); rewrite ?reconnects_app, ?Ho; done.
Qed.

(** Every attempt is counted as a reconnect but the first. *)
Lemma run_iter_reconnects cfg s a s' out stop :
  run_iter cfg s a = (s', out, stop) →
  if a.(at_cancelled) then s' = s ∧ out = []
  else s'.(firstAttempt) = false ∧
    reconnects out = (if s.(firstAttempt) then 0 else if cfg.(telemetry) then 1 else 0)%nat.
Proof.
  intros Hi. unfold run_iter in Hi.
  destruct (at_cancelled a); [by simplify_eq|].
  destruct (countReconnect cfg s) as [s1 out1] eqn:Hcount.
  assert (firstAttempt s1 = false ∧
    reconnects out1 = (if s.(firstAttempt) then 0 else if cfg.(telemetry) then 1 else 0)%nat)
    as [Hb1 Ho1].
  { unfold countReconnect in Hcount. repeat (case_match; simplify_eq/=); done. }
  set (s2 := set_restartCount s1 (at_restartCount a)) in *.
  assert (Hb2 : firstAttempt s2 = false) by by unfold s2.
  set (out2 := out1 ++ [OutOpen (open_options cfg s2 (at_now a)) (at_server a)]) in Hi.
  assert (Ho2 : reconnects out2 = reconnects out1)
    by (unfold out2; rewrite reconnects_app; simpl; apply Nat.add_0_r).
  rewrite <- Ho1, <- Ho2. clear Ho1 Ho2. clearbody out2 s2.
  destruct (at_open a _) as [e|stream].
  - destruct (lifetimeReached _ _ _); [by simplify_eq|].
    destruct (retryAfterConnectError cfg s2 a e) as [[s3 out3] stop3] eqn:Hretry. simplify_eq.
    apply retry_reconnects in Hretry as [Ho3 ->]. rewrite reconnects_app, Ho3. split; [done|lia].
  - destruct (follow s2 a stream) as [[s3 out3] keep] eqn:Hf.
    apply follow_quiet in Hf as ((_ & Hb3 & _ & Ho3) & _ & _).
    set (s4 := if Cur.After _ _ then _ else _) in Hi.
    assert (firstAttempt s4 = false).
    { rewrite <- Hb2, <- Hb3. unfold s4. repeat case_match; done. }
    clearbody s4.
    repeat (case_match; simplify_eq/=); rewrite !reconnects_app, Ho3, ?reconnects_OutSleep;
      (split; [done|lia]).
Qed.

(** The attempts of a run that were made: those before the context ended. *)
Lemma run_loop_reconnects cfg s attempts s' out :
  cfg.(telemetry) = true → Forall (λ a, a.(at_cancelled) = false) attempts →
  run_loop cfg s attempts = (s', out, None) →
  reconnects out = if s.(firstAttempt) then pred (length attempts) else length attempts.
Proof.
  intros Ht. revert s s' out. induction attempts as [|a attempts IH]; intros s s' out Ha Hr; simpl in Hr.
  { simplify_eq. by destruct (firstAttempt s'). }
  apply Forall_cons in Ha as [Ha Hrest].
  destruct (run_iter cfg s a) as [[s1 out1] stop1] eqn:Hi. destruct stop1; [done|].
  apply run_iter_reconnects in Hi. rewrite Ha, Ht in Hi. destruct Hi as [Hf1 Ho1].
  destruct (run_loop cfg s1 attempts) as [[s2 out2] stop2] eqn:Hloop. simplify_eq.
  apply IH in Hloop; [|done]. rewrite reconnects_app, Ho1, Hloop, Hf1.
  destruct (firstAttempt s); simpl; lia.
Qed.

(** The connect of a turn from [s] fails, before the lifetime cap would have
    recycled it, and the stream's context does not end. *)
Definition fails_at cfg s a : Prop :=
  connect_fails cfg s a ∧ a.(at_ctx_done) = None ∧
  lifetimeReached (@connectionContext a.(at_rand_cap) a.(at_other) cfg)
    a.(at_cancelled_after) a.(at_elapsed) = false.

(** Such a turn waits on the rung the stream stands on and climbs one, or gives
    up. *)
Lemma run_iter_fails cfg s a s' out stop :
  fails_at cfg s a → run_iter cfg s a = (s', out, stop) →
  s'.(resume) = s.(resume) ∧ s'.(meta).(ContainerName) = s.(meta).(ContainerName) ∧
  ((stop = None ∧ s'.(backoff) = NextBackoff s.(backoff) cfg.(backoffCfg).(MaxInterval) ∧
    sleeps out = [@Jitter a.(at_rand) s.(backoff)]) ∨
   (stop = Some StopGaveUp ∧ 0 < cfg.(backoffCfg).(MaxElapsedTime) ∧ sleeps out = [])).
Proof.
  intros ([Hc [err He]] & Hd & Hl) Hi. unfold run_iter in Hi. rewrite Hc, Hl in Hi.
  destruct (countReconnect cfg s) as [s1 out1] eqn:Hcount.
  assert (backoff s1 = backoff s ∧ resume s1 = resume s ∧ meta s1 = meta s ∧ sleeps out1 = [])
    as (Hb1 & Hr1 & Hm1 & Ho1).
  { unfold countReconnect in Hcount. repeat (case_match; simplify_eq/=); done. }
  cbv zeta in Hi. pose proof (open_options_count _ _ a _ _ Hcount) as Hopts.
  set (s2 := set_restartCount s1 (at_restartCount a)) in *. rewrite Hopts, He in Hi.
  assert (backoff s2 = backoff s ∧ resume s2 = resume s ∧
    ContainerName (meta s2) = ContainerName (meta s)) as (Hb2 & Hr2 & Hm2).
  { unfold s2. simpl. by rewrite Hb1, Hr1, Hm1. }
  clearbody s2. unfold retryAfterConnectError, SleepOrDone in Hi. rewrite Hd in Hi.
  set (s3 := if Time.IsZero _ then _ else _) in Hi.
  assert (backoff s3 = backoff s ∧ resume s3 = resume s ∧
    ContainerName (meta s3) = ContainerName (meta s)) as (Hb3 & Hr3 & Hm3).
  { unfold s3. destruct (Time.IsZero _); done. }
  clearbody s3. destruct (_ && _) eqn:Hg; simpl in Hi; simplify_eq/=.
  - apply andb_true_iff in Hg as [Hm _]. split_and!; [done..|]. right. split_and!; [done|lia|].
    rewrite !sleeps_app, Ho1. by destruct (telemetry cfg).
  - rewrite Hb3. split_and!; [done..|]. left. split_and!; [done..|].
    rewrite !sleeps_app, Ho1. by destruct (telemetry cfg).
Qed.

Lemma run_loop_app cfg s (l k : list (attempt E Str)) :
  run_loop cfg s (l ++ k) =
    let '(s1, out1, stop1) := run_loop cfg s l in
    match stop1 with
    | Some _ => (s1, out1, stop1)
    | None => let '(s2, out2, stop2) := run_loop cfg s1 k in (s2, out1 ++ out2, stop2)
    end.
Proof.
  revert s. induction l as [|a l IH]; intros s; simpl.
  { by destruct (run_loop cfg s k) as [[s2 out2] stop2]. }
  destruct (run_iter cfg s a) as [[s1 out1] [stop1|]]; [done|]. rewrite IH.
  destruct (run_loop cfg s1 l) as [[s2 out2] [stop2|]]; [done|].
  destruct (run_loop cfg s2 k) as [[s3 out3] stop3]. by rewrite app_assoc.
Qed.

(** Failed connects in a row wait on the rungs of the ladder one after the other,
    up to the end of them or to where the stream gives up. *)
Lemma run_loop_fails cfg s fails s' out stop :
  Forall (fails_at cfg s) fails → run_loop cfg s fails = (s', out, stop) →
  ∃ k, sleeps out = imap (λ i a, @Jitter a.(at_rand)
         (ladder s.(backoff) cfg.(backoffCfg).(MaxInterval) i)) (take k fails) ∧
    ((stop = None ∧ k = length fails) ∨
     (stop = Some StopGaveUp ∧ 0 < cfg.(backoffCfg).(MaxElapsedTime) ∧ (k < length fails)%nat)).
Proof.
  revert s s' out. induction fails as [|a fails IH]; intros s s' out Hf Hr; simpl in Hr.
  { simplify_eq. exists 0%nat. split; [done|by left]. }
  apply Forall_cons in Hf as [Ha Hf].
  destruct (run_iter cfg s a) as [[s1 out1] stop1] eqn:Hi.
  destruct (run_iter_fails _ _ _ _ _ _ Ha Hi) as (Hres & Hname & [(-> & Hb & Hs)|(-> & Hm & Hs)]).
  2: { simplify_eq. exists 0%nat. split; [done|]. right. simpl. split_and!; [done|done|lia]. }
  destruct (run_loop cfg s1 fails) as [[s2 out2] stop2] eqn:Hloop. simplify_eq.
  destruct (IH s1 s' out2) as (k & Hk & Hend); [|done|].
  { eapply Forall_impl; [done|]. intros x (Hx & ? & ?). split_and!; [|done|done].
    by eapply connect_fails_ext. }
  exists (S k). rewrite sleeps_app, Hs, Hk, Hb. split.
  - cbn [take imap app]. f_equal. apply imap_ext.
    intros i x _. unfold compose, ladder. by rewrite Nat.iter_succ_r.
  - simpl. naive_solver lia.
Qed.

(** A connection that delivered stands the stream on the first rung. *)
Lemma run_iter_delivered cfg s a s' out :
  run_iter cfg s a = (s', out, None) → Cur.After s'.(resume) s.(resume) = true →
  s'.(backoff) = cfg.(backoffCfg).(InitialInterval).
Proof.
  intros Hi Hafter.
  assert (Hne : s'.(resume) ≠ s.(resume)).
  { intros Heq. rewrite Heq in Hafter. by apply (irreflexivity cur_lt (resume s)). }
  unfold run_iter in Hi. destruct (at_cancelled a); [done|].
  destruct (countReconnect cfg s) as [s1 out1] eqn:Hcount.
  assert (resume s1 = resume s) as Hr1.
  { unfold countReconnect in Hcount. repeat (case_match; simplify_eq/=); done. }
  cbv zeta in Hi. set (s2 := set_restartCount s1 (at_restartCount a)) in *.
  assert (resume s2 = resume s) as Hr2 by done. clearbody s2.
  destruct (at_open a _) as [e|stream].
  - exfalso. apply Hne. rewrite <- Hr2. unfold retryAfterConnectError in Hi.
    set (s3 := if Time.IsZero _ then _ else _) in Hi.
    assert (resume s3 = resume s2) by (unfold s3; by destruct (Time.IsZero _)). clearbody s3.
    repeat (case_match; simplify_eq/=); done.
  - destruct (follow s2 a stream) as [[s3 out3] keep].
    set (s4 := if Cur.After _ _ then _ else _) in Hi.
    assert (Hs4 : resume s4 = resume s3) by (unfold s4; repeat case_match; done).
    assert (Hs' : resume s' = resume s3 ∧ backoff s' = backoff s4).
    { rewrite <- Hs4. clearbody s4. repeat (case_match; simplify_eq/=); done. }
    destruct Hs' as [Hres ->]. unfold s4. rewrite Hr2, <- Hres, Hafter. done.
Qed.

(** ** Recycling *)

(** A connection that reached its lifetime is recycled: no wait, no error
    counted, and only a terminal container stops the stream. *)
Definition is_connect_error (o : stream_output) : bool :=
  match o with OutConnectError _ => true | _ => false end.

Lemma quiet_no_connect_error s a stream s' out keep :
  follow s a stream = (s', out, keep) → filter is_connect_error out = [].
Proof.
  assert (Hc : ∀ p, filter is_connect_error (consume_outputs p) = []).
  { intros p. unfold consume_outputs. by induction p as [|[] p IH]. }
  assert (Hd : ∀ s, filter is_connect_error (drainTerminalLogs s a).2 = []).
  { intros s0. unfold drainTerminalLogs. destruct (at_open a _); [done|].
    destruct (at_consume a _ _ _) as [[lst err] progress]. apply (Hc progress). }
  unfold follow. destruct (at_consume a _ _ _) as [[lst err] progress].
  set (r := if Cur.IsZero lst then _ else _).
  assert (Hr : filter is_connect_error r.2 = []).
  { unfold r. destruct (Cur.IsZero lst); cbn [snd]; rewrite ?filter_app, ?Hc; done. }
  destruct r as [s2 out2]. destruct (at_terminal a); simpl; [|by intros; simplify_eq].
  destruct err; [|by intros; simplify_eq]. specialize (Hd s2).
  destruct (drainTerminalLogs s2 a) as [s3 out3]. intros. simplify_eq. simpl in *.
  by rewrite filter_app, Hr, Hd.
Qed.

Lemma run_iter_recycled cfg s a s' out stop :
  a.(at_cancelled) = false →
  lifetimeReached (@connectionContext a.(at_rand_cap) a.(at_other) cfg)
    a.(at_cancelled_after) a.(at_elapsed) = true →
  run_iter cfg s a = (s', out, stop) →
  sleeps out = [] ∧ filter is_connect_error out = [] ∧
  (stop = None ∨ (stop = Some StopTerminal ∧ a.(at_terminal) = true)).
Proof.
  intros Hc Hl Hi. unfold run_iter in Hi. rewrite Hc, Hl in Hi.
  destruct (countReconnect cfg s) as [s1 out1] eqn:Hcount.
  assert (sleeps out1 = [] ∧ filter is_connect_error out1 = []) as [Ho1 He1].
  { unfold countReconnect in Hcount. repeat (case_match; simplify_eq/=); done. }
  cbv zeta in Hi. destruct (at_open a _) as [e|stream].
  { simplify_eq. rewrite sleeps_app, filter_app, Ho1, He1. auto. }
  destruct (follow _ a stream) as [[s3 out3] keep] eqn:Hf.
  pose proof (quiet_no_connect_error _ _ _ _ _ _ Hf) as He3.
  apply follow_quiet in Hf as ((_ & _ & Ho3 & _) & _ & ->). rewrite negb_involutive in Hi.
  destruct (at_terminal a); simplify_eq;
    rewrite !sleeps_app, !filter_app, Ho1, He1, Ho3, He3; auto.
Qed.

(** ** Giving up *)

(** [retryingSince] is when the first failed connect of the current run of
    failures was noticed; a connect that succeeds clears it. *)
Lemma run_iter_retryingSince cfg s a s' out stop :
  run_iter cfg s a = (s', out, stop) → a.(at_cancelled) = false →
  (s'.(retryingSince) = 0 ∧ ∃ st, a.(at_open) (open_options cfg s a.(at_now)) = inr st) ∨
  (connect_fails cfg s a ∧ s'.(resume) = s.(resume) ∧
   s'.(meta).(ContainerName) = s.(meta).(ContainerName) ∧
   (s'.(retryingSince) = s.(retryingSince) ∨
    (s.(retryingSince) = 0 ∧ s'.(retryingSince) = a.(at_err_now)))).
Proof.
  intros Hi Hc. unfold connect_fails. rewrite Hc. unfold run_iter in Hi. rewrite Hc in Hi.
  destruct (countReconnect cfg s) as [s1 out1] eqn:Hcount.
  assert (resume s1 = resume s ∧ meta s1 = meta s ∧ retryingSince s1 = retryingSince s)
    as (Hr1 & Hm1 & Ht1).
  { unfold countReconnect in Hcount. repeat (case_match; simplify_eq/=); done. }
  cbv zeta in Hi. set (s2 := set_restartCount s1 (at_restartCount a)) in *.
  pose proof (open_options_count _ _ a _ _ Hcount) as Hopts. fold s2 in Hopts.
  rewrite Hopts in Hi. destruct (at_open a _) as [e|stream].
  - right. destruct (lifetimeReached _ _ _).
    { simplify_eq. simpl. rewrite Hr1, Hm1, Ht1. naive_solver. }
    unfold retryAfterConnectError in Hi.
    set (s3 := if Time.IsZero _ then _ else _) in Hi.
    assert (Hs3 : resume s3 = resume s ∧ ContainerName (meta s3) = ContainerName (meta s) ∧
      (retryingSince s3 = retryingSince s ∨ (retryingSince s = 0 ∧ retryingSince s3 = at_err_now a))).
    { unfold s3, s2, Time.IsZero; simpl. rewrite Ht1.
      destruct (Z.eqb_spec (retryingSince s) 0); simpl; rewrite ?Hr1, ?Hm1, ?Ht1; auto. }
    clearbody s3. repeat (case_match; simplify_eq/=); naive_solver.
  - left. destruct (follow _ a stream) as [[s3 out3] keep] eqn:Hf.
    apply follow_quiet in Hf as (_ & Hz & _). set (s4 := if Cur.After _ _ then _ else _) in Hi.
    assert (retryingSince s4 = 0) by (unfold s4; repeat case_match; done).
    clearbody s4. repeat (case_match; simplify_eq/=); eauto.
Qed.

(** Giving up ends an unbroken streak of failed connects that has lasted longer
    than [MaxElapsedTime]. *)
Definition gave_up_on cfg s (streak : list (attempt E Str)) (t0 : Z) : Prop :=
  Forall (connect_fails cfg s) streak ∧
  ∃ l, last streak = Some l ∧ cfg.(backoffCfg).(MaxElapsedTime) < l.(at_since) - t0.

Lemma run_loop_gave_up cfg s attempts s' out :
  run_loop cfg s attempts = (s', out, Some StopGaveUp) →
  0 < cfg.(backoffCfg).(MaxElapsedTime) ∧
  ∃ pre streak rest s1 out1 t0, attempts = pre ++ streak ++ rest ∧
    run_loop cfg s pre = (s1, out1, None) ∧ gave_up_on cfg s1 streak t0 ∧
    run_loop cfg s (pre ++ streak) = (s', out, Some StopGaveUp) ∧
    ((pre = [] ∧ t0 = s.(retryingSince) ∧ t0 ≠ 0) ∨ ∃ f, f ∈ streak ∧ t0 = f.(at_err_now)).
Proof.
  revert s s' out. induction attempts as [|a attempts IH]; intros s s' out Hr; simpl in Hr; [done|].
  destruct (run_iter cfg s a) as [[s1 out1] stop1] eqn:Hi.
  assert (Hstart : ∀ t1, s1.(retryingSince) = t1 → connect_fails cfg s a →
    t1 = s.(retryingSince) ∨ t1 = a.(at_err_now)).
  { intros t1 <- [Hc [err He]].
    destruct (run_iter_retryingSince _ _ _ _ _ _ Hi Hc) as [(_ & st & He')|(_ & _ & _ & [->|[_ ->]])];
      [by rewrite He in He'|by left|by right]. }
  destruct stop1 as [stop|].
  - simplify_eq. destruct (run_iter_stop _ _ _ _ _ _ Hi) as (Hm & Hlt & Hfail & Ht).
    split; [done|]. exists [], [a], attempts, s, [], s'.(retryingSince).
    split_and!; [done|done| |by simpl; rewrite Hi|].
    + split; [by apply Forall_singleton|]. by exists a.
    + rewrite Ht. unfold Time.IsZero. destruct (Z.eqb_spec (retryingSince s) 0); [|by left].
      right. exists a. split; [set_solver|done].
  - destruct (run_loop cfg s1 attempts) as [[s2 out2] stop2] eqn:Hloop. simplify_eq.
    destruct (IH _ _ _ Hloop) as (Hm & pre & streak & rest & s3 & out3 & t0 & -> & Hpre & Hgave & Hstop & Ht0).
    split; [done|].
    assert (Hlater : run_loop cfg s (a :: pre) = (s3, out1 ++ out3, None)).
    { simpl. by rewrite Hi, Hpre. }
    assert (Hall : run_loop cfg s (a :: pre ++ streak) = (s', out1 ++ out2, Some StopGaveUp)).
    { simpl. by rewrite Hi, Hstop. }
    destruct Ht0 as [(-> & Ht0 & Hnz)|Hf].
    2: { exists (a :: pre), streak, rest, s3, (out1 ++ out3), t0. split_and!; auto. }
    simpl in Hpre. simplify_eq.
    destruct (at_cancelled a) eqn:Hc.
    { unfold run_iter in Hi. by rewrite Hc in Hi. }
    destruct (run_iter_retryingSince _ _ _ _ _ _ Hi Hc) as [[Hz _]|(Hfail & Hres & Hname & _)].
    + by simplify_eq.
    + destruct Hgave as [Hfails (l & Hl & Hlt)].
      exists [], (a :: streak), rest, s, [], (retryingSince s3). split_and!; [done|done| |done|].
      * split; [constructor; [done|]|].
        { eapply Forall_impl; [done|]. intros x. by apply connect_fails_ext. }
        exists l. split; [|done]. rewrite last_cons, Hl. done.
      * destruct (Hstart _ eq_refl Hfail) as [?|?]; [left; split_and!; auto|]. right. exists a. split; [set_solver|done].
Qed.
End waiting.

(** * Properties *)

Section properties.
Context {E Str : Type} `{!ApiErrors E}.
Implicit Types (s : containerStream) (attempts : list (attempt E Str)) (cfg : stream_cfg).

(** C31: With settings below 2^62 ns every wait of a stream lies between nothing and
    the larger of the two intervals, whatever happens to its connections. *)
Theorem waits_bounded cfg s attempts s' out stop :
  let hi := Z.max cfg.(backoffCfg).(InitialInterval) cfg.(backoffCfg).(MaxInterval) in
  0 ≤ cfg.(backoffCfg).(InitialInterval) → 0 ≤ cfg.(backoffCfg).(MaxInterval) → hi ≤ 2 ^ 62 - 1 →
  Forall (λ a, rand_ok a.(at_rand)) attempts → run cfg s attempts = (s', out, stop) →
  Forall (λ d, 0 ≤ d ≤ hi) (sleeps out).
Proof.
  intros hi Hi Hm Hhi Ha Hr. unfold run in Hr.
  eapply (run_loop_wait cfg (ladder_ok cfg hi) (λ d, 0 ≤ d ≤ hi)) in Hr; [apply Hr|..|done].
  - unfold ladder_ok; lia.
  - intros b. apply ladder_ok_next.
  - intros b r. apply ladder_ok_jitter.
  - unfold ladder_ok; simpl; lia.
Qed.

(** With an initial interval of zero, which validation accepts, a stream never
    waits at all, however often its connects fail: doubling zero is zero. *)
Theorem zero_interval_never_waits cfg s attempts s' out stop :
  cfg.(backoffCfg).(InitialInterval) = 0 → 0 ≤ cfg.(backoffCfg).(MaxInterval) →
  Forall (λ a, rand_ok a.(at_rand)) attempts → run cfg s attempts = (s', out, stop) →
  Forall (λ d, d = 0) (sleeps out).
Proof.
  intros Hi Hm Ha Hr. unfold run in Hr.
  eapply (run_loop_wait cfg (λ b, b = 0) (λ d, d = 0)) in Hr; [apply Hr|done| |by intros b r ->|done|done].
  intros b ->. rewrite NextBackoff_small by lia. lia.
Qed.

(** C30: Wherever they come in a stream's life, failed connects in a row, none of
    which the lifetime cap recycles or the end of the stream's context cuts
    short, wait on the rungs of the backoff ladder one after the other, each wait
    jittered: from the rung the stream stands on, which is the first one when it
    starts and after every connection that delivered.  Only a limit on the
    elapsed time makes the stream give up before they are over. *)
Theorem failures_climb_ladder cfg s (pre fails : list (attempt E Str)) s1 out1 s' out stop :
  run cfg s pre = (s1, out1, None) → Forall (fails_at cfg s1) fails →
  run cfg s (pre ++ fails) = (s', out1 ++ out, stop) →
  (∃ k, sleeps out = imap (λ i a, @Jitter a.(at_rand)
          (ladder s1.(backoff) cfg.(backoffCfg).(MaxInterval) i)) (take k fails) ∧
     ((stop = None ∧ k = length fails) ∨
      (stop = Some StopGaveUp ∧ 0 < cfg.(backoffCfg).(MaxElapsedTime) ∧ (k < length fails)%nat))) ∧
  (pre = [] → s1.(backoff) = cfg.(backoffCfg).(InitialInterval)) ∧
  (∀ pre0 a s0 out0, pre = pre0 ++ [a] → run cfg s pre0 = (s0, out0, None) →
     Cur.After s1.(resume) s0.(resume) = true → s1.(backoff) = cfg.(backoffCfg).(InitialInterval)).
Proof.
  unfold run. intros Hpre Hf Hr. split_and!.
  - rewrite run_loop_app, Hpre in Hr. destruct (run_loop cfg s1 fails) as [[s2 out2] stop2] eqn:Hl.
    simplify_eq. by eapply run_loop_fails.
  - intros ->. by simplify_eq/=.
  - intros pre0 a s0 out0 -> H0 Hafter. rewrite run_loop_app, H0 in Hpre. cbn [run_loop] in Hpre.
    destruct (run_iter cfg s0 a) as [[s2 out2] [|]] eqn:Hi; simplify_eq.
    by eapply run_iter_delivered.
Qed.

(** C22: A stream returns for three reasons only: its context ended, its container
    is terminal, or it gave up; and it gives up only at the end of an unbroken
    streak of connects that all failed, which has lasted longer than
    [MaxElapsedTime], counted from a failure of that very streak. *)
Theorem stream_stops cfg s attempts s' out stop :
  s.(retryingSince) = 0 → run cfg s attempts = (s', out, Some stop) →
  match stop with
  | StopCancelled => ∃ a, a ∈ attempts ∧ (a.(at_cancelled) = true ∨ is_Some a.(at_ctx_done))
  | StopTerminal => ∃ a, a ∈ attempts ∧ a.(at_terminal) = true
  | StopGaveUp => 0 < cfg.(backoffCfg).(MaxElapsedTime) ∧
      ∃ pre streak rest s1 out1 f l, attempts = pre ++ streak ++ rest ∧
        run cfg s pre = (s1, out1, None) ∧ Forall (connect_fails cfg s1) streak ∧
        run cfg s (pre ++ streak) = (s', out, Some StopGaveUp) ∧
        f ∈ streak ∧ last streak = Some l ∧
        cfg.(backoffCfg).(MaxElapsedTime) < l.(at_since) - f.(at_err_now)
  end.
Proof.
  intros Hs Hr. unfold run in *. destruct stop.
  - destruct (run_loop_stop _ _ _ _ _ _ Hr) as (pre & a & post & s1 & out1 & -> & Hi).
    exists a. split; [set_solver|]. apply (run_iter_stop _ _ _ _ _ _ Hi).
  - destruct (run_loop_gave_up _ _ _ _ _ Hr) as
      (Hm & pre & streak & rest & s1 & out1 & t0 & -> & Hpre & [Hf (l & Hl & Hlt)] & Hstop & Ht0).
    split; [done|]. destruct Ht0 as [(_ & -> & Hne)|(f & Hin & ->)]; [by simpl in Hne|].
    by exists pre, streak, rest, s1, out1, f, l.
  - destruct (run_loop_stop _ _ _ _ _ _ Hr) as (pre & a & post & s1 & out1 & -> & Hi).
    exists a. split; [set_solver|]. apply (run_iter_stop _ _ _ _ _ _ Hi).
Qed.

(** Recycling a connection at the end of its lifetime costs no wait and counts
    no error, and ends the stream only if its container is terminal. *)
Theorem recycle_is_free cfg s (a : attempt E Str) s' out stop :
  a.(at_cancelled) = false →
  lifetimeReached (@connectionContext a.(at_rand_cap) a.(at_other) cfg)
    a.(at_cancelled_after) a.(at_elapsed) = true →
  run_iter cfg s a = (s', out, stop) →
  sleeps out = [] ∧ filter is_connect_error out = [] ∧
  (stop = None ∨ (stop = Some StopTerminal ∧ a.(at_terminal) = true)).
Proof. apply run_iter_recycled. Qed.

(** Every connect attempt is counted as a reconnect except the stream's very
    first. *)
Theorem reconnects_counted cfg s attempts s' out :
  cfg.(telemetry) = true → s.(firstAttempt) = true →
  Forall (λ a, a.(at_cancelled) = false) attempts → run cfg s attempts = (s', out, None) →
  reconnects out = pred (length attempts).
Proof.
  intros Ht Hf Ha Hr. unfold run in Hr.
  pose proof (run_loop_reconnects _ _ _ _ _ Ht Ha Hr) as Hc. rewrite Hc. simpl. by rewrite Hf.
Qed.

(** A request never names two starting points and never the zero
    [sinceSeconds] the API server refuses: it resumes from the cursor's time when
    there is one, and otherwise starts as [since_seconds] says, zero meaning
    now. *)
Theorem request_start_valid cfg s now :
  (∀ n, cfg.(sinceSeconds) = Some n → 0 ≤ n) →
  let opts := open_options cfg s now in
  (TS s.(resume) ≠ 0 → opts.(SinceTime) = Some (TS s.(resume)) ∧ opts.(SinceSeconds) = None) ∧
  (TS s.(resume) = 0 → cfg.(sinceSeconds) = Some 0 → opts.(SinceTime) = Some now) ∧
  (∀ n, opts.(SinceSeconds) = Some n → 0 < n ∧ opts.(SinceTime) = None).
Proof.
  intros Hs. unfold open_options, streamStartPoint, Time.IsZero.
  destruct (Z.eqb_spec (TS (resume s)) 0) as [Hz|Hz]; simpl; [|naive_solver].
  case_bool_decide as H0; simpl; [naive_solver|].
  split_and!; [done|congruence|]. intros n Hn. split; [|done]. specialize (Hs n Hn).
  assert (n ≠ 0) by congruence. lia.
Qed.
End properties.

Module StreamSample.
Definition api_errors : ApiErrors string := {|
  IsForbidden e := bool_decide (e = "Forbidden"%string);
  IsNotFound e := bool_decide (e = "NotFound"%string);
|}.
#[local] Existing Instance api_errors.

Definition cfg : stream_cfg :=
  MkStreamCfg (Some 300) (MkReconnectBackoff (1 * Second) (30 * Second) 0) 0 true.
Definition cfg_limited : stream_cfg :=
  MkStreamCfg (Some 300) (MkReconnectBackoff (1 * Second) (30 * Second) (1 * Minute)) (1 * Hour) true.
Definition cfg_zero : stream_cfg :=
  MkStreamCfg (Some 0) (MkReconnectBackoff 0 (30 * Second) 0) 0 true.

Definition stream0 : containerStream := MkContainerStream sample_meta 0 Cur.zero 0 true.

(** A connection that delivers up to [c] unless that is behind it. *)
Definition reach (c : Cursor) : consume_fn :=
  λ (_ : unit) _ r, if bool_decide (cur_lt r c) && negb (Cur.IsZero c)
                    then (c, None, [ConnProgress c]) else (Cur.zero, None, []).

(** An attempt at time [now], whose connect succeeds or not. *)
Definition turn (connects : bool) (c : Cursor) (now : Z) (terminal : bool) : attempt string unit := {|
  at_cancelled := false; at_restartCount := 0; at_now := now; at_server := now;
  at_open _ := if connects then inr tt else inl "NotFound"%string;
  at_consume := reach c; at_elapsed := 2 * Hour; at_cancelled_after := false;
  at_terminal := terminal; at_err_now := now; at_ctx_done := None; at_tie := false;
  at_since := now; at_rand_cap := sample_rand; at_rand := sample_rand; at_other := 0;
|}.

Definition turns : list (attempt string unit) :=
  [turn true (MkCursor 5 1) 100 false; turn false Cur.zero 200 false; turn true (MkCursor 5 3) 300 true].

Definition result := Eval vm_compute in run cfg stream0 turns.

Lemma sample_rand_ok : rand_ok sample_rand.
Proof. intros n Hn. change (0 ≤ n - 1 < n). lia. Defined.

Lemma waits_bounded_witness : Forall (λ d, 0 ≤ d ≤ 30 * Second) (sleeps result.1.2).
Proof.
  apply (waits_bounded cfg stream0 turns result.1.1 result.1.2 result.2).
  - vm_compute. discriminate.
  - vm_compute. discriminate.
  - vm_compute. discriminate.
  - repeat (apply Forall_cons; split; [apply sample_rand_ok|]); apply Forall_nil; exact I.
  - vm_compute. reflexivity.
Defined.

Definition failures : list (attempt string unit) := (λ t, turn false Cur.zero t false) <$> [10; 20; 30].

Lemma zero_interval_never_waits_witness :
  Forall (λ d, d = 0) (sleeps (run cfg_zero stream0 failures).1.2).
Proof.
  apply (zero_interval_never_waits cfg_zero stream0 failures
    (run cfg_zero stream0 failures).1.1 _ (run cfg_zero stream0 failures).2).
  - reflexivity.
  - vm_compute. discriminate.
  - repeat (apply Forall_cons; split; [apply sample_rand_ok|]); apply Forall_nil; exact I.
  - vm_compute. reflexivity.
Defined.

(** A connection delivers, and the connects after it fail until the stream gives
    up. *)
Definition delivers : list (attempt string unit) := [turn true (MkCursor 5 1) (1 * Second) false].
Definition refusals : list (attempt string unit) :=
  (λ t, turn false Cur.zero (t * Second) false) <$> [2; 30; 61; 90; 120].
Definition cfg_short : stream_cfg :=
  MkStreamCfg (Some 300) (MkReconnectBackoff (1 * Second) (30 * Second) (1 * Minute)) (3 * Hour) true.
Definition delivered := run cfg_short stream0 delivers.
Definition gave_up := run cfg_short stream0 (delivers ++ refusals).
Definition refused_out : list stream_output := drop (length delivered.1.2) gave_up.1.2.

Example gave_up_run :
  gave_up.2 = Some StopGaveUp ∧ length (sleeps refused_out) = 3%nat ∧
  backoff delivered.1.1 = 1 * Second.
Proof. vm_compute. repeat split. Qed.

Lemma failures_climb_ladder_witness :
  ∃ k, sleeps refused_out = imap (λ i a, @Jitter a.(at_rand)
      (ladder (backoff delivered.1.1) (30 * Second) i)) (take k refusals) ∧
    ((gave_up.2 = None ∧ k = length refusals) ∨
     (gave_up.2 = Some StopGaveUp ∧ 0 < 1 * Minute ∧ (k < length refusals)%nat)).
Proof.
  apply (failures_climb_ladder cfg_short stream0 delivers refusals delivered.1.1 delivered.1.2
    gave_up.1.1 refused_out gave_up.2).
  - vm_compute. reflexivity.
  - repeat (apply Forall_cons; split;
      [split; [split; [reflexivity|eexists; reflexivity]|split; reflexivity]|]).
    apply Forall_nil. exact I.
  - vm_compute. reflexivity.
Defined.

Lemma stream_stops_witness :
  0 < 1 * Minute ∧
  ∃ pre streak rest s1 out1 f l, delivers ++ refusals = pre ++ streak ++ rest ∧
    run cfg_short stream0 pre = (s1, out1, None) ∧ Forall (connect_fails cfg_short s1) streak ∧
    run cfg_short stream0 (pre ++ streak) = (gave_up.1.1, gave_up.1.2, Some StopGaveUp) ∧
    f ∈ streak ∧ last streak = Some l ∧ 1 * Minute < l.(at_since) - f.(at_err_now).
Proof.
  apply (stream_stops cfg_short stream0 (delivers ++ refusals) gave_up.1.1 gave_up.1.2 StopGaveUp).
  - reflexivity.
  - vm_compute. reflexivity.
Defined.

Definition recycled_turn := run_iter cfg_limited stream0 (turn true (MkCursor 5 1) 100 false).

Lemma recycle_is_free_witness :
  sleeps recycled_turn.1.2 = [] ∧ filter is_connect_error recycled_turn.1.2 = [] ∧
  (recycled_turn.2 = None ∨ (recycled_turn.2 = Some StopTerminal ∧ false = true)).
Proof.
  apply (recycle_is_free cfg_limited stream0 (turn true (MkCursor 5 1) 100 false) recycled_turn.1.1).
  - reflexivity.
  - vm_compute. reflexivity.
  - vm_compute. reflexivity.
Defined.

Lemma reconnects_counted_witness :
  reconnects (run cfg stream0 failures).1.2 = 2%nat.
Proof.
  apply (reconnects_counted cfg stream0 failures (run cfg stream0 failures).1.1).
  - reflexivity.
  - reflexivity.
  - repeat constructor.
  - vm_compute. reflexivity.
Defined.

Lemma request_start_valid_witness :
  (∀ n, cfg_zero.(sinceSeconds) = Some n → 0 ≤ n) ∧
  (open_options cfg_zero stream0 777).(SinceTime) = Some 777.
Proof.
  assert (Hs : ∀ n, cfg_zero.(sinceSeconds) = Some n → 0 ≤ n) by (intros n [= <-]; lia).
  exact (conj Hs (proj1 (proj2 (request_start_valid cfg_zero stream0 777 Hs)) eq_refl eq_refl)).
Defined.
End StreamSample.
