(* ===== verification/Delivery.v ===== *)
(** Delivery end to end: the stream loop of Stream.v reading one container's log
    through the connections of Connection.v.

    The log is what the kubelet keeps for the container, line by line.  The
    pods/log endpoint is a parameter: [serves] states what its documentation
    promises of a request's [sinceTime] and [sinceSeconds].  A connection may
    break after any line and the pipeline may refuse any batch, for now or for
    good. *)
From stdpp Require Import sorting.
From S2P Require Import Prelude GoTime Retry Cursor LogLine Scanner Consumer Samples Connection Stream.
Open Scope Z_scope.

(** * One connection as the loop sees it *)

(** An open stream: the pipeline's state at the time, the lines and ticks, and
    how the read ends. *)
Record podStream (S : Type) := MkPodStream {
  st_world : S;
  st_events : list conn_event;
  st_end : option ReadErr;
}.
Arguments MkPodStream {S} _ _ _.
Arguments st_world {S} _. Arguments st_events {S} _. Arguments st_end {S} _.

Section consume.
Context {S E : Type} `{!PData} `{!Consumer S Batch E} `{!ConsumerErrors Batch E}.

Definition st_all (st : podStream S) : list conn_event := st.(st_events) ++ [EvClosed st.(st_end)].

(** The field [consume] of a stream, which [newContainerStream] sets to
    [streamConnection]. *)
Definition consume (maxBatch : Z) (st : podStream S) (m : Meta) (resume : Cursor)
    : Cursor * option StreamErr * list conn_output :=
  match streamConnection maxBatch m resume st.(st_world) (st_all st) with
  | Some (delivered, err, out, _) => (delivered, err, out)
  | None => (Cur.zero, None, [])
  end.
End consume.

(** * The log and the kubelet *)

Definition stamped_le (x y : Line) : Prop :=
  Timestamp x = 0 ∨ Timestamp y = 0 ∨ Timestamp x ≤ Timestamp y.

(** Stamps do not go back, and the log can be counted. *)
Record log_ok (W : list Line) : Prop := {
  lo_stamps : Forall (λ x, 0 ≤ Timestamp x) W;
  lo_sorted : StronglySorted stamped_le W;
  lo_length : Z.of_nat (length W) ≤ max_int64;
}.

(** [metav1.Time] is written in whole seconds. *)
Definition whole_second (t : Z) : Z := t - t `mod` Second.

(** The time from which a request wants the log, if it names one: [sinceSeconds]
    counts back from the server's clock. *)
Definition cutoff (server : Z) (opts : PodLogOptions) : option Z :=
  match opts.(SinceTime) with
  | Some t => Some (whole_second t)
  | None => (λ n, server - n * Second) <$> opts.(SinceSeconds)
  end.

(** Where the answer begins: at the first line stamped at that time or later. *)
Definition first_since (W : list Line) (t : option Z) : nat :=
  match t with
  | Some t => from_option fst (length W) (list_find (λ x, t ≤ Timestamp x) W)
  | None => 0%nat
  end.

(** What a request returns: the log from there on, up to wherever the connection
    ends. *)
Definition serves (W : list Line) (server : Z) (opts : PodLogOptions) (lines : list Line) (ended : bool)
    : Prop :=
  let rest := drop (first_since W (cutoff server opts)) W in
  lines `prefix_of` rest ∧ (ended = true → lines = rest).

(** * Positions of a log *)

Notation pos := (pos Timestamp).
Notation stamps := (fmap Timestamp).

(** Lines [n] to [n'] of the log. *)
Definition slice (W : list Line) (n n' : nat) : list Line := take (n' - n) (drop n W).

Lemma take_slice W n n' : (n ≤ n')%nat → take n W ++ slice W n n' = take n' W.
Proof.
  intros. unfold slice. rewrite take_take_drop. by replace (n + (n' - n))%nat with n' by lia.
Qed.

Lemma slice_app W n n' n'' :
  (n ≤ n')%nat → (n' ≤ n'')%nat → slice W n n' ++ slice W n' n'' = slice W n n''.
Proof.
  intros H1 H2. apply (app_inv_head (take n W)). rewrite app_assoc, !take_slice; lia || done.
Qed.

Lemma slice_same W n : slice W n n = [].
Proof. unfold slice. by rewrite Nat.sub_diag. Qed.

Lemma unstamped_all (q : list Line) : Forall (λ x, Timestamp x = 0) (unstamped Timestamp q).
Proof. apply Forall_forall. intros x. unfold unstamped. rewrite list_elem_of_filter. tauto. Qed.

Lemma pos_le l k :
  Forall (λ x, 0 ≤ Timestamp x) (l ++ k) → Z.of_nat (length (l ++ k)) ≤ max_int64 →
  cur_le (pos l) (pos (l ++ k)).
Proof.
  induction k as [|x k IH] using rev_ind; intros Hs Hl; [by rewrite app_nil_r|].
  rewrite app_assoc in Hs, Hl |- *. rewrite length_app in Hl. simpl in Hl.
  apply Forall_app in Hs as [Hs _]. etrans; [apply IH; [done|lia]|].
  rewrite pos_snoc. apply Record_fst_le.
  destruct (pos_spec Timestamp (l ++ k)) as (_ & _ & Hz & Hnz); [done|lia|].
  pose proof (count_at_bound Timestamp (TS (pos (l ++ k))) (l ++ k)).
  destruct (decide (TS (pos (l ++ k)) = 0)); [rewrite Hz by done|rewrite Hnz by done]; in_range.
Qed.

(** * One connection *)

(** What a stretch of the loop adds to the container's output when it moves the
    position from line [n] to line [n']: those lines, in order, and possibly
    again some lines that carry no timestamp. *)
Record covers (W : list Line) (n : nat) (acc : list Line) (n' : nat) : Prop := {
  cv_forward : (n ≤ n' ≤ length W)%nat;
  cv_all : slice W n n' `sublist_of` acc;
  cv_once : filter (λ x, Timestamp x ≠ 0) acc = filter (λ x, Timestamp x ≠ 0) (slice W n n');
  cv_from : ∀ x, x ∈ acc → x ∈ W;
}.

Lemma covers_refl W n : (n ≤ length W)%nat → covers W n [] n.
Proof.
  intros. split; [lia|by rewrite slice_same|by rewrite slice_same|].
  by intros x ?%not_elem_of_nil.
Qed.

Lemma covers_trans W n acc n' acc' n'' :
  covers W n acc n' → covers W n' acc' n'' → covers W n (acc ++ acc') n''.
Proof.
  intros [H1 Ha1 Ho1 Hf1] [H2 Ha2 Ho2 Hf2].
  split; [lia| | |]; rewrite <- ?(slice_app W n n' n'') by lia.
  - by apply sublist_app.
  - by rewrite !filter_app, Ho1, Ho2.
  - intros x [?|?]%elem_of_app; auto.
Qed.

Lemma filter_stamped_unstamped (l : list Line) :
  filter (λ x, Timestamp x ≠ 0) l = [] ↔ Forall (λ x, Timestamp x = 0) l.
Proof.
  split.
  - intros Hl. apply Forall_forall. intros x Hx. destruct (decide (Timestamp x = 0)); [done|].
    assert (Hin : x ∈ filter (λ x, Timestamp x ≠ 0) l) by by apply list_elem_of_filter.
    rewrite Hl in Hin. by apply not_elem_of_nil in Hin.
  - intros Hl. apply filter_none. eapply Forall_impl; [done|]. simpl. tauto.
Qed.

(** Lines without a timestamp may come before. *)
Lemma covers_prepend W n fl0 fl n' :
  Forall (λ x, Timestamp x = 0) fl0 → (∀ x, x ∈ fl0 → x ∈ W) →
  covers W n fl n' → covers W n (fl0 ++ fl) n'.
Proof.
  intros H0 HW [Hf Ha Ho Hin]. split; [done|by apply sublist_inserts_l| |set_solver].
  by rewrite filter_app, (proj2 (filter_stamped_unstamped fl0) H0).
Qed.

Lemma covers_unstamped W n fl n' :
  covers W n fl n' → Forall (λ x, Timestamp x = 0) (slice W n n') → Forall (λ x, Timestamp x = 0) fl.
Proof.
  intros [_ _ Ho _] Hs. apply filter_stamped_unstamped. rewrite Ho. by apply filter_stamped_unstamped.
Qed.

(** * Where a stream stands

    A container is read from some line on: the first one, or where the window of
    a request without a position begins.  There the log divides cleanly, no
    instant lies on both sides. *)
Definition clean (W : list Line) (b : nat) : Prop :=
  ∀ x y, x ∈ take b W → y ∈ drop b W → Timestamp y ≠ 0 → Timestamp x < Timestamp y.

(** The cursor of a container read from line [b] up to line [n]. *)
Record stands (W : list Line) (b n : nat) (c : Cursor) : Prop := {
  sd_forward : (b ≤ n ≤ length W)%nat;
  sd_clean : clean W b;
  sd_cursor : c = pos (slice W b n);
}.

Definition position (W : list Line) (c : Cursor) : Prop := ∃ b n, stands W b n c.

(** Line [b] is where one of these requests, made without a position, begins. *)
Definition begins (W : list Line) (since : option Z) (reqs : list (PodLogOptions * Z)) (b : nat) : Prop :=
  ∃ opts server, (opts, server) ∈ reqs ∧ from_nothing since opts ∧
    b = first_since W (cutoff server opts).

Lemma begins_mono W since reqs reqs' b : reqs ⊆ reqs' → begins W since reqs b → begins W since reqs' b.
Proof. intros Hr (opts & server & ? & ? & ?). exists opts, server. split_and!; auto. Qed.

(** What is handed over on the way from one standing to the next: the lines in
    between; or, for a stream without a position, the lines from the beginning of
    one of its windows on. *)
Definition extends (W : list Line) (since : option Z) (reqs : list (PodLogOptions * Z))
    (c : Cursor) (b n : nat) (fl : list Line) (b' n' : nat) : Prop :=
  (b' = b ∧ covers W n fl n') ∨ (TS c = 0 ∧ begins W since reqs b' ∧ covers W b' fl n').

Definition reaches (W : list Line) (since : option Z) (reqs : list (PodLogOptions * Z))
    (c : Cursor) (b n : nat) (fl : list Line) (c' : Cursor) (b' n' : nat) : Prop :=
  stands W b' n' c' ∧ extends W since reqs c b n fl b' n'.

Section log.
Context (W : list Line) (HW : log_ok W) (since : option Z).
Implicit Types (reqs : list (PodLogOptions * Z)) (fl : list Line).

Lemma log_slice b n :
  Forall (λ x, 0 ≤ Timestamp x) (slice W b n) ∧ Z.of_nat (length (slice W b n)) ≤ max_int64.
Proof.
  destruct HW as [Hs _ Hl]. unfold slice. split; [by apply Forall_take, Forall_drop|].
  rewrite length_take, length_drop. lia.
Qed.

Lemma slice_in b n x : x ∈ slice W b n → x ∈ W.
Proof.
  unfold slice. intros Hx. rewrite <- (take_drop b W). apply elem_of_app. right.
  rewrite <- (take_drop (n - b) (drop b W)). set_solver.
Qed.

Lemma slice_take n : slice W 0 n = take n W.
Proof. unfold slice. by rewrite Nat.sub_0_r, drop_0. Qed.

Lemma pos_slice_le b n n' : (b ≤ n ≤ n')%nat → cur_le (pos (slice W b n)) (pos (slice W b n')).
Proof.
  intros Hn. pose proof (log_slice b n') as [? ?].
  rewrite <- (slice_app W b n n') in * by lia. by apply pos_le.
Qed.

Lemma clean_0 : clean W 0.
Proof. by intros x y ?%not_elem_of_nil. Qed.

(** Every prefix of the log gives a position. *)
Lemma stands_take n : (n ≤ length W)%nat → stands W 0 n (pos (take n W)).
Proof. intros. split; [lia|apply clean_0|by rewrite slice_take]. Qed.

Lemma stands_unstamped b n c :
  stands W b n c → TS c = 0 ↔ Forall (λ x, Timestamp x = 0) (slice W b n).
Proof.
  intros [Hf _ ->]. destruct (log_slice b n) as [Hs Hl].
  destruct (pos_spec Timestamp (slice W b n) Hs Hl) as (H0 & Hle & _ & _). split.
  - intros Hz. rewrite Hz in Hle. rewrite Forall_forall in Hs, Hle |- *. intros x Hx.
    specialize (Hs x Hx). specialize (Hle x Hx). lia.
  - intros Hu. unfold pos. by rewrite record_all_unstamped.
Qed.

Lemma stands_zero b n c : stands W b n c → TS c = 0 → c = Cur.zero.
Proof.
  intros Hst Hz. apply (stands_unstamped _ _ _ Hst) in Hz. destruct Hst as [_ _ ->].
  unfold pos. by apply record_all_unstamped.
Qed.

(** A position, once there is one, is the position of all of the log before it:
    it does not show where reading began. *)
Lemma stands_anchored b n c : stands W b n c → TS c ≠ 0 → c = pos (take n W).
Proof.
  intros Hst Hnz. rewrite (stands_unstamped _ _ _ Hst) in Hnz. destruct Hst as [Hf Hc ->].
  rewrite <- (take_slice W b n) by lia. symmetry. apply pos_app_newer; [|clear Hnz|done].
  - rewrite take_slice by lia. by apply Forall_take, HW.
  - intros x y Hx Hy. apply Hc; [done|]. unfold slice in Hy.
    rewrite <- (take_drop (n - b) (drop b W)). set_solver.
Qed.

Lemma stands_on b n c n' :
  stands W b n c → TS c ≠ 0 → (n ≤ n' ≤ length W)%nat → stands W b n' (pos (take n' W)).
Proof.
  intros Hst Hnz Hn'. assert (Hst' : stands W b n' (pos (slice W b n'))).
  { destruct Hst. split; [lia|done|done]. }
  rewrite <- (stands_anchored _ _ _ Hst'); [done|].
  rewrite (stands_unstamped _ _ _ Hst'). rewrite (stands_unstamped _ _ _ Hst) in Hnz.
  destruct Hst. rewrite <- (slice_app W b n n') by lia. rewrite Forall_app. tauto.
Qed.

Lemma stands_le b n n' c c' :
  stands W b n c → stands W b n' c' → (n ≤ n')%nat → cur_le c c'.
Proof. intros [? _ ->] [? _ ->] ?. apply pos_slice_le. lia. Qed.

Lemma extends_refl reqs c b n : (n ≤ length W)%nat → extends W since reqs c b n [] b n.
Proof. left. split; [done|by apply covers_refl]. Qed.

Lemma reaches_refl reqs b n c : stands W b n c → reaches W since reqs c b n [] c b n.
Proof. intros Hst. split; [done|]. apply extends_refl. apply Hst. Qed.

Lemma reaches_trans reqs1 reqs2 c b n fl1 c1 b1 n1 fl2 c2 b2 n2 :
  stands W b n c → reaches W since reqs1 c b n fl1 c1 b1 n1 →
  reaches W since reqs2 c1 b1 n1 fl2 c2 b2 n2 →
  reaches W since (reqs1 ++ reqs2) c b n (fl1 ++ fl2) c2 b2 n2.
Proof.
  intros Hst [Hst1 H1] [Hst2 H2]. split; [done|].
  assert (Hl : reqs1 ⊆ reqs1 ++ reqs2) by set_solver. assert (Hr : reqs2 ⊆ reqs1 ++ reqs2) by set_solver.
  destruct H2 as [[-> Hc2]|(Hz & Hb & Hc2)].
  - destruct H1 as [[-> Hc1]|(Hz & Hb & Hc1)]; [left|right].
    + split; [done|by eapply covers_trans].
    + split_and!; [done|exact (begins_mono _ _ _ _ _ Hl Hb)|by eapply covers_trans].
  - apply (stands_unstamped _ _ _ Hst1) in Hz.
    assert (Hfl1 : Forall (λ x, Timestamp x = 0) fl1 ∧ (∀ x, x ∈ fl1 → x ∈ W) ∧ TS c = 0).
    { destruct H1 as [[-> Hc1]|(Hz1 & _ & Hc1)].
      - pose proof (cv_forward _ _ _ _ Hc1). pose proof (sd_forward _ _ _ _ Hst).
        rewrite <- (slice_app W b n n1), Forall_app in Hz by lia. destruct Hz as [Hz0 Hz1].
        split_and!; [by eapply covers_unstamped|by eapply cv_from|].
        by apply (stands_unstamped _ _ _ Hst).
      - split_and!; [by eapply covers_unstamped|by eapply cv_from|done]. }
    destruct Hfl1 as (? & ? & ?). right.
    split_and!; [done|exact (begins_mono _ _ _ _ _ Hr Hb)|by apply covers_prepend].
Qed.

(** ** What a request is answered with *)

Lemma first_since_le t : (first_since W t ≤ length W)%nat.
Proof.
  destruct t as [t|]; [|simpl; lia]. simpl. destruct (list_find _ W) as [[i x]|] eqn:Hf; [|done].
  apply list_find_Some in Hf as (Hl & _). apply lookup_lt_Some in Hl. simpl. lia.
Qed.

Lemma first_since_older t : Forall (λ x, Timestamp x < t) (take (first_since W (Some t)) W).
Proof.
  simpl. destruct (list_find _ W) as [[i x]|] eqn:Hf; simpl.
  - apply list_find_Some in Hf as (_ & _ & Hb). apply Forall_forall. intros y Hy.
    apply list_elem_of_lookup in Hy as [j Hj]. apply lookup_take_Some in Hj as [Hj Hlt].
    pose proof (Hb j y Hj Hlt). simpl in *. lia.
  - apply list_find_None in Hf. rewrite take_ge by lia.
    eapply Forall_impl; [done|]. simpl. lia.
Qed.

(** A window begins where the log divides cleanly. *)
Lemma first_since_clean t : clean W (first_since W t).
Proof.
  destruct t as [t|]; [|apply clean_0]. intros x y Hx Hy Hy0. pose proof HW as [Hs Hsort _].
  pose proof (first_since_older t) as Hold. rewrite Forall_forall in Hold, Hs. specialize (Hold x Hx).
  enough (t ≤ Timestamp y) by lia. assert (HyW : y ∈ W).
  { rewrite <- (take_drop (first_since W (Some t)) W). set_solver. }
  specialize (Hs y HyW). destruct (decide (t ≤ 0)); [lia|].
  simpl in *. destruct (list_find _ W) as [[i z]|] eqn:Hf; simpl in *.
  2: { rewrite drop_ge in Hy by lia. by apply not_elem_of_nil in Hy. }
  apply list_find_Some in Hf as (Hi & Ht & _). rewrite (drop_S _ _ _ Hi) in Hy.
  apply elem_of_cons in Hy as [->|Hy]; [done|].
  rewrite <- (take_drop_middle W i z Hi) in Hsort.
  apply StronglySorted_app in Hsort as (_ & _ & Hsort).
  apply StronglySorted_inv in Hsort as [_ Hz]. rewrite Forall_forall in Hz.
  destruct (Hz y Hy) as [?|[?|?]]; lia.
Qed.

Lemma whole_second_le t : whole_second t ≤ t.
Proof. unfold whole_second, Second. pose proof (Z.mod_pos_bound t 1000000000). lia. Qed.

(** The answer to a request from a position resumes there: it starts no later,
    and skips only older lines. *)
Lemma answer_resumed opts server n :
  (n ≤ length W)%nat → TS (pos (take n W)) ≠ 0 → opts.(SinceTime) = Some (TS (pos (take n W))) →
  let m := first_since W (cutoff server opts) in
  ∃ q, resumed Timestamp (take n W) q (drop n W) ∧ q ++ drop n W = drop m W ∧ (∀ x, x ∈ q → x ∈ W).
Proof.
  intros Hn Hnz Hopts m. pose proof HW as [HWs Hsort _]. set (t := TS (pos (take n W))) in *.
  assert (Hold : Forall (λ x, Timestamp x < t) (take m W)).
  { unfold m, cutoff. rewrite Hopts. eapply Forall_impl; [apply first_since_older|].
    simpl. pose proof (whole_second_le t). lia. }
  assert (Hin : ∃ x, x ∈ take n W ∧ Timestamp x = t).
  { by destruct (pos_in Timestamp (take n W)) as [?|?]. }
  destruct Hin as (x & Hx & Hxt).
  assert (m ≤ n)%nat as Hmn.
  { destruct (decide (m ≤ n)%nat); [done|]. exfalso. rewrite Forall_forall in Hold.
    assert (Timestamp x < t); [|lia]. apply Hold. rewrite <- (take_slice W n m) by lia. set_solver. }
  exists (drop m (take n W)). split_and!.
  - split; [by apply Forall_take| | |].
    + rewrite length_take. pose proof (lo_length _ HW). lia.
    + exists (take m (take n W)). split_and!; [by rewrite take_drop| |done].
      rewrite take_take. replace (m `min` n)%nat with m by lia. apply Forall_forall. intros y.
      rewrite list_elem_of_filter. intros [_ Hy]. rewrite Forall_forall in Hold. by apply Hold.
    + fold t. apply Forall_forall. intros y Hy. destruct (decide (Timestamp y = 0)); [by left|right].
      rewrite <- (take_drop n W) in Hsort.
      assert (0 ≤ Timestamp x).
      { rewrite Forall_forall in HWs. apply HWs. rewrite <- (take_drop n W). set_solver. }
      destruct (StronglySorted_app_1_elem_of _ _ _ x y Hsort Hx Hy) as [?|[?|?]]; [lia|done|lia].
  - rewrite <- (take_drop n W) at 3. rewrite drop_app_le; [done|]. rewrite length_take. lia.
  - intros y Hy. rewrite <- (take_drop n W). apply elem_of_app. left.
    rewrite <- (take_drop m (take n W)). set_solver.
Qed.

(** A run of records flushed from an answer is whole lines of the log. *)
Lemma flushed_covers c start u fl :
  (start ≤ length W)%nat → Forall (λ x, Timestamp x = 0) u → (∀ x, x ∈ u → x ∈ W) →
  fl `prefix_of` u ++ drop start W →
  let n' := (start + (length fl - length u))%nat in
  covers W start fl n' ∧
  Cur.record_all c (stamps fl) = Cur.record_all c (stamps (slice W start n')) ∧
  (fl = u ++ drop start W → n' = length W).
Proof.
  intros Hn Hu HuW [r Hr] n'. set (j := (length fl - length u)%nat) in *.
  assert (Hfl : fl = take (length fl) u ++ take j (drop start W)).
  { unfold j. rewrite <- take_app, Hr. by rewrite take_app_length. }
  assert (Hj : (j ≤ length W - start)%nat).
  { assert (length (u ++ drop start W) = length (fl ++ r)) as Hl by by rewrite Hr.
    rewrite !length_app, length_drop in Hl. lia. }
  assert (Hsl : take j (drop start W) = slice W start n').
  { unfold slice, n'. by replace (start + j - start)%nat with j by lia. }
  rewrite Hsl in Hfl.
  assert (Hu' : Forall (λ x, Timestamp x = 0) (take (length fl) u)) by by apply Forall_take.
  split_and!.
  - rewrite Hfl. apply covers_prepend; [done|intros x Hx; apply HuW; rewrite <- (take_drop (length fl) u), elem_of_app; by left|].
    split; [unfold n'; lia|reflexivity|done|intros x; apply slice_in].
  - transitivity (Cur.record_all c (stamps (take (length fl) u ++ slice W start n'))); [by rewrite <- Hfl|].
    by rewrite fmap_app, record_all_app, (record_all_unstamped Timestamp c (take (length fl) u)).
  - intros Hall. assert (length fl = length (u ++ drop start W)) as Hl by by rewrite Hall.
    rewrite length_app, length_drop in Hl. lia.
Qed.

(** What a connection makes of an answer: of the lines already read it forwards
    some without a timestamp, and then all from line [start] on; and wherever it
    stops the stream stands there. *)
Lemma answer_plan opts server b n c :
  stands W b n c → asks since c opts →
  ∃ u start b', (start ≤ length W)%nat ∧
    kept c (drop (first_since W (cutoff server opts)) W) = u ++ drop start W ∧
    Forall (λ x, Timestamp x = 0) u ∧ (∀ x, x ∈ u → x ∈ W) ∧
    ∀ n', (start ≤ n' ≤ length W)%nat →
      stands W b' n' (Cur.record_all c (stamps (slice W start n'))) ∧
      ∀ fl, covers W start fl n' → extends W since [(opts, server)] c b n fl b' n'.
Proof.
  intros Hst [Hsome Hnone]. destruct (decide (TS c = 0)) as [Hz|Hz].
  - set (m := first_since W (cutoff server opts)). pose proof (stands_zero _ _ _ Hst Hz) as ->.
    exists [], m, m. split_and!; [apply first_since_le| |done|by intros x ?%not_elem_of_nil|].
    { unfold kept. by rewrite keep_all_done. }
    intros n' Hn'. split; [split; [done|apply first_since_clean|done]|]. intros fl Hfl. right.
    split_and!; [done| |done]. exists opts, server. split_and!; [set_solver|auto|done].
  - pose proof (stands_anchored _ _ _ Hst Hz) as Hc. pose proof (sd_forward _ _ _ _ Hst).
    destruct (Hsome Hz) as [Hopts _]. rewrite Hc in Hopts.
    destruct (answer_resumed opts server n) as (q & Hres & Hq & HqW); [lia|by rewrite <- Hc|done|].
    exists (unstamped Timestamp q), n, b. split_and!; [lia| |apply unstamped_all| |].
    + unfold kept. rewrite <- Hq, Hc. by apply resumed_keep.
    + intros x Hx. apply HqW. unfold unstamped in Hx. by apply list_elem_of_filter in Hx as [_ ?].
    + intros n' Hn'. split; [|by left]. rewrite Hc, <- pos_app, take_slice by lia.
      by eapply stands_on.
Qed.

(** Every cursor handed to the receiver stands after lines that have been handed
    over by then. *)
Definition tracked (reqs : list (PodLogOptions * Z)) (c : Cursor) (b n : nat) (out : list stream_output)
    : Prop :=
  ∀ p d q, out = p ++ OutDelivered d :: q →
  ∃ b' n' fl, settled p = Body <$> fl ∧ reaches W since (reqs ++ opens p) c b n fl d b' n'.

Lemma tracked_none reqs c b n out : published out = [] → tracked reqs c b n out.
Proof. intros Hp p d q ->. rewrite published_app in Hp. by destruct (published p). Qed.

Lemma tracked_app c b n out fl c1 b1 n1 out' :
  stands W b n c → settled out = Body <$> fl → reaches W since (opens out) c b n fl c1 b1 n1 →
  tracked [] c b n out → tracked [] c1 b1 n1 out' → tracked [] c b n (out ++ out').
Proof.
  intros Hst Ha Hr Ht Ht' p d q Hp.
  apply app_eq_inv in Hp as [(k & -> & Hk)|(k & -> & Hk)].
  - destruct k as [|o k]; simplify_eq/=.
    + destruct (Ht' [] d q eq_refl) as (b2 & n2 & fl2 & Ha2 & Hr2).
      exists b2, n2, (fl ++ fl2). rewrite app_nil_r in Ha, Hr. rewrite fmap_app, <- Ha, <- Ha2, app_nil_r.
      split; [done|]. cbn [app]. rewrite <- (app_nil_r (opens p)). by eapply reaches_trans.
    + by apply (Ht p d k).
  - destruct (Ht' k d q Hk) as (b2 & n2 & fl2 & Ha2 & Hr2).
    exists b2, n2, (fl ++ fl2). rewrite settled_app, opens_app, fmap_app, Ha, Ha2.
    split; [done|]. cbn [app]. eapply reaches_trans; [exact Hst|exact Hr|exact Hr2].
Qed.

Lemma prefix_chain_top base fls top : prefix_chain base fls top → base `prefix_of` top.
Proof.
  revert base. induction fls as [|fl fls IH]; intros base; simpl; [done|].
  intros [? ?]. etrans; [done|]. by apply IH.
Qed.

Section connection.
Context {S E : Type} `{!PData} `{!Consumer S Batch E} `{!ConsumerErrors Batch E}.
Context (maxBatch : Z) (maxBatch_pos : 0 < maxBatch ≤ max_int64).

(** A stream the kubelet answers a request with. *)
Definition answers (server : Z) (opts : PodLogOptions) (st : podStream S) : Prop :=
  open_events st.(st_events) ∧
  serves W server opts (ev_lines st.(st_events)) (bool_decide (st.(st_end) = None)).

(** The cursors reported on the way are positions of the log, ever further on. *)
Lemma progress_positions c u start b' base fls flushed :
  (start ≤ length W)%nat → Forall (λ x, Timestamp x = 0) u → (∀ x, x ∈ u → x ∈ W) →
  (∀ n', (start ≤ n' ≤ length W)%nat → stands W b' n' (Cur.record_all c (stamps (slice W start n')))) →
  flushed `prefix_of` u ++ drop start W → prefix_chain base fls flushed →
  let at_ fl := Cur.record_all c (stamps fl) in
  ascending (at_ base) (at_ <$> fls) ∧ Forall (position W) (at_ <$> fls).
Proof.
  intros Hn Hu HuW Hstands Hfl Hchain at_. revert base Hchain.
  induction fls as [|fl fls IH]; intros base Hchain; simpl; [done|].
  destruct Hchain as [Hb Hchain]. pose proof (prefix_chain_top _ _ _ Hchain) as Htop.
  destruct (IH fl Hchain) as [Hasc Hall].
  destruct (flushed_covers c start u fl Hn Hu HuW) as (Hc1 & Hp1 & _); [by etrans|].
  destruct (flushed_covers c start u base Hn Hu HuW) as (Hc0 & Hp0 & _);
    [etrans; [exact Hb|by etrans]|].
  pose proof (Hstands _ (cv_forward _ _ _ _ Hc1)) as H1. rewrite <- Hp1 in H1.
  pose proof (Hstands _ (cv_forward _ _ _ _ Hc0)) as H0. rewrite <- Hp0 in H0.
  split.
  - split; [|done]. eapply stands_le; [exact H0|exact H1|]. apply prefix_length in Hb. lia.
  - constructor; [|done]. by eexists _, _.
Qed.

Lemma consume_delivers st m b n c opts server :
  stands W b n c → asks since c opts → answers server opts st →
  ∃ lst err out b' n' fl,
    consume maxBatch st m c = (lst, err, out) ∧ conn_settled out = Body <$> fl ∧
    reaches W since [(opts, server)] c b n fl (if Cur.IsZero lst then c else lst) b' n' ∧
    tracked [(opts, server)] c b n (consume_outputs out) ∧
    ascending c (conn_progress out) ∧ Forall (position W) (conn_progress out) ∧
    ((Cur.IsZero lst = true ∧ conn_progress out = []) ∨
     (Cur.IsZero lst = false ∧ last (conn_progress out) = Some lst)) ∧
    (err = None → n' = length W).
Proof.
  intros Hst Hasks [Hev [Hlines Hend]].
  destruct (answer_plan opts server b n c Hst Hasks) as (u & start & b' & Hs & Hkept & Hu & HuW & Hplan).
  destruct (streamConnection_spec maxBatch m c st.(st_world) st.(st_events) st.(st_end))
    as (delivered & err & out & s' & flushed & Hconn & Hfl & Hacc & Hrep & Hdel & Herr); [done|done|].
  unfold consume, st_all. rewrite Hconn.
  assert (Hfl' : flushed `prefix_of` u ++ drop start W).
  { etrans; [done|]. rewrite <- Hkept. unfold kept. by apply keep_all_prefix. }
  assert (Hreach : ∀ fl, fl `prefix_of` flushed →
    let n1 := (start + (length fl - length u))%nat in
    reaches W since [(opts, server)] c b n fl (Cur.record_all c (stamps fl)) b' n1).
  { intros fl Hpre n1. destruct (flushed_covers c start u fl Hs Hu HuW) as (Hc1 & Hp1 & _); [by etrans|].
    destruct (Hplan n1 (cv_forward _ _ _ _ Hc1)) as [H1 H2]. split; [by rewrite Hp1|by apply H2]. }
  destruct (flushed_covers c start u flushed Hs Hu HuW Hfl') as (_ & _ & Hall).
  destruct Hdel as ((fls & Hprog & Hchain) & Hnz & Hd).
  destruct (progress_positions c u start b' [] fls flushed Hs Hu HuW) as [Hasc Hok];
    [intros; by apply Hplan|done|done|]. rewrite <- Hprog in Hasc, Hok. cbn [fmap list_fmap] in Hasc.
  exists delivered, err, out, b', (start + (length flushed - length u))%nat, flushed.
  split_and!; [done|done| | |done|done| |].
  - pose proof (Hreach flushed (reflexivity _)) as Hr. destruct Hd as [(-> & _ & Hz)|(Hlast & ->)].
    + by rewrite Hz in Hr.
    + replace (Cur.IsZero _) with false; [done|]. symmetry. rewrite Forall_forall in Hnz. apply Hnz.
      by apply last_Some_elem_of.
  - intros p d r Hp. apply consume_outputs_split in Hp as (p0 & r0 & -> & -> & ->).
    destruct (Hrep p0 d r0 eq_refl) as (fl & Hfl0 & Ha0 & ->).
    eexists b', _, fl. rewrite settled_consume, opens_consume. split; [done|]. by apply Hreach.
  - destruct Hd as [(-> & -> & Hz)|(Hlast & ->)]; [by left|right]. split; [|done].
    rewrite Forall_forall in Hnz. apply Hnz. by apply last_Some_elem_of.
  - intros ->. destruct Herr as [?|[Hr Hk]]; [done|]. apply Hall. rewrite Hk, <- Hkept. f_equal.
    apply Hend. apply bool_decide_eq_true. by destruct (st_end st).
Qed.

(** The connection meets the contract of the loop, for the positions of the
    log. *)
#[export] Instance consume_ok {F} (open : PodLogOptions → F + podStream S) server :
  (∀ opts st, open opts = inr st → answers server opts st) →
  ConsumeOk (position W) since open (consume maxBatch).
Proof.
  intros Hopen opts st m resume (b & n & Hst) Hasks Hans.
  destruct (consume_delivers st m b n resume opts server Hst Hasks (Hopen _ _ Hans))
    as (lst & err & out & b' & n' & fl & -> & _ & _ & _ & Hasc & Hok & Hlast & _).
  split_and!; done.
Qed.
End connection.
End log.

(** * The whole stream *)

Section stream.
Context {S E CE : Type} `{!PData} `{!Consumer S Batch CE} `{!ConsumerErrors Batch CE} `{!ApiErrors E}.
Context (W : list Line) (HW : log_ok W) (maxBatch : Z) (maxBatch_pos : 0 < maxBatch ≤ max_int64).
Context (since : option Z).
Implicit Types (s : containerStream) (a : attempt E (podStream S)) (cfg : stream_cfg).

(** The receiver reads [W] in this turn, whatever else the turn meets. *)
Definition reads_log a : Prop :=
  a.(at_consume) = consume maxBatch ∧
  ∀ opts st, a.(at_open) opts = inr st → answers W a.(at_server) opts st.

(** If the container is terminal by the end of this turn, the final read of its log
    succeeds. *)
Definition last_read_clean a : Prop :=
  a.(at_terminal) = true → ∀ s, ∃ st lst out, a.(at_open) (drain_options s) = inr st ∧
    a.(at_consume) st s.(meta) s.(resume) = (lst, None, out).

(** From a position of the log to a later one, handing over what lies between. *)
Definition moves s out s' (complete : Prop) : Prop :=
  ∀ b n, stands W b n s.(resume) →
  ∃ b' n' fl, settled out = Body <$> fl ∧
    reaches W since (opens out) s.(resume) b n fl s'.(resume) b' n' ∧
    tracked W since [] s.(resume) b n out ∧ (complete → n' = length W).

Lemma moves_nothing s out s' :
  settled out = [] → published out = [] → s'.(resume) = s.(resume) → moves s out s' False.
Proof.
  intros Ho Hp Hr b n Hs. exists b, n, []. rewrite Ho, Hr.
  split_and!; [done|by apply reaches_refl|by apply tracked_none|done].
Qed.

Lemma moves_trans s1 out1 s2 out2 s3 P Q :
  moves s1 out1 s2 P → moves s2 out2 s3 Q → moves s1 (out1 ++ out2) s3 Q.
Proof.
  intros H1 H2 b n Hs.
  destruct (H1 b n Hs) as (b1 & n1 & fl1 & Ha1 & Hr1 & Ht1 & _).
  destruct (H2 b1 n1 (proj1 Hr1)) as (b2 & n2 & fl2 & Ha2 & Hr2 & Ht2 & Hq).
  exists b2, n2, (fl1 ++ fl2). rewrite settled_app, opens_app, fmap_app, Ha1, Ha2.
  split_and!; [done|by eapply reaches_trans|by eapply tracked_app|done].
Qed.

Lemma moves_weaken s out s' (P Q : Prop) : (Q → P) → moves s out s' P → moves s out s' Q.
Proof.
  intros HQ Hm b n Hs. destruct (Hm b n Hs) as (b' & n' & fl & ? & ? & ? & ?).
  exists b', n', fl. split_and!; auto.
Qed.

(** Outputs that hand nothing over do not matter before... *)
Lemma moves_before s0 s out s' out0 P :
  settled out0 = [] → published out0 = [] → s.(resume) = s0.(resume) →
  moves s out s' P → moves s0 (out0 ++ out) s' P.
Proof. intros Ho Hp Hr Hm. eapply moves_trans; [|done]. by apply moves_nothing. Qed.

(** ... nor after, provided they report at most the position reached. *)
Lemma moves_stay s out s1 s2 out1 P :
  settled out1 = [] → s2.(resume) = s1.(resume) →
  (∀ b n, stands W b n s1.(resume) → tracked W since [] s1.(resume) b n out1) →
  moves s out s1 P → moves s (out ++ out1) s2 P.
Proof.
  intros Ho Hr Ht Hm b n Hs. destruct (Hm b n Hs) as (b1 & n1 & fl & Ha & Hr1 & Ht1 & HP).
  exists b1, n1, fl. rewrite settled_app, opens_app, Ho, Hr, app_nil_r.
  split_and!; [done| |eapply tracked_app; [done..|]; apply Ht, Hr1|done].
  rewrite <- (app_nil_r fl). eapply reaches_trans; [done..|]. apply reaches_refl, Hr1.
Qed.

Lemma moves_after s out s1 s2 out1 P :
  settled out1 = [] → published out1 = [] → s2.(resume) = s1.(resume) →
  moves s out s1 P → moves s (out ++ out1) s2 P.
Proof. intros Ho Hp Hr. apply moves_stay; [done|done|]. intros. by apply tracked_none. Qed.

(** The position reached may be published. *)
Lemma moves_publish s out s' P :
  moves s out s' P → moves s (out ++ [OutDelivered s'.(resume)]) s' P.
Proof.
  apply moves_stay; [done|done|]. intros b n Hst p c q Hp.
  destruct p as [|o p]; simplify_eq/=; [|by destruct p].
  exists b, n, []. split; [done|]. by apply reaches_refl.
Qed.

(** One read of the log, as [follow] and [drainTerminalLogs] both do it. *)
Lemma read_moves s a opts st lst err out :
  reads_log a → asks since s.(resume) opts → a.(at_open) opts = inr st →
  a.(at_consume) st s.(meta) s.(resume) = (lst, err, out) →
  moves s (OutOpen opts a.(at_server) :: consume_outputs out)
    (if Cur.IsZero lst then s else set_resume s lst) (err = None).
Proof.
  intros [Hcons Hopen] Hasks Ho Hc b n Hs. rewrite Hcons in Hc.
  destruct (consume_delivers W HW since maxBatch maxBatch_pos st s.(meta) b n _ opts _ Hs Hasks (Hopen _ _ Ho))
    as (lst' & err' & out' & b' & n' & fl & Hc' & Hacc & Hr & Htr & _ & _ & _ & Hall).
  rewrite Hc in Hc'. simplify_eq. exists b', n', fl.
  assert (Hset : settled (OutOpen opts (at_server a) :: consume_outputs out') = Body <$> fl).
  { rewrite <- Hacc. apply (settled_consume out'). }
  assert (Hop : opens (OutOpen opts (at_server a) :: consume_outputs out') = [(opts, at_server a)]).
  { change (opens (?o :: ?l)) with ((opts, at_server a) :: opens l). by rewrite opens_consume. }
  rewrite Hop. split_and!; [done|by destruct (Cur.IsZero lst')| |done].
  intros p d q Hp. destruct p as [|o p]; simplify_eq/=. by apply (Htr p d q).
Qed.

Lemma drain_moves s a s' out :
  reads_log a → a.(at_terminal) = true → drainTerminalLogs s a = (s', out) →
  moves s out s' (last_read_clean a).
Proof.
  intros Ha Ht Hd. unfold drainTerminalLogs in Hd.
  destruct (at_open a (drain_options s)) as [e|st] eqn:Ho.
  - simplify_eq. eapply moves_weaken, moves_nothing; [|done..].
    intros Hl. destruct (Hl Ht s') as (st & ? & ? & Ho' & _). by rewrite Ho in Ho'.
  - destruct (at_consume a st (meta s) (resume s)) as [[lst err] progress] eqn:Hc. simplify_eq.
    eapply moves_weaken, read_moves; [|done|apply drain_asks|done|done].
    intros Hl. destruct (Hl Ht s) as (st' & ? & ? & Ho' & Hc'). rewrite Ho in Ho'.
    injection Ho' as <-. rewrite Hc in Hc'. by injection Hc'.
Qed.

Lemma follow_moves s a opts st s' out keep :
  reads_log a → asks since s.(resume) opts → a.(at_open) opts = inr st →
  follow s a st = (s', out, keep) →
  moves s (OutOpen opts a.(at_server) :: out) s' (keep = false ∧ last_read_clean a).
Proof.
  intros Ha Hasks Ho Hf. unfold follow in Hf.
  set (s1 := set_retryingSince s 0) in *.
  destruct (at_consume a st (meta s1) (resume s1)) as [[lst err] progress] eqn:Hc.
  pose proof (read_moves s1 a opts st _ _ _ Ha Hasks Ho Hc) as Hread.
  set (r := if Cur.IsZero lst then _ else _) in Hf.
  assert (Hmv : moves s (OutOpen opts a.(at_server) :: r.2) r.1 (err = None)).
  { unfold r. destruct (Cur.IsZero lst); [done|]. cbn [fst snd]. rewrite app_comm_cons.
    by apply (moves_publish s _ (set_resume s1 lst)). }
  clear Hread. destruct r as [s2 out2]. cbn [fst snd] in Hmv.
  destruct (at_terminal a) eqn:Ht; simpl in Hf; simplify_eq.
  2: { eapply moves_weaken; [|done]. by intros [? _]. }
  destruct err as [e|]; simplify_eq.
  - destruct (drainTerminalLogs s2 a) as [s3 out3] eqn:Hd. simplify_eq. rewrite app_comm_cons.
    eapply moves_weaken; [|eapply moves_trans; [done|by eapply drain_moves]]. by intros [_ ?].
  - eapply moves_weaken; [|done]. done.
Qed.

Lemma run_iter_moves cfg s a s' out stop :
  reads_log a → cfg.(sinceSeconds) = since →
  run_iter cfg s a = (s', out, stop) →
  moves s out s' (stop = Some StopTerminal ∧ last_read_clean a).
Proof.
  intros Ha Hsince Hi. unfold run_iter in Hi.
  destruct (at_cancelled a).
  { simplify_eq. eapply moves_weaken, moves_nothing; [|done..]. by intros [? _]. }
  destruct (countReconnect cfg s) as [s1 out1] eqn:Hcount.
  assert (resume s1 = resume s ∧ settled out1 = [] ∧ published out1 = []) as (Hr1 & Hp1 & Hq1).
  { unfold countReconnect in Hcount. repeat (case_match; simplify_eq/=); done. }
  cbv zeta in Hi. set (s2 := set_restartCount s1 (at_restartCount a)) in *.
  pose proof (open_asks since cfg s2 (at_now a) Hsince) as Hasks.
  set (opts := open_options cfg s2 (at_now a)) in *.
  assert (Hr2 : resume s2 = resume s) by done.
  destruct (at_open a opts) as [e|st] eqn:Hopen.
  - assert (Hstill : ∀ s' out', settled out' = [] → published out' = [] → resume s' = resume s2 →
      stop ≠ Some StopTerminal →
      moves s ((out1 ++ [OutOpen opts (at_server a)]) ++ out') s' (stop = Some StopTerminal ∧ last_read_clean a)).
    { intros s0 out' Ho' Hpb Hr' Hne. eapply moves_weaken, moves_nothing; [tauto| | |congruence].
      - by rewrite !settled_app, Hp1.
      - by rewrite !published_app, Hq1. }
    destruct (lifetimeReached _ _ _).
    { injection Hi as <- <- <-. rewrite <- (app_nil_r (out1 ++ _)). by apply Hstill. }
    clearbody s2 opts. unfold retryAfterConnectError in Hi.
    repeat (case_match; simplify_eq/=); apply Hstill; done.
  - destruct (follow s2 a st) as [[s3 out3] keep] eqn:Hf.
    apply (follow_moves _ _ _ _ _ _ _ Ha Hasks Hopen) in Hf.
    apply (moves_before s s2 _ s3 out1 _ Hp1 Hq1 Hr2) in Hf.
    rewrite (cons_middle _ out1 out3), app_assoc in Hf.
    set (s4 := if Cur.After _ _ then _ else _) in Hi.
    assert (resume s4 = resume s3) as Hr4 by (unfold s4; repeat case_match; done).
    assert (Hf4 : moves s ((out1 ++ [OutOpen opts (at_server a)]) ++ out3) s4 (keep = false ∧ last_read_clean a)).
    { intros b n Hs. rewrite Hr4. by apply Hf. }
    clearbody s4. destruct keep; simpl in Hi.
    + eapply moves_weaken with (P := true = false ∧ last_read_clean a).
      { intros [-> _]. repeat (case_match; simplify_eq/=). }
      repeat (case_match; simplify_eq/=); [done|by eapply moves_after..].
    + simplify_eq. eapply moves_weaken; [|done]. tauto.
Qed.

Lemma run_loop_moves cfg s attempts s' out stop :
  Forall reads_log attempts → cfg.(sinceSeconds) = since →
  run_loop cfg s attempts = (s', out, stop) →
  moves s out s' (stop = Some StopTerminal ∧ Forall last_read_clean attempts).
Proof.
  intros Ha Hsince. revert s s' out stop.
  induction Ha as [|a attempts Ha Hrest IH]; intros s s' out stop Hr; simpl in Hr.
  { simplify_eq. eapply moves_weaken, moves_nothing; [|done..]. by intros [? _]. }
  destruct (run_iter cfg s a) as [[s1 out1] stop1] eqn:Hi.
  pose proof (run_iter_moves _ _ _ _ _ _ Ha Hsince Hi) as Hmv.
  destruct stop1.
  { simplify_eq. eapply moves_weaken; [|done]. rewrite Forall_cons. tauto. }
  destruct (run_loop cfg s1 attempts) as [[s2 out2] stop2] eqn:Hl. simplify_eq.
  eapply moves_weaken; [|by eapply moves_trans; [|by eapply IH]]. rewrite Forall_cons. tauto.
Qed.

Lemma run_moves cfg s attempts s' out stop :
  Forall reads_log attempts → cfg.(sinceSeconds) = since →
  run cfg s attempts = (s', out, stop) →
  moves s out s' (stop = Some StopTerminal ∧ Forall last_read_clean attempts).
Proof. apply (run_loop_moves cfg (set_backoff s _)). Qed.

(** Nothing is discarded when no error of the pipeline is permanent. *)
Hypothesis no_permanent : ∀ e : CE, IsPermanent e = false.

Lemma consume_drops_nothing st m c : conn_dropped (consume (S := S) maxBatch st m c).2 = [].
Proof.
  unfold consume. destruct (streamConnection _ _ _ _ _) as [[[[d e] out] w]|] eqn:Hs; [|done].
  by apply (streamConnection_drops_nothing no_permanent) in Hs.
Qed.

Lemma drain_drops_nothing s a s' out :
  reads_log a → drainTerminalLogs s a = (s', out) → dropped out = [].
Proof.
  intros [Hc _]. unfold drainTerminalLogs. destruct (at_open a _) as [e|st]; [by intros [= _ <-]|].
  rewrite Hc. pose proof (consume_drops_nothing st (meta s) (resume s)) as Hd.
  destruct (consume _ _ _ _) as [[lst err] p]. intros [= _ <-].
  change (dropped (_ :: ?l)) with (dropped l). by rewrite dropped_consume.
Qed.

Lemma run_iter_drops_nothing cfg s a s' out stop :
  reads_log a → run_iter cfg s a = (s', out, stop) → dropped out = [].
Proof.
  intros Ha Hi. unfold run_iter in Hi. destruct (at_cancelled a); [by simplify_eq|].
  destruct (countReconnect cfg s) as [s1 out1] eqn:Hcount.
  assert (dropped out1 = []) as H1.
  { unfold countReconnect in Hcount. repeat (case_match; simplify_eq/=); done. }
  cbv zeta in Hi. destruct (at_open a _) as [e|st].
  - unfold retryAfterConnectError in Hi.
    repeat (case_match; simplify_eq/=); rewrite ?dropped_app, ?H1; done.
  - unfold follow in Hi. destruct Ha as [Hc Ho]. rewrite Hc in Hi.
    pose proof (consume_drops_nothing st) as Hd. cbv zeta in Hi.
    set (m2 := meta (set_retryingSince _ 0)) in Hi. set (c2 := resume (set_retryingSince _ 0)) in Hi.
    specialize (Hd m2 c2). destruct (consume maxBatch st m2 c2) as [[lst err] p].
    set (r := if Cur.IsZero lst then _ else _) in Hi.
    assert (Hr : dropped r.2 = []).
    { unfold r. destruct (Cur.IsZero lst); cbn [snd]; rewrite ?dropped_app, dropped_consume;
        simpl in Hd; by rewrite Hd. }
    clearbody r. destruct r as [s2 out2]. cbn [snd] in Hr.
    assert (Hdr : dropped (drainTerminalLogs s2 a).2 = []).
    { destruct (drainTerminalLogs s2 a) as [s3 out3] eqn:Hdr. by eapply drain_drops_nothing. }
    destruct (drainTerminalLogs s2 a) as [s3 out3]. cbn [snd] in Hdr.
    repeat (case_match; simplify_eq/=); rewrite ?dropped_app, ?H1, ?Hr, ?Hdr; done.
Qed.

Lemma run_never_drops cfg s attempts s' out stop :
  Forall reads_log attempts → run cfg s attempts = (s', out, stop) → dropped out = [].
Proof.
  unfold run. generalize (set_backoff s cfg.(backoffCfg).(InitialInterval)). clear s.
  intros s Ha. revert s s' out stop.
  induction Ha as [|a attempts Ha Hrest IH]; intros s s' out stop Hr; simpl in Hr; [by simplify_eq|].
  destruct (run_iter cfg s a) as [[s1 out1] stop1] eqn:Hi.
  apply run_iter_drops_nothing in Hi; [|done]. destruct stop1; [by simplify_eq|].
  destruct (run_loop cfg s1 attempts) as [[s2 out2] stop2] eqn:Hl. simplify_eq.
  by rewrite dropped_app, Hi, (IH _ _ _ _ Hl).
Qed.

Lemma run_drops_nothing cfg s attempts s' out stop :
  Forall reads_log attempts → run cfg s attempts = (s', out, stop) → accepted out = settled out.
Proof. intros Ha Hr. symmetry. apply settled_accepted. by eapply run_never_drops. Qed.
End stream.

(** A log whose lines all carry timestamps moves without repetition. *)
Lemma covers_stamped W n acc n' :
  Forall (λ x, Timestamp x ≠ 0) W → covers W n acc n' → acc = slice W n n'.
Proof.
  intros HW [_ _ Honce Hfrom]. rewrite Forall_forall in HW.
  rewrite (filter_all _ acc), (filter_all _ (slice W n n')) in Honce; [done| |].
  - apply Forall_forall. intros x Hx. apply HW. rewrite <- (take_drop n W), elem_of_app. right.
    rewrite <- (take_drop (n' - n) (drop n W)), elem_of_app. by left.
  - apply Forall_forall. auto.
Qed.

(** What is handed over on the way to a standing, told from a position of the
    log: the lines from there on, or from the window's beginning. *)
Lemma slice_end W b n : (length W ≤ n)%nat → slice W b n = drop b W.
Proof. intros. unfold slice. apply take_ge. rewrite length_drop. lia. Qed.

Lemma reaches_covers W (HW : log_ok W) since reqs c n fl c' b n' :
  reaches W since reqs c 0 n fl c' b n' →
  ∃ b0, (b0 = n ∨ (TS c = 0 ∧ begins W since reqs b0)) ∧ covers W b0 fl n' ∧
    (c' = pos (take n' W) ∨ (c' = Cur.zero ∧ Forall (λ x, Timestamp x = 0) (slice W b0 n'))).
Proof.
  intros [Hst Hext].
  assert (Hres : ∀ b0, (b ≤ b0)%nat → (b0 ≤ n')%nat → c' = pos (take n' W) ∨
    (c' = Cur.zero ∧ Forall (λ x, Timestamp x = 0) (slice W b0 n'))).
  { intros b0 Hb Hb'. destruct (decide (TS c' = 0)) as [Hz|Hz].
    - right. split; [by eapply stands_zero|]. apply (stands_unstamped W HW _ _ _ Hst) in Hz.
      rewrite <- (slice_app W b b0 n'), Forall_app in Hz by lia. tauto.
    - left. by eapply stands_anchored. }
  destruct Hext as [[-> Hc]|(Hz & Hb & Hc)].
  - exists n. split_and!; [by left|done|]. apply Hres; destruct Hc; lia.
  - exists b. split_and!; [by right|done|]. apply Hres; destruct Hc; lia.
Qed.

Lemma reaches_stamped W (HW : log_ok W) since reqs c n fl c' b n' :
  Forall (λ x, Timestamp x ≠ 0) W → c = pos (take n W) → (n ≤ length W)%nat →
  reaches W since reqs c 0 n fl c' b n' →
  ∃ b0, (b0 = n ∨ (n = 0%nat ∧ begins W since reqs b0)) ∧ (b0 ≤ n' ≤ length W)%nat ∧
    fl = slice W b0 n' ∧ c' = (if decide (n' = b0) then c else pos (take n' W)).
Proof.
  intros HWs Hc Hn [Hst Hext]. destruct Hext as [[-> Hcov]|(Hz & Hb & Hcov)].
  - exists n. split_and!; [by left|apply Hcov..|by apply covers_stamped|].
    destruct Hst as [_ _ ->]. rewrite slice_take. case_decide; [by subst|done].
  - assert (n = 0%nat) as ->.
    { pose proof (stands_take W n Hn) as Hst0. rewrite <- Hc in Hst0.
      apply (stands_unstamped W HW _ _ _ Hst0) in Hz. rewrite slice_take in Hz.
      destruct n as [|n], W as [|x W']; try done; simpl in Hn; [lia|].
      apply Forall_cons in Hz as [Hz _]. by apply Forall_cons in HWs as [? _]. }
    exists b. split_and!; [by right|apply Hcov..|by apply covers_stamped|].
    pose proof (cv_forward _ _ _ _ Hcov). case_decide as Heq.
    + subst n' c. destruct Hst as [_ _ ->]. by rewrite slice_same.
    + apply (stands_anchored W HW b n' c' Hst). rewrite (stands_unstamped W HW _ _ _ Hst). intros Hu.
      assert (Hlen : length (slice W b n') ≠ 0%nat).
      { unfold slice. rewrite length_take, length_drop. lia. }
      destruct (slice W b n') as [|x l] eqn:Hsl; [done|].
      assert (Hx : x ∈ W) by (apply (slice_in W HW b n'); rewrite Hsl; set_solver).
      rewrite Forall_forall in HWs. apply (HWs x Hx). by apply Forall_cons in Hu as [? _].
Qed.

Section contract.
Context {S E CE : Type} `{!PData} `{!Consumer S Batch CE} `{!ConsumerErrors Batch CE} `{!ApiErrors E}.
Context (W : list Line) (HW : log_ok W) (maxBatch : Z) (maxBatch_pos : 0 < maxBatch ≤ max_int64).

Lemma attempts_contract since (attempts : list (attempt E (podStream S))) :
  Forall (reads_log W maxBatch) attempts →
  Forall (λ a, ConsumeOk (position W) since a.(at_open) a.(at_consume)) attempts.
Proof.
  intros Ha. eapply Forall_impl; [done|]. intros a [Hc Ho]. simpl. rewrite Hc.
  by apply (consume_ok W HW since maxBatch maxBatch_pos _ a.(at_server)).
Qed.
End contract.

(** * A kubelet

    It answers every request as [serves] says, with [k] lines at most when the
    connection is to break; the pipeline answers from a script. *)
Definition kubelet {F : Type} (W : list Line) (server : Z) (k : nat) (answers_ : script)
    (end_ : option ReadErr) (opts : PodLogOptions) : F + podStream script :=
  let lines := drop (first_since W (cutoff server opts)) W in
  inr (MkPodStream answers_
         ((λ x, EvLine x (Timestamp x)) <$> (if end_ is None then lines else take k lines)) end_).

Lemma ev_lines_lines (f : Line → Z) l : ev_lines ((λ x, EvLine x (f x)) <$> l) = l.
Proof. induction l as [|x l IH]; [done|]. cbn in *. f_equal. exact IH. Qed.

Lemma kubelet_answers {F} W server k ans e opts st :
  @kubelet F W server k ans e opts = inr st → answers W server opts st.
Proof.
  unfold kubelet. intros [= <-]. split; simpl.
  - apply Forall_fmap, Forall_true. by intros.
  - rewrite ev_lines_lines. unfold serves. destruct e; simpl.
    + split; [eexists; by rewrite take_drop|done].
    + by split.
Qed.

(** * Properties *)

Section properties.
Context {S E CE : Type} `{!PData} `{!Consumer S Batch CE} `{!ConsumerErrors Batch CE} `{!ApiErrors E}.
Implicit Types (W : list Line) (attempts : list (attempt E (podStream S))) (s : containerStream).

(** C3: Exactly once: for a log whose lines all carry timestamps, whatever
    [since_seconds], whatever the pipeline refuses and wherever connections break
    or are recycled, the records a stream is done with in its life, taken by the
    pipeline or dropped because it refused them for good, are consecutive lines
    of the log, each once and in order, and its cursor stands exactly after the
    last of them.  They begin where the cursor it started from stood; or, for a
    stream that started without one, where the window of one of its own requests
    without a cursor begins.  A pipeline with no permanent error takes them
    all. *)
Theorem delivers_exactly_once W maxBatch cfg s attempts s' out stop n :
  log_ok W → Forall (λ x, Timestamp x ≠ 0) W → 0 < maxBatch ≤ max_int64 →
  Forall (reads_log W maxBatch) attempts →
  (n ≤ length W)%nat → s.(resume) = pos (take n W) →
  run cfg s attempts = (s', out, stop) →
  ∃ b n', (b = n ∨ (n = 0%nat ∧ begins W cfg.(sinceSeconds) (opens out) b)) ∧ (b ≤ n' ≤ length W)%nat ∧
    settled out = Body <$> slice W b n' ∧
    s'.(resume) = (if decide (n' = b) then s.(resume) else pos (take n' W)) ∧
    ((∀ e : CE, IsPermanent e = false) → accepted out = settled out).
Proof.
  intros HW Hst Hmax Ha Hn Hs Hr.
  destruct (run_moves W HW maxBatch Hmax _ cfg s _ _ _ _ Ha eq_refl Hr 0%nat n)
    as (b & n' & fl & Hacc & Hreach & _); [rewrite Hs; by apply stands_take|].
  destruct (reaches_stamped W HW _ _ _ n _ _ _ _ Hst Hs Hn Hreach) as (b0 & ? & ? & -> & ?).
  exists b0, n'. split_and!; try (done || lia). intros Hperm. by eapply run_drops_nothing.
Qed.

(** C4: At least once: for any log, timestamps or not, and whatever [since_seconds],
    no line between the stream's beginning and its cursor is ever skipped, lines
    come out in order, and only lines that carry no timestamp can come out again.
    The beginning is where the cursor it started from stood, or where the window
    of one of its own requests without a cursor begins. *)
Theorem delivers_without_gaps W maxBatch cfg s attempts s' out stop n :
  log_ok W → 0 < maxBatch ≤ max_int64 →
  Forall (reads_log W maxBatch) attempts →
  (n ≤ length W)%nat → s.(resume) = pos (take n W) →
  run cfg s attempts = (s', out, stop) →
  ∃ b n' fl,
    (b = n ∨ (TS s.(resume) = 0 ∧ begins W cfg.(sinceSeconds) (opens out) b)) ∧ (b ≤ n' ≤ length W)%nat ∧
    settled out = Body <$> fl ∧ slice W b n' `sublist_of` fl ∧
    filter (λ x, Timestamp x ≠ 0) fl = filter (λ x, Timestamp x ≠ 0) (slice W b n') ∧
    (s'.(resume) = pos (take n' W) ∨
     (s'.(resume) = Cur.zero ∧ Forall (λ x, Timestamp x = 0) (slice W b n'))) ∧
    ((∀ e : CE, IsPermanent e = false) → accepted out = settled out).
Proof.
  intros HW Hmax Ha Hn Hs Hr.
  destruct (run_moves W HW maxBatch Hmax _ cfg s _ _ _ _ Ha eq_refl Hr 0%nat n)
    as (b & n' & fl & Hacc & Hreach & _); [rewrite Hs; by apply stands_take|].
  destruct (reaches_covers W HW _ _ _ n _ _ _ _ Hreach) as (b0 & Hb & [] & Hres).
  exists b0, n', fl. split_and!; try (done || lia). intros Hperm. by eapply run_drops_nothing.
Qed.

(** C5: When a stream stops because its container is terminal, nothing of the log
    is left behind: even if its connection broke or its last batch was refused,
    a final read that succeeds hands over the rest, to be taken or, where the
    pipeline refuses it for good, dropped.  The rest begins where the cursor the
    stream started from stood, or where the window of one of its own requests
    without a cursor begins. *)
Theorem terminal_log_complete W maxBatch cfg s attempts s' out n :
  log_ok W → 0 < maxBatch ≤ max_int64 →
  Forall (reads_log W maxBatch) attempts → Forall last_read_clean attempts →
  (n ≤ length W)%nat → s.(resume) = pos (take n W) →
  run cfg s attempts = (s', out, Some StopTerminal) →
  ∃ b fl,
    (b = n ∨ (TS s.(resume) = 0 ∧ begins W cfg.(sinceSeconds) (opens out) b)) ∧
    settled out = Body <$> fl ∧ drop b W `sublist_of` fl ∧
    (s'.(resume) = pos W ∨ (s'.(resume) = Cur.zero ∧ Forall (λ x, Timestamp x = 0) (drop b W))) ∧
    ((∀ e : CE, IsPermanent e = false) → accepted out = settled out).
Proof.
  intros HW Hmax Ha Hl Hn Hs Hr.
  destruct (run_moves W HW maxBatch Hmax _ cfg s _ _ _ _ Ha eq_refl Hr 0%nat n)
    as (b & n' & fl & Hacc & Hreach & _ & Hend); [rewrite Hs; by apply stands_take|].
  rewrite Hend in Hreach by done.
  destruct (reaches_covers W HW _ _ _ n _ _ _ _ Hreach) as (b0 & Hb & [Hf Hall _ _] & Hres).
  rewrite slice_end in Hall, Hres by lia. rewrite take_ge in Hres by lia.
  exists b0, fl. split_and!; try (done || lia). intros Hperm. by eapply run_drops_nothing.
Qed.

(** C14: Over any number of connects, breaks, refusals, recycles and drains, the
    positions a stream publishes never go backwards, and the position it resumes
    from is always the last one it published: nothing published is read again,
    and nothing unpublished is skipped. *)
Theorem stream_progress W maxBatch cfg s attempts s' out stop :
  log_ok W → 0 < maxBatch ≤ max_int64 → Forall (reads_log W maxBatch) attempts →
  position W s.(resume) → run cfg s attempts = (s', out, stop) →
  ascending s.(resume) (published out) ∧ Forall (position W) (published out) ∧
  s'.(resume) = default s.(resume) (last (published out)) ∧ cur_le s.(resume) s'.(resume).
Proof.
  intros HW Hmax Ha Hok Hr. unfold run in Hr.
  pose proof (run_loop_publishes (position W) _ cfg (set_backoff s _) _ _ _ _
    (attempts_contract W HW _ Hmax _ _ Ha) eq_refl Hok Hr) as Hp.
  pose proof (publishes_le _ _ _ _ Hp). by destruct Hp as (? & ? & ?).
Qed.
End properties.

Module DeliverySample.
#[local] Existing Instance sample_pdata.
#[local] Existing Instance sample_consumer.
#[local] Existing Instance sample_errors.
#[local] Existing Instance StreamSample.api_errors.

(** Five lines: one an hour older than the rest, and two in the same instant. *)
Definition log : list Line :=
  [MkLine (bs "old") (Date 2023 12 31 23 0 0 0); sample_line 1 "a"; sample_line 2 "b";
   sample_line 2 "c"; sample_line 3 "d"].

(** Some seconds into the new year. *)
Definition clock (n : Z) : Z := Date 2024 1 1 0 0 n 0.

(** The defaults: the last five minutes are wanted, which leaves out the first
    line. *)
Definition cfg : stream_cfg :=
  MkStreamCfg (Some 300) (MkReconnectBackoff (1 * Second) (30 * Second) 0) (1 * Hour) true.

(** A turn that reads [k] lines from the resume point before its connection
    breaks, or all of them when it does not. *)
Definition turn (k : nat) (ans : script) (e : option ReadErr) (terminal : bool) (now : Z)
    : attempt string (podStream script) := {|
  at_cancelled := false; at_restartCount := 0; at_now := now; at_server := now;
  at_open := kubelet log now k ans e; at_consume := consume 2;
  at_elapsed := 0; at_cancelled_after := false; at_terminal := terminal; at_err_now := now;
  at_ctx_done := None; at_tie := false; at_since := now;
  at_rand_cap := sample_rand; at_rand := sample_rand; at_other := 0;
|}.

(** Broken after two lines; then a refused batch; then the end of the container. *)
Definition turns : list (attempt string (podStream script)) :=
  [turn 2 [] (Some (ReadFailed "reset")) false (clock 10);
   turn 9 [Some Retryable] None false (clock 20);
   turn 9 [] None true (clock 30)].

Lemma turn_reads k ans e t now : reads_log log 2 (turn k ans e t now).
Proof. split; [reflexivity|]. intros opts st. apply kubelet_answers. Qed.

Lemma turns_read : Forall (reads_log log 2) turns.
Proof. repeat (apply Forall_cons; split; [apply turn_reads|]). apply Forall_nil. exact I. Qed.

Lemma log_is_ok : log_ok log.
Proof.
  split.
  - repeat constructor; vm_compute; discriminate.
  - repeat (apply SSorted_cons;
      [|repeat (apply Forall_cons; split; [right; right; vm_compute; discriminate|]);
        apply Forall_nil; exact I]).
    apply SSorted_nil.
  - vm_compute. discriminate.
Qed.

Lemma log_stamped : Forall (λ x, Timestamp x ≠ 0) log.
Proof. repeat constructor; vm_compute; discriminate. Qed.

Definition result := run cfg StreamSample.stream0 turns.

(** What comes out: the four lines of the window, each once. *)
Example delivery_run :
  accepted result.1.2 = [bs "a"; bs "b"; bs "c"; bs "d"] ∧ result.2 = Some StopTerminal ∧
  resume result.1.1 = pos (take 5 log).
Proof. split_and!; vm_compute; reflexivity. Qed.

Lemma delivers_exactly_once_witness :
  ∃ b n', (b = 0%nat ∨ (0%nat = 0%nat ∧ begins log (Some 300) (opens result.1.2) b)) ∧
    (b ≤ n' ≤ length log)%nat ∧
    settled result.1.2 = Body <$> slice log b n' ∧
    resume result.1.1 = (if decide (n' = b) then Cur.zero else pos (take n' log)) ∧
    ((∀ e : sample_err, IsPermanent e = false) → accepted result.1.2 = settled result.1.2).
Proof.
  apply (delivers_exactly_once log 2 cfg StreamSample.stream0 turns _ _ (Some StopTerminal) 0).
  - exact log_is_ok.
  - exact log_stamped.
  - vm_compute. split; [reflexivity|discriminate].
  - exact turns_read.
  - apply Nat.le_0_l.
  - reflexivity.
  - vm_compute. reflexivity.
Defined.

Lemma delivers_without_gaps_witness :
  ∃ b n' fl,
    (b = 0%nat ∨ (TS Cur.zero = 0 ∧ begins log (Some 300) (opens result.1.2) b)) ∧ (b ≤ n' ≤ length log)%nat ∧
    settled result.1.2 = Body <$> fl ∧ slice log b n' `sublist_of` fl ∧
    filter (λ x, Timestamp x ≠ 0) fl = filter (λ x, Timestamp x ≠ 0) (slice log b n') ∧
    (resume result.1.1 = pos (take n' log) ∨
     (resume result.1.1 = Cur.zero ∧ Forall (λ x, Timestamp x = 0) (slice log b n'))) ∧
    ((∀ e : sample_err, IsPermanent e = false) → accepted result.1.2 = settled result.1.2).
Proof.
  apply (delivers_without_gaps log 2 cfg StreamSample.stream0 turns _ _ (Some StopTerminal) 0).
  - exact log_is_ok.
  - vm_compute. split; [reflexivity|discriminate].
  - exact turns_read.
  - apply Nat.le_0_l.
  - reflexivity.
  - vm_compute. reflexivity.
Defined.

Lemma stream_progress_witness :
  ascending Cur.zero (published result.1.2) ∧ Forall (position log) (published result.1.2) ∧
  resume result.1.1 = default Cur.zero (last (published result.1.2)) ∧
  cur_le Cur.zero (resume result.1.1).
Proof.
  apply (stream_progress log 2 cfg StreamSample.stream0 turns _ _ (Some StopTerminal)).
  - exact log_is_ok.
  - vm_compute. split; [reflexivity|discriminate].
  - exact turns_read.
  - exists 0%nat, 0%nat. apply (stands_take log 0). apply Nat.le_0_l.
  - vm_compute. reflexivity.
Defined.

(** The container is gone when the pipeline refuses its last lines. *)
Definition last_turn : attempt string (podStream script) := {|
  at_cancelled := false; at_restartCount := 0; at_now := clock 10; at_server := clock 10;
  at_open opts := if opts.(Follow) then kubelet log (clock 10) 9 [Some Retryable] None opts
                  else kubelet log (clock 10) 9 [] None opts;
  at_consume := consume 2;
  at_elapsed := 0; at_cancelled_after := false; at_terminal := true; at_err_now := clock 10;
  at_ctx_done := None; at_tie := false; at_since := clock 10;
  at_rand_cap := sample_rand; at_rand := sample_rand; at_other := 0;
|}.

Lemma last_turn_reads : reads_log log 2 last_turn.
Proof.
  split; [reflexivity|]. intros opts st. unfold last_turn. cbn [at_open].
  destruct (Follow opts); apply kubelet_answers.
Qed.

(** A pipeline that takes everything ends a connection only as the kubelet does. *)
Lemma takes_all_ends evs m (c : Conn script) maxBatch :
  c.(c_world) = [] → open_events evs →
  ∃ c', conn_run (S := script) maxBatch m c (evs ++ [EvClosed None]) = (c', Some None).
Proof.
  assert (Hfl : ∀ c : Conn script, c_world c = [] → ∃ c', flush m c = (c', true) ∧ c_world c' = []).
  { intros c0 Hw. unfold flush. destruct (Count _ =? 0); [by exists c0|].
    unfold consumeBatch. rewrite Hw. simpl. by eexists. }
  revert c. induction evs as [|ev evs IH]; intros c Hw Hev; cbn [conn_run app].
  { cbn [conn_step]. destruct (Hfl c Hw) as (c' & -> & _). by exists c'. }
  apply Forall_cons in Hev as [Hne Hev]. destruct ev as [x t| |e]; [| |by destruct (Hne e)]; cbn [conn_step].
  - destruct (Filt.Keep (c_filter c) (Timestamp x)) as [f []]; cbn [negb]; [|by apply IH].
    set (c1 := appendLine _ x t). assert (Hw1 : c_world c1 = []).
    { unfold c1, appendLine. by destruct (Cur.Record_ _ _). }
    destruct (_ <=? _); [|by apply IH].
    destruct (Hfl c1 Hw1) as (c' & -> & Hw'). cbn [negb]. by apply IH.
  - destruct (Hfl c Hw) as (c' & -> & Hw'). cbn [negb]. by apply IH.
Qed.

Lemma last_turn_clean : last_read_clean last_turn.
Proof.
  intros _ s.
  destruct (takes_all_ends
    ((λ x, EvLine x (Timestamp x)) <$> drop (first_since log (cutoff (clock 10) (drain_options s))) log)
    s.(meta) (conn_init (S := script) s.(meta) s.(resume) []) 2 eq_refl) as [c' Hc'].
  { apply Forall_fmap, Forall_true. by intros. }
  eexists _, _, _. split; [reflexivity|]. cbn [at_consume last_turn].
  unfold consume, streamConnection, st_all. cbn [st_world st_events st_end].
  rewrite Hc'. reflexivity.
Qed.

Definition last_result := run cfg StreamSample.stream0 [last_turn].

Lemma terminal_log_complete_witness :
  ∃ b fl,
    (b = 0%nat ∨ (TS Cur.zero = 0 ∧ begins log (Some 300) (opens last_result.1.2) b)) ∧
    settled last_result.1.2 = Body <$> fl ∧ drop b log `sublist_of` fl ∧
    (resume last_result.1.1 = pos log ∨
     (resume last_result.1.1 = Cur.zero ∧ Forall (λ x, Timestamp x = 0) (drop b log))) ∧
    ((∀ e : sample_err, IsPermanent e = false) → accepted last_result.1.2 = settled last_result.1.2).
Proof.
  apply (terminal_log_complete log 2 cfg StreamSample.stream0 [last_turn] _ _ 0).
  - exact log_is_ok.
  - vm_compute. split; [reflexivity|discriminate].
  - apply Forall_cons. split; [exact last_turn_reads|apply Forall_nil; exact I].
  - apply Forall_cons. split; [exact last_turn_clean|apply Forall_nil; exact I].
  - apply Nat.le_0_l.
  - reflexivity.
  - vm_compute. reflexivity.
Defined.

(** Records refused before any cursor exists are not read again when
    [since_seconds] is zero: the next request starts at the new present... *)
Definition cfg_fresh : stream_cfg :=
  MkStreamCfg (Some 0) (MkReconnectBackoff (1 * Second) (30 * Second) 0) 0 true.

Definition fresh_turns : list (attempt string (podStream script)) :=
  [turn 9 [Some Retryable] None false (clock 0); turn 9 [] None true (clock 10)].

Example refused_first_batch_lost :
  accepted (run cfg_fresh StreamSample.stream0 fresh_turns).1.2 = [] ∧
  SinceTime ∘ fst <$> opens (run cfg_fresh StreamSample.stream0 fresh_turns).1.2 =
    [Some (clock 0); Some (clock 10)].
Proof. split; vm_compute; reflexivity. Qed.

(** ... and with a window of some seconds they age out of it. *)
Example refused_first_batch_ages :
  accepted (run cfg StreamSample.stream0
    [turn 9 [Some Retryable] None false (clock 10); turn 9 [] None true (clock 301)]).1.2 = [].
Proof. vm_compute. reflexivity. Qed.

(** The final read of a container that never delivered anything takes in its whole
    history, although [since_seconds] is zero. *)
Definition history_turn : attempt string (podStream script) := {|
  at_cancelled := false; at_restartCount := 0; at_now := clock 10; at_server := clock 10;
  at_open opts := if opts.(Follow) then kubelet log (clock 10) 0 [] (Some (ReadFailed "reset")) opts
                  else kubelet log (clock 10) 9 [] None opts;
  at_consume := consume 2;
  at_elapsed := 0; at_cancelled_after := false; at_terminal := true; at_err_now := clock 10;
  at_ctx_done := None; at_tie := false; at_since := clock 10;
  at_rand_cap := sample_rand; at_rand := sample_rand; at_other := 0;
|}.

Example drain_reads_history :
  accepted (run cfg_fresh StreamSample.stream0 [history_turn]).1.2 =
    [bs "old"; bs "a"; bs "b"; bs "c"; bs "d"] ∧
  Forall (λ x, Timestamp x < clock 10) log.
Proof. split; [vm_compute; reflexivity|repeat constructor]. Qed.
End DeliverySample.
