(* ===== verification/EndToEnd.v ===== *)
(** From bytes to records: the scanner of Scanner.v in front of the stream loop of
    Delivery.v.  The kubelet's text of a log, each line under its timestamp, is cut
    into reads anywhere, scanned, filtered, batched and handed over. *)
From stdpp Require Import sorting.
From S2P Require Import Prelude GoTime TimeText Retry Cursor LogLine Scanner Consumer Samples Connection Stream Delivery.
Open Scope Z_scope.

(** * The text of a log *)

(** What a container wrote, and when: the kubelet stamps each line, in the zone of
    its node (in minutes east of UTC). *)
Record entry := MkEntry {
  e_time : Z;
  e_zone : Z;
  e_body : bytes;
}.

Definition raw_line (e : entry) : bytes :=
  AppendFormat_RFC3339Nano e.(e_time) e.(e_zone) ++ byte_space :: e.(e_body).

Definition text (entries : list entry) : bytes :=
  concat ((λ l, l ++ [byte_newline]) <$> (raw_line <$> entries)).

(** The same line as the receiver has it. *)
Definition line_of (e : entry) : Line := MkLine e.(e_body) e.(e_time).

(** A line the scanner keeps in one piece: after the year 1, without line breaks,
    and shorter than the limit together with its timestamp. *)
Record entry_ok (mx : nat) (e : entry) : Prop := {
  eo_time : 0 < e.(e_time);
  eo_zone : marshalable e.(e_time) e.(e_zone) = true;
  eo_newline : byte_newline ∉ e.(e_body);
  eo_cr : last e.(e_body) ≠ Some byte_cr;
  eo_length : (length (raw_line e) < mx)%nat;
}.

Lemma format_lacks b t off :
  isDigit b = false → b ∉ bs "-:T.Z+" → b ∉ AppendFormat_RFC3339Nano t off.
Proof.
  intros Hd Hm Hin.
  assert (Hall : Forall (λ c, c ≠ b) (AppendFormat_RFC3339Nano t off)).
  { apply format_bytes; [intros c Hc ->; congruence|]. apply Forall_forall. intros c Hc ->. by apply Hm. }
  rewrite Forall_forall in Hall. by apply (Hall b).
Qed.

Ltac lacks := apply format_lacks; [reflexivity|apply (bool_decide_eq_true_1 _); vm_compute; reflexivity].

Lemma raw_line_newline e : byte_newline ∉ e.(e_body) → byte_newline ∉ raw_line e.
Proof.
  intros Hn. unfold raw_line. rewrite elem_of_app, elem_of_cons.
  intros [Hin|[Heq|Hin]]; [revert Hin; lacks|discriminate|done].
Qed.

Lemma raw_line_cr e : last e.(e_body) ≠ Some byte_cr → dropCR (raw_line e) = raw_line e.
Proof.
  intros Hl. apply dropCR_last. unfold raw_line. rewrite last_app_cons, last_cons.
  by destruct (last (e_body e)).
Qed.

(** The timestamp comes off again, and the body is what was written. *)
Lemma Scanner_Line_raw mx e : entry_ok mx e → Scanner_Line (raw_line e) = line_of e.
Proof.
  intros He. unfold Scanner_Line, ParseLeadingTimestamp, raw_line.
  rewrite IndexByte_here by lacks.
  rewrite take_app_length, parse_format by apply He.
  rewrite Nat.add_1_r. by rewrite (cons_middle _ _ (e_body e)), app_assoc, drop_app_length'
    by (rewrite length_app; simpl; lia).
Qed.

Lemma line_records_short mx bh line :
  (length line < mx)%nat → line_records mx bh line = [dropCR line].
Proof. intros Hl. unfold line_records. destruct bh; simpl; by rewrite decide_True. Qed.

(** However the text is cut into reads, the scanner yields the lines of the log. *)
Lemma read_entries mx bh r entries :
  (0 < mx)%nat → plain_reader bh r → Forall (entry_ok mx) entries → rd_bytes r = text entries →
  read_stream r mx bh = Some (line_of <$> entries, err_of r.(rd_err)).
Proof.
  intros Hmx Hr He Hb. unfold read_stream.
  rewrite (scan_lines_spec _ (NewScanner r mx bh)).
  - unfold sc_records, sc_stream, NewScanner. simpl. rewrite Hb. unfold text. rewrite records_lines.
    + do 2 f_equal. clear Hb. induction He as [|e es He Hes IH]; [done|].
      rewrite !fmap_cons. cbn [concat]. rewrite fmap_app, IH.
      rewrite line_records_short, raw_line_cr by apply He.
      cbn [fmap list_fmap app]. by rewrite (Scanner_Line_raw mx).
    + done.
    + apply Forall_fmap. eapply Forall_impl; [exact He|]. intros e He'. apply raw_line_newline, He'.
  - by apply NewScanner_inv.
  - unfold stream_fuel, sc_stream, NewScanner. simpl. lia.
Qed.

(** A text ends with a newline, so it may come with its end in one piece. *)
Lemma last_text entries : last (text entries) ≠ Some byte_cr.
Proof.
  unfold text. induction entries as [|e es _] using rev_ind; [done|].
  rewrite !fmap_app, concat_app. cbn [fmap list_fmap concat]. rewrite app_nil_r, app_assoc, last_snoc. done.
Qed.

(** * Reading it *)

(** The stream a request is answered with: a reader over the text from the line
    its options name, up to where the connection ends, and the loop fed with what
    the scanner makes of it, between any ticks.  Only the kubelet's own end of the
    stream is the end of the log. *)
Definition serves_text {S} (mx : nat) (bh : Behavior) (entries : list entry)
    (server : Z) (opts : PodLogOptions) (st : podStream S) : Prop :=
  let rest := drop (first_since (line_of <$> entries) (cutoff server opts)) entries in
  open_events st.(st_events) ∧
  ∃ r k, plain_reader bh r ∧ rd_bytes r = text (take k rest) ∧
    (r.(rd_err) = EOF → take k rest = rest) ∧
    read_stream r mx bh = Some (ev_lines st.(st_events), st.(st_end)).

Section bytes.
Context {S E CE : Type} `{!PData} `{!Consumer S Batch CE} `{!ConsumerErrors Batch CE} `{!ApiErrors E}.
Implicit Types (entries : list entry) (a : attempt E (podStream S)).

Definition reads_text (mx : nat) (bh : Behavior) entries (maxBatch : Z) a : Prop :=
  a.(at_consume) = consume maxBatch ∧
  ∀ opts st, a.(at_open) opts = inr st → serves_text mx bh entries a.(at_server) opts st.

Lemma serves_text_answers mx bh entries server opts (st : podStream S) :
  (0 < mx)%nat → Forall (entry_ok mx) entries →
  serves_text mx bh entries server opts st → answers (line_of <$> entries) server opts st.
Proof.
  intros Hmx He [Hev (r & k & Hr & Hb & Hend & Hread)]. split; [done|]. unfold serves.
  set (m := first_since _ _) in *.
  rewrite (read_entries mx bh r (take k (drop m entries))) in Hread.
  - injection Hread as Hlines Herr. rewrite <- Hlines, <- fmap_drop, fmap_take. split.
    + eexists. by rewrite take_drop.
    + intros Hnone%bool_decide_eq_true_1. rewrite <- fmap_take, Hend; [done|].
      unfold err_of in Herr. case_decide; [done|congruence].
  - done.
  - done.
  - by apply Forall_take, Forall_drop.
  - done.
Qed.

Lemma reads_text_log mx bh entries maxBatch a :
  (0 < mx)%nat → Forall (entry_ok mx) entries →
  reads_text mx bh entries maxBatch a → reads_log (line_of <$> entries) maxBatch a.
Proof.
  intros Hmx He [Hc Ho]. split; [done|]. intros opts st Hopen.
  eapply serves_text_answers; [done|done|by apply Ho].
Qed.

Definition entries_ok (mx : nat) entries : Prop :=
  Forall (entry_ok mx) entries ∧ StronglySorted (λ x y, e_time x ≤ e_time y) entries ∧
  Z.of_nat (length entries) ≤ max_int64.

Lemma entries_log_ok mx entries :
  entries_ok mx entries →
  log_ok (line_of <$> entries) ∧ Forall (λ x, Timestamp x ≠ 0) (line_of <$> entries).
Proof.
  intros (He & Hs & Hl). split; [split|].
  - apply Forall_fmap. eapply Forall_impl; [exact He|]. intros e He'. simpl. pose proof (eo_time _ _ He'). lia.
  - clear He Hl. induction Hs as [|e es Hs IH He]; [constructor|]. cbn [fmap list_fmap].
    constructor; [done|]. apply Forall_fmap. eapply Forall_impl; [exact He|].
    intros e' Hle. by right; right.
  - by rewrite length_fmap.
  - apply Forall_fmap. eapply Forall_impl; [exact He|]. intros e He'. simpl. pose proof (eo_time _ _ He'). lia.
Qed.

(** C1: From bytes to records, exactly once: for a log whose lines fit the size
    limit, whatever zone its timestamps are written in and whatever
    [since_seconds], however its text is cut into reads and wherever connections
    break between lines, whatever the pipeline refuses, the records a stream is
    done with during its life, taken by the pipeline or dropped because it refused
    them for good, are what the container wrote, timestamps taken off, consecutive
    lines each once and in order, and the stream's cursor stands right after the
    last of them.  They begin where the cursor it started from stood; or, for a
    stream that started without one, where the window of one of its own requests
    without a cursor begins.  A pipeline with no permanent error takes them
    all. *)
Theorem bytes_delivered mx bh entries maxBatch cfg s attempts s' out stop n :
  (0 < mx)%nat → entries_ok mx entries → 0 < maxBatch ≤ max_int64 →
  Forall (reads_text mx bh entries maxBatch) attempts →
  (n ≤ length entries)%nat → s.(resume) = pos (line_of <$> take n entries) →
  run cfg s attempts = (s', out, stop) →
  ∃ b n', (b = n ∨
      (n = 0%nat ∧ begins (line_of <$> entries) cfg.(sinceSeconds) (opens out) b)) ∧
    (b ≤ n' ≤ length entries)%nat ∧
    settled out = e_body <$> take (n' - b) (drop b entries) ∧
    s'.(resume) = (if decide (n' = b) then s.(resume) else pos (line_of <$> take n' entries)) ∧
    ((∀ e : CE, IsPermanent e = false) → accepted out = settled out).
Proof.
  intros Hmx Hok Hmax Ha Hn Hs Hr. destruct (entries_log_ok _ _ Hok) as [HW Hst].
  rewrite fmap_take in Hs.
  assert (Hlog : Forall (reads_log (line_of <$> entries) maxBatch) attempts).
  { eapply Forall_impl; [exact Ha|]. intros a. by apply reads_text_log, Hok. }
  assert (Hn' : (n ≤ length (line_of <$> entries))%nat) by by rewrite length_fmap.
  destruct (run_moves _ HW maxBatch Hmax _ cfg s _ _ _ _ Hlog eq_refl Hr 0%nat n)
    as (b & n' & fl & Hacc & Hreach & _); [rewrite Hs; by apply stands_take|].
  destruct (reaches_stamped _ HW _ _ _ n _ _ _ _ Hst Hs Hn' Hreach) as (b0 & Hb & Hf & -> & Hres).
  rewrite length_fmap in Hf. exists b0, n'. rewrite Hacc, Hres.
  split_and!; [done|lia|lia| |by rewrite fmap_take|].
  - unfold slice. by rewrite <- fmap_drop, <- fmap_take, <- list_fmap_compose.
  - intros Hperm. by rewrite <- Hacc; eapply run_drops_nothing.
Qed.
End bytes.

(** * A kubelet that writes bytes *)

(** A text in pieces of [n] bytes. *)
Fixpoint cut (fuel n : nat) (s : bytes) : list bytes :=
  match fuel with
  | O => []
  | S fuel => match s with [] => [] | _ => take n s :: cut fuel n (drop n s) end
  end.

Lemma cut_spec fuel n s :
  (0 < n)%nat → (length s ≤ fuel)%nat → concat (cut fuel n s) = s ∧ Forall (λ c, c ≠ []) (cut fuel n s).
Proof.
  intros Hn. revert s. induction fuel as [|fuel IH]; intros [|b s] Hf; try done; [simpl in Hf; lia|].
  cbn [cut concat]. destruct (IH (drop n (b :: s))) as [-> Hne].
  { rewrite length_drop. simpl in *. lia. }
  rewrite take_drop. split; [done|]. constructor; [|done]. by destruct n; [lia|].
Qed.

Module TextSample.
#[local] Existing Instance sample_pdata.
#[local] Existing Instance sample_consumer.
#[local] Existing Instance sample_errors.
#[local] Existing Instance StreamSample.api_errors.

(** A line an hour older than the rest, and two in the same instant, on a node an
    hour and a half east of UTC. *)
Definition entries : list entry :=
  MkEntry (Date 2023 12 31 23 0 0 0) 90 (bs "old") :: ((λ p : Z * string, MkEntry (Date 2024 1 1 0 0 0 p.1) 90 (bs p.2)) <$>
    [(500000000, "start"); (700000001, "GET / 200"); (700000001, "GET /x 404"); (900000000, "bye")]%string).

Definition limit : nat := 64%nat.

Definition reader (server : Z) (opts : PodLogOptions) (k : nat) (e : ReadErr) : Reader :=
  let t := text (take k (drop (first_since (line_of <$> entries) (cutoff server opts)) entries)) in
  MkReader (cut (length t) 7 t) e false.

(** [k] lines, or all of them when the stream ends by itself; a tick after each. *)
Definition open_text (server : Z) (k : nat) (ans : script) (e : ReadErr) (opts : PodLogOptions)
    : string + podStream script :=
  let k := if decide (e = EOF) then length entries else k in
  match read_stream (reader server opts k e) limit BehaviorSplit with
  | Some (lines, err) =>
      inr (MkPodStream ans (concat ((λ x, [EvLine x (Timestamp x); EvTick]) <$> lines)) err)
  | None => inl "stuck"%string
  end.

Definition turn (k : nat) (ans : script) (e : ReadErr) (terminal : bool) (now : Z)
    : attempt string (podStream script) := {|
  at_cancelled := false; at_restartCount := 0; at_now := now; at_server := now;
  at_open := open_text now k ans e; at_consume := consume 2;
  at_elapsed := 0; at_cancelled_after := false; at_terminal := terminal; at_err_now := now;
  at_ctx_done := None; at_tie := false; at_since := now;
  at_rand_cap := sample_rand; at_rand := sample_rand; at_other := 0;
|}.

Definition turns : list (attempt string (podStream script)) :=
  [turn 2 [] (ReadFailed "reset") false (DeliverySample.clock 10);
   turn 9 [Some Retryable] EOF false (DeliverySample.clock 20);
   turn 9 [] EOF true (DeliverySample.clock 30)].

Lemma entries_are_ok : entries_ok limit entries.
Proof.
  split_and!.
  - unfold entries. repeat (apply Forall_cons; split;
      [split; [vm_compute; reflexivity|vm_compute; reflexivity
        |apply (bool_decide_eq_true_1 _); vm_compute; reflexivity
        |vm_compute; discriminate|apply (bool_decide_eq_true_1 _); vm_compute; reflexivity]|]).
    apply Forall_nil. exact I.
  - unfold entries. repeat (apply SSorted_cons;
      [|repeat (apply Forall_cons; split; [vm_compute; discriminate|]); apply Forall_nil; exact I]).
    apply SSorted_nil.
  - vm_compute. discriminate.
Qed.

Lemma ev_lines_ticks (l : list Line) :
  let evs := concat ((λ x, [EvLine x (Timestamp x); EvTick]) <$> l) in
  ev_lines evs = l ∧ open_events evs.
Proof.
  induction l as [|x l [IH1 IH2]]; [by split; [|apply Forall_nil]|]. split.
  - rewrite fmap_cons. cbn [concat]. change (ev_lines ([EvLine x (Timestamp x); EvTick] ++ ?r)) with (x :: ev_lines r).
    by f_equal.
  - rewrite fmap_cons. cbn [concat]. apply Forall_app. split; [|exact IH2]. by repeat constructor.
Qed.

Lemma open_text_serves server k ans e opts st :
  open_text server k ans e opts = inr st → serves_text limit BehaviorSplit entries server opts st.
Proof.
  unfold open_text. set (k' := if decide (e = EOF) then _ else _).
  set (m := first_since (line_of <$> entries) (cutoff server opts)).
  assert (Hr : plain_reader BehaviorSplit (reader server opts k' e) ∧
    rd_bytes (reader server opts k' e) = text (take k' (drop m entries))).
  { unfold reader, plain_reader, rd_bytes. cbn [rd_joined rd_chunks]. fold m.
    destruct (cut_spec (length (text (take k' (drop m entries)))) 7 (text (take k' (drop m entries))))
      as [Hc Hn]; [lia|lia|]. rewrite Hc. split_and!; [|done|done]. intros _. split; [done|apply last_text]. }
  destruct Hr as [Hr Hb].
  assert (He : Forall (entry_ok limit) (take k' (drop m entries))).
  { apply Forall_take, Forall_drop, entries_are_ok. }
  pose proof (read_entries limit BehaviorSplit _ _ ltac:(unfold limit; lia) Hr He Hb) as Hread.
  rewrite Hread. intros [= <-].
  destruct (ev_lines_ticks (line_of <$> take k' (drop m entries))) as [Hl Ho]. split; [exact Ho|].
  exists (reader server opts k' e), k'. fold m. split_and!; [exact Hr|exact Hb| |].
  - intros Heof. cbn [rd_err reader] in Heof. unfold k'. rewrite decide_True by done.
    apply take_ge. rewrite length_drop. lia.
  - rewrite Hread. cbn [st_events st_end]. by rewrite Hl.
Qed.

Lemma turns_read_text : Forall (reads_text limit BehaviorSplit entries 2) turns.
Proof.
  repeat (apply Forall_cons; split; [split; [reflexivity|intros opts st; apply open_text_serves]|]).
  apply Forall_nil. exact I.
Qed.

Definition result := run DeliverySample.cfg StreamSample.stream0 turns.

Example text_run :
  accepted result.1.2 = e_body <$> drop 1 entries ∧ result.2 = Some StopTerminal ∧
  raw_line (nth 2 entries (MkEntry 0 0 [])) = bs "2024-01-01T01:30:00.700000001+01:30 GET / 200".
Proof. split_and!; vm_compute; reflexivity. Qed.

Lemma bytes_delivered_witness :
  ∃ b n', (b = 0%nat ∨ (0%nat = 0%nat ∧ begins (line_of <$> entries) (Some 300) (opens result.1.2) b)) ∧
    (b ≤ n' ≤ length entries)%nat ∧
    settled result.1.2 = e_body <$> take (n' - b) (drop b entries) ∧
    resume result.1.1 =
      (if decide (n' = b) then Cur.zero else pos (line_of <$> take n' entries)) ∧
    ((∀ e : sample_err, IsPermanent e = false) → accepted result.1.2 = settled result.1.2).
Proof.
  apply (bytes_delivered limit BehaviorSplit entries 2 DeliverySample.cfg StreamSample.stream0 turns
    result.1.1 result.1.2 result.2 0).
  - apply (bool_decide_eq_true_1 _). vm_compute. reflexivity.
  - exact entries_are_ok.
  - vm_compute. split; [reflexivity|discriminate].
  - exact turns_read_text.
  - apply Nat.le_0_l.
  - reflexivity.
  - vm_compute. reflexivity.
Defined.
End TextSample.
