(* ===== verification/Store.v ===== *)
(** Package [internal/cursor], the positions of all containers, their expiry and
    their persistence: [store.go] (type [Store]).

    Every method takes the store's lock, so each is one atomic step; the model
    passes the store explicitly.  The storage extension is a map of keys to
    values next to it, whose calls may fail. *)
From S2P Require Import Prelude GoTime Cursor.
Open Scope Z_scope.

Definition storageKey : string := "cursors".
Definition flushInterval : Z := 30 * Second.
Definition StaleAfter : Z := 2 * Hour.
Definition PruneInterval : Z := 1 * Minute.

(** How the set is written down: [encoding/json] over [map[string]Cursor], which
    may refuse a set.  [encodable] is the sets it writes without loss. *)
Class Codec := {
  Marshal : gmap string Cursor → option bytes;
  Unmarshal : bytes → option (gmap string Cursor);
}.

Class CodecOk `{Codec} (encodable : gmap string Cursor → Prop) :=
  codec_roundtrip : ∀ m, encodable m →
    ∃ raw, Marshal m = Some raw ∧ raw ≠ [] ∧ Unmarshal raw = Some m.

(** A storage client's data, and whether a call of it succeeds. *)
Abbreviation disk := (gmap string bytes).

Record Store := MkStore {
  has_client : bool;                 (* whether [client] is non-nil *)
  cursors : gmap string Cursor;
  lastSeenPods : gmap string Z;
}.

Section store.
Context `{!Codec} (podUIDOf : string → string).
Implicit Types (s : Store) (key : string) (c : Cursor).

Definition set_cursors s (m : gmap string Cursor) : Store :=
  MkStore s.(has_client) m s.(lastSeenPods).

Definition NewStore (client : bool) : Store := MkStore client ∅ ∅.

Definition Persists s : bool := s.(has_client).

(** A missing key reads as Go's zero value. *)
Definition Get s key : Cursor := default Cur.zero (s.(cursors) !! key).

Definition Advance s key c : Store :=
  if Cur.IsZero c then s
  else if Cur.After c (Get s key) then set_cursors s (<[key := c]> s.(cursors))
  else s.

Definition Forget s key : Store := set_cursors s (delete key s.(cursors)).

Definition MarkPodSeen s (podUID : string) (now : Z) : Store :=
  MkStore s.(has_client) s.(cursors) (<[podUID := now]> s.(lastSeenPods)).

(** The pods not seen since [cutoff], and the keys that are theirs. *)
Definition stale_pods s (cutoff : Z) : gmap string Z :=
  filter (λ p, Time.Before p.2 cutoff = true) s.(lastSeenPods).

Definition stale_cursors s (cutoff : Z) : gmap string Cursor :=
  filter (λ p, is_Some (stale_pods s cutoff !! podUIDOf p.1)) s.(cursors).

(** The keys come back in the order of Go's map iteration, which is none in
    particular. *)
Definition Prune s (cutoff : Z) : Store * list string :=
  let stale := stale_pods s cutoff in
  let s1 := MkStore s.(has_client) s.(cursors) (s.(lastSeenPods) ∖ stale) in
  if decide (size stale = 0%nat) then (s1, [])
  else
    let pruned := stale_cursors s cutoff in
    (set_cursors s1 (s.(cursors) ∖ pruned), (map_to_list pruned).*1).

(** [ok] is whether the client's [Get] succeeds. *)
Definition Load s (d : disk) (ok : bool) : Store :=
  if negb s.(has_client) then s
  else if negb ok then s
  else
    let raw := default [] (d !! storageKey) in
    if decide (raw = []) then s
    else
      match Unmarshal raw with
      | None => s
      | Some stored => set_cursors s (stored ∪ s.(cursors))
      end.

(** [ok] is whether the client's [Set] succeeds. *)
Definition Flush s (d : disk) (ok : bool) : disk :=
  if negb s.(has_client) then d
  else
    match Marshal s.(cursors) with
    | None => d
    | Some raw => if ok then <[storageKey := raw]> d else d
    end.

Definition Size s : nat := size s.(cursors).

(** One round of the flush loop's [select], over the ticks until [ctx] ends. *)
Inductive flush_event := FlushTick (s : Store) (ok : bool) | FlushDone.

Fixpoint RunFlushLoop (d : disk) (evs : list flush_event) : disk :=
  match evs with
  | [] => d
  | FlushDone :: _ => d
  | FlushTick s ok :: evs' => RunFlushLoop (Flush s d ok) evs'
  end.
End store.

(** [Close]; [err] is what the client's answers. *)
Definition Close {E} (s : Store) (err : option E) : option E :=
  if negb s.(has_client) then None else err.

(** * [OpenStorage] *)

(** What the host has under an extension's ID. *)
Inductive Extension (C E : Type) :=
| StorageExtension (GetClient : result E C)
| OtherExtension.
Arguments StorageExtension {C E} _.
Arguments OtherExtension {C E}.

Inductive StorageError (E : Type) := NotConfigured (id : string) | NotStorage (id : string) | ClientError (e : E).
Arguments NotConfigured {E} _.
Arguments NotStorage {E} _.
Arguments ClientError {E} _.

Definition OpenStorage {C E} (GetExtensions : gmap string (Extension C E)) (storageID : option string)
    : result (StorageError E) (option C) :=
  match storageID with
  | None => Ok None
  | Some id =>
      match GetExtensions !! id with
      | None => Err (NotConfigured id)
      | Some OtherExtension => Err (NotStorage id)
      | Some (StorageExtension (Ok client)) => Ok (Some client)
      | Some (StorageExtension (Err e)) => Err (ClientError e)
      end
  end.

(** * The cursors of a store *)

Section results.
Context `{!Codec} (podUIDOf : string → string).
Implicit Types (s : Store) (key : string) (c : Cursor).

(** The further along of two positions. *)
Definition cur_max (c d : Cursor) : Cursor := if Cur.After d c then d else c.

Lemma Get_Advance s key c k :
  Get (Advance s key c) k =
    if decide (key = k) then (if Cur.IsZero c then Get s key else cur_max (Get s key) c)
    else Get s k.
Proof.
  unfold Advance, cur_max. destruct (Cur.IsZero c); [by case_decide; subst|].
  destruct (Cur.After c (Get s key)) eqn:Ha; [|by case_decide; subst].
  unfold Get at 1; simpl. case_decide as Hk; [by subst; rewrite lookup_insert_eq|].
  by rewrite lookup_insert_ne.
Qed.

Lemma cur_max_le_l c d : cur_le c (cur_max c d).
Proof. unfold cur_max. destruct (Cur.After d c) eqn:Ha; [by right|done]. Qed.

Lemma cur_max_le_r c d : cur_le d (cur_max c d).
Proof.
  unfold cur_max. destruct (Cur.After d c) eqn:Ha; [done|].
  destruct (cur_trichotomy c d) as [Hlt|[->|Hlt]]; [by unfold cur_lt in Hlt; congruence|done|by right].
Qed.

(** A write never takes a position back. *)
Lemma Advance_le s key c k : cur_le (Get s k) (Get (Advance s key c) k).
Proof.
  rewrite Get_Advance. case_decide; [subst|done]. destruct (Cur.IsZero c); [done|].
  apply cur_max_le_l.
Qed.

Lemma After_cases c d :
  (Cur.After c d = true ∧ Cur.After d c = false) ∨
  (Cur.After c d = false ∧ Cur.After d c = true) ∨
  (Cur.After c d = false ∧ Cur.After d c = false ∧ c = d).
Proof.
  assert (Hex : ∀ c d, cur_lt c d → Cur.After c d = false).
  { intros x y Hxy. apply not_true_iff_false. intros Hyx.
    apply (irreflexivity cur_lt x). by transitivity y. }
  destruct (cur_trichotomy c d) as [Hlt|[->|Hlt]].
  - right; left. by rewrite (Hex _ _ Hlt).
  - right; right. split_and!; [..|done]; apply not_true_iff_false, (irreflexivity cur_lt d).
  - left. by rewrite (Hex _ _ Hlt).
Qed.

(** A write, as what it does to one entry. *)
Definition adv (o : option Cursor) (c : Cursor) : option Cursor :=
  if Cur.IsZero c then o else if Cur.After c (default Cur.zero o) then Some c else o.

Lemma lookup_Advance s key c k :
  (Advance s key c).(cursors) !! k =
    if decide (key = k) then adv (s.(cursors) !! key) c else s.(cursors) !! k.
Proof.
  unfold Advance, adv, Get. destruct (Cur.IsZero c); [by case_decide; subst|].
  destruct (Cur.After c _); [|by case_decide; subst]. simpl.
  case_decide; [subst; by rewrite lookup_insert_eq|by rewrite lookup_insert_ne].
Qed.

Lemma adv_comm o c1 c2 : adv (adv o c1) c2 = adv (adv o c2) c1.
Proof.
  unfold adv. destruct (Cur.IsZero c1) eqn:Hz1, (Cur.IsZero c2) eqn:Hz2; try done.
  set (d := default Cur.zero o).
  destruct (Cur.After c1 d) eqn:H1, (Cur.After c2 d) eqn:H2; simpl; fold d; rewrite ?H1, ?H2; try done.
  - by destruct (After_cases c1 c2) as [(-> & ->)|[(-> & ->)|(-> & -> & ->)]].
  - destruct (Cur.After c2 c1) eqn:H21; [|done].
    assert (cur_lt d c2) as Hlt by (by transitivity c1). unfold cur_lt in Hlt. congruence.
  - destruct (Cur.After c1 c2) eqn:H12; [|done].
    assert (cur_lt d c1) as Hlt by (by transitivity c2). unfold cur_lt in Hlt. congruence.
Qed.

Lemma Advance_fields s key c :
  (Advance s key c).(has_client) = s.(has_client) ∧
  (Advance s key c).(lastSeenPods) = s.(lastSeenPods).
Proof. unfold Advance. by repeat case_match. Qed.

Lemma store_eq s1 s2 :
  s1.(has_client) = s2.(has_client) → s1.(lastSeenPods) = s2.(lastSeenPods) →
  s1.(cursors) = s2.(cursors) → s1 = s2.
Proof. destruct s1, s2; simpl. congruence. Qed.

(** Two writes commute: whichever comes first, the further position stays. *)
Lemma Advance_comm s k1 c1 k2 c2 :
  Advance (Advance s k1 c1) k2 c2 = Advance (Advance s k2 c2) k1 c1.
Proof.
  apply store_eq; [by rewrite !(proj1 (Advance_fields _ _ _))|by rewrite !(proj2 (Advance_fields _ _ _))|].
  apply map_eq. intros k. rewrite !lookup_Advance.
  repeat (case_decide; subst; try done). apply adv_comm.
Qed.

(** A run of writes. *)
Definition advance_all s (ws : list (string * Cursor)) : Store :=
  foldl (λ s w, Advance s w.1 w.2) s ws.

Lemma advance_all_perm s ws ws' : ws ≡ₚ ws' → advance_all s ws = advance_all s ws'.
Proof.
  unfold advance_all. intros Hp. revert s. induction Hp as [|w ws ws' Hp IH|v w ws|]; intros s; simpl.
  - done.
  - apply IH.
  - by rewrite Advance_comm.
  - etrans; [apply IHHp1|apply IHHp2].
Qed.

(** ** Expiry *)

Lemma stale_pods_lookup s cutoff uid :
  is_Some (stale_pods s cutoff !! uid) ↔ ∃ t, s.(lastSeenPods) !! uid = Some t ∧ t < cutoff.
Proof.
  unfold stale_pods, Time.Before, is_Some. setoid_rewrite map_lookup_filter_Some. simpl.
  split; intros (t & ? & ?); exists t; (split; [done|lia]).
Qed.

Lemma lookup_Prune s cutoff key :
  (Prune podUIDOf s cutoff).1.(cursors) !! key =
    if decide (is_Some (stale_pods s cutoff !! podUIDOf key)) then None else s.(cursors) !! key.
Proof.
  unfold Prune. destruct (decide (size (stale_pods s cutoff) = 0%nat)) as [H0|H0]; simpl.
  - apply map_size_empty_inv in H0. rewrite H0, lookup_empty.
    by rewrite decide_False by by intros [].
  - case_decide as Hs.
    + rewrite lookup_difference. unfold stale_cursors.
      destruct (cursors s !! key) as [c|] eqn:Hc.
      * by rewrite (map_lookup_filter_Some_2 _ _ key c).
      * by case_match.
    + rewrite lookup_difference. unfold stale_cursors.
      rewrite (proj2 (map_lookup_filter_None _ _ _)); [done|]. by right.
Qed.

(** The keys reported are the ones whose cursors went, each once. *)
Lemma Prune_reported s cutoff :
  NoDup (Prune podUIDOf s cutoff).2 ∧
  ∀ key, key ∈ (Prune podUIDOf s cutoff).2 ↔
    is_Some (s.(cursors) !! key) ∧ (Prune podUIDOf s cutoff).1.(cursors) !! key = None.
Proof.
  split.
  - unfold Prune. case_decide; simpl; [constructor|apply NoDup_fst_map_to_list].
  - intros key. rewrite lookup_Prune. unfold Prune.
    destruct (decide (size (stale_pods s cutoff) = 0%nat)) as [H0|H0]; simpl.
    + apply map_size_empty_inv in H0. rewrite H0, lookup_empty.
      rewrite decide_False by by intros []. split; [by intros ?%not_elem_of_nil|].
      intros [[c Hc] ?]. congruence.
    + rewrite list_elem_of_fmap. unfold stale_cursors. split.
      * intros ([k c] & -> & Hin). apply elem_of_map_to_list in Hin.
        apply map_lookup_filter_Some in Hin as [Hc Hs]. simpl in *. by rewrite decide_True.
      * intros [[c Hc] Hn]. case_decide as Hs; [|congruence].
        exists (key, c). split; [done|]. apply elem_of_map_to_list, map_lookup_filter_Some. done.
Qed.

Lemma Prune_lastSeen s cutoff uid :
  (Prune podUIDOf s cutoff).1.(lastSeenPods) !! uid =
    if decide (is_Some (stale_pods s cutoff !! uid)) then None else s.(lastSeenPods) !! uid.
Proof.
  assert (Hl : (s.(lastSeenPods) ∖ stale_pods s cutoff) !! uid =
    if decide (is_Some (stale_pods s cutoff !! uid)) then None else s.(lastSeenPods) !! uid).
  { rewrite lookup_difference. destruct (stale_pods s cutoff !! uid) eqn:Hs.
    - by rewrite decide_True by done.
    - by rewrite decide_False by by intros []. }
  unfold Prune. by destruct (decide (size (stale_pods s cutoff) = 0%nat)).
Qed.

(** ** Persistence *)

Lemma Flush_Load s d encodable `{!CodecOk encodable} :
  s.(has_client) = true → encodable s.(cursors) →
  (Load (NewStore true) (Flush s d true) true).(cursors) = s.(cursors).
Proof.
  intros Hc He. destruct (codec_roundtrip _ He) as (raw & Hm & Hne & Hu).
  unfold Load, Flush. rewrite Hc, Hm. simpl. rewrite lookup_insert_eq. simpl.
  rewrite decide_False by done. rewrite Hu. simpl. apply map_union_empty.
Qed.
End results.

(** * Properties *)

(** C20: The order in which concurrent streams' writes reach the store does not
    matter: any reordering of the same writes leaves the same store, and no
    write takes any container's position back. *)
Theorem writes_commute s ws ws' key :
  ws ≡ₚ ws' →
  advance_all s ws = advance_all s ws' ∧ cur_le (Get s key) (Get (advance_all s ws) key).
Proof.
  intros Hp. split; [by apply advance_all_perm|]. clear Hp.
  unfold advance_all. revert s. induction ws as [|w ws IH]; intros s; [done|].
  simpl. etrans; [apply (Advance_le s w.1 w.2)|apply IH].
Qed.

(** The cursor of a container whose pod the receiver has never seen, such as one
    restored from storage after its pod was deleted, is never expired, at any
    cutoff. *)
Theorem unseen_never_expires podUIDOf s cutoff key :
  s.(lastSeenPods) !! podUIDOf key = None →
  (Prune podUIDOf s cutoff).1.(cursors) !! key = s.(cursors) !! key.
Proof.
  intros Hn. rewrite lookup_Prune, decide_False; [done|].
  rewrite stale_pods_lookup. intros (t & Ht & _). congruence.
Qed.

Module StoreSample.
Definition uid_of (key : string) : string := key.

Definition store : Store :=
  MkStore true {["a" := MkCursor 5 1; "b" := MkCursor 7 2]} {["a" := 100]}.

Definition writes : list (string * Cursor) := [("a", MkCursor 6 1); ("b", MkCursor 6 1); ("a", MkCursor 6 2)]%string.

Lemma writes_commute_witness :
  advance_all store writes = advance_all store (reverse writes) ∧
  cur_le (Get store "a") (Get (advance_all store writes) "a").
Proof.
  assert (Hp : writes ≡ₚ reverse writes) by (symmetry; apply reverse_Permutation).
  exact (writes_commute store writes (reverse writes) "a" Hp).
Defined.

Lemma unseen_never_expires_witness :
  (Prune uid_of store 1000000).1.(cursors) !! "b" = Some (MkCursor 7 2).
Proof.
  rewrite (unseen_never_expires uid_of store 1000000 "b"); reflexivity.
Defined.
End StoreSample.
