(* ===== verification/CursorJson.v ===== *)
(** Cursors as text: [Cursor.UnmarshalJSON] of [cursor.go], and what
    [json.Marshal] and [json.Unmarshal] do with the set of them in [Store.Flush] and
    [Store.Load] of [store.go].  The codec built here discharges the interface the
    store is proved against ([Codec] and [CodecOk] of Store.v). *)
From S2P Require Import Prelude GoTime TimeText Json Cursor Store.
From stdpp Require Import sorting.
Open Scope Z_scope.

(** * Reading a cursor *)

Definition fold_ascii (b : byte) : byte := if in_byte 97 122 b then byte_of (byte_val b - 32) else b.

(** [foldName], as far as ASCII names can tell: the two characters outside ASCII
    that fold to a letter are the long s and the kelvin sign. *)
Fixpoint foldName (s : bytes) : bytes :=
  match s with
  | [] => []
  | xc5 :: xbf :: s' => x53 :: foldName s'
  | xe2 :: x84 :: xaa :: s' => x4b :: foldName s'
  | b :: s' => fold_ascii b :: foldName s'
  end.

(** The fields of [Cursor] by their names in JSON: exactly, or else without
    regard to case. *)
Inductive wireField := FieldTS | FieldDelivered.

Definition field_of (key : bytes) : option wireField :=
  if decide (key = bs "ts") then Some FieldTS
  else if decide (key = bs "delivered") then Some FieldDelivered
  else if decide (foldName key = bs "TS") then Some FieldTS
  else if decide (foldName key = bs "DELIVERED") then Some FieldDelivered
  else None.

(** A value decoded into an [int] that holds [n]. *)
Definition decode_int (n : Z) (raw : bytes) : option Z :=
  if decide (raw = bs "null") then Some n
  else
    match raw with
    | b :: _ => if isDigit b || bool_decide (b = x2d) then ParseInt raw else None
    | [] => None
    end.

Definition set_wire_field (c : Cursor) (m : bytes * bytes) : option Cursor :=
  key ← unquote m.1;
  match field_of key with
  | Some FieldTS => t ← Time_UnmarshalJSON c.(TS) m.2; Some (MkCursor t c.(Delivered))
  | Some FieldDelivered => n ← decode_int c.(Delivered) m.2; Some (MkCursor c.(TS) n)
  | None => Some c
  end.

Definition set_wire (c : Cursor) (ms : list (bytes * bytes)) : option Cursor :=
  foldl (λ c m, c ← c; set_wire_field c m) (Some c) ms.

(** What it leaves in the cursor does not depend on what was there. *)
Definition Cursor_UnmarshalJSON (raw : bytes) : option Cursor :=
  if decide (head raw = Some byte_quote) then
    t ← Time_UnmarshalJSON 0 raw; Some (MkCursor t 0)
  else
    ms ← object_of raw;
    match ms with
    | None => Some Cur.zero
    | Some ms => set_wire Cur.zero ms
    end.

(** * The set *)

Section codec.
(** The zone a timestamp was read in, in minutes east of UTC: it shows in the text
    only, and the instants of the model leave it out. *)
Context (zone : string → Cursor → Z).

(** [json.Marshal] of one cursor. *)
Definition marshal_cursor (key : string) (c : Cursor) : option bytes :=
  t ← Time_MarshalJSON c.(TS) (zone key c);
  Some (print_object [(bs "ts", t); (bs "delivered", AppendInt c.(Delivered))]).

Definition key_le (p q : string * Cursor) : Prop := String.leb p.1 q.1 = true.

#[export] Instance key_le_dec : RelDecision key_le.
Proof. unfold key_le. intros p q. apply _. Defined.

(** The entries of a map, in the order of their keys. *)
Definition sorted_entries (m : gmap string Cursor) : list (string * Cursor) :=
  merge_sort key_le (map_to_list m).

Definition marshal_entry (kc : string * Cursor) : option (bytes * bytes) :=
  v ← marshal_cursor kc.1 kc.2; Some (escape (bs kc.1), v).

Definition marshal_cursors (m : gmap string Cursor) : option bytes :=
  ms ← mapM marshal_entry (sorted_entries m); Some (print_object ms).

Definition add_entry (m : gmap string Cursor) (kv : bytes * bytes) : option (gmap string Cursor) :=
  k ← unquote kv.1; c ← Cursor_UnmarshalJSON kv.2; Some (<[String.string_of_list_byte k := c]> m).

Definition unmarshal_cursors (raw : bytes) : option (gmap string Cursor) :=
  ms ← object_of raw;
  match ms with
  | None => Some ∅
  | Some ms => foldl (λ m kv, m ← m; add_entry m kv) (Some ∅) ms
  end.

#[local] Instance json_codec : Codec := {| Marshal := marshal_cursors; Unmarshal := unmarshal_cursors |}.

(** The cursors that are written without loss: 64-bit counts, times with a
    four-digit year, and keys of ASCII characters, which Kubernetes names are. *)
Definition writable (key : string) (c : Cursor) : Prop :=
  is_ascii (bs key) ∧ marshalable c.(TS) (zone key c) = true ∧ in_int64 c.(Delivered).

Definition encodable (m : gmap string Cursor) : Prop := map_Forall writable m.

(** * Results *)

Lemma plain_digit b : isDigit b = true → plain b.
Proof.
  intros Hb. split_and!; [intros ->; discriminate..|]. unfold isDigit in Hb. lia.
Qed.

Ltac plain_bytes := repeat constructor; done.

Lemma plain_format t off : Forall plain (AppendFormat_RFC3339Nano t off).
Proof. apply format_bytes; [apply plain_digit|plain_bytes]. Qed.

Lemma decode_AppendInt n x : in_int64 x → decode_int n (AppendInt x) = Some x.
Proof.
  intros Hx. pose proof (ParseInt_AppendInt x Hx) as Hp. unfold decode_int.
  destruct (AppendInt_cases x Hx) as (sign & ds & Ha & Hs & Hd & _ & Hne & _).
  rewrite Ha in *. destruct ds as [|b ds]; [done|]. inversion Hd as [|? ? Hb]. subst.
  destruct (x <? 0); cbn [app] in *.
  - rewrite decide_False by done. by rewrite bool_decide_true, orb_true_r.
  - rewrite decide_False by (intros [= ->]; done). by rewrite Hb.
Qed.

(** A cursor's text, and that it is read back. *)
Lemma marshal_cursor_spec key c raw d :
  0 < d → writable key c → marshal_cursor key c = Some raw →
  value_text d raw ∧ Cursor_UnmarshalJSON raw = Some c.
Proof.
  intros Hd (_ & Hm & Hc). unfold marshal_cursor. intros (t & Ht & [= <-])%bind_Some.
  assert (Hmem : ∀ d', Forall (member_text d') [(bs "ts", t); (bs "delivered", AppendInt c.(Delivered))]).
  { intros d'. constructor; [|constructor; [|done]]; (split; cbn [fst snd]).
    - apply plain_string_text. plain_bytes.
    - unfold Time_MarshalJSON in Ht. rewrite Hm in Ht. injection Ht as <-.
      apply string_value, plain_string_text, plain_format.
    - apply plain_string_text. plain_bytes.
    - by apply int_value. }
  split; [by apply object_value|]. unfold Cursor_UnmarshalJSON. rewrite decide_False by done.
  rewrite object_of_print by done. cbn [mbind option_bind]. unfold set_wire. cbn [foldl].
  unfold set_wire_field. cbn [fst snd mbind option_bind].
  change (unquote (bs "ts")) with (Some (bs "ts")). change (unquote (bs "delivered")) with (Some (bs "delivered")).
  cbn [mbind option_bind]. change (field_of (bs "ts")) with (Some FieldTS).
  change (field_of (bs "delivered")) with (Some FieldDelivered). cbn iota.
  rewrite (Time_json_roundtrip _ _ _ _ Ht). cbn [mbind option_bind Delivered TS].
  rewrite decode_AppendInt by done. by destruct c.
Qed.

Lemma marshal_cursor_some key c : writable key c → is_Some (marshal_cursor key c).
Proof. intros (_ & Hm & _). unfold marshal_cursor, Time_MarshalJSON. rewrite Hm. by eexists. Qed.

(** ** The set *)

Lemma sorted_entries_Permutation m : sorted_entries m ≡ₚ map_to_list m.
Proof. apply merge_sort_Permutation. Qed.

(** An entry, and that it is read back. *)
Lemma marshal_entry_spec kc :
  writable kc.1 kc.2 → ∃ kv, marshal_entry kc = Some kv ∧ member_text (maxNestingDepth - 1) kv ∧
    ∀ m, add_entry m kv = Some (<[kc.1 := kc.2]> m).
Proof.
  destruct kc as [key c]. cbn [fst snd]. intros Hw.
  destruct (marshal_cursor_some _ _ Hw) as [raw Hraw].
  destruct (marshal_cursor_spec _ _ _ (maxNestingDepth - 1) ltac:(done) Hw Hraw) as [Hv Hu].
  exists (escape (bs key), raw). unfold marshal_entry. cbn [fst snd]. rewrite Hraw.
  destruct Hw as [Hascii _]. split_and!; [done|split; [by apply escape_string_text|done]|].
  intros m. unfold add_entry. cbn [fst snd]. rewrite unquote_escape by done. cbn [mbind option_bind].
  rewrite Hu. cbn [mbind option_bind]. unfold bs. by rewrite String.string_of_list_byte_of_string.
Qed.

Lemma marshal_entries_spec l :
  Forall (λ kc, writable kc.1 kc.2) l →
  ∃ kvs, mapM marshal_entry l = Some kvs ∧ Forall (member_text (maxNestingDepth - 1)) kvs ∧
    ∀ m, foldl (λ m kv, m ← m; add_entry m kv) (Some m) kvs =
      Some (foldl (λ m kc, <[kc.1 := kc.2]> m) m l).
Proof.
  induction 1 as [|kc l Hw Hl (kvs & Hm & Hk & Hf)]; [by exists []|].
  destruct (marshal_entry_spec kc Hw) as (kv & He & Hkv & Hadd).
  exists (kv :: kvs). split_and!; [simpl; by rewrite He; cbn; rewrite Hm|by constructor|].
  intros m. cbn [foldl mbind option_bind]. rewrite Hadd. apply Hf.
Qed.

(** Entries with distinct keys make up the same map in any order. *)
Lemma foldl_insert (l : list (string * Cursor)) (m : gmap string Cursor) key :
  NoDup l.*1 →
  foldl (λ (m : gmap string Cursor) kc, <[kc.1 := kc.2]> m) m l !! key =
    match (list_to_map l : gmap string Cursor) !! key with Some c => Some c | None => m !! key end.
Proof.
  revert m. induction l as [|[k c] l IH]; intros m Hnd; [done|].
  inversion Hnd as [|? ? Hk Hnd']. subst. cbn [foldl]. rewrite IH by done. cbn [fst snd].
  change (list_to_map ((k, c) :: l) : gmap string Cursor) with (<[k := c]> (list_to_map l : gmap string Cursor)).
  destruct (decide (key = k)) as [->|Hne].
  - by rewrite !lookup_insert_eq, not_elem_of_list_to_map_1.
  - by rewrite !lookup_insert_ne.
Qed.

(** The set is read back as it was written. *)
Lemma json_roundtrip m :
  encodable m → ∃ raw, marshal_cursors m = Some raw ∧ raw ≠ [] ∧ unmarshal_cursors raw = Some m.
Proof.
  intros Hm. pose proof (sorted_entries_Permutation m) as Hp.
  destruct (marshal_entries_spec (sorted_entries m)) as (kvs & Hk & Ht & Hf).
  { rewrite Hp. apply Forall_forall. intros [k c] Hin. apply elem_of_map_to_list in Hin. by apply Hm. }
  exists (print_object kvs). unfold marshal_cursors, unmarshal_cursors.
  rewrite Hk. split_and!; [done|done|]. rewrite object_of_print by done.
  cbn [mbind option_bind]. rewrite Hf. f_equal. apply map_eq. intros key.
  assert (Hnd : NoDup (sorted_entries m).*1) by (rewrite Hp; apply NoDup_fst_map_to_list).
  rewrite foldl_insert by done. rewrite (list_to_map_proper _ _ Hnd Hp), list_to_map_to_list.
  rewrite lookup_empty. by destruct (m !! key).
Qed.

#[local] Instance json_codec_ok : CodecOk encodable.
Proof. exact json_roundtrip. Qed.
End codec.

(** What a position written by an earlier version restores to: its time, and a
    count that re-delivers the records of that instant. *)
Lemma legacy_roundtrip t off raw :
  Time_MarshalJSON t off = Some raw → Cursor_UnmarshalJSON raw = Some (MkCursor t 0).
Proof.
  intros Hm. unfold Cursor_UnmarshalJSON. rewrite decide_True.
  - by rewrite (Time_json_roundtrip _ _ _ _ Hm).
  - unfold Time_MarshalJSON in Hm. destruct (marshalable t off); [|done]. by injection Hm as <-.
Qed.

(** With no count, everything at the instant passes the filter. *)
Lemma keep_all_uncounted {A} (stamp : A → Z) t q l :
  t ≠ 0 → Forall (λ x, stamp x = 0 ∨ stamp x ≤ t) q →
  Filt.keep_all stamp (armed t 0) (q ++ l) =
    filter (λ x, stamp x = 0 ∨ stamp x = t) q ++ Filt.keep_all stamp (armed t 0) l.
Proof.
  intros Ht. induction 1 as [|x q Hx Hq IH]; [done|].
  rewrite <- app_comm_cons, keep_armed, filter_cons.
  repeat (case_decide; try lia); rewrite IH; done.
Qed.

(** Reading them once makes the count what it was. *)
Lemma record_all_at {A} (stamp : A → Z) t n q :
  t ≠ 0 → 0 ≤ n → n + Z.of_nat (length q) ≤ max_int64 →
  Cur.record_all (MkCursor t n) (stamp <$> filter (λ x, stamp x = 0 ∨ stamp x = t) q) =
    MkCursor t (n + count_at stamp t q).
Proof.
  intros Ht. revert n. induction q as [|x q IH]; intros n Hn Hl.
  { change (count_at stamp t []) with 0. by rewrite Z.add_0_r. }
  rewrite count_at_cons, filter_cons. cbn [length] in Hl.
  destruct (decide (stamp x = 0 ∨ stamp x = t)) as [[Hx|Hx]|Hx].
  - rewrite decide_False by lia. cbn [fmap list_fmap]. unfold Cur.record_all in *. cbn [foldl].
    rewrite Hx, Record_unstamped. cbn [fst]. rewrite IH by lia. f_equal; lia.
  - rewrite decide_True by done. cbn [fmap list_fmap]. unfold Cur.record_all in *. cbn [foldl].
    assert (Cur.Record_ (MkCursor t n) (stamp x) = (MkCursor t (n + 1), true)) as ->.
    { unfold Cur.Record_, Time.IsZero, Time.After, Time.Equal. simpl. zcases; try lia.
      by rewrite int64_small by in_range. }
    cbn [fst]. rewrite IH by lia. f_equal; lia.
  - rewrite decide_False by tauto. rewrite IH by lia. f_equal; lia.
Qed.

(** * Properties *)

(** C34: Cursors survive their text: what [Flush] writes, the JSON object of all
    positions with escaped keys and formatted times, is read back by [Load] into
    a fresh store as exactly the same positions, whatever zone the times are
    written in; a storage call that fails changes nothing. *)
Theorem json_persistence zone s d :
  s.(has_client) = true → encodable zone s.(cursors) →
  let C := json_codec zone in
  (Load (NewStore true) (Flush s d true) true).(cursors) = s.(cursors) ∧
  Flush s d false = d ∧ Load s d false = s.
Proof.
  intros Hc He C. split_and!.
  - pose proof (json_codec_ok zone). by apply (Flush_Load s d (encodable zone)).
  - unfold Flush. rewrite Hc. by destruct (Marshal _).
  - unfold Load. by rewrite Hc.
Qed.

(** C35: An upgrade leaves no gap: the bare timestamp an earlier version stored
    restores to a position at or before the true one, and a stream that resumes
    from it forwards everything not yet delivered.  What it delivers twice comes
    from the very second of that timestamp, or has none: at least the records
    carrying that instant, and the whole second where timestamps are in whole
    seconds.  It does so once: what it forwards brings the cursor back to the
    exact position, count included. *)
Theorem legacy_leaves_no_gap {A} (stamp : A → Z) pre q suf off raw :
  resumed stamp pre q suf → TS (pos stamp pre) ≠ 0 →
  let t := TS (pos stamp pre) in
  Time_MarshalJSON t off = Some raw →
  ∃ c twice, Cursor_UnmarshalJSON raw = Some c ∧ cur_le c (pos stamp pre) ∧
    Filt.keep_all stamp (Filt.NewFilter c) (q ++ suf) = twice ++ suf ∧
    twice `sublist_of` q ∧
    (∀ x, x ∈ twice → stamp x = 0 ∨ stamp x / Second = t / Second) ∧
    (∀ x, x ∈ q → stamp x = t → x ∈ twice) ∧
    ((∀ x, x ∈ pre → stamp x `mod` Second = 0) →
     twice = filter (λ x, stamp x = 0 ∨ stamp x / Second = t / Second) q) ∧
    Cur.record_all c (stamp <$> (twice ++ suf)) = pos stamp (pre ++ suf).
Proof.
  intros [Hpos Hlen (p0 & Hpre & Hold & _) Hsuf] Hne t Hm.
  destruct (pos_spec stamp pre) as (_ & Hle & _ & Hcount); [done|done|].
  specialize (Hcount Hne). fold t in Hne, Hle, Hsuf, Hcount, Hold.
  assert (Hin : ∀ x, x ∈ q → x ∈ pre) by (rewrite Hpre; set_solver).
  assert (Hq : Forall (λ x, stamp x = 0 ∨ stamp x ≤ t) q).
  { rewrite Forall_forall in Hle. apply Forall_forall. auto. }
  assert (Hc : count_at stamp t q = Delivered (pos stamp pre)).
  { rewrite Hcount, Hpre, count_at_app, (count_at_none _ _ p0); [lia|].
    apply Forall_forall. intros x Hx Heq. rewrite Forall_forall in Hold.
    specialize (Hold x). rewrite list_elem_of_filter in Hold.
    enough (stamp x < t) by lia. apply Hold. split; [congruence|done]. }
  exists (MkCursor t 0), (filter (λ x, stamp x = 0 ∨ stamp x = t) q). split_and!.
  - by eapply legacy_roundtrip.
  - rewrite cur_le_spec. right. split; [done|]. simpl. rewrite <- Hc. apply count_at_bound.
  - replace (Filt.NewFilter _) with (armed t 0).
    + by rewrite keep_all_uncounted, keep_all_ahead.
    + unfold armed, Filt.NewFilter, Cur.IsZero, Time.IsZero. simpl. f_equal. symmetry. by apply Z.eqb_neq.
  - apply sublist_filter.
  - intros x [[?|Hx] _]%list_elem_of_filter; [by left|right; by rewrite Hx].
  - intros x Hx Heq. apply list_elem_of_filter. auto.
  - intros Hwhole. apply filter_iff_in. intros x Hx%Hin.
    split; (intros [?|Hx']; [by left|right]); [by rewrite Hx'|].
    destruct (pos_in stamp pre) as [?|(y & Hy & Hyt)]; [done|]. fold t in Hyt.
    pose proof (Hwhole _ Hx) as Hx0. pose proof (Hwhole _ Hy) as Hy0. rewrite Hyt in Hy0.
    unfold Second in *. rewrite (Z.div_mod (stamp x) 1000000000), (Z.div_mod t 1000000000) by done.
    by rewrite Hx', Hx0, Hy0.
  - rewrite fmap_app, record_all_app, pos_app. f_equal.
    assert (Z.of_nat (length q) ≤ max_int64) by (rewrite Hpre, length_app in Hlen; lia).
    rewrite record_all_at by (done || lia). rewrite Z.add_0_l, Hc. by destruct (pos stamp pre).
Qed.

Module JsonSample.
(** One log in UTC and one in a zone an hour and a half to the east. *)
Definition at1 : Z := Date 2026 8 14 10 0 1 200000000.
Definition zone (key : string) (c : Cursor) : Z := if decide (key = "ns/web-0/6f1c/app"%string) then 90 else 0.
Definition set : gmap string Cursor :=
  {["ns/web-0/6f1c/app"%string := MkCursor at1 2; "a<b"%string := MkCursor (at1 + 1) 13]}.

Example text :
  marshal_cursors zone set =
    Some (bs "{" ++ [byte_quote] ++ bs "a\u003cb" ++ [byte_quote] ++ bs ":{" ++
      [byte_quote] ++ bs "ts" ++ [byte_quote] ++ bs ":" ++ [byte_quote] ++
      bs "2026-08-14T10:00:01.200000001Z" ++ [byte_quote] ++ bs "," ++ [byte_quote] ++
      bs "delivered" ++ [byte_quote] ++ bs ":13}," ++ [byte_quote] ++ bs "ns/web-0/6f1c/app" ++
      [byte_quote] ++ bs ":{" ++ [byte_quote] ++ bs "ts" ++ [byte_quote] ++ bs ":" ++ [byte_quote] ++
      bs "2026-08-14T11:30:01.2+01:30" ++ [byte_quote] ++ bs "," ++ [byte_quote] ++
      bs "delivered" ++ [byte_quote] ++ bs ":2}}").
Proof. vm_compute. reflexivity. Qed.

(** Names in another case, unknown fields, white space and an older entry. *)
Example lenient :
  Cursor_UnmarshalJSON (bs "{ " ++ [byte_quote] ++ bs "x" ++ [byte_quote] ++ bs " : [1, {}, null], " ++
    [byte_quote] ++ bs "Delivered" ++ [byte_quote] ++ bs ": 7 , " ++ [byte_quote] ++ bs "TS" ++
    [byte_quote] ++ bs ":" ++ [byte_quote] ++ bs "0001-01-01T00:00:00.5Z" ++ [byte_quote] ++ bs "}") =
    Some (MkCursor 500000000 7) ∧
  Cursor_UnmarshalJSON (bs "null") = Some Cur.zero ∧ Cursor_UnmarshalJSON (bs "[1]") = None ∧
  unmarshal_cursors (bs "{not json") = None.
Proof. split_and!; vm_compute; reflexivity. Qed.

Definition store : Store := MkStore true set ∅.

Lemma set_encodable : encodable zone set.
Proof.
  intros key c Hl. unfold set in Hl. rewrite lookup_insert_Some in Hl.
  destruct Hl as [[<- <-]|[_ Hl]]; [|apply lookup_singleton_Some in Hl as [<- <-]];
    (split_and!; [apply (bool_decide_eq_true_1 _); vm_compute; reflexivity|vm_compute; reflexivity|cbn [Delivered]; in_range..]).
Qed.

Lemma json_persistence_witness :
  let C := json_codec zone in
  (Load (NewStore true) (Flush store ∅ true) true).(cursors) = set ∧
  Flush store ∅ false = ∅ ∧ Load store ∅ false = store.
Proof. exact (json_persistence zone store ∅ eq_refl set_encodable). Defined.

Lemma legacy_leaves_no_gap_witness :
  ∃ c twice, Cursor_UnmarshalJSON (default [] (Time_MarshalJSON 8 0)) = Some c ∧
    cur_le c (pos id [3; 8; 0; 8]) ∧
    Filt.keep_all id (Filt.NewFilter c) ([8; 0; 8] ++ [8; 9]) = twice ++ [8; 9] ∧
    twice `sublist_of` [8; 0; 8] ∧
    (∀ x, x ∈ twice → id x = 0 ∨ id x / Second = 8 / Second) ∧
    (∀ x, x ∈ [8; 0; 8] → id x = 8 → x ∈ twice) ∧
    ((∀ x, x ∈ [3; 8; 0; 8] → id x `mod` Second = 0) →
     twice = filter (λ x, id x = 0 ∨ id x / Second = 8 / Second) [8; 0; 8]) ∧
    Cur.record_all c (id <$> (twice ++ [8; 9])) = pos id ([3; 8; 0; 8] ++ [8; 9]).
Proof.
  apply (legacy_leaves_no_gap id [3; 8; 0; 8] [8; 0; 8] [8; 9] 0 (default [] (Time_MarshalJSON 8 0))).
  - split.
    + repeat constructor; unfold id; lia.
    + unfold max_int64; simpl; lia.
    + exists [3]. split; [reflexivity|]. split; [|vm_compute; discriminate].
      vm_compute. repeat constructor.
    + change (TS (pos id [3; 8; 0; 8])) with 8. repeat constructor; unfold id; lia.
  - vm_compute. discriminate.
  - vm_compute. reflexivity.
Defined.

(** Of a second the records older than the stored instant do not come again. *)
Example legacy_within_second :
  let q := [2 * Second; 2 * Second + 5; 2 * Second + 7] in
  Filt.keep_all id (Filt.NewFilter (MkCursor (2 * Second + 7) 0)) q = [2 * Second + 7].
Proof. vm_compute. reflexivity. Qed.

(** A zone of 24 hours is parsed but not written, and one such position keeps
    the whole set from being written. *)
Example unwritable_zone :
  Parse_RFC3339Nano (bs "2026-01-01T00:00:00+24:00") = Some (Date 2025 12 31 0 0 0 0) ∧
  marshal_cursors (λ key _, if decide (key = "b"%string) then 24 * 60 else 0)
    {["a"%string := MkCursor at1 1; "b"%string := MkCursor (Date 2025 12 31 0 0 0 0) 1]} = None.
Proof. split; vm_compute; reflexivity. Qed.
End JsonSample.
