(* ===== verification/Metadata.v ===== *)
(** Package [internal/metadata]: the generated telemetry builder
    ([generated_telemetry.go]), logs builder ([generated_logs.go]) and component
    constants ([generated_status.go]).

    Meters and instruments are OpenTelemetry's and appear as a class; of [pdata]
    the builder uses messages that are filled, moved and appended, which are
    modelled by their content. *)
From S2P Require Import Prelude.
Open Scope Z_scope.

(** * generated_status.go *)

Definition Type_ : string := "k8s_pod_log".
Definition ScopeName : string := "github.com/eugenekurasov/k8spodlogreceiver".

Inductive StabilityLevel := StabilityLevelDevelopment | StabilityLevelOther.
Definition LogsStability : StabilityLevel := StabilityLevelDevelopment.

(** * Package [errors]

    An error is one of the program's own or what [errors.Join] makes of several. *)
Inductive joined (E : Type) :=
| Single (e : E)
| Joined (l : list (joined E)).
Arguments Single {E} _.
Arguments Joined {E} _.

(** [errors.Join]: nil arguments are left out, and nothing but nil is nil. *)
Definition Join {E} (errs : list (option (joined E))) : option (joined E) :=
  match omap id errs with
  | [] => None
  | l => Some (Joined l)
  end.

(** The errors inside, as [errors.Is] visits them. *)
Fixpoint leaves {E} (j : joined E) : list E :=
  match j with
  | Single e => [e]
  | Joined l => concat (map leaves l)
  end.

Lemma leaves_Join {E} (errs : list (option (joined E))) :
  from_option leaves [] (Join errs) = concat (from_option leaves [] <$> errs).
Proof.
  unfold Join. assert (Hl : concat (leaves <$> omap id errs) = concat (from_option leaves [] <$> errs)).
  { induction errs as [|[j|] errs IH]; [done| |done]. cbn. f_equal. exact IH. }
  rewrite <- Hl. by destruct (omap id errs).
Qed.

Lemma Join_None {E} (errs : list (option (joined E))) :
  Join errs = None ↔ Forall (λ e, e = None) errs.
Proof.
  unfold Join. induction errs as [|[j|] errs IH]; simpl; [done| |]; rewrite Forall_cons.
  - split; [done|by intros [? _]].
  - rewrite <- IH. simpl. tauto.
Qed.

(** * generated_telemetry.go *)

(** [metric.Meter]: creating an instrument gives one even when it fails. *)
Class Metrics (Provider M G C E : Type) := {
  Meter_of : Provider → string → M;
  Int64Gauge : M → string → G * option E;
  Int64Counter : M → string → C * option E;
}.

Section telemetry.
Context {Provider M G C E : Type} `{!Metrics Provider M G C E} {Registration : Type}.

(** The zero builder has no instruments: they are nil until they are created. *)
Record TelemetryBuilder := MkTelemetryBuilder {
  meter : option M;
  registrations : list Registration;
  ActiveLogStreams : option G;
  LogConnectionErrorsTotal : option C;
  LogConnectionReconnectsTotal : option C;
  PodDiscoveryEventsTotal : option C;
}.

Definition zero_builder : TelemetryBuilder := MkTelemetryBuilder None [] None None None None.

(** [TelemetryBuilderOption]: whatever an option does to the builder. *)
Definition TelemetryBuilderOption := TelemetryBuilder → TelemetryBuilder.

Definition Meter (settings : Provider) : M := Meter_of settings ScopeName.

Definition NewTelemetryBuilder (settings : Provider) (options : list TelemetryBuilderOption)
    : TelemetryBuilder * option (joined E) :=
  let builder := foldl (λ b op, op b) zero_builder options in
  let m := Meter settings in
  let errs := None in
  let '(gauge, err) := Int64Gauge m "otelcol_active_log_streams" in
  let errs := Join [errs; Single <$> err] in
  let '(errors_total, err) := Int64Counter m "otelcol_log_connection_errors_total" in
  let errs := Join [errs; Single <$> err] in
  let '(reconnects_total, err) := Int64Counter m "otelcol_log_connection_reconnects_total" in
  let errs := Join [errs; Single <$> err] in
  let '(events_total, err) := Int64Counter m "otelcol_pod_discovery_events_total" in
  let errs := Join [errs; Single <$> err] in
  (MkTelemetryBuilder (Some m) builder.(registrations) (Some gauge) (Some errors_total)
     (Some reconnects_total) (Some events_total), errs).

(** [Shutdown]: the registrations unregistered, in order. *)
Definition Telemetry_Shutdown (builder : TelemetryBuilder) : list Registration :=
  builder.(registrations).

(** What creating the four instruments answers. *)
Definition instrument_errors (settings : Provider) : list E :=
  let m := Meter settings in
  omap id [(Int64Gauge m "otelcol_active_log_streams").2;
           (Int64Counter m "otelcol_log_connection_errors_total").2;
           (Int64Counter m "otelcol_log_connection_reconnects_total").2;
           (Int64Counter m "otelcol_pod_discovery_events_total").2].

(** Every instrument is created, whichever fail, and no failure is lost. *)
Lemma NewTelemetryBuilder_spec settings options :
  let '(b, errs) := NewTelemetryBuilder settings options in
  from_option leaves [] errs = instrument_errors settings ∧
  (errs = None ↔ instrument_errors settings = []) ∧
  is_Some b.(ActiveLogStreams) ∧ is_Some b.(LogConnectionErrorsTotal) ∧
  is_Some b.(LogConnectionReconnectsTotal) ∧ is_Some b.(PodDiscoveryEventsTotal).
Proof.
  unfold NewTelemetryBuilder, instrument_errors.
  destruct (Int64Gauge _ _) as [g e1], (Int64Counter _ "otelcol_log_connection_errors_total") as [c1 e2],
    (Int64Counter _ "otelcol_log_connection_reconnects_total") as [c2 e3],
    (Int64Counter _ "otelcol_pod_discovery_events_total") as [c3 e4].
  rewrite !leaves_Join. simpl. split_and!; try by eexists.
  - destruct e1, e2, e3, e4; done.
  - rewrite !Join_None, !Forall_cons. destruct e1, e2, e3, e4; naive_solver.
Qed.
End telemetry.
Arguments TelemetryBuilder : clear implicits.

(** * generated_logs.go *)

Section logs.
Context {Resource LogRecord : Type} (empty_resource : Resource) (empty_record : LogRecord).

Record ScopeLogs := MkScopeLogs { sl_name : string; sl_version : string; sl_records : list LogRecord }.
Record ResourceLogs := MkResourceLogs { rl_resource : Resource; rl_scopes : list ScopeLogs }.

(** [plog.Logs] by its [ResourceLogs]. *)
Definition Logs := list ResourceLogs.

Record LogsBuilder := MkLogsBuilder {
  logsBuffer : Logs;
  logRecordsBuffer : list LogRecord;
  build_version : string;       (* buildInfo.Version *)
}.

Definition NewLogsBuilder (version : string) : LogsBuilder := MkLogsBuilder [] [] version.

(** The one option there is. *)
Inductive ResourceLogsOption := WithLogsResource (res : Resource).

Definition apply_option (rl : ResourceLogs) (op : ResourceLogsOption) : ResourceLogs :=
  match op with WithLogsResource res => MkResourceLogs res rl.(rl_scopes) end.

(** The builder, and the record passed in, which is moved out of. *)
Definition AppendLogRecord (lb : LogsBuilder) (lr : LogRecord) : LogsBuilder * LogRecord :=
  (MkLogsBuilder lb.(logsBuffer) (lb.(logRecordsBuffer) ++ [lr]) lb.(build_version), empty_record).

Definition EmitForResource (lb : LogsBuilder) (options : list ResourceLogsOption) : LogsBuilder :=
  let ils := MkScopeLogs ScopeName lb.(build_version) [] in
  let rl := foldl apply_option (MkResourceLogs empty_resource [ils]) options in
  let '(ils, buffer) :=
    if (0 <? length lb.(logRecordsBuffer))%nat
    then (MkScopeLogs ils.(sl_name) ils.(sl_version) (ils.(sl_records) ++ lb.(logRecordsBuffer)), [])
    else (ils, lb.(logRecordsBuffer)) in
  let rl := MkResourceLogs rl.(rl_resource) [ils] in
  let logs := if (0 <? length ils.(sl_records))%nat then lb.(logsBuffer) ++ [rl] else lb.(logsBuffer) in
  MkLogsBuilder logs buffer lb.(build_version).

Definition Emit (lb : LogsBuilder) (options : list ResourceLogsOption) : Logs * LogsBuilder :=
  let lb := EmitForResource lb options in
  (lb.(logsBuffer), MkLogsBuilder [] lb.(logRecordsBuffer) lb.(build_version)).

(** A scraper's use of a builder. *)
Inductive build_op :=
| OpAppend (lr : LogRecord)
| OpEmitForResource (options : list ResourceLogsOption)
| OpEmit (options : list ResourceLogsOption).

Fixpoint build (lb : LogsBuilder) (ops : list build_op) : list Logs * LogsBuilder :=
  match ops with
  | [] => ([], lb)
  | OpAppend lr :: ops => build (AppendLogRecord lb lr).1 ops
  | OpEmitForResource options :: ops => build (EmitForResource lb options) ops
  | OpEmit options :: ops =>
      let '(logs, lb) := Emit lb options in
      let '(rest, lb) := build lb ops in (logs :: rest, lb)
  end.

(** The reference: [groups] is the groups closed since the last [Emit] and [buf]
    the records since the last group; a group takes the resource named last. *)
Definition resource_of (options : list ResourceLogsOption) : Resource :=
  match last options with Some (WithLogsResource res) => res | None => empty_resource end.

Definition close (version : string) (groups : Logs) (buf : list LogRecord) options : Logs :=
  match buf with
  | [] => groups
  | _ => groups ++ [MkResourceLogs (resource_of options) [MkScopeLogs ScopeName version buf]]
  end.

Fixpoint reference (version : string) (groups : Logs) (buf : list LogRecord) (ops : list build_op)
    : list Logs :=
  match ops with
  | [] => []
  | OpAppend lr :: ops => reference version groups (buf ++ [lr]) ops
  | OpEmitForResource options :: ops => reference version (close version groups buf options) [] ops
  | OpEmit options :: ops => close version groups buf options :: reference version [] [] ops
  end.

Lemma apply_options_resource rl options :
  (foldl apply_option rl options).(rl_resource) =
    match last options with Some (WithLogsResource res) => res | None => rl.(rl_resource) end.
Proof.
  induction options as [|op options IH] using rev_ind; [done|].
  rewrite foldl_app, last_snoc. by destruct op.
Qed.

Lemma EmitForResource_spec lb options :
  EmitForResource lb options =
    MkLogsBuilder (close lb.(build_version) lb.(logsBuffer) lb.(logRecordsBuffer) options) []
      lb.(build_version).
Proof.
  unfold EmitForResource, close, resource_of.
  destruct lb as [groups [|lr buf] version]; simpl; [done|]. by rewrite apply_options_resource.
Qed.

Lemma build_reference lb ops :
  (build lb ops).1 = reference lb.(build_version) lb.(logsBuffer) lb.(logRecordsBuffer) ops.
Proof.
  revert lb. induction ops as [|[lr|options|options] ops IH]; intros lb; cbn [build reference]; [done| | |].
  - apply IH.
  - rewrite IH, EmitForResource_spec. done.
  - unfold Emit. rewrite EmitForResource_spec. simpl. specialize (IH (MkLogsBuilder [] [] (build_version lb))).
    destruct (build _ ops) as [rest lb']. simpl in *. by rewrite IH.
Qed.

(** The records of some logs, in order. *)
Definition all_records (l : Logs) : list LogRecord :=
  concat ((λ rl, concat (sl_records <$> rl.(rl_scopes))) <$> l).

Definition appended (ops : list build_op) : list LogRecord :=
  omap (λ op, match op with OpAppend lr => Some lr | _ => None end) ops.

Lemma all_records_close version groups buf options :
  all_records (close version groups buf options) = all_records groups ++ buf.
Proof.
  unfold close, all_records. destruct buf as [|lr buf]; [by rewrite app_nil_r|].
  rewrite fmap_app, concat_app. simpl. by rewrite !app_nil_r.
Qed.

Lemma reference_records version groups buf ops options :
  concat (all_records <$> reference version groups buf (ops ++ [OpEmit options])) =
    all_records groups ++ buf ++ appended ops.
Proof.
  revert groups buf. induction ops as [|[lr|opts|opts] ops IH]; intros groups buf; simpl.
  - by rewrite all_records_close, !app_nil_r.
  - rewrite IH, <- app_assoc. done.
  - by rewrite IH, all_records_close, <- app_assoc.
  - rewrite IH, all_records_close, <- app_assoc. done.
Qed.
(** A group that is there holds records, under the component's scope. *)
Definition group_ok (version : string) (rl : ResourceLogs) : Prop :=
  ∃ buf, buf ≠ [] ∧ rl.(rl_scopes) = [MkScopeLogs ScopeName version buf].

Lemma reference_groups version groups buf ops :
  Forall (group_ok version) groups → Forall (Forall (group_ok version)) (reference version groups buf ops).
Proof.
  assert (Hclose : ∀ g b o, Forall (group_ok version) g → Forall (group_ok version) (close version g b o)).
  { intros g b o Hg. unfold close. destruct b as [|lr b]; [done|]. apply Forall_app. split; [done|].
    apply Forall_singleton. by exists (lr :: b). }
  revert groups buf. induction ops as [|[lr|opts|opts] ops IH]; intros groups buf Hg; simpl; auto.
Qed.
End logs.

(** * Properties *)

(** A logs builder loses and reorders nothing: whatever records are appended and
    however they are grouped by resource on the way, the logs emitted are those
    of the reference, and up to the last [Emit] together hold exactly the
    records appended, in order, none of them in an empty group. *)
Theorem builder_emits_everything {Resource LogRecord : Type} (er : Resource) (el : LogRecord)
    version ops options :
  let emitted := (build er el (NewLogsBuilder version) (ops ++ [OpEmit options])).1 in
  emitted = reference er version [] [] (ops ++ [OpEmit options]) ∧
  concat (all_records <$> emitted) = appended ops ∧
  Forall (Forall (group_ok version)) emitted.
Proof.
  intros emitted. unfold emitted. rewrite build_reference. simpl. split_and!; [done| |].
  - by rewrite reference_records.
  - by apply reference_groups.
Qed.
