(* ===== verification/PodDiscovery.v ===== *)
(** Package [internal/poddiscovery] ([discovery.go]): the pods being watched, and
    how what an informer hands over becomes a call of the handler.  The pod
    objects of the Kubernetes API are modelled by the fields the program reads.

    The informers themselves are client-go's; here they are the source of the
    objects [AddFunc], [UpdateFunc] and [DeleteFunc] receive. *)
From S2P Require Import Prelude GoTime.
Open Scope Z_scope.

(** * Pods *)

Record Container := MkContainer {
  c_Name : string;
  c_RestartPolicy : option string;
}.

Record ContainerStatus := MkContainerStatus {
  cs_Name : string;
  cs_RestartCount : Z;
  cs_Running : bool;                  (* State.Running != nil *)
  cs_Terminated : option Z;           (* State.Terminated, its exit code *)
  cs_LastTerminated : option Z;       (* LastTerminationState.Terminated *)
}.

Record Pod := MkPod {
  p_Namespace : string;
  p_Name : string;
  p_UID : string;
  p_ManagedFields : list string;
  p_NodeName : string;
  p_RestartPolicy : string;
  p_InitContainers : list Container;
  p_Containers : list Container;
  p_ContainerStatuses : list ContainerStatus;
  p_InitContainerStatuses : list ContainerStatus;
}.

(** * What an informer hands over *)

Inductive Object :=
| ObjPod (pod : Pod)
| ObjTombstone (key : string) (obj : Object)   (* cache.DeletedFinalStateUnknown *)
| ObjOther.

Definition podFrom (obj : Object) : option Pod :=
  let obj := match obj with ObjTombstone _ o => o | _ => obj end in
  match obj with ObjPod pod => Some pod | _ => None end.

Definition clear_ManagedFields (pod : Pod) : Pod :=
  MkPod pod.(p_Namespace) pod.(p_Name) pod.(p_UID) [] pod.(p_NodeName) pod.(p_RestartPolicy)
    pod.(p_InitContainers) pod.(p_Containers) pod.(p_ContainerStatuses)
    pod.(p_InitContainerStatuses).

(** [trimPod] writes to the pod the object points to, and returns the object. *)
Definition trimPod (obj : Object) : Object :=
  match obj with
  | ObjPod pod => ObjPod (clear_ManagedFields pod)
  | ObjTombstone k (ObjPod pod) => ObjTombstone k (ObjPod (clear_ManagedFields pod))
  | _ => obj
  end.

(** The calls of the handler. *)
Inductive HandlerCall :=
| CallAdd (pod : Pod)
| CallUpdate (pod : Pod)
| CallDelete (pod : Pod) (inferred : bool).

Inductive InformerEvent :=
| InformerAdd (obj : Object)
| InformerUpdate (newObj : Object)
| InformerDelete (obj : Object).

(** The three handler functions [newInformer] registers; [None] is an object
    that is not a pod, which is only warned about. *)
Definition deliver (ev : InformerEvent) : option HandlerCall :=
  match ev with
  | InformerAdd obj => CallAdd <$> podFrom obj
  | InformerUpdate obj => CallUpdate <$> podFrom obj
  | InformerDelete obj =>
      let inferred := match obj with ObjTombstone _ _ => true | _ => false end in
      (λ pod, CallDelete pod inferred) <$> podFrom obj
  end.

(** * [newInformer] *)

Record Config := MkConfig {
  Namespaces : list string;
  LabelSelector : string;
  ResyncPeriod : Z;
}.

(** Which of the three callbacks are set. *)
Record Handler := MkHandler {
  h_OnAdd : bool;
  h_OnUpdate : bool;
  h_OnDelete : bool;
}.

(** [Discovery], without its client and logger. *)
Record Discovery := MkDiscovery {
  d_cfg : Config;
  d_handler : Handler;
}.

Definition New (cfg : Config) (handler : Handler) : Discovery := MkDiscovery cfg handler.

Definition NamespaceAll : string := EmptyString.

(** [metav1.ListOptions]: the field the two closures set, and what the reflector
    asks for besides. *)
Record ListOptions := MkListOptions {
  lo_LabelSelector : string;
  lo_ResourceVersion : string;
  lo_Continue : string;
  lo_Limit : Z;
  lo_AllowWatchBookmarks : bool;
}.

Definition select (selector : string) (opts : ListOptions) : ListOptions :=
  MkListOptions selector opts.(lo_ResourceVersion) opts.(lo_Continue) opts.(lo_Limit)
    opts.(lo_AllowWatchBookmarks).

(** [podListWatch]: what [List] and [Watch] ask the API server for. *)
Record podListWatch := MkPodListWatch {
  lw_namespace : string;
  ListWithContextFunc : ListOptions → ListOptions;
  WatchFuncWithContext : ListOptions → ListOptions;
}.

Definition IsWatchListSemanticsUnSupported (_ : podListWatch) : bool := true.

(** A shared informer as it is set up. *)
Record Informer := MkInformer {
  inf_lw : podListWatch;
  inf_resync : Z;
  inf_transform : Object → Object;
  inf_handler : InformerEvent → option HandlerCall;
}.

(** What the setup calls of the informer of a namespace answer. *)
Record InformerCalls (E : Type) := MkInformerCalls {
  SetTransform : string → option E;
  SetWatchErrorHandler : string → option E;
  AddEventHandler : string → option E;
}.
Arguments MkInformerCalls {E} _ _ _.
Arguments SetTransform {E} _ _. Arguments SetWatchErrorHandler {E} _ _. Arguments AddEventHandler {E} _ _.

Inductive InformerErr (E : Type) := TransformErr (e : E) | WatchErrorHandlerErr (e : E) | EventHandlerErr (e : E).
Arguments TransformErr {E} _. Arguments WatchErrorHandlerErr {E} _. Arguments EventHandlerErr {E} _.

Definition podInformer (cfg : Config) (namespace : string) : Informer :=
  let lw := MkPodListWatch namespace (select cfg.(LabelSelector)) (select cfg.(LabelSelector)) in
  MkInformer lw cfg.(ResyncPeriod) trimPod deliver.

Definition newInformer {E} (calls : InformerCalls E) (cfg : Config) (namespace : string)
    : result (InformerErr E) Informer :=
  match calls.(SetTransform) namespace with
  | Some e => Err (TransformErr e)
  | None =>
      match calls.(SetWatchErrorHandler) namespace with
      | Some e => Err (WatchErrorHandlerErr e)
      | None =>
          match calls.(AddEventHandler) namespace with
          | Some e => Err (EventHandlerErr e)
          | None => Ok (podInformer cfg namespace)
          end
      end
  end.

(** The handler call an object of the API server leads to: the transform runs
    before the object reaches the cache and the handlers. *)
Definition transformed (inf : Informer) (ev : InformerEvent) : InformerEvent :=
  match ev with
  | InformerAdd o => InformerAdd (inf.(inf_transform) o)
  | InformerUpdate o => InformerUpdate (inf.(inf_transform) o)
  | InformerDelete o => InformerDelete (inf.(inf_transform) o)
  end.

Definition handled (inf : Informer) (ev : InformerEvent) : option HandlerCall :=
  inf.(inf_handler) (transformed inf ev).

(** * [Start] *)

Inductive StartError (E : Type) := HandlerNotSet | InformerError (e : InformerErr E).
Arguments HandlerNotSet {E}.
Arguments InformerError {E} _.

(** The loop over the namespaces. *)
Fixpoint buildInformers {E} (calls : InformerCalls E) (cfg : Config) (namespaces : list string)
    : result (InformerErr E) (list Informer) :=
  match namespaces with
  | [] => Ok []
  | ns :: rest =>
      (let? informer := newInformer calls cfg ns in
       let? informers := buildInformers calls cfg rest in Ok (informer :: informers))%result
  end.

(** The goroutines it starts, each tracked in [wg]. *)
Inductive goroutine :=
| RunInformer (informer : Informer)
| ReportSync (informers : list Informer).

Definition watched (cfg : Config) : list string :=
  if decide (cfg.(Namespaces) = []) then [NamespaceAll] else cfg.(Namespaces).

(** What is running when it returns, and its error. *)
Definition Start {E} (calls : InformerCalls E) (d : Discovery)
    : list goroutine * option (StartError E) :=
  let h := d.(d_handler) in
  if negb h.(h_OnAdd) || negb h.(h_OnUpdate) || negb h.(h_OnDelete) then ([], Some HandlerNotSet)
  else
    match buildInformers calls d.(d_cfg) (watched d.(d_cfg)) with
    | Err e => ([], Some (InformerError e))
    | Ok informers => ((RunInformer <$> informers) ++ [ReportSync informers], None)
    end.

(** [ListKeys] counts what an informer's store holds. *)
Definition cachedPods (ListKeys : Informer → nat) (informers : list Informer) : nat :=
  foldl (λ total i, total + ListKeys i)%nat 0%nat informers.

(** The goroutine of [ReportSync]: the number of pods it logs, unless the context
    ends before every informer has listed. *)
Definition reportSync (WaitForCacheSync : bool) (ListKeys : Informer → nat) (informers : list Informer)
    : option nat :=
  if negb WaitForCacheSync then None else Some (cachedPods ListKeys informers).

Definition loggableNamespaces (namespaces : list string) : list string :=
  (λ ns, if decide (ns = NamespaceAll) then "<all>"%string else ns) <$> namespaces.

(** * [logWatchError] *)

Class WatchErrors (E : Type) := {
  IsCanceled : E → bool;
  IsResourceExpired : E → bool;
  IsGone : E → bool;
}.

Inductive WatchLog := LogNothing | LogDebugExpired | LogWarnFailed.

Definition logWatchError {E} `{!WatchErrors E} (err : E) : WatchLog :=
  if IsCanceled err then LogNothing
  else if IsResourceExpired err || IsGone err then LogDebugExpired
  else LogWarnFailed.

(** * Results *)

(** An informer is built when none of its setup calls fails. *)
Definition buildable {E} (calls : InformerCalls E) (ns : string) : Prop :=
  calls.(SetTransform) ns = None ∧ calls.(SetWatchErrorHandler) ns = None ∧ calls.(AddEventHandler) ns = None.

Lemma newInformer_Ok {E} (calls : InformerCalls E) cfg ns inf :
  newInformer calls cfg ns = Ok inf ↔ buildable calls ns ∧ inf = podInformer cfg ns.
Proof. unfold newInformer, buildable. repeat case_match; naive_solver. Qed.

Lemma buildInformers_Ok {E} (calls : InformerCalls E) cfg nss l :
  buildInformers calls cfg nss = Ok l ↔ l = podInformer cfg <$> nss ∧ Forall (buildable calls) nss.
Proof.
  revert l. induction nss as [|ns nss IH]; intros l; simpl.
  - split; [intros [= <-]; done|by intros [-> _]].
  - rewrite Forall_cons, result_bind_Ok. setoid_rewrite result_bind_Ok.
    setoid_rewrite newInformer_Ok. setoid_rewrite IH. naive_solver.
Qed.

Lemma buildInformers_Err {E} (calls : InformerCalls E) cfg nss e :
  buildInformers calls cfg nss = Err e → ∃ ns, ns ∈ nss ∧ newInformer calls cfg ns = Err e.
Proof.
  induction nss as [|ns nss IH]; simpl; [done|].
  destruct (newInformer calls cfg ns) as [inf|e'] eqn:Hn; simpl.
  - destruct (buildInformers calls cfg nss); simpl; [done|]. intros [= ->].
    destruct (IH eq_refl) as (ns' & ? & ?). exists ns'. split; [set_solver|done].
  - intros [= ->]. exists ns. split; [set_solver|done].
Qed.

Lemma Start_Ok {E} (calls : InformerCalls E) d running :
  Start calls d = (running, None) →
  running = (RunInformer ∘ podInformer d.(d_cfg) <$> watched d.(d_cfg)) ++
    [ReportSync (podInformer d.(d_cfg) <$> watched d.(d_cfg))] ∧
  Forall (buildable calls) (watched d.(d_cfg)) ∧ d.(d_handler) = MkHandler true true true.
Proof.
  unfold Start. destruct (d_handler d) as [[] [] []]; simpl; try done.
  destruct (buildInformers _ _ _) as [l|e] eqn:Hb; [|done]. intros [= <-].
  apply buildInformers_Ok in Hb as [-> ?]. by rewrite list_fmap_compose.
Qed.

(** Trimming changes nothing the receiver reads. *)
Lemma podFrom_trimPod obj : podFrom (trimPod obj) = clear_ManagedFields <$> podFrom obj.
Proof. destruct obj as [p|k [p|k' o|]|]; done. Qed.

(** * Properties *)

(** Starting discovery is all or nothing: with a callback missing, or when any
    setup call of any informer fails, nothing is left running; otherwise there
    is one informer per configured namespace, in order, and one for every
    namespace when none is configured.  Each lists and watches with the label
    selector and leaves the reflector's paging and resource version alone. *)
Theorem discovery_all_or_nothing {E} (calls : InformerCalls E) cfg h :
  match Start calls (New cfg h) with
  | (running, None) =>
      Forall (buildable calls) (watched cfg) ∧ h = MkHandler true true true ∧
      running = (RunInformer <$> (podInformer cfg <$> watched cfg)) ++ [ReportSync (podInformer cfg <$> watched cfg)]
  | (running, Some HandlerNotSet) => running = [] ∧ h ≠ MkHandler true true true
  | (running, Some (InformerError e)) =>
      running = [] ∧ ∃ ns, ns ∈ watched cfg ∧ newInformer calls cfg ns = Err e ∧ ¬ buildable calls ns
  end ∧
  ∀ ns opts, let lw := (podInformer cfg ns).(inf_lw) in
    lw.(lw_namespace) = ns ∧
    (lw.(ListWithContextFunc) opts).(lo_LabelSelector) = cfg.(LabelSelector) ∧
    (lw.(WatchFuncWithContext) opts).(lo_LabelSelector) = cfg.(LabelSelector) ∧
    (lw.(ListWithContextFunc) opts).(lo_Continue) = opts.(lo_Continue) ∧
    (lw.(WatchFuncWithContext) opts).(lo_ResourceVersion) = opts.(lo_ResourceVersion).
Proof.
  split; [|done]. destruct (Start calls (New cfg h)) as [running [[|e]|]] eqn:Hs.
  - unfold Start in Hs. simpl in Hs. destruct h as [[] [] []]; simpl in Hs; simplify_eq; try done.
    by repeat case_match.
  - unfold Start in Hs. simpl in Hs. destruct h as [[] [] []]; simpl in Hs; simplify_eq.
    destruct (buildInformers _ _ _) as [l|e'] eqn:Hb; simplify_eq. split; [done|].
    destruct (buildInformers_Err _ _ _ _ Hb) as (ns & Hin & Hn). exists ns. split_and!; [done|done|].
    intros Hbuild. unfold newInformer in Hn. destruct Hbuild as (H1 & H2 & H3).
    by rewrite H1, H2, H3 in Hn.
  - apply Start_Ok in Hs as (-> & ? & ?). simpl in *. by rewrite list_fmap_compose.
Qed.

(** Whatever way the informer wraps a pod it reaches the handler, with only its
    managed fields dropped; a delete is called inferred exactly when it came as
    a tombstone, and only objects that hold no pod are passed over. *)
Theorem deliver_unwraps cfg ns pod key :
  let inf := podInformer cfg ns in
  handled inf (InformerAdd (ObjPod pod)) = Some (CallAdd (clear_ManagedFields pod)) ∧
  handled inf (InformerUpdate (ObjPod pod)) = Some (CallUpdate (clear_ManagedFields pod)) ∧
  handled inf (InformerDelete (ObjPod pod)) = Some (CallDelete (clear_ManagedFields pod) false) ∧
  handled inf (InformerDelete (ObjTombstone key (ObjPod pod))) =
    Some (CallDelete (clear_ManagedFields pod) true) ∧
  (∀ ev, handled inf ev = None ↔
    match ev with InformerAdd o | InformerUpdate o | InformerDelete o => podFrom o = None end).
Proof.
  split_and!; [done..|]. intros [o|o|o]; unfold handled; simpl;
    by rewrite fmap_None, podFrom_trimPod, fmap_None.
Qed.
