(* ===== verification/K8sConfig.v ===== *)
(** Package [internal/k8sconfig] ([config.go]): how the receiver authenticates,
    and the client configuration built from it. *)
From Stdlib Require Import Floats.SpecFloat.
From S2P Require Import Prelude.
Open Scope Z_scope.

(** * [AuthType] *)

Abbreviation AuthType := string.
Definition AuthTypeNone : AuthType := "none".
Definition AuthTypeServiceAccount : AuthType := "serviceAccount".
Definition AuthTypeKubeConfig : AuthType := "kubeConfig".

Definition validAuthTypes : gmap AuthType bool :=
  <[AuthTypeNone := true]> (<[AuthTypeServiceAccount := true]> (<[AuthTypeKubeConfig := true]> ∅)).

(** A [float32]. *)
Definition float32 := spec_float.
Definition float32_zero : float32 := S754_zero false.

Record APIConfig := MkAPIConfig {
  AuthType_ : AuthType;
  KubeconfigPath : string;
  KubeAPIQPS : float32;
  KubeAPIBurst : Z;
}.

Inductive APIConfigError := InvalidAuthType (a : AuthType) | NegativeQPS | NegativeBurst.

(** A missing key of a map of booleans reads as [false]. *)
Definition Validate (c : APIConfig) : option APIConfigError :=
  if negb (default false (validAuthTypes !! c.(AuthType_))) then Some (InvalidAuthType c.(AuthType_))
  else if SFltb c.(KubeAPIQPS) float32_zero then Some NegativeQPS
  else if c.(KubeAPIBurst) <? 0 then Some NegativeBurst
  else None.

(** * [CreateRestConfig] *)

(** A transport: Go's own, with the proxy function it consults, or another. *)
Inductive RoundTripper := HTTPTransport (Proxy : option string) | OtherTransport (id : string).

(** The fields of [rest.Config] that are set here; [rc_rest] is everything else
    a loader put into it. *)
Record RestConfig (X : Type) := MkRestConfig {
  Host : string;
  Insecure : bool;
  WrapTransport : RoundTripper → RoundTripper;
  QPS : float32;
  Burst : Z;
  rc_rest : X;
}.
Arguments MkRestConfig {X} _ _ _ _ _ _.
Arguments Host {X} _. Arguments Insecure {X} _. Arguments WrapTransport {X} _ _.
Arguments QPS {X} _. Arguments Burst {X} _. Arguments rc_rest {X} _.

(** The loaders of client-go and the process environment. *)
Class ClientGo (X E : Type) := {
  InClusterConfig : result E (RestConfig X);
  BuildConfigFromFlags : string → result E (RestConfig X);
  DeferredLoadingClientConfig : result E (RestConfig X);
  EmptyRest : X;
  Getenv : string → string;
}.

Inductive RestError (E : Type) := EnvNotSet | BadAuthType (a : AuthType) | LoaderError (e : E).
Arguments EnvNotSet {E}.
Arguments BadAuthType {E} _.
Arguments LoaderError {E} _.

(** [net.JoinHostPort]: a host with a colon or a percent sign is an IPv6
    address and is bracketed. *)
Definition JoinHostPort (host port : string) : string :=
  if bool_decide (x3a ∈ bs host)
     || bool_decide (x25 ∈ bs host)
  then ("[" +:+ host +:+ "]:" +:+ port)%string
  else (host +:+ ":" +:+ port)%string.

Definition withoutProxy (rt : RoundTripper) : RoundTripper :=
  match rt with HTTPTransport _ => HTTPTransport None | OtherTransport _ => rt end.

Section rest.
Context {X E : Type} `{!ClientGo X E}.

Definition of_loader (r : result E (RestConfig X)) : result (RestError E) (RestConfig X) :=
  match r with Ok c => Ok c | Err e => Err (LoaderError e) end.

Definition loadConfig (apiConf : APIConfig) : result (RestError E) (RestConfig X) :=
  if decide (apiConf.(AuthType_) = AuthTypeServiceAccount) then of_loader InClusterConfig
  else if decide (apiConf.(AuthType_) = AuthTypeKubeConfig) then
    if decide (apiConf.(KubeconfigPath) ≠ EmptyString)
    then of_loader (BuildConfigFromFlags apiConf.(KubeconfigPath))
    else of_loader DeferredLoadingClientConfig
  else if decide (apiConf.(AuthType_) = AuthTypeNone) then
    let host := Getenv "KUBERNETES_SERVICE_HOST" in
    let port := Getenv "KUBERNETES_SERVICE_PORT" in
    if decide (host = EmptyString ∨ port = EmptyString) then Err EnvNotSet
    else Ok (MkRestConfig ("https://" +:+ JoinHostPort host port)%string true (λ rt, rt)
               float32_zero 0 EmptyRest)
  else Err (BadAuthType apiConf.(AuthType_)).

Definition CreateRestConfig (apiConf : APIConfig) : result (RestError E) (RestConfig X) :=
  (let? cfg := loadConfig apiConf in
   Ok (MkRestConfig cfg.(Host) cfg.(Insecure) withoutProxy
         (if SFltb float32_zero apiConf.(KubeAPIQPS) then apiConf.(KubeAPIQPS) else cfg.(QPS))
         (if 0 <? apiConf.(KubeAPIBurst) then apiConf.(KubeAPIBurst) else cfg.(Burst))
         cfg.(rc_rest)))%result.
End rest.

(** * Results *)

Lemma validAuthTypes_spec a :
  default false (validAuthTypes !! a) = true ↔
    a = AuthTypeNone ∨ a = AuthTypeServiceAccount ∨ a = AuthTypeKubeConfig.
Proof.
  unfold validAuthTypes. rewrite !lookup_insert, lookup_empty.
  repeat case_decide; subst; naive_solver.
Qed.

Lemma Validate_None c :
  Validate c = None ↔
    (c.(AuthType_) = AuthTypeNone ∨ c.(AuthType_) = AuthTypeServiceAccount ∨
     c.(AuthType_) = AuthTypeKubeConfig) ∧
    SFltb c.(KubeAPIQPS) float32_zero = false ∧ 0 ≤ c.(KubeAPIBurst).
Proof.
  rewrite <- validAuthTypes_spec. unfold Validate.
  destruct (default false _); simpl; [|naive_solver].
  destruct (SFltb _ _); [naive_solver|].
  destruct (Z.ltb_spec (KubeAPIBurst c) 0); naive_solver lia.
Qed.

(** A validated configuration is never rejected for its type. *)
Lemma loadConfig_type {X E} `{!ClientGo X E} c a :
  Validate c = None → loadConfig c ≠ Err (BadAuthType a).
Proof.
  intros [Ht _]%Validate_None. unfold loadConfig, of_loader.
  repeat (case_decide || case_match); naive_solver.
Qed.

(** * Properties *)

(** A validated API configuration never fails for its authentication type; the
    client configuration that comes out never uses a proxy, and its rate limits
    are the configured ones where those are positive and the loader's
    otherwise. *)
Theorem rest_config_of_valid {X E} `{!ClientGo X E} c :
  Validate c = None →
  match CreateRestConfig c with
  | Err e => (∀ a, e ≠ BadAuthType a) ∧ (e = EnvNotSet → c.(AuthType_) = AuthTypeNone)
  | Ok cfg => ∃ base, loadConfig c = Ok base ∧ cfg.(Host) = base.(Host) ∧
      (∀ p, cfg.(WrapTransport) (HTTPTransport p) = HTTPTransport None) ∧
      cfg.(Burst) = (if decide (c.(KubeAPIBurst) = 0) then base.(Burst) else c.(KubeAPIBurst)) ∧
      cfg.(QPS) = (if SFltb float32_zero c.(KubeAPIQPS) then c.(KubeAPIQPS) else base.(QPS))
  end.
Proof.
  intros Hv. pose proof (loadConfig_type c) as Ht. apply Validate_None in Hv as Hv'.
  destruct Hv' as (_ & _ & Hb). unfold CreateRestConfig.
  destruct (loadConfig c) as [base|e] eqn:Hl; simpl.
  - exists base. split_and!; [done..| |done].
    destruct (Z.ltb_spec 0 (KubeAPIBurst c)); case_decide; lia || done.
  - split; [intros a ->; by apply (Ht a)|]. intros ->. unfold loadConfig, of_loader in Hl.
    repeat (case_decide || case_match); naive_solver.
Qed.

Module K8sSample.
#[local] Instance client_go : ClientGo unit string := {|
  InClusterConfig := Ok (MkRestConfig "https://10.0.0.1:443" false (λ rt, rt) float32_zero 0 tt);
  BuildConfigFromFlags _ := Err "no kubeconfig"%string;
  DeferredLoadingClientConfig := Err "no kubeconfig"%string;
  EmptyRest := tt;
  Getenv _ := EmptyString;
|}.

Definition config : APIConfig := MkAPIConfig AuthTypeServiceAccount EmptyString float32_zero 20.

Lemma rest_config_of_valid_witness :
  Validate config = None ∧
  match CreateRestConfig (X := unit) (E := string) config with
  | Err e => (∀ a, e ≠ BadAuthType a) ∧ (e = EnvNotSet → config.(AuthType_) = AuthTypeNone)
  | Ok cfg => ∃ base, loadConfig config = Ok base ∧ cfg.(Host) = base.(Host) ∧
      (∀ p, cfg.(WrapTransport) (HTTPTransport p) = HTTPTransport None) ∧
      cfg.(Burst) = (if decide (config.(KubeAPIBurst) = 0) then base.(Burst) else config.(KubeAPIBurst)) ∧
      cfg.(QPS) = (if SFltb float32_zero config.(KubeAPIQPS) then config.(KubeAPIQPS) else base.(QPS))
  end.
Proof.
  assert (Hv : Validate config = None) by reflexivity.
  exact (conj Hv (rest_config_of_valid config Hv)).
Defined.
End K8sSample.
