(* ===== verification/Config.v ===== *)
(** The receiver's configuration: [config.go] (type [Config]), [factory.go]
    ([createDefaultConfig]) and the accessors of [receiver.go] that put the
    defaults in. *)
From Stdlib Require Import Floats.SpecFloat.
From S2P Require Import Prelude GoTime Retry Cursor LogLine Consumer Connection Stream K8sConfig.
Open Scope Z_scope.

Record Config := MkConfig {
  APIConfig_ : APIConfig;
  Namespaces : list string;
  PodLabelSelector : string;
  SinceSeconds_ : option Z;
  StorageID : option string;
  MaxStreamLifetime : Z;
  PodResyncPeriod : option Z;
  ReconnectBackoff : ReconnectBackoffConfig;
  RetryOnFailure : ConsumerRetry.Config;
  MaxBatchSize : Z;
  FlushInterval : Z;
  MaxLogSize : Z;
  MaxLogSizeBehavior : string;
}.

Definition defaultMaxBatchSize : Z := 1000.
Definition defaultFlushInterval : Z := 200 * Millisecond.
Definition defaultMaxLogSize : Z := 1024 * 1024.
Definition defaultPodResyncPeriod : Z := 10 * Minute.
Definition defaultMaxStreamLifetime : Z := 1 * Hour.
Definition defaultSinceSeconds : Z := 300.

(** * [Validate] *)

Inductive ConfigError :=
| BadSinceSeconds | BadMaxStreamLifetime | BadPodResyncPeriod
| BadInitialInterval | BadMaxInterval | BadMaxElapsedTime
| BadRetryOnFailure (e : ConsumerRetry.ConfigError)
| BadMaxBatchSize | BadFlushInterval | BadMaxLogSize
| BadMaxLogSizeBehavior (e : BehaviorError)
| BadAPIConfig (e : APIConfigError).

Definition negative (o : option Z) : bool :=
  match o with Some n => n <? 0 | None => false end.

Definition Validate (cfg : Config) : option ConfigError :=
  if negative cfg.(SinceSeconds_) then Some BadSinceSeconds
  else if cfg.(MaxStreamLifetime) <? 0 then Some BadMaxStreamLifetime
  else if negative cfg.(PodResyncPeriod) then Some BadPodResyncPeriod
  else if cfg.(ReconnectBackoff).(InitialInterval) <? 0 then Some BadInitialInterval
  else if cfg.(ReconnectBackoff).(MaxInterval) <? 0 then Some BadMaxInterval
  else if cfg.(ReconnectBackoff).(MaxElapsedTime) <? 0 then Some BadMaxElapsedTime
  else
    match ConsumerRetry.Validate cfg.(RetryOnFailure) with
    | Some e => Some (BadRetryOnFailure e)
    | None =>
        if cfg.(MaxBatchSize) <? 0 then Some BadMaxBatchSize
        else if cfg.(FlushInterval) <? 0 then Some BadFlushInterval
        else if cfg.(MaxLogSize) <? 0 then Some BadMaxLogSize
        else
          match ParseBehavior cfg.(MaxLogSizeBehavior) with
          | Err e => Some (BadMaxLogSizeBehavior e)
          | Ok _ => BadAPIConfig <$> K8sConfig.Validate cfg.(APIConfig_)
          end
    end.

(** * [createDefaultConfig] *)

Definition createDefaultConfig : Config :=
  MkConfig (MkAPIConfig AuthTypeServiceAccount EmptyString float32_zero 0)
    [] EmptyString (Some defaultSinceSeconds) None defaultMaxStreamLifetime None
    (MkReconnectBackoff (1 * Second) (30 * Second) 0)
    ConsumerRetry.NewDefaultConfig
    defaultMaxBatchSize defaultFlushInterval defaultMaxLogSize BehaviorSplitName.

(** * The accessors, which a nil configuration also goes through *)

Definition podResyncPeriod (cfg : option Config) : Z :=
  match cfg with
  | None => defaultPodResyncPeriod
  | Some c => default defaultPodResyncPeriod c.(PodResyncPeriod)
  end.

(** A setting that only counts when it is positive. *)
Definition positive_or (f : Config → Z) (other : Z) (cfg : option Config) : Z :=
  match cfg with
  | Some c => if 0 <? f c then f c else other
  | None => other
  end.

Definition batchSize : option Config → Z := positive_or MaxBatchSize defaultMaxBatchSize.
Definition flushInterval : option Config → Z := positive_or FlushInterval defaultFlushInterval.
Definition maxLogSize : option Config → Z := positive_or MaxLogSize defaultMaxLogSize.

Definition logSizeBehavior (cfg : option Config) : Behavior :=
  match cfg with
  | None => BehaviorSplit
  | Some c => match ParseBehavior c.(MaxLogSizeBehavior) with Ok b => b | Err _ => BehaviorSplit end
  end.

(** * Results *)

(** A float that compares less than zero; a NaN and the negative zero do not. *)
Definition below_zero (q : float32) : Prop :=
  match q with S754_infinity true | S754_finite true _ _ => True | _ => False end.

(** The range of every field. *)
Record config_ok (cfg : Config) : Prop := {
  co_since : ∀ n, cfg.(SinceSeconds_) = Some n → 0 ≤ n;
  co_lifetime : 0 ≤ cfg.(MaxStreamLifetime);
  co_resync : ∀ n, cfg.(PodResyncPeriod) = Some n → 0 ≤ n;
  co_initial : 0 ≤ cfg.(ReconnectBackoff).(InitialInterval);
  co_max : 0 ≤ cfg.(ReconnectBackoff).(MaxInterval);
  co_elapsed : 0 ≤ cfg.(ReconnectBackoff).(MaxElapsedTime);
  co_retry_initial : 0 ≤ cfg.(RetryOnFailure).(ConsumerRetry.InitialInterval);
  co_retry_max : 0 ≤ cfg.(RetryOnFailure).(ConsumerRetry.MaxInterval);
  co_retry_elapsed : 0 ≤ cfg.(RetryOnFailure).(ConsumerRetry.MaxElapsedTime);
  co_batch : 0 ≤ cfg.(MaxBatchSize);
  co_flush : 0 ≤ cfg.(FlushInterval);
  co_size : 0 ≤ cfg.(MaxLogSize);
  co_behavior : cfg.(MaxLogSizeBehavior) ∈ [""; "split"; "truncate"]%string;
  co_auth : cfg.(APIConfig_).(AuthType_) ∈ ["none"; "serviceAccount"; "kubeConfig"]%string;
  co_qps : ¬ below_zero cfg.(APIConfig_).(KubeAPIQPS);
  co_burst : 0 ≤ cfg.(APIConfig_).(KubeAPIBurst);
}.

(** The field an error complains about is indeed out of range. *)
Definition blames (e : ConfigError) (cfg : Config) : Prop :=
  let retry := cfg.(RetryOnFailure) in let api := cfg.(APIConfig_) in
  match e with
  | BadSinceSeconds => ∃ n, cfg.(SinceSeconds_) = Some n ∧ n < 0
  | BadMaxStreamLifetime => cfg.(MaxStreamLifetime) < 0
  | BadPodResyncPeriod => ∃ n, cfg.(PodResyncPeriod) = Some n ∧ n < 0
  | BadInitialInterval => cfg.(ReconnectBackoff).(InitialInterval) < 0
  | BadMaxInterval => cfg.(ReconnectBackoff).(MaxInterval) < 0
  | BadMaxElapsedTime => cfg.(ReconnectBackoff).(MaxElapsedTime) < 0
  | BadRetryOnFailure ConsumerRetry.NegativeInitialInterval => retry.(ConsumerRetry.InitialInterval) < 0
  | BadRetryOnFailure ConsumerRetry.NegativeMaxInterval => retry.(ConsumerRetry.MaxInterval) < 0
  | BadRetryOnFailure ConsumerRetry.NegativeMaxElapsedTime => retry.(ConsumerRetry.MaxElapsedTime) < 0
  | BadMaxBatchSize => cfg.(MaxBatchSize) < 0
  | BadFlushInterval => cfg.(FlushInterval) < 0
  | BadMaxLogSize => cfg.(MaxLogSize) < 0
  | BadMaxLogSizeBehavior _ => cfg.(MaxLogSizeBehavior) ∉ [""; "split"; "truncate"]%string
  | BadAPIConfig (InvalidAuthType a) =>
      a = api.(AuthType_) ∧ a ∉ ["none"; "serviceAccount"; "kubeConfig"]%string
  | BadAPIConfig NegativeQPS => below_zero api.(KubeAPIQPS)
  | BadAPIConfig NegativeBurst => api.(KubeAPIBurst) < 0
  end.

Lemma negative_spec o : if negative o then ∃ n, o = Some n ∧ n < 0 else ∀ n, o = Some n → 0 ≤ n.
Proof. destruct o as [n|]; simpl; [|done]. destruct (Z.ltb_spec n 0); naive_solver. Qed.

Lemma ConsumerRetry_Validate_spec cfg :
  match ConsumerRetry.Validate cfg with
  | None => 0 ≤ cfg.(ConsumerRetry.InitialInterval) ∧ 0 ≤ cfg.(ConsumerRetry.MaxInterval) ∧
      0 ≤ cfg.(ConsumerRetry.MaxElapsedTime)
  | Some ConsumerRetry.NegativeInitialInterval => cfg.(ConsumerRetry.InitialInterval) < 0
  | Some ConsumerRetry.NegativeMaxInterval => cfg.(ConsumerRetry.MaxInterval) < 0
  | Some ConsumerRetry.NegativeMaxElapsedTime => cfg.(ConsumerRetry.MaxElapsedTime) < 0
  end.
Proof. unfold ConsumerRetry.Validate. zcases; tauto. Qed.

Lemma ParseBehavior_spec s :
  match ParseBehavior s with
  | Ok _ => s ∈ [""; "split"; "truncate"]%string
  | Err _ => s ∉ [""; "split"; "truncate"]%string
  end.
Proof.
  unfold ParseBehavior, BehaviorSplitName, BehaviorTruncateName.
  repeat case_decide; rewrite !elem_of_cons, elem_of_nil; tauto.
Qed.

Lemma SFltb_zero q : if SFltb q float32_zero then below_zero q else ¬ below_zero q.
Proof. by destruct q as [[]|[]| |[] m e]; unfold SFltb; simpl; auto. Qed.

Lemma validAuthTypes_names a :
  if default false (validAuthTypes !! a) then a ∈ ["none"; "serviceAccount"; "kubeConfig"]%string
  else a ∉ ["none"; "serviceAccount"; "kubeConfig"]%string.
Proof.
  pose proof (validAuthTypes_spec a) as Ha.
  unfold AuthTypeNone, AuthTypeServiceAccount, AuthTypeKubeConfig in Ha.
  destruct (default false _); rewrite !elem_of_cons, elem_of_nil; naive_solver.
Qed.

Lemma K8sConfig_Validate_spec c :
  match K8sConfig.Validate c with
  | None => c.(AuthType_) ∈ ["none"; "serviceAccount"; "kubeConfig"]%string ∧
      ¬ below_zero c.(KubeAPIQPS) ∧ 0 ≤ c.(KubeAPIBurst)
  | Some (InvalidAuthType a) => a = c.(AuthType_) ∧ a ∉ ["none"; "serviceAccount"; "kubeConfig"]%string
  | Some NegativeQPS => below_zero c.(KubeAPIQPS)
  | Some NegativeBurst => c.(KubeAPIBurst) < 0
  end.
Proof.
  unfold K8sConfig.Validate. pose proof (validAuthTypes_names c.(AuthType_)) as Ha.
  pose proof (SFltb_zero c.(KubeAPIQPS)) as Hq.
  destruct (default false _); simpl; [|done]. destruct (SFltb _ _); [done|]. by zcases.
Qed.

(** What each check of the chain says about the configuration. *)
Lemma Validate_spec cfg :
  match Validate cfg with None => config_ok cfg | Some e => blames e cfg end.
Proof.
  pose proof (negative_spec cfg.(SinceSeconds_)) as Hs. pose proof (negative_spec cfg.(PodResyncPeriod)) as Hp.
  pose proof (ConsumerRetry_Validate_spec cfg.(RetryOnFailure)) as Hr.
  pose proof (ParseBehavior_spec cfg.(MaxLogSizeBehavior)) as Hb.
  pose proof (K8sConfig_Validate_spec cfg.(APIConfig_)) as Ha.
  unfold Validate.
  destruct (negative (SinceSeconds_ cfg)); [done|].
  destruct (Z.ltb_spec (MaxStreamLifetime cfg) 0); [done|].
  destruct (negative (PodResyncPeriod cfg)); [done|].
  destruct (Z.ltb_spec (InitialInterval (ReconnectBackoff cfg)) 0); [done|].
  destruct (Z.ltb_spec (MaxInterval (ReconnectBackoff cfg)) 0); [done|].
  destruct (Z.ltb_spec (MaxElapsedTime (ReconnectBackoff cfg)) 0); [done|].
  destruct (ConsumerRetry.Validate (RetryOnFailure cfg)) as [[]|]; [done..|].
  destruct (Z.ltb_spec (MaxBatchSize cfg) 0); [done|].
  destruct (Z.ltb_spec (FlushInterval cfg) 0); [done|].
  destruct (Z.ltb_spec (MaxLogSize cfg) 0); [done|].
  destruct (ParseBehavior (MaxLogSizeBehavior cfg)) as [b|e]; [|done].
  destruct (K8sConfig.Validate (APIConfig_ cfg)) as [[]|]; simpl; [done..|].
  destruct_and!. by split.
Qed.

(** A configuration in range is blamed for nothing. *)
Lemma config_ok_blameless cfg e : config_ok cfg → blames e cfg → False.
Proof.
  intros [] He. destruct e as [| | | | | |[]| | | |b|[]]; simpl in He; try lia; try done.
  - destruct He as (n & Hn & ?). specialize (co_since0 n Hn). lia.
  - destruct He as (n & Hn & ?). specialize (co_resync0 n Hn). lia.
  - destruct He as [-> He]. done.
Qed.

Lemma Validate_ok cfg : Validate cfg = None ↔ config_ok cfg.
Proof.
  pose proof (Validate_spec cfg) as Hv. destruct (Validate cfg) as [e|]; [|done].
  split; [done|]. intros Hok. by destruct (config_ok_blameless _ _ Hok Hv).
Qed.

(** Whatever a validated configuration says, the effective settings are fit for
    use: a ticker needs a positive interval, a batch a positive bound. *)
Lemma effective_positive cfg :
  0 < batchSize cfg ∧ 0 < flushInterval cfg ∧ 0 < maxLogSize cfg.
Proof.
  unfold batchSize, flushInterval, maxLogSize, positive_or.
  destruct cfg as [c|]; [|done]. split_and!; zcases; done.
Qed.

(** * Properties *)

(** C37: Validation accepts exactly the configurations in range: no negative bound,
    interval, period or rate, neither in the receiver's own settings nor in its
    retry and API sections, one of the three authentication types, and split,
    truncate or nothing for the oversize behaviour.  The error of any other names
    a setting that is out of range. *)
Theorem Validate_accepts cfg :
  (Validate cfg = None ↔ config_ok cfg) ∧ ∀ e, Validate cfg = Some e → blames e cfg.
Proof.
  split; [apply Validate_ok|]. intros e He. pose proof (Validate_spec cfg) as Hv. by rewrite He in Hv.
Qed.

Lemma Validate_accepts_witness :
  blames BadSinceSeconds
    (MkConfig (MkAPIConfig AuthTypeNone EmptyString float32_zero 0) [] EmptyString (Some (-1)) None 0 None
       (MkReconnectBackoff 0 0 0) ConsumerRetry.NewDefaultConfig 0 0 0 BehaviorSplitName).
Proof. apply (proj2 (Validate_accepts _)). reflexivity. Defined.

(** The factory's default configuration is valid, and its effective settings are
    the documented defaults. *)
Theorem default_config_valid :
  Validate createDefaultConfig = None ∧
  batchSize (Some createDefaultConfig) = 1000 ∧
  flushInterval (Some createDefaultConfig) = 200 * Millisecond ∧
  maxLogSize (Some createDefaultConfig) = 1048576 ∧
  podResyncPeriod (Some createDefaultConfig) = 10 * Minute ∧
  logSizeBehavior (Some createDefaultConfig) = BehaviorSplit ∧
  createDefaultConfig.(SinceSeconds_) = Some 300 ∧
  createDefaultConfig.(ReconnectBackoff).(MaxElapsedTime) = 0.
Proof. repeat split. Qed.

(** What the API server asks of a log request: [sinceSeconds] is greater than
    zero, and not given together with [sinceTime]. *)
Definition api_accepts (opts : PodLogOptions) : Prop :=
  (∀ n, opts.(SinceSeconds) = Some n → 0 < n) ∧
  (opts.(SinceTime) = None ∨ opts.(SinceSeconds) = None).

(** C38: A validated configuration meets what the other components rely on: a
    positive batch bound, flush interval and record size whatever the settings
    say, a resync period, backoff and retry intervals, elapsed-time limits and
    a stream lifetime that are not negative, and a behaviour that is the one
    named.  Every log request a stream makes under it is one the API server
    accepts, and [since_seconds] zero goes out as the time of the request. *)
Theorem valid_config_usable cfg telemetry :
  Validate cfg = None →
  0 < batchSize (Some cfg) ∧ 0 < flushInterval (Some cfg) ∧ 0 < maxLogSize (Some cfg) ∧
  0 ≤ podResyncPeriod (Some cfg) ∧ 0 ≤ cfg.(MaxStreamLifetime) ∧
  0 ≤ cfg.(ReconnectBackoff).(InitialInterval) ∧ 0 ≤ cfg.(ReconnectBackoff).(MaxInterval) ∧
  0 ≤ cfg.(ReconnectBackoff).(MaxElapsedTime) ∧
  0 ≤ cfg.(RetryOnFailure).(ConsumerRetry.InitialInterval) ∧
  0 ≤ cfg.(RetryOnFailure).(ConsumerRetry.MaxInterval) ∧
  0 ≤ cfg.(RetryOnFailure).(ConsumerRetry.MaxElapsedTime) ∧
  ParseBehavior cfg.(MaxLogSizeBehavior) = Ok (logSizeBehavior (Some cfg)) ∧
  ∀ s now,
    let opts := open_options (MkStreamCfg cfg.(SinceSeconds_) cfg.(ReconnectBackoff) cfg.(MaxStreamLifetime) telemetry) s now in
    api_accepts opts ∧ api_accepts (drain_options s) ∧
    (TS s.(resume) = 0 →
     opts.(SinceTime) = (if decide (cfg.(SinceSeconds_) = Some 0) then Some now else None) ∧
     opts.(SinceSeconds) = (if decide (cfg.(SinceSeconds_) = Some 0) then None else cfg.(SinceSeconds_))).
Proof.
  intros Hv. apply Validate_ok in Hv as []. destruct (effective_positive (Some cfg)) as (? & ? & ?).
  split_and!; try done.
  - simpl. destruct (PodResyncPeriod cfg) eqn:Hp; [auto|]. simpl. done.
  - simpl. pose proof (ParseBehavior_spec (MaxLogSizeBehavior cfg)) as Hb. by destruct (ParseBehavior _).
  - intros s now opts. unfold opts, open_options, streamStartPoint. cbn [sinceSeconds].
    assert (Hdrain : api_accepts (drain_options s)) by (split; [done|by right]).
    destruct (Time.IsZero (TS (resume s))) eqn:Hz; simpl.
    2: { unfold Time.IsZero in Hz. apply Z.eqb_neq in Hz. split_and!; [split; [done|by right]|done|done]. }
    destruct (decide (SinceSeconds_ cfg = Some 0)) as [Hzero|Hnonzero].
    + rewrite bool_decide_true by done. by split_and!; [split; [done|right]| |].
    + rewrite bool_decide_false by done. split_and!; [|done|done]. split; [|by left].
      simpl. intros n Hn. specialize (co_since0 n Hn). assert (n ≠ 0) by congruence. lia.
Qed.

Lemma valid_config_usable_witness :
  Validate createDefaultConfig = None ∧ 0 < batchSize (Some createDefaultConfig).
Proof.
  assert (Hv : Validate createDefaultConfig = None) by reflexivity.
  exact (conj Hv (proj1 (valid_config_usable createDefaultConfig true Hv))).
Defined.
