(* ===== verification/Receiver.v ===== *)
(** The receiver's bookkeeping: type [logsReceiver] of [receiver.go], its pod
    handlers, and what streams report back to it.

    Every definition that runs under [r.mu] in the source is one atomic step of
    the receiver's state; the handlers are their compositions, and System.v
    interleaves them.  The goroutines, contexts and metrics appear as outputs. *)
From S2P Require Import Prelude GoTime Cursor LogLine Stream Store Config PodDiscovery.
Open Scope Z_scope.

(** * Keys *)

(** [strings.Split] for a separator of one character. *)
Definition slash : Ascii.ascii := Ascii.ascii_of_nat 47.

Fixpoint Split (s : string) (sep : Ascii.ascii) : list string :=
  match s with
  | EmptyString => [EmptyString]
  | String a s' =>
      if decide (a = sep) then EmptyString :: Split s' sep
      else match Split s' sep with
           | x :: l => String a x :: l
           | [] => [String a EmptyString]
           end
  end.

Definition streamKey (namespace podName podUID containerName : string) : string :=
  (namespace +:+ String slash (podName +:+ String slash (podUID +:+ String slash containerName)))%string.

Definition podUIDFromStreamKey (key : string) : string :=
  match Split key slash with
  | [_; _; uid; _] => uid
  | _ => EmptyString
  end.

(** * Pods, as the receiver reads them *)

Definition RestartPolicyNever : string := "Never".
Definition RestartPolicyOnFailure : string := "OnFailure".
Definition ContainerRestartPolicyAlways : string := "Always".

Definition podContainers (pod : Pod) : list Container :=
  pod.(p_InitContainers) ++ pod.(p_Containers).

(** The first status with the container's name, in the order of the two loops. *)
Definition containerHasStarted (pod : Pod) (name : string) : bool :=
  match list_find (λ cs, cs.(cs_Name) = name) (pod.(p_ContainerStatuses) ++ pod.(p_InitContainerStatuses)) with
  | Some (_, cs) =>
      cs.(cs_Running) || bool_decide (is_Some cs.(cs_Terminated)) || bool_decide (is_Some cs.(cs_LastTerminated))
  | None => false
  end.

Definition containerIsTerminal (podPolicy : string) (cs : ContainerStatus) (isInit : bool)
    (ownPolicy : option string) : bool :=
  match cs.(cs_Terminated) with
  | None => false
  | Some ExitCode =>
      if decide (ownPolicy = Some ContainerRestartPolicyAlways) then false
      else if isInit then (ExitCode =? 0) || bool_decide (podPolicy = RestartPolicyNever)
      else if decide (podPolicy = RestartPolicyNever) then true
      else if decide (podPolicy = RestartPolicyOnFailure) then ExitCode =? 0
      else false
  end.

Definition initContainerRestartPolicy (pod : Pod) (name : string) : option string :=
  match list_find (λ c, c.(c_Name) = name) pod.(p_InitContainers) with
  | Some (_, c) => c.(c_RestartPolicy)
  | None => None
  end.

Definition podKey (pod : Pod) (name : string) : string :=
  streamKey pod.(p_Namespace) pod.(p_Name) pod.(p_UID) name.

(** * State *)

(** The handle of a stream.  Its cancel function ends the context of the
    goroutine started with the same generation. *)
Record streamHandle := MkHandle { gen : Z }.

Record logsReceiver := MkReceiver {
  activeStreams : gmap string streamHandle;
  nextStreamGen : Z;
  terminatedContainers : gset string;
  drainedContainers : gset string;
  r_cursors : Store;
  restartCounts : gmap string Z;
}.

(** What [startStream] is called with. *)
Record streamArgs := MkStreamArgs {
  sa_namespace : string;
  sa_podName : string;
  sa_podUID : string;
  sa_containerName : string;
  sa_nodeName : string;
  sa_key : string;
  sa_gen : Z;
}.

Inductive eventType := eventTypeAdded | eventTypeDeleted.

Inductive rcv_output :=
| OutEvent (e : eventType)            (* PodDiscoveryEventsTotal *)
| OutGauge (n : nat)                  (* ActiveLogStreams *)
| OutStart (a : streamArgs)           (* go r.startStream *)
| OutCancel (key : string) (gen : Z). (* h.cancel() *)

Definition set_active (r : logsReceiver) (m : gmap string streamHandle) : logsReceiver :=
  MkReceiver m r.(nextStreamGen) r.(terminatedContainers) r.(drainedContainers) r.(r_cursors) r.(restartCounts).
Definition set_store (r : logsReceiver) (s : Store) : logsReceiver :=
  MkReceiver r.(activeStreams) r.(nextStreamGen) r.(terminatedContainers) r.(drainedContainers) s r.(restartCounts).
Definition set_terminated (r : logsReceiver) (t : gset string) : logsReceiver :=
  MkReceiver r.(activeStreams) r.(nextStreamGen) t r.(drainedContainers) r.(r_cursors) r.(restartCounts).
Definition set_drained (r : logsReceiver) (t : gset string) : logsReceiver :=
  MkReceiver r.(activeStreams) r.(nextStreamGen) r.(terminatedContainers) t r.(r_cursors) r.(restartCounts).
Definition set_restartCounts (r : logsReceiver) (m : gmap string Z) : logsReceiver :=
  MkReceiver r.(activeStreams) r.(nextStreamGen) r.(terminatedContainers) r.(drainedContainers) r.(r_cursors) m.

(** [newLogsReceiver], with the store [Start] puts in. *)
Definition newLogsReceiver (store : Store) : logsReceiver :=
  MkReceiver ∅ 0 ∅ ∅ store ∅.

Section receiver.
Context (telemetry : bool).
Implicit Types (r : logsReceiver) (pod : Pod) (key : string).

(** * Lookups *)

Definition cursorFor r key : Cursor := Get r.(r_cursors) key.
Definition isContainerTerminal r key : bool := bool_decide (key ∈ r.(terminatedContainers)).
Definition getRestartCount r key : Z := default 0 (r.(restartCounts) !! key).

Definition recordActiveStreams r : list rcv_output :=
  if telemetry then [OutGauge (size r.(activeStreams))] else [].

(** * What pods do *)

Definition recordPodUIDSeen r (podUID : string) (now : Z) : logsReceiver :=
  set_store r (MarkPodSeen r.(r_cursors) podUID now).

(** One status of either loop of [markContainerStates]. *)
Definition markContainer pod (isInit : bool) r (cs : ContainerStatus) : logsReceiver :=
  let key := podKey pod cs.(cs_Name) in
  let r := set_restartCounts r (<[key := cs.(cs_RestartCount)]> r.(restartCounts)) in
  let own := if isInit then initContainerRestartPolicy pod cs.(cs_Name) else None in
  if containerIsTerminal pod.(p_RestartPolicy) cs isInit own
  then set_terminated r (r.(terminatedContainers) ∪ {[key]})
  else r.

Definition markContainerStates r pod : logsReceiver :=
  let r := foldl (markContainer pod false) r pod.(p_ContainerStatuses) in
  foldl (markContainer pod true) r pod.(p_InitContainerStatuses).

(** One container of the loop of [ensureStreams]. *)
Definition ensureStream pod r (container : Container) : logsReceiver * list rcv_output :=
  if negb (containerHasStarted pod container.(c_Name)) then (r, [])
  else
    let key := podKey pod container.(c_Name) in
    if decide (is_Some (r.(activeStreams) !! key)) then (r, [])
    else if decide (key ∈ r.(drainedContainers)) then (r, [])
    else
      let g := uint64 (r.(nextStreamGen) + 1) in
      (MkReceiver (<[key := MkHandle g]> r.(activeStreams)) g r.(terminatedContainers)
         r.(drainedContainers) r.(r_cursors) r.(restartCounts),
       [OutStart (MkStreamArgs pod.(p_Namespace) pod.(p_Name) pod.(p_UID) container.(c_Name)
          pod.(p_NodeName) key g)]).

Fixpoint ensure_all pod r (l : list Container) : logsReceiver * list rcv_output :=
  match l with
  | [] => (r, [])
  | c :: l' =>
      let '(r, out) := ensureStream pod r c in
      let '(r, out') := ensure_all pod r l' in (r, out ++ out')
  end.

Definition ensureStreams r pod : logsReceiver * list rcv_output :=
  let '(r, out) := ensure_all pod r (podContainers pod) in
  (r, out ++ recordActiveStreams r).

Definition onPodUpdated r pod (now : Z) : logsReceiver * list rcv_output :=
  let r := recordPodUIDSeen r pod.(p_UID) now in
  let r := markContainerStates r pod in
  ensureStreams r pod.

Definition onPodAdded r pod (now : Z) : logsReceiver * list rcv_output :=
  let '(r, out) := onPodUpdated r pod now in
  (r, (if telemetry then [OutEvent eventTypeAdded] else []) ++ out).

(** One container of the loop of [onPodDeleted]. *)
Definition deleteContainer pod (inferred : bool) r (container : Container)
    : logsReceiver * list rcv_output :=
  let key := podKey pod container.(c_Name) in
  let out := match r.(activeStreams) !! key with Some h => [OutCancel key h.(gen)] | None => [] end in
  (MkReceiver (delete key r.(activeStreams)) r.(nextStreamGen)
     (r.(terminatedContainers) ∖ {[key]}) (r.(drainedContainers) ∖ {[key]})
     (if inferred then r.(r_cursors) else Forget r.(r_cursors) key) r.(restartCounts), out).

Fixpoint delete_all pod (inferred : bool) r (l : list Container) : logsReceiver * list rcv_output :=
  match l with
  | [] => (r, [])
  | c :: l' =>
      let '(r, out) := deleteContainer pod inferred r c in
      let '(r, out') := delete_all pod inferred r l' in (r, out ++ out')
  end.

Definition onPodDeleted r pod (inferred : bool) : logsReceiver * list rcv_output :=
  let '(r, out) := delete_all pod inferred r (podContainers pod) in
  (r, (if telemetry then [OutEvent eventTypeDeleted] else []) ++ out ++ recordActiveStreams r).

(** The handler, by the call it receives. *)
Definition handle r (call : HandlerCall) (now : Z) : logsReceiver * list rcv_output :=
  match call with
  | CallAdd pod => onPodAdded r pod now
  | CallUpdate pod => onPodUpdated r pod now
  | CallDelete pod inferred => onPodDeleted r pod inferred
  end.

(** * What streams do *)

(** The entry of a key still belongs to generation [g]. *)
Definition owns r key (g : Z) : bool :=
  match r.(activeStreams) !! key with Some h => h.(gen) =? g | None => false end.

Definition advanceCursor r key (g : Z) (c : Cursor) : logsReceiver :=
  if negb (owns r key g) then r else set_store r (Advance r.(r_cursors) key c).

Definition releaseStream r key (g : Z) : logsReceiver * list rcv_output :=
  if owns r key g then
    let r := set_active r (delete key r.(activeStreams)) in
    let r :=
      if decide (key ∈ r.(terminatedContainers))
      then set_drained r (r.(drainedContainers) ∪ {[key]}) else r in
    (r, recordActiveStreams r)
  else (r, []).

(** * Expiry *)

(** The second half of [pruneStaleCursors], under [r.mu]. *)
Definition dropPruned r (pruned : list string) : logsReceiver :=
  foldl (λ r key,
    MkReceiver r.(activeStreams) r.(nextStreamGen) (r.(terminatedContainers) ∖ {[key]})
      (r.(drainedContainers) ∖ {[key]}) r.(r_cursors) (delete key r.(restartCounts))) r pruned.

Definition pruneStaleCursors r (now : Z) : logsReceiver :=
  let '(store, pruned) := Prune podUIDFromStreamKey r.(r_cursors) (now - StaleAfter) in
  dropPruned (set_store r store) pruned.

(** * Streams *)

Definition newContainerStream r (a : streamArgs) : containerStream :=
  MkContainerStream
    (MkMeta a.(sa_namespace) a.(sa_podName) a.(sa_podUID) a.(sa_containerName) a.(sa_nodeName) 0)
    0 (cursorFor r a.(sa_key)) 0 true.

Definition newStreamCfg (cfg : Config.Config) : stream_cfg :=
  MkStreamCfg cfg.(SinceSeconds_) cfg.(ReconnectBackoff) cfg.(MaxStreamLifetime) telemetry.

(** What a stream's outputs do to the receiver: [onDelivered] is
    [advanceCursor]. *)
Definition deliver_outputs key (g : Z) r (out : list stream_output) : logsReceiver :=
  foldl (λ r c, advanceCursor r key g c) r (published out).
End receiver.

(** * Keys, round trip *)

Definition no_slash (s : string) : Prop := slash ∉ String.list_ascii_of_string s.

Lemma Split_no_slash s : no_slash s → Split s slash = [s].
Proof.
  unfold no_slash. induction s as [|a s IH]; [done|]. cbn [Split String.list_ascii_of_string].
  rewrite not_elem_of_cons. intros [Ha Hs]. rewrite decide_False by done. by rewrite IH.
Qed.

Lemma Split_app s t : no_slash s → Split (s +:+ String slash t)%string slash = s :: Split t slash.
Proof.
  unfold no_slash. induction s as [|a s IH]; intros Hs.
  - change (EmptyString +:+ String slash t)%string with (String slash t).
    cbn [Split]. by rewrite decide_True.
  - change (String a s +:+ String slash t)%string with (String a (s +:+ String slash t)).
    cbn [Split String.list_ascii_of_string] in *.
    apply not_elem_of_cons in Hs as [Ha Hs]. rewrite decide_False by done. by rewrite IH.
Qed.

Lemma Split_streamKey ns pod uid c :
  no_slash ns → no_slash pod → no_slash uid → no_slash c →
  Split (streamKey ns pod uid c) slash = [ns; pod; uid; c].
Proof.
  intros. unfold streamKey. rewrite !Split_app by done. by rewrite Split_no_slash.
Qed.

(** * What each operation does to the state *)

Section results.
Context (telemetry : bool).
Implicit Types (r : logsReceiver) (pod : Pod) (key : string).

(** The part of the state that [ensureStreams] leaves alone. *)
Definition same_but_streams r r' : Prop :=
  r'.(terminatedContainers) = r.(terminatedContainers) ∧
  r'.(drainedContainers) = r.(drainedContainers) ∧
  r'.(r_cursors) = r.(r_cursors) ∧ r'.(restartCounts) = r.(restartCounts).

(** A container the receiver has to be streaming. *)
Definition wanted pod r (c : Container) : Prop :=
  containerHasStarted pod c.(c_Name) = true ∧ podKey pod c.(c_Name) ∉ r.(drainedContainers).

#[export] Instance wanted_dec pod r c : Decision (wanted pod r c).
Proof. unfold wanted. apply _. Defined.

(** The generations a list of outputs starts. *)
Definition starts (out : list rcv_output) : list streamArgs :=
  omap (λ o, match o with OutStart a => Some a | _ => None end) out.

Lemma starts_app l k : starts (l ++ k) = starts l ++ starts k.
Proof. apply omap_app. Qed.

(** The streams a list of outputs cancels. *)
Definition cancels (out : list rcv_output) : list (string * Z) :=
  omap (λ o, match o with OutCancel k g => Some (k, g) | _ => None end) out.

(** One container: nothing, or one new stream under the next generation. *)
Lemma ensureStream_cases pod r c :
  let key := podKey pod c.(c_Name) in
  (ensureStream pod r c = (r, []) ∧ (wanted pod r c → is_Some (r.(activeStreams) !! key))) ∨
  (wanted pod r c ∧ r.(activeStreams) !! key = None ∧
   ∃ r' a, ensureStream pod r c = (r', [OutStart a]) ∧ same_but_streams r r' ∧
     r'.(nextStreamGen) = uint64 (r.(nextStreamGen) + 1) ∧
     a = MkStreamArgs pod.(p_Namespace) pod.(p_Name) pod.(p_UID) c.(c_Name) pod.(p_NodeName) key
           r'.(nextStreamGen) ∧
     r'.(activeStreams) = <[key := MkHandle r'.(nextStreamGen)]> r.(activeStreams)).
Proof.
  intros key. unfold ensureStream, wanted. fold key.
  destruct (containerHasStarted pod (c_Name c)); simpl; [|left; naive_solver].
  destruct (decide (is_Some (activeStreams r !! key))) as [Hs|Hn]; [by left|].
  destruct (decide (key ∈ drainedContainers r)); [left; naive_solver|right].
  split_and!; [done|done|by apply eq_None_not_Some|]. eexists _, _. split_and!; done.
Qed.

Lemma same_but_streams_trans r1 r2 r3 :
  same_but_streams r1 r2 → same_but_streams r2 r3 → same_but_streams r1 r3.
Proof. unfold same_but_streams. intros (-> & -> & -> & ->) (-> & -> & -> & ->). done. Qed.

Lemma wanted_same pod r r' c : same_but_streams r r' → wanted pod r' c ↔ wanted pod r c.
Proof. unfold wanted. by intros (_ & -> & _). Qed.

Lemma ensure_all_spec pod r l r' out :
  ensure_all pod r l = (r', out) →
  same_but_streams r r' ∧
  (∀ key h, r.(activeStreams) !! key = Some h → r'.(activeStreams) !! key = Some h) ∧
  (∀ c, c ∈ l → wanted pod r c → is_Some (r'.(activeStreams) !! podKey pod c.(c_Name))) ∧
  (∀ key h, r'.(activeStreams) !! key = Some h → r.(activeStreams) !! key = None →
     ∃ c, c ∈ l ∧ wanted pod r c ∧ podKey pod c.(c_Name) = key ∧
       MkStreamArgs pod.(p_Namespace) pod.(p_Name) pod.(p_UID) c.(c_Name) pod.(p_NodeName) key h.(gen)
         ∈ starts out) ∧
  (∀ a, a ∈ starts out → r.(activeStreams) !! a.(sa_key) = None ∧
     r'.(activeStreams) !! a.(sa_key) = Some (MkHandle a.(sa_gen))).
Proof.
  revert r r' out. induction l as [|c l IH]; intros r r' out He; simpl in He.
  { simplify_eq. split_and!; [done|done|set_solver|congruence|set_solver]. }
  destruct (ensureStream pod r c) as [r1 out1] eqn:H1.
  destruct (ensure_all pod r1 l) as [r2 out2] eqn:H2. simplify_eq.
  destruct (IH _ _ _ H2) as (Hs2 & Hk2 & Hw2 & Hn2 & Ho2).
  destruct (ensureStream_cases pod r c) as [[He Hact]|(Hwant & Hnone & r3 & a & He & Hs1 & Hg & Ha & Hm)];
    rewrite He in H1; simplify_eq; simpl.
  - split_and!; [done|done| |naive_solver set_solver|done].
    intros c' Hc' Hw. apply elem_of_cons in Hc' as [->|Hc']; [|by apply Hw2].
    destruct (Hact Hw) as [h Hh]. exists h. by apply Hk2.
  - assert (Hkeep : ∀ key h, activeStreams r !! key = Some h → activeStreams r1 !! key = Some h).
    { intros key h Hh. rewrite Hm, lookup_insert_ne; [done|]. intros <-. congruence. }
    split_and!.
    + by eapply same_but_streams_trans.
    + auto.
    + intros c' Hc' Hw. apply elem_of_cons in Hc' as [->|Hc'].
      * eexists. apply Hk2. by rewrite Hm, lookup_insert_eq.
      * apply Hw2; [done|]. by apply (wanted_same pod r r1).
    + intros key h Hh Hr. destruct (activeStreams r1 !! key) as [h1|] eqn:Hr1.
      * assert (key = podKey pod (c_Name c)) as ->.
        { apply dec_stable. intros Hne. rewrite Hm, lookup_insert_ne in Hr1 by done. congruence. }
        pose proof (Hk2 _ _ Hr1) as Hh'. rewrite Hh in Hh'. simplify_eq.
        rewrite Hm, lookup_insert_eq in Hr1. simplify_eq.
        exists c. split_and!; [set_solver|done|done|]. set_solver.
      * destruct (Hn2 _ _ Hh Hr1) as (c' & ? & Hw' & ? & ?). exists c'.
        split_and!; [set_solver|by apply (wanted_same pod r r1)|done|set_solver].
    + intros a Ha. apply elem_of_cons in Ha as [->|Ha]; simpl.
      * split; [done|]. apply Hk2. by rewrite Hm, lookup_insert_eq.
      * destruct (Ho2 _ Ha) as [Hn Hh]. split; [|done].
        destruct (activeStreams r !! sa_key a) eqn:Hr; [|done]. apply Hkeep in Hr. congruence.
Qed.

(** No container is started twice, and none is stopped. *)
Lemma ensure_all_once pod r l r' out :
  ensure_all pod r l = (r', out) → NoDup (sa_key <$> starts out) ∧ cancels out = [].
Proof.
  revert r r' out. induction l as [|c l IH]; intros r r' out He; simpl in He.
  { simplify_eq. by split; [apply NoDup_nil|]. }
  destruct (ensureStream pod r c) as [r1 out1] eqn:H1.
  destruct (ensure_all pod r1 l) as [r2 out2] eqn:H2. simplify_eq.
  destruct (IH _ _ _ H2) as [Hnd Hc]. destruct (ensure_all_spec _ _ _ _ _ H2) as (_ & _ & _ & _ & Ho).
  destruct (ensureStream_cases pod r c) as [[He Hact]|(_ & _ & r3 & a & He & _ & _ & Ha & Hm)];
    rewrite He in H1; simplify_eq; simpl; [done|]. split; [|done].
  apply NoDup_cons. split; [|done]. intros (a & Heq & Hin)%list_elem_of_fmap. simpl in Heq.
  destruct (Ho _ Hin) as [Hnone _]. by rewrite <- Heq, Hm, lookup_insert_eq in Hnone.
Qed.

(** Asking again starts nothing. *)
Lemma ensure_all_idle pod r l :
  (∀ c, c ∈ l → wanted pod r c → is_Some (r.(activeStreams) !! podKey pod c.(c_Name))) →
  ensure_all pod r l = (r, []).
Proof.
  induction l as [|c l IH]; intros Hl; [done|]. simpl.
  destruct (ensureStream_cases pod r c) as [[-> _]|(Hw & Hn & _)].
  - by rewrite IH by set_solver.
  - destruct (Hl c ltac:(set_solver) Hw) as [h Hh]. congruence.
Qed.

(** ** Terminal marks *)

Definition marks pod (isInit : bool) (cs : ContainerStatus) : bool :=
  containerIsTerminal pod.(p_RestartPolicy) cs isInit
    (if isInit then initContainerRestartPolicy pod cs.(cs_Name) else None).

Lemma markContainer_all pod isInit r l :
  let r' := foldl (markContainer pod isInit) r l in
  r'.(activeStreams) = r.(activeStreams) ∧ r'.(nextStreamGen) = r.(nextStreamGen) ∧
  r'.(drainedContainers) = r.(drainedContainers) ∧ r'.(r_cursors) = r.(r_cursors) ∧
  ∀ key, key ∈ r'.(terminatedContainers) ↔ key ∈ r.(terminatedContainers) ∨
    ∃ cs, cs ∈ l ∧ podKey pod cs.(cs_Name) = key ∧ marks pod isInit cs = true.
Proof.
  revert r. induction l as [|cs l IH]; intros r; simpl; [split_and!; set_solver|].
  destruct (IH (markContainer pod isInit r cs)) as (-> & -> & -> & -> & Ht).
  assert (Hm : let r1 := markContainer pod isInit r cs in
    r1.(activeStreams) = r.(activeStreams) ∧ r1.(nextStreamGen) = r.(nextStreamGen) ∧
    r1.(drainedContainers) = r.(drainedContainers) ∧ r1.(r_cursors) = r.(r_cursors) ∧
    ∀ key, key ∈ r1.(terminatedContainers) ↔ key ∈ r.(terminatedContainers) ∨
      (podKey pod cs.(cs_Name) = key ∧ marks pod isInit cs = true)).
  { unfold markContainer, marks. destruct (containerIsTerminal _ _ _ _); simpl; split_and!; set_solver. }
  simpl in Hm. destruct Hm as (-> & -> & -> & -> & Hm). split_and!; [done..|].
  intros key. rewrite Ht, Hm. set_solver.
Qed.

Lemma markContainerStates_spec r pod :
  let r' := markContainerStates r pod in
  r'.(activeStreams) = r.(activeStreams) ∧ r'.(nextStreamGen) = r.(nextStreamGen) ∧
  r'.(drainedContainers) = r.(drainedContainers) ∧ r'.(r_cursors) = r.(r_cursors) ∧
  ∀ key, key ∈ r'.(terminatedContainers) ↔ key ∈ r.(terminatedContainers) ∨
    (∃ cs, cs ∈ pod.(p_ContainerStatuses) ∧ podKey pod cs.(cs_Name) = key ∧ marks pod false cs = true) ∨
    (∃ cs, cs ∈ pod.(p_InitContainerStatuses) ∧ podKey pod cs.(cs_Name) = key ∧ marks pod true cs = true).
Proof.
  unfold markContainerStates.
  destruct (markContainer_all pod false r (p_ContainerStatuses pod)) as (Ha & Hg & Hd & Hc & Ht).
  destruct (markContainer_all pod true (foldl (markContainer pod false) r (p_ContainerStatuses pod))
    (p_InitContainerStatuses pod)) as (Ha' & Hg' & Hd' & Hc' & Ht').
  simpl. split_and!; [congruence..|]. intros key. rewrite Ht', Ht. tauto.
Qed.

(** ** Deletion *)

Definition podKeys pod (l : list Container) : list string := (λ c, podKey pod c.(c_Name)) <$> l.

Lemma delete_all_spec pod inferred r l r' out :
  delete_all pod inferred r l = (r', out) →
  r'.(nextStreamGen) = r.(nextStreamGen) ∧ r'.(restartCounts) = r.(restartCounts) ∧
  (∀ key, r'.(activeStreams) !! key = if decide (key ∈ podKeys pod l) then None else r.(activeStreams) !! key) ∧
  (∀ key, key ∈ r'.(terminatedContainers) ↔ key ∈ r.(terminatedContainers) ∧ key ∉ podKeys pod l) ∧
  (∀ key, key ∈ r'.(drainedContainers) ↔ key ∈ r.(drainedContainers) ∧ key ∉ podKeys pod l) ∧
  (∀ key, r'.(r_cursors).(cursors) !! key =
     if decide (inferred = false ∧ key ∈ podKeys pod l) then None else r.(r_cursors).(cursors) !! key) ∧
  (∀ key g, (key, g) ∈ cancels out ↔
     key ∈ podKeys pod l ∧ r.(activeStreams) !! key = Some (MkHandle g)).
Proof.
  revert r r' out. induction l as [|c l IH]; intros r r' out Hd; simpl in Hd.
  { simplify_eq. split_and!; try done; intros; rewrite ?decide_False by set_solver; set_solver. }
  set (r1 := MkReceiver _ _ _ _ _ _) in Hd.
  destruct (delete_all pod inferred r1 l) as [r2 out2] eqn:H2. simplify_eq.
  destruct (IH _ _ _ H2) as (-> & -> & Ha & Ht & Hdr & Hcur & Hcan). clear IH H2.
  set (k0 := podKey pod (c_Name c)) in *.
  split_and!; [done|done| | | | |].
  - intros key. rewrite Ha. unfold r1; cbn [podKeys fmap list_fmap activeStreams]. fold k0.
    destruct (decide (key = k0)) as [->|Hne].
    + rewrite (decide_True (P := k0 ∈ k0 :: _)) by set_solver. rewrite lookup_delete_eq.
      by destruct (decide (k0 ∈ podKeys pod l)).
    + rewrite lookup_delete_ne by done. apply decide_ext. unfold podKeys. rewrite elem_of_cons. tauto.
  - intros key. rewrite Ht. unfold r1; simpl. fold k0. set_solver.
  - intros key. rewrite Hdr. unfold r1; simpl. fold k0. set_solver.
  - intros key. rewrite Hcur. unfold r1; cbn [podKeys fmap list_fmap r_cursors]. fold k0.
    destruct inferred.
    + rewrite !decide_False by naive_solver. done.
    + change (cursors (Forget (r_cursors r) k0)) with (delete k0 (cursors (r_cursors r))).
      destruct (decide (key = k0)) as [->|Hne].
      * rewrite (decide_True (P := _ ∧ k0 ∈ k0 :: _)) by set_solver. rewrite lookup_delete_eq.
        by destruct (decide (false = false ∧ k0 ∈ podKeys pod l)).
      * rewrite lookup_delete_ne by done. apply decide_ext. unfold podKeys. rewrite elem_of_cons. tauto.
  - intros key g. unfold cancels. rewrite omap_app, elem_of_app. fold (cancels out2). rewrite Hcan.
    unfold r1; cbn [podKeys fmap list_fmap activeStreams]. fold k0. rewrite elem_of_cons.
    destruct (decide (key = k0)) as [->|Hne].
    + rewrite lookup_delete_eq. destruct (activeStreams r !! k0) as [[h]|]; simpl; [|set_solver].
      set_solver.
    + rewrite lookup_delete_ne by done. destruct (activeStreams r !! k0) as [[h]|]; simpl; set_solver.
Qed.

(** ** Expiry *)

Lemma dropPruned_spec r keys :
  let r' := dropPruned r keys in
  r'.(activeStreams) = r.(activeStreams) ∧ r'.(nextStreamGen) = r.(nextStreamGen) ∧
  r'.(r_cursors) = r.(r_cursors) ∧
  (∀ key, key ∈ r'.(terminatedContainers) ↔ key ∈ r.(terminatedContainers) ∧ key ∉ keys) ∧
  (∀ key, key ∈ r'.(drainedContainers) ↔ key ∈ r.(drainedContainers) ∧ key ∉ keys) ∧
  (∀ key, r'.(restartCounts) !! key = if decide (key ∈ keys) then None else r.(restartCounts) !! key).
Proof.
  unfold dropPruned. revert r. induction keys as [|k keys IH]; intros r; simpl.
  { split_and!; set_solver. }
  destruct (IH (MkReceiver (activeStreams r) (nextStreamGen r) (terminatedContainers r ∖ {[k]})
    (drainedContainers r ∖ {[k]}) (r_cursors r) (delete k (restartCounts r))))
    as (-> & -> & -> & Ht & Hd & Hc).
  split_and!; [done..| | |].
  1-2: intros key; rewrite ?Ht, ?Hd; simpl; set_solver.
  intros key. rewrite Hc. simpl.
  destruct (decide (key = k)) as [->|Hne].
  - rewrite lookup_delete_eq, (decide_True (P := k ∈ k :: keys)) by set_solver.
    by destruct (decide (k ∈ keys)).
  - rewrite lookup_delete_ne by done. apply decide_ext. unfold podKeys. rewrite elem_of_cons. tauto.
Qed.

Lemma pruneStaleCursors_spec r now :
  let cutoff := now - StaleAfter in let r' := pruneStaleCursors r now in
  let expired key := is_Some (stale_pods r.(r_cursors) cutoff !! podUIDFromStreamKey key) in
  let gone key := is_Some (r.(r_cursors).(cursors) !! key) ∧ expired key in
  r'.(activeStreams) = r.(activeStreams) ∧ r'.(nextStreamGen) = r.(nextStreamGen) ∧
  (∀ key, r'.(r_cursors).(cursors) !! key =
     if decide (expired key) then None else r.(r_cursors).(cursors) !! key) ∧
  (∀ uid, r'.(r_cursors).(lastSeenPods) !! uid =
     if decide (is_Some (stale_pods r.(r_cursors) cutoff !! uid)) then None
     else r.(r_cursors).(lastSeenPods) !! uid) ∧
  (∀ key, key ∈ r'.(terminatedContainers) ↔ key ∈ r.(terminatedContainers) ∧ ¬ gone key) ∧
  (∀ key, key ∈ r'.(drainedContainers) ↔ key ∈ r.(drainedContainers) ∧ ¬ gone key) ∧
  (∀ key, r'.(restartCounts) !! key = if decide (gone key) then None else r.(restartCounts) !! key).
Proof.
  intros cutoff r' expired gone. unfold r', pruneStaleCursors. fold cutoff.
  pose proof (Prune_reported podUIDFromStreamKey r.(r_cursors) cutoff) as [_ Hrep].
  pose proof (lookup_Prune podUIDFromStreamKey r.(r_cursors) cutoff) as Hl.
  pose proof (Prune_lastSeen podUIDFromStreamKey r.(r_cursors) cutoff) as Hs.
  destruct (Prune _ _ _) as [store pruned]. cbn [fst snd] in *.
  assert (Hgone : ∀ key, key ∈ pruned ↔ gone key).
  { intros key. rewrite Hrep, Hl. unfold gone, expired. case_decide; [naive_solver|].
    split; [intros [[c Hc] Hn]; congruence|naive_solver]. }
  destruct (dropPruned_spec (set_store r store) pruned) as (-> & -> & -> & Ht & Hd & Hc).
  split_and!; [done|done|exact Hl|exact Hs| | |]; intros key.
  - by rewrite Ht, Hgone.
  - by rewrite Hd, Hgone.
  - rewrite Hc. apply decide_ext. apply Hgone.
Qed.

(** ** Ownership *)

Lemma owns_spec r key g : owns r key g = true ↔ r.(activeStreams) !! key = Some (MkHandle g).
Proof.
  unfold owns. destruct (activeStreams r !! key) as [[h]|]; simpl; [|naive_solver].
  rewrite Z.eqb_eq. naive_solver.
Qed.

Lemma advanceCursor_owned r key g c :
  owns r key g = true →
  advanceCursor r key g c = set_store r (Advance r.(r_cursors) key c).
Proof. unfold advanceCursor. by intros ->. Qed.

Lemma advanceCursor_stale r key g c : owns r key g = false → advanceCursor r key g c = r.
Proof. unfold advanceCursor. by intros ->. Qed.
End results.

(** * Properties *)

(** A stream's key names its container unambiguously: for names without slashes
    the pod UID comes back out of it, and two containers share a key only if
    they are the same container of the same pod. *)
Theorem streamKey_roundtrip ns pod uid c ns' pod' uid' c' :
  no_slash ns → no_slash pod → no_slash uid → no_slash c →
  no_slash ns' → no_slash pod' → no_slash uid' → no_slash c' →
  podUIDFromStreamKey (streamKey ns pod uid c) = uid ∧
  (streamKey ns pod uid c = streamKey ns' pod' uid' c' → ns = ns' ∧ pod = pod' ∧ uid = uid' ∧ c = c').
Proof.
  intros. unfold podUIDFromStreamKey. rewrite Split_streamKey by done. split; [done|].
  intros Heq. assert (Hs : [ns; pod; uid; c] = [ns'; pod'; uid'; c']).
  { rewrite <- (Split_streamKey ns pod uid c), Heq by done. by apply Split_streamKey. }
  by simplify_eq.
Qed.

Lemma streamKey_roundtrip_witness :
  podUIDFromStreamKey (streamKey "default" "web-0" "6f1c" "app") = "6f1c"%string.
Proof.
  assert (Hn : ∀ s, bool_decide (no_slash s) = true → no_slash s) by (intros s; apply bool_decide_eq_true_1).
  refine (proj1 (streamKey_roundtrip "default" "web-0" "6f1c" "app" "" "" "" "" _ _ _ _ _ _ _ _));
    apply Hn; vm_compute; reflexivity.
Defined.

Section properties.
Context (telemetry : bool).
Implicit Types (r : logsReceiver) (pod : Pod).

Definition container_keys pod : list string := podKeys pod (podContainers pod).

(** C16: After a pod event every container of the pod that has started and is not
    drained is being streamed; a stream already running is neither stopped nor
    doubled, a container that has not started gets none, and each new stream is
    started exactly once, handed its own container's identity and the generation
    under which it is tracked.  Marks, cursors and restart counts stay as they
    are. *)
Theorem ensureStreams_complete r pod r' out :
  ensureStreams telemetry r pod = (r', out) →
  (∀ c, c ∈ podContainers pod → wanted pod r c → is_Some (r'.(activeStreams) !! podKey pod c.(c_Name))) ∧
  (∀ key h, r.(activeStreams) !! key = Some h → r'.(activeStreams) !! key = Some h) ∧
  (∀ key h, r'.(activeStreams) !! key = Some h → r.(activeStreams) !! key = None →
     ∃ c, c ∈ podContainers pod ∧ wanted pod r c ∧ podKey pod c.(c_Name) = key ∧
       MkStreamArgs pod.(p_Namespace) pod.(p_Name) pod.(p_UID) c.(c_Name) pod.(p_NodeName) key h.(gen)
         ∈ starts out) ∧
  (∀ a, a ∈ starts out → r.(activeStreams) !! a.(sa_key) = None ∧
     r'.(activeStreams) !! a.(sa_key) = Some (MkHandle a.(sa_gen))) ∧
  NoDup (sa_key <$> starts out) ∧ cancels out = [] ∧ same_but_streams r r'.
Proof.
  unfold ensureStreams. destruct (ensure_all pod r (podContainers pod)) as [r1 out1] eqn:He.
  intros [= -> <-]. destruct (ensure_all_spec _ _ _ _ _ He) as (Hs & Hk & Hw & Hn & Ho).
  destruct (ensure_all_once _ _ _ _ _ He) as [Hnd Hc].
  assert (starts (out1 ++ recordActiveStreams telemetry r') = starts out1) as ->.
  { rewrite starts_app. unfold recordActiveStreams. destruct telemetry; apply app_nil_r. }
  assert (cancels (out1 ++ recordActiveStreams telemetry r') = cancels out1) as ->.
  { unfold cancels, recordActiveStreams. rewrite omap_app. destruct telemetry; apply app_nil_r. }
  by split_and!.
Qed.

(** Resyncs are idempotent: delivering the same pod again starts nothing and
    changes no stream. *)
Theorem resync_idempotent r pod r1 out1 :
  ensureStreams telemetry r pod = (r1, out1) →
  ensureStreams telemetry r1 pod = (r1, recordActiveStreams telemetry r1).
Proof.
  unfold ensureStreams. destruct (ensure_all pod r (podContainers pod)) as [r2 out2] eqn:He.
  intros [= -> _]. destruct (ensure_all_spec _ _ _ _ _ He) as (Hs & _ & Hw & _).
  rewrite ensure_all_idle; [done|]. intros c Hc Hwc. apply Hw; [done|]. by apply (wanted_same pod r r1).
Qed.

(** C24: Expiry goes by when the informer last reported a pod.  One reported within
    the last two hours keeps all the receiver has on it.  One reported longer
    ago loses the cursors of all its containers, and every container that had
    one loses its marks and its restart count with it.  No stream is touched
    either way.  (A pod that was never reported has no such time.) *)
Theorem expiry_by_last_report r now uid t :
  r.(r_cursors).(lastSeenPods) !! uid = Some t →
  let r' := pruneStaleCursors r now in
  r'.(activeStreams) = r.(activeStreams) ∧ r'.(nextStreamGen) = r.(nextStreamGen) ∧
  r'.(r_cursors).(lastSeenPods) !! uid = (if decide (t < now - StaleAfter) then None else Some t) ∧
  ∀ key, podUIDFromStreamKey key = uid →
    let forgotten := t < now - StaleAfter ∧ is_Some (r.(r_cursors).(cursors) !! key) in
    r'.(r_cursors).(cursors) !! key =
      (if decide (t < now - StaleAfter) then None else r.(r_cursors).(cursors) !! key) ∧
    (key ∈ r'.(terminatedContainers) ↔ key ∈ r.(terminatedContainers) ∧ ¬ forgotten) ∧
    (key ∈ r'.(drainedContainers) ↔ key ∈ r.(drainedContainers) ∧ ¬ forgotten) ∧
    r'.(restartCounts) !! key = (if decide forgotten then None else r.(restartCounts) !! key).
Proof.
  intros Ht r'. destruct (pruneStaleCursors_spec r now) as (Ha & Hg & Hc & Hs & Htm & Hd & Hr).
  assert (Hst : is_Some (stale_pods r.(r_cursors) (now - StaleAfter) !! uid) ↔ t < now - StaleAfter).
  { rewrite stale_pods_lookup. rewrite Ht. naive_solver. }
  split_and!; [done|done| |].
  - unfold r'. rewrite Hs, Ht. by apply decide_ext.
  - intros key <- forgotten. unfold r'. rewrite Hc, Htm, Hd, Hr. unfold forgotten.
    split_and!; [by apply decide_ext|tauto|tauto|]. apply decide_ext. tauto.
Qed.

(** C32: A pod event marks as terminal exactly the containers that have terminated
    for good: an init container that succeeded or may not restart, an app
    container whose pod's policy does not restart it, never a container whose
    own policy restarts it; and marks are only ever added. *)
Theorem terminal_marks r pod key :
  key ∈ (markContainerStates r pod).(terminatedContainers) ↔
  key ∈ r.(terminatedContainers) ∨
  (∃ cs code, cs ∈ pod.(p_ContainerStatuses) ∧ podKey pod cs.(cs_Name) = key ∧
     cs.(cs_Terminated) = Some code ∧
     (pod.(p_RestartPolicy) = RestartPolicyNever ∨
      (pod.(p_RestartPolicy) = RestartPolicyOnFailure ∧ code = 0))) ∨
  (∃ cs code, cs ∈ pod.(p_InitContainerStatuses) ∧ podKey pod cs.(cs_Name) = key ∧
     cs.(cs_Terminated) = Some code ∧
     initContainerRestartPolicy pod cs.(cs_Name) ≠ Some ContainerRestartPolicyAlways ∧
     (code = 0 ∨ pod.(p_RestartPolicy) = RestartPolicyNever)).
Proof.
  destruct (markContainerStates_spec r pod) as (_ & _ & _ & _ & ->).
  assert (Happ : ∀ cs, marks pod false cs = true ↔ ∃ code, cs.(cs_Terminated) = Some code ∧
    (pod.(p_RestartPolicy) = RestartPolicyNever ∨
     (pod.(p_RestartPolicy) = RestartPolicyOnFailure ∧ code = 0))).
  { intros cs. unfold marks, containerIsTerminal. destruct (cs_Terminated cs) as [code|]; [|naive_solver].
    rewrite decide_False by done. case_decide as Hn; [naive_solver|].
    case_decide as Hf; [rewrite Z.eqb_eq|]; naive_solver. }
  assert (Hini : ∀ cs, marks pod true cs = true ↔ ∃ code, cs.(cs_Terminated) = Some code ∧
    initContainerRestartPolicy pod cs.(cs_Name) ≠ Some ContainerRestartPolicyAlways ∧
    (code = 0 ∨ pod.(p_RestartPolicy) = RestartPolicyNever)).
  { intros cs. unfold marks, containerIsTerminal. destruct (cs_Terminated cs) as [code|]; [|naive_solver].
    case_decide; [naive_solver|]. rewrite orb_true_iff, Z.eqb_eq, bool_decide_eq_true. naive_solver. }
  setoid_rewrite Happ. setoid_rewrite Hini. split.
  - intros [?|[(cs & ? & ? & code & ?)|(cs & ? & ? & code & ?)]]; [by left|..];
      right; [left|right]; exists cs, code; tauto.
  - intros [?|[(cs & code & ? & ? & ?)|(cs & code & ? & ? & ?)]]; [by left|..];
      right; [left|right]; exists cs; (split_and!; [done|done|exists code; tauto]).
Qed.
End properties.

Module ReceiverSample.
(** A pod whose app container runs, whose init container has succeeded, and whose
    sidecar is still being pulled. *)
Definition pod : Pod :=
  MkPod "default" "web-0" "6f1c" [] "node-1" "Always"
    [MkContainer "init" None] [MkContainer "app" None; MkContainer "proxy" None]
    [MkContainerStatus "app" 2 true None None; MkContainerStatus "proxy" 0 false None None]
    [MkContainerStatus "init" 0 false (Some 0) None].

Definition receiver0 : logsReceiver := newLogsReceiver (NewStore false).
Definition ensured := ensureStreams false receiver0 pod.

Lemma ensureStreams_complete_witness :
  is_Some (ensured.1.(activeStreams) !! podKey pod "app").
Proof.
  refine (proj1 (ensureStreams_complete false receiver0 pod ensured.1 ensured.2 _)
    (MkContainer "app" None) _ _).
  - reflexivity.
  - unfold pod, podContainers. simpl. set_solver.
  - apply (bool_decide_eq_true_1 _). vm_compute. reflexivity.
Defined.

(** Three hours after its last report a pod is forgotten. *)
Definition stale : logsReceiver :=
  MkReceiver ∅ 0 {[podKey pod "app"]} ∅
    (MkStore false {[podKey pod "app" := MkCursor 5 1]} {["6f1c"%string := 0]}) {[podKey pod "app" := 2]}.

Lemma expiry_by_last_report_witness :
  let r' := pruneStaleCursors stale (3 * Hour) in
  r'.(r_cursors).(cursors) !! podKey pod "app" = None ∧ r'.(restartCounts) !! podKey pod "app" = None.
Proof.
  intros r'.
  destruct (expiry_by_last_report stale (3 * Hour) "6f1c" 0 eq_refl) as (_ & _ & _ & Hk).
  destruct (Hk (podKey pod "app") eq_refl) as (Hc & _ & _ & Hr).
  split; [exact Hc|exact Hr].
Defined.

Lemma resync_idempotent_witness :
  ensureStreams false ensured.1 pod = (ensured.1, recordActiveStreams false ensured.1).
Proof. exact (resync_idempotent false receiver0 pod ensured.1 ensured.2 eq_refl). Defined.
End ReceiverSample.
