(* ===== verification/Factory.v ===== *)
(** Creating the receiver: [factory.go] and [newLogsReceiver] of [receiver.go].

    The collector calls the factory for the component's type and hands it a
    configuration, its settings and the next consumer. *)
From S2P Require Import Prelude Cursor LogLine Stream Consumer Connection Store Metadata PodDiscovery Config Receiver.
Open Scope Z_scope.

(** [receiverhelper.NewObsReport]. *)
Class ObsReports (ID Obs E : Type) := NewObsReport : ID → string → result E Obs.

(** [receiver.Settings], as far as it is read. *)
Record Settings (ID Provider : Type) := MkSettings {
  set_ID : ID;
  set_MeterProvider : Provider;
}.
Arguments MkSettings {ID Provider} _ _.
Arguments set_ID {ID Provider} _. Arguments set_MeterProvider {ID Provider} _.

Section factory.
Context {ID Obs Provider M G C E : Type} {Registration : Type}.
Context `{!ObsReports ID Obs E} `{!Metrics Provider M G C E}.
Context {S CE : Type} `{!ConsumerErrors Batch CE} `{!ConsumerRetry.Backoff}.

Inductive NewError :=
| ErrObsReport (e : E)
| ErrTelemetry (e : joined E).

(** The fields [newLogsReceiver] sets; those the handlers and streams work on are
    the [logsReceiver] of Receiver.v. *)
Record receiver := MkReceiverInstance {
  ri_cfg : Config.Config;
  ri_settings : Settings ID Provider;
  ri_consumer : Consumer S Batch CE;
  ri_obsrep : Obs;
  ri_telemetry : TelemetryBuilder M G C Registration;
  ri_state : logsReceiver;
}.

(** [newLogsReceiver]; [k] and [done] are when the retries of a batch end, see
    [ConsumerRetry.NewLogs]. *)
Definition newLogsReceiver (k : nat) (done : S → ConsumerRetry.CtxDone)
    (settings : Settings ID Provider) (cfg : Config.Config) (c : Consumer S Batch CE)
    : result NewError receiver :=
  match NewObsReport settings.(set_ID) "http" with
  | Err e => Err (ErrObsReport e)
  | Ok obsrep =>
      match NewTelemetryBuilder (Registration := Registration) settings.(set_MeterProvider) [] with
      | (_, Some e) => Err (ErrTelemetry e)
      | (telemetryBuilder, None) =>
          let nextConsumer := ConsumerRetry.NewLogs k cfg.(RetryOnFailure) done in
          Ok (MkReceiverInstance cfg settings nextConsumer obsrep telemetryBuilder
                (Receiver.newLogsReceiver (NewStore false)))
      end
  end.

(** [component.Config]: this component's, or another's. *)
Inductive componentConfig := ReceiverConfig (cfg : Config.Config) | OtherConfig.

(** [None] is the panic of the type assertion. *)
Definition createLogsReceiver k done settings (cfg : componentConfig) c
    : option (result NewError receiver) :=
  match cfg with
  | ReceiverConfig rCfg => Some (newLogsReceiver k done settings rCfg c)
  | OtherConfig => None
  end.

Record Factory := MkFactory {
  f_type : string;
  f_createDefaultConfig : componentConfig;
  f_createLogs : nat → (S → ConsumerRetry.CtxDone) → Settings ID Provider → componentConfig →
    Consumer S Batch CE → option (result NewError receiver);
  f_stability : StabilityLevel;
}.

Definition NewFactory : Factory :=
  MkFactory Type_ (ReceiverConfig createDefaultConfig) createLogsReceiver LogsStability.
End factory.
Arguments receiver ID Obs Provider M G C Registration S CE : clear implicits.
Arguments NewError E : clear implicits.

(** * Properties *)

(** C40: The factory creates a receiver exactly when its report and all four of its
    instruments can be created, and otherwise names every one that failed; a
    receiver starts out with no streams and no positions, counts its telemetry,
    and hands batches to a consumer that keeps the contract of the one it was
    given. *)
Theorem created_receiver {ID Obs Provider M G C E S CE R Registration : Type}
    `{!ObsReports ID Obs E} `{!Metrics Provider M G C E} `{!ConsumerErrors Batch CE} `{!ConsumerErrorsOk Batch CE}
    `{!ConsumerRetry.Backoff} k (done : S → ConsumerRetry.CtxDone) settings cfg (c : Consumer S Batch CE)
    (records : Batch → list R) (taken : S → list R) :
  @PipelineOk S Batch CE R c _ records taken →
  (∀ s, ConsumerRetry.NextBackOff cfg.(RetryOnFailure) k = None ∨ done s k = true) →
  match NewFactory.(f_createLogs) k done settings (ReceiverConfig cfg) c with
  | Some (Ok r) =>
      (∃ obs, NewObsReport settings.(set_ID) "http" = Ok obs) ∧
      instrument_errors settings.(set_MeterProvider) = [] ∧
      r.(ri_cfg) = cfg ∧ r.(ri_state).(activeStreams) = ∅ ∧ r.(ri_state).(r_cursors).(cursors) = ∅ ∧
      Persists r.(ri_state).(r_cursors) = false ∧
      is_Some (r : receiver ID Obs Provider M G C Registration S CE).(ri_telemetry).(ActiveLogStreams) ∧
      @PipelineOk S Batch CE R r.(ri_consumer) _ records taken
  | Some (Err (ErrObsReport e)) => NewObsReport (Obs := Obs) settings.(set_ID) "http" = Err e
  | Some (Err (ErrTelemetry e)) =>
      leaves e = instrument_errors settings.(set_MeterProvider) ∧ leaves e ≠ []
  | None => False
  end.
Proof.
  intros Hp Hk. cbn [NewFactory f_createLogs createLogsReceiver]. unfold newLogsReceiver.
  destruct (NewObsReport (set_ID settings) "http") as [obs|e] eqn:Ho; [|done].
  pose proof (NewTelemetryBuilder_spec (Registration := Registration) settings.(set_MeterProvider) []) as Ht.
  destruct (NewTelemetryBuilder _ _) as [b [errs|]].
  - destruct Ht as (Hl & Hn & _). simpl in Hl. split; [done|]. intros Hnil. rewrite Hl in Hnil.
    by apply Hn in Hnil.
  - destruct Ht as (_ & Hn & Hg & _). split_and!; try done; [by exists obs|by apply Hn|].
    apply (retry_keeps_contract records taken k cfg.(RetryOnFailure) done Hp Hk).
Qed.

Module FactorySample.
Import ConnectionSample.Piecewise.
#[local] Existing Instance ConnectionSample.Piecewise.errors.
#[local] Existing Instance ConnectionSample.Piecewise.errors_ok.
#[local] Existing Instance ConnectionSample.Piecewise.backoff.

#[local] Instance reports : ObsReports string unit string := λ _ _, Ok tt.

(** A meter that fails for the names it is given. *)
#[local] Instance metrics : Metrics (list string) (list string) string string string := {
  Meter_of refused _ := refused;
  Int64Gauge refused name := (name, if decide (name ∈ refused) then Some name else None);
  Int64Counter refused name := (name, if decide (name ∈ refused) then Some name else None);
}.

Definition create (refused : list string) :=
  (NewFactory (S := list bytes) (Registration := unit)).(f_createLogs) 3 (λ _ _, false)
    (MkSettings "k8s_pod_log"%string refused) (ReceiverConfig createDefaultConfig) pipeline.

Lemma created_receiver_witness :
  match create ["otelcol_active_log_streams"; "otelcol_pod_discovery_events_total"]%string with
  | Some (Err (ErrTelemetry e)) => leaves e =
      ["otelcol_active_log_streams"; "otelcol_pod_discovery_events_total"]%string ∧ leaves e ≠ []
  | _ => False
  end.
Proof.
  exact (created_receiver (Registration := unit) 3 (λ _ _, false)
    (MkSettings "k8s_pod_log"%string ["otelcol_active_log_streams"; "otelcol_pod_discovery_events_total"]%string)
    createDefaultConfig pipeline batch_bodies id pipeline_ok (λ _, or_introl eq_refl)).
Defined.

Example created : match create [] with Some (Ok _) => True | _ => False end.
Proof. vm_compute. exact I. Qed.
End FactorySample.
