(* ===== verification/System.v ===== *)
(** The running receiver: its state, its stream goroutines, and every order in
    which they can take turns.

    One step is one critical section of [r.mu] (or of the store's lock) as
    Receiver.v and Store.v define it.  The handlers, the streams and the pruner
    are sequences of such steps, and steps of different goroutines interleave
    freely: a pod handler may be overtaken between two containers, a cancelled
    stream keeps running until it notices, a stream may end at any time. *)
From S2P Require Import Prelude GoTime Cursor LogLine Stream Store Config PodDiscovery Receiver.
Open Scope Z_scope.

(** * State *)

(** A goroutine running [streamContainerLogs]. *)
Record goroutine := MkGoroutine {
  g_key : string;
  g_gen : Z;
  g_cancelled : bool;
}.

(** [started] counts the streams ever started; goroutine [n] is the [n]-th. *)
Record sys := MkSys {
  rcv : logsReceiver;
  started : Z;
  running : gmap Z goroutine;
}.

(** * Steps *)

Inductive action :=
| ActSeen (podUID : string) (now : Z)
| ActMark (pod : Pod)
| ActEnsure (pod : Pod) (c : Container)
| ActDelete (pod : Pod) (inferred : bool)
| ActDeliver (id : Z) (c : Cursor)
| ActExit (id : Z)
| ActPruneStore (now : Z)
| ActDropPruned (keys : list string).

(** The goroutines a list of outputs starts and cancels. *)
Definition spawn (st : Z) (run : gmap Z goroutine) (out : list rcv_output) : Z * gmap Z goroutine :=
  foldl (λ s o,
    match o with
    | OutStart a => (s.1 + 1, <[s.1 + 1 := MkGoroutine a.(sa_key) a.(sa_gen) false]> s.2)
    | OutCancel key g =>
        (s.1, (λ t, if bool_decide (t.(g_key) = key ∧ t.(g_gen) = g)
                    then MkGoroutine t.(g_key) t.(g_gen) true else t) <$> s.2)
    | _ => s
    end) (st, run) out.

Definition with_outputs (s : sys) (ro : logsReceiver * list rcv_output) : sys :=
  let '(st, run) := spawn s.(started) s.(running) ro.2 in MkSys ro.1 st run.

Section system.
Context (telemetry : bool).

(** [None] is an action nobody can take: that goroutine is not running. *)
Definition exec (s : sys) (a : action) : option sys :=
  let r := s.(rcv) in
  match a with
  | ActSeen uid now => Some (MkSys (recordPodUIDSeen r uid now) s.(started) s.(running))
  | ActMark pod => Some (MkSys (markContainerStates r pod) s.(started) s.(running))
  | ActEnsure pod c => Some (with_outputs s (ensureStream pod r c))
  | ActDelete pod inferred => Some (with_outputs s (onPodDeleted telemetry r pod inferred))
  | ActDeliver id c =>
      t ← s.(running) !! id;
      Some (MkSys (advanceCursor r t.(g_key) t.(g_gen) c) s.(started) s.(running))
  | ActExit id =>
      t ← s.(running) !! id;
      Some (MkSys (releaseStream telemetry r t.(g_key) t.(g_gen)).1 s.(started) (delete id s.(running)))
  | ActPruneStore now =>
      Some (MkSys (set_store r (Prune podUIDFromStreamKey r.(r_cursors) (now - StaleAfter)).1)
              s.(started) s.(running))
  | ActDropPruned keys => Some (MkSys (dropPruned r keys) s.(started) s.(running))
  end.

Fixpoint exec_all (s : sys) (l : list action) : option sys :=
  match l with
  | [] => Some s
  | a :: l' => s' ← exec s a; exec_all s' l'
  end.

Definition boot (store : Store) : sys := MkSys (newLogsReceiver store) 0 ∅.

Inductive reachable (store : Store) : sys → Prop :=
| reach_boot : reachable store (boot store)
| reach_step s a s' : reachable store s → exec s a = Some s' → reachable store s'.

(** * The invariant *)

Record sys_inv (s : sys) : Prop := {
  si_started : 0 ≤ s.(started);
  (** generations are numbered in the order the streams started *)
  si_gen : s.(rcv).(nextStreamGen) = uint64 s.(started);
  si_ids : ∀ id t, s.(running) !! id = Some t → 1 ≤ id ≤ s.(started) ∧ t.(g_gen) = uint64 id;
  (** every entry is some live goroutine's *)
  si_tracked : ∀ key h, s.(rcv).(activeStreams) !! key = Some h →
    ∃ id, s.(running) !! id = Some (MkGoroutine key h.(gen) false);
  (** every live goroutine has its entry *)
  si_live : ∀ id t, s.(running) !! id = Some t → t.(g_cancelled) = false →
    s.(rcv).(activeStreams) !! t.(g_key) = Some (MkHandle t.(g_gen));
  (** a drained container is terminal and has no stream *)
  si_drained : ∀ key, key ∈ s.(rcv).(drainedContainers) →
    key ∈ s.(rcv).(terminatedContainers) ∧ s.(rcv).(activeStreams) !! key = None;
}.

Lemma boot_inv store : sys_inv (boot store).
Proof. split; simpl; try done. Qed.

Lemma uint64_inj a b :
  1 ≤ a < 2 ^ 64 → 1 ≤ b < 2 ^ 64 → uint64 a = uint64 b → a = b.
Proof. intros. rewrite !uint64_small in * by lia. done. Qed.

Lemma spawn_app st run l k :
  spawn st run (l ++ k) = let '(st', run') := spawn st run l in spawn st' run' k.
Proof. unfold spawn. rewrite foldl_app. by destruct (foldl _ _ l). Qed.

(** What a list of outputs without starts does: the count stays, and exactly the
    goroutines named are cancelled. *)
Lemma spawn_cancels st run out :
  starts out = [] →
  (spawn st run out).1 = st ∧
  ∀ id, (spawn st run out).2 !! id =
    (λ t, if bool_decide ((t.(g_key), t.(g_gen)) ∈ cancels out)
          then MkGoroutine t.(g_key) t.(g_gen) true else t) <$> run !! id.
Proof.
  induction out as [|o out IH] using rev_ind; intros Hs.
  { split; [done|]. intros id. cbn [spawn foldl snd]. by destruct (run !! id) as [t|]. }
  rewrite starts_app in Hs. apply app_eq_nil in Hs as [Hs1 Hs2].
  destruct (IH Hs1) as [Hst Hrun]. rewrite spawn_app.
  destruct (spawn st run out) as [st' run']. simpl in Hst, Hrun. subst st'.
  unfold cancels. rewrite omap_app. fold (cancels out).
  destruct o as [e|n|a|key g]; try discriminate Hs2; simpl; (split; [done|]); intros id;
    rewrite ?app_nil_r; [apply Hrun..|].
  rewrite lookup_fmap, Hrun. destruct (run !! id) as [t|]; simpl; [|done]. f_equal.
  destruct (bool_decide_reflect ((g_key t, g_gen t) ∈ cancels out)) as [Hin|Hin]; simpl.
  - rewrite (bool_decide_true (_ ∈ _ ++ _)) by set_solver. by destruct (bool_decide _).
  - destruct (decide (g_key t = key ∧ g_gen t = g)) as [Hkg|Hkg].
    + rewrite !bool_decide_true; [done| |done]. destruct Hkg as [<- <-]. set_solver.
    + rewrite !bool_decide_false; [done| |done]. rewrite elem_of_app, list_elem_of_singleton.
      intros [?|[= ? ?]]; naive_solver.
Qed.

(** ** Preservation *)

(** A step that leaves the streams and the drained set alone. *)
Lemma inv_frame s r' :
  sys_inv s → r'.(activeStreams) = s.(rcv).(activeStreams) →
  r'.(nextStreamGen) = s.(rcv).(nextStreamGen) →
  (∀ key, key ∈ r'.(drainedContainers) →
     key ∈ s.(rcv).(drainedContainers) ∧ (key ∈ s.(rcv).(terminatedContainers) → key ∈ r'.(terminatedContainers))) →
  sys_inv (MkSys r' s.(started) s.(running)).
Proof.
  intros [H0 Hg Hids Htr Hlive Hdr] Ha Hn Hd. split; simpl; rewrite ?Ha, ?Hn; try done.
  intros key Hk. destruct (Hd _ Hk) as [Hk1 Hk2]. destruct (Hdr _ Hk1). auto.
Qed.

Lemma inv_ensure s pod c :
  sys_inv s → (with_outputs s (ensureStream pod s.(rcv) c)).(started) < 2 ^ 64 →
  sys_inv (with_outputs s (ensureStream pod s.(rcv) c)).
Proof.
  intros Hinv Hlt. pose proof Hinv as [H0 Hg Hids Htr Hlive Hdr].
  destruct (ensureStream_cases pod (rcv s) c)
    as [[He _]|([Hw Hnd] & Hnone & r' & a & He & (Ht & Hd & Hc & Hrc) & Hgen & -> & Hm)];
    rewrite He in *; unfold with_outputs, spawn in *; simpl in *; [by destruct s|].
  set (key := podKey pod (c_Name c)) in *.
  assert (Hnext : nextStreamGen r' = uint64 (started s + 1)).
  { rewrite Hgen, Hg. unfold uint64. by rewrite Zplus_mod_idemp_l. }
  split; simpl; [lia|done| | | |].
  - intros id t Ht'. destruct (decide (id = started s + 1)) as [->|Hne].
    + rewrite lookup_insert_eq in Ht'. simplify_eq/=. split; [lia|done].
    + rewrite lookup_insert_ne in Ht' by done. apply Hids in Ht' as [? ?]. split; [lia|done].
  - intros k h Hk. rewrite Hm in Hk. destruct (decide (k = key)) as [->|Hne].
    + rewrite lookup_insert_eq in Hk. simplify_eq/=. exists (started s + 1). by rewrite lookup_insert_eq.
    + rewrite lookup_insert_ne in Hk by done. apply Htr in Hk as [id Hid].
      exists id. rewrite lookup_insert_ne; [done|]. apply Hids in Hid. lia.
  - intros id t Ht' Hlv. rewrite Hm. destruct (decide (id = started s + 1)) as [->|Hne].
    + rewrite lookup_insert_eq in Ht'. simplify_eq/=. by rewrite lookup_insert_eq.
    + rewrite lookup_insert_ne in Ht' by done. pose proof (Hlive _ _ Ht' Hlv) as Hk.
      rewrite lookup_insert_ne; [done|]. intros Heq. rewrite <- Heq in Hk. congruence.
  - intros k Hk. rewrite Hd in Hk. destruct (Hdr _ Hk) as [? ?]. rewrite Ht, Hm. split; [done|].
    rewrite lookup_insert_ne; [done|]. intros <-. done.
Qed.

Lemma onPodDeleted_spec r pod inferred r' out :
  onPodDeleted telemetry r pod inferred = (r', out) →
  let keys := podKeys pod (podContainers pod) in
  r'.(nextStreamGen) = r.(nextStreamGen) ∧ r'.(restartCounts) = r.(restartCounts) ∧
  (∀ key, r'.(activeStreams) !! key = if decide (key ∈ keys) then None else r.(activeStreams) !! key) ∧
  (∀ key, key ∈ r'.(terminatedContainers) ↔ key ∈ r.(terminatedContainers) ∧ key ∉ keys) ∧
  (∀ key, key ∈ r'.(drainedContainers) ↔ key ∈ r.(drainedContainers) ∧ key ∉ keys) ∧
  (∀ key, r'.(r_cursors).(cursors) !! key =
     if decide (inferred = false ∧ key ∈ keys) then None else r.(r_cursors).(cursors) !! key) ∧
  starts out = [] ∧
  (∀ key g, (key, g) ∈ cancels out ↔ key ∈ keys ∧ r.(activeStreams) !! key = Some (MkHandle g)).
Proof.
  unfold onPodDeleted. destruct (delete_all pod inferred r (podContainers pod)) as [r1 out1] eqn:Hd.
  intros. simplify_eq. pose proof (delete_all_spec _ _ _ _ _ _ Hd) as (? & ? & ? & ? & ? & ? & Hc).
  split_and!; try done.
  - rewrite !starts_app. assert (starts out1 = []) as ->.
    { clear -Hd. revert r r' out1 Hd. induction (podContainers pod) as [|c l IH]; intros r r' out1 Hd; simpl in Hd.
      { by simplify_eq. }
      set (r1 := MkReceiver _ _ _ _ _ _) in Hd. destruct (delete_all pod inferred r1 l) as [r2 out2] eqn:H2.
      simplify_eq. rewrite starts_app, (IH _ _ _ H2). by destruct (activeStreams r !! _). }
    unfold recordActiveStreams. by destruct telemetry.
  - intros key g. rewrite <- Hc. unfold cancels, recordActiveStreams.
    rewrite !omap_app. by destruct telemetry; simpl; rewrite app_nil_r.
Qed.

Lemma inv_delete s pod inferred :
  sys_inv s → s.(started) < 2 ^ 64 →
  sys_inv (with_outputs s (onPodDeleted telemetry s.(rcv) pod inferred)).
Proof.
  intros [H0 Hg Hids Htr Hlive Hdr] Hlt.
  destruct (onPodDeleted telemetry (rcv s) pod inferred) as [r' out] eqn:Hd.
  destruct (onPodDeleted_spec _ _ _ _ _ Hd) as (Hn & _ & Ha & Ht & Hdr' & _ & Hst & Hc).
  unfold with_outputs; simpl. destruct (spawn_cancels (started s) (running s) out Hst) as [Hs1 Hs2].
  destruct (spawn (started s) (running s) out) as [st run]. simpl in Hs1, Hs2. subst st.
  set (keys := podKeys pod (podContainers pod)) in *.
  split; simpl; [done|by rewrite Hn| | | |].
  - intros id t Ht'. rewrite Hs2 in Ht'. apply fmap_Some in Ht' as (t0 & Ht0 & ->).
    destruct (Hids _ _ Ht0). by case_match.
  - intros key h Hk. rewrite Ha in Hk. case_decide as Hkey; [done|].
    destruct (Htr _ _ Hk) as [id Hid]. exists id. rewrite Hs2, Hid. simpl.
    rewrite bool_decide_false; [done|]. rewrite Hc. tauto.
  - intros id t Ht' Hlv. rewrite Hs2 in Ht'. apply fmap_Some in Ht' as (t0 & Ht0 & ->).
    destruct (bool_decide_reflect ((g_key t0, g_gen t0) ∈ cancels out)) as [|Hnc]; [done|].
    rewrite Ha. rewrite decide_False; [by eapply Hlive|]. intros Hin. apply Hnc, Hc.
    split; [done|]. by eapply Hlive.
  - intros key Hk. apply Hdr' in Hk as [Hk1 Hk2]. destruct (Hdr _ Hk1).
    rewrite Ht, Ha, decide_False by done. auto.
Qed.

(** Live goroutines of one key are one goroutine. *)
Lemma live_unique s id1 id2 t1 t2 :
  sys_inv s → s.(started) < 2 ^ 64 →
  s.(running) !! id1 = Some t1 → s.(running) !! id2 = Some t2 →
  t1.(g_cancelled) = false → t2.(g_cancelled) = false → t1.(g_key) = t2.(g_key) → id1 = id2.
Proof.
  intros Hinv Hlt H1 H2 Hc1 Hc2 Hk.
  pose proof (si_live _ Hinv _ _ H1 Hc1) as L1. pose proof (si_live _ Hinv _ _ H2 Hc2) as L2.
  destruct (si_ids _ Hinv _ _ H1) as [? G1]. destruct (si_ids _ Hinv _ _ H2) as [? G2].
  apply uint64_inj; [lia|lia|]. rewrite <- G1, <- G2. rewrite Hk, L2 in L1. by simplify_eq.
Qed.

(** Whoever owns an entry is live. *)
Lemma owner_live s id t :
  sys_inv s → s.(started) < 2 ^ 64 → s.(running) !! id = Some t →
  owns s.(rcv) t.(g_key) t.(g_gen) = negb t.(g_cancelled).
Proof.
  intros Hinv Hlt Hid. destruct (g_cancelled t) eqn:Hc; simpl.
  - apply not_true_iff_false. rewrite owns_spec. intros Ho.
    destruct (si_tracked _ Hinv _ _ Ho) as [id' Hid']. simpl in Hid'.
    destruct (si_ids _ Hinv _ _ Hid) as [? G1]. destruct (si_ids _ Hinv _ _ Hid') as [? G2]. simpl in G2.
    assert (id = id') as -> by (apply uint64_inj; [lia|lia|congruence]).
    rewrite Hid in Hid'. injection Hid' as Ht. rewrite Ht in Hc. done.
  - apply owns_spec. by eapply si_live.
Qed.

Lemma inv_exit s id t :
  sys_inv s → s.(started) < 2 ^ 64 → s.(running) !! id = Some t →
  sys_inv (MkSys (releaseStream telemetry s.(rcv) t.(g_key) t.(g_gen)).1 s.(started) (delete id s.(running))).
Proof.
  intros Hinv Hlt Hid. pose proof (owner_live _ _ _ Hinv Hlt Hid) as Hown.
  pose proof Hinv as [H0 Hg Hids Htr Hlive Hdr].
  unfold releaseStream. rewrite Hown. destruct (g_cancelled t) eqn:Hc; simpl.
  - split; simpl; try done.
    + intros id' t' Ht'. apply lookup_delete_Some in Ht' as [_ Ht']. by apply Hids.
    + intros key h Hk. destruct (Htr _ _ Hk) as [id' Hid']. exists id'.
      rewrite lookup_delete_ne; [done|]. intros <-. rewrite Hid in Hid'. by simplify_eq.
    + intros id' t' Ht'. apply lookup_delete_Some in Ht' as [_ Ht']. by eapply Hlive.
  - set (r1 := set_active _ _). set (r2 := if decide _ then _ else r1).
    assert (Ha2 : activeStreams r2 = delete (g_key t) (activeStreams (rcv s))).
    { unfold r2. by case_decide. }
    assert (Hn2 : nextStreamGen r2 = nextStreamGen (rcv s)) by (unfold r2; by case_decide).
    assert (Ht2 : terminatedContainers r2 = terminatedContainers (rcv s)) by (unfold r2; by case_decide).
    split; simpl; rewrite ?Ha2, ?Hn2, ?Ht2; try done.
    + intros id' t' Ht'. apply lookup_delete_Some in Ht' as [_ Ht']. by apply Hids.
    + intros key h Hk. apply lookup_delete_Some in Hk as [Hne Hk].
      destruct (Htr _ _ Hk) as [id' Hid']. exists id'.
      rewrite lookup_delete_ne; [done|]. intros <-. rewrite Hid in Hid'. by simplify_eq.
    + intros id' t' Ht' Hlv. apply lookup_delete_Some in Ht' as [Hne Ht'].
      rewrite lookup_delete_ne; [by eapply Hlive|]. intros Heq. apply Hne.
      by eapply (live_unique s).
    + intros key Hk. unfold r2 in Hk. case_decide as Hterm; simpl in Hk.
      * apply elem_of_union in Hk as [Hk| ->%elem_of_singleton].
        -- destruct (Hdr _ Hk). split; [done|]. rewrite lookup_delete_None. by right.
        -- split; [done|]. by rewrite lookup_delete_eq.
      * destruct (Hdr _ Hk). split; [done|]. rewrite lookup_delete_None. by right.
Qed.

Lemma started_mono s a s' : exec s a = Some s' → s.(started) ≤ s'.(started).
Proof.
  assert (Hsp : ∀ out st run, st ≤ (spawn st run out).1).
  { unfold spawn. induction out as [|o out IH]; intros st run; [done|]. simpl.
    destruct o; try apply IH. simpl. etrans; [|apply IH]. lia. }
  assert (Hw : ∀ ro, started s ≤ started (with_outputs s ro)).
  { intros ro. unfold with_outputs. specialize (Hsp ro.2 (started s) (running s)). by destruct (spawn _ _ _). }
  intros Hex. destruct a as [uid now|pod|pod c|pod inf|id c|id|now|keys]; simpl in Hex.
  3-4: injection Hex as <-; apply Hw.
  3-4: apply bind_Some in Hex as (t & _ & Hex).
  all: injection Hex as <-; done.
Qed.

Lemma exec_inv s a s' :
  sys_inv s → exec s a = Some s' → s'.(started) < 2 ^ 64 → sys_inv s'.
Proof.
  intros Hinv Hex Hlt. pose proof (started_mono _ _ _ Hex) as Hmono.
  destruct a as [uid now|pod|pod c|pod inf|id c|id|now|keys]; simpl in Hex; simplify_eq.
  - by apply inv_frame.
  - destruct (markContainerStates_spec (rcv s) pod) as (Ha & Hn & Hd & _ & Ht).
    apply inv_frame; [done..|]. intros key. rewrite Hd, Ht. auto.
  - by apply inv_ensure.
  - apply inv_delete; [done|lia].
  - apply bind_Some in Hex as (t & Hid & ?). simplify_eq/=. unfold advanceCursor.
    destruct (owns _ _ _); simpl; by apply inv_frame.
  - apply bind_Some in Hex as (t & Hid & ?). simplify_eq/=. apply inv_exit; done.
  - by apply inv_frame.
  - destruct (dropPruned_spec (rcv s) keys) as (Ha & Hn & _ & Ht & Hd & _).
    apply inv_frame; [done..|]. intros key. rewrite Hd, Ht. tauto.
Qed.

Lemma reachable_inv store s : reachable store s → s.(started) < 2 ^ 64 → sys_inv s.
Proof.
  induction 1 as [|s a s' Hr IH Hex]; intros Hlt; [apply boot_inv|].
  pose proof (started_mono _ _ _ Hex). apply (exec_inv s a); [apply IH; lia|done|done].
Qed.

(** * The handlers are sequences of steps *)

Definition handler_actions (call : HandlerCall) (now : Z) : list action :=
  match call with
  | CallAdd pod | CallUpdate pod =>
      ActSeen pod.(p_UID) now :: ActMark pod :: (ActEnsure pod <$> podContainers pod)
  | CallDelete pod inferred => [ActDelete pod inferred]
  end.

Lemma exec_all_app s l k : exec_all s (l ++ k) = (s' ← exec_all s l; exec_all s' k).
Proof.
  revert s. induction l as [|a l IH]; intros s; [done|]. simpl.
  destruct (exec s a); simpl; [apply IH|done].
Qed.

Lemma with_outputs_rcv s ro : (with_outputs s ro).(rcv) = ro.1.
Proof. unfold with_outputs. by destruct (spawn _ _ _). Qed.

Lemma with_outputs_trans s r1 out1 r2 out2 :
  with_outputs (with_outputs s (r1, out1)) (r2, out2) = with_outputs s (r2, out1 ++ out2).
Proof.
  unfold with_outputs. simpl. rewrite spawn_app. destruct (spawn _ _ out1) as [st run]. simpl.
  by destruct (spawn st run out2).
Qed.

Lemma exec_all_ensure s pod l :
  exec_all s (ActEnsure pod <$> l) = Some (with_outputs s (ensure_all pod s.(rcv) l)).
Proof.
  revert s. induction l as [|c l IH]; intros s; [by destruct s|]. cbn [fmap list_fmap exec_all exec].
  cbn [mbind option_bind]. fold (exec_all (with_outputs s (ensureStream pod (rcv s) c)) (ActEnsure pod <$> l)).
  rewrite IH, with_outputs_rcv. cbn [ensure_all]. destruct (ensureStream pod (rcv s) c) as [r1 out1].
  cbn [fst]. destruct (ensure_all pod r1 l) as [r2 out2]. by rewrite with_outputs_trans.
Qed.

(** Telemetry starts and cancels nothing. *)
Lemma with_outputs_record s r out : with_outputs s (r, out ++ recordActiveStreams telemetry r) = with_outputs s (r, out).
Proof.
  unfold with_outputs, recordActiveStreams. simpl. rewrite spawn_app.
  destruct (spawn _ _ out) as [st run]. by destruct telemetry.
Qed.

(** Taken without interruption, the steps of a handler are the handler: the state,
    the goroutines it starts and those it cancels. *)
Lemma handler_exec s call now :
  exec_all s (handler_actions call now) = Some (with_outputs s (handle telemetry s.(rcv) call now)).
Proof.
  assert (Hup : ∀ pod, exec_all s (handler_actions (CallUpdate pod) now) =
    Some (with_outputs s (onPodUpdated telemetry s.(rcv) pod now))).
  { intros pod. unfold handler_actions, onPodUpdated, ensureStreams. cbn [exec_all exec mbind option_bind rcv].
    set (s1 := MkSys _ _ _). fold (exec_all s1 (ActEnsure pod <$> podContainers pod)).
    rewrite exec_all_ensure. cbn [s1 rcv].
    destruct (ensure_all _ _ _) as [r1 out1]. rewrite with_outputs_record.
    unfold with_outputs. done. }
  destruct call as [pod|pod|pod inf]; simpl.
  - etrans; [exact (Hup pod)|]. unfold onPodAdded. destruct (onPodUpdated _ _ _ _) as [r out].
    unfold with_outputs. cbn [fst snd]. rewrite (spawn_app _ _ _ out). by destruct telemetry.
  - exact (Hup pod).
  - done.
Qed.

(** So is the pruner: the store's half and the receiver's. *)
Definition pruner_actions (s : sys) (now : Z) : list action :=
  [ActPruneStore now;
   ActDropPruned (Prune podUIDFromStreamKey s.(rcv).(r_cursors) (now - StaleAfter)).2].

Lemma pruner_exec s now :
  ∃ s', exec_all s (pruner_actions s now) = Some s' ∧ s'.(rcv) = pruneStaleCursors s.(rcv) now.
Proof.
  eexists. split; [done|]. unfold pruneStaleCursors. simpl. by destruct (Prune _ _ _).
Qed.

(** * Cursors over time *)

(** The actions that may take a container's cursor away: a delete of its pod
    that the API server reported, and expiry. *)
Definition drops_cursor (s : sys) (key : string) (a : action) : Prop :=
  match a with
  | ActDelete pod inferred => inferred = false ∧ key ∈ podKeys pod (podContainers pod)
  | ActPruneStore now =>
      is_Some (stale_pods s.(rcv).(r_cursors) (now - StaleAfter) !! podUIDFromStreamKey key)
  | _ => False
  end.

#[export] Instance drops_cursor_dec s key a : Decision (drops_cursor s key a).
Proof. destruct a; simpl; apply _. Defined.

Lemma releaseStream_store r key g : (releaseStream telemetry r key g).1.(r_cursors) = r.(r_cursors).
Proof. unfold releaseStream. destruct (owns r key g); [|done]. simpl. by case_decide. Qed.

(** What a step does to one container's cursor. *)
Lemma exec_cursor s a s' key :
  exec s a = Some s' →
  let c := s.(rcv).(r_cursors).(cursors) !! key in
  let c' := s'.(rcv).(r_cursors).(cursors) !! key in
  c' = c ∨ (drops_cursor s key a ∧ c' = None) ∨
  (∃ id d t, a = ActDeliver id d ∧ s.(running) !! id = Some t ∧ t.(g_key) = key ∧
     owns s.(rcv) key t.(g_gen) = true ∧ c' = adv c d).
Proof.
  intros Hex. destruct a as [uid now|pod|pod c|pod inf|id c|id|now|keys]; simpl in Hex.
  - simplify_eq. by left.
  - simplify_eq. left. simpl. by destruct (markContainerStates_spec (rcv s) pod) as (_ & _ & _ & -> & _).
  - simplify_eq. left. rewrite with_outputs_rcv.
    destruct (ensureStream_cases pod (rcv s) c) as [[-> _]|(_ & _ & r' & a & -> & (_ & _ & Hc & _) & _)];
      simpl; [done|by rewrite Hc].
  - simplify_eq. rewrite with_outputs_rcv.
    destruct (onPodDeleted telemetry (rcv s) pod inf) as [r' out] eqn:Hd.
    destruct (onPodDeleted_spec _ _ _ _ _ Hd) as (_ & _ & _ & _ & _ & Hc & _). simpl. rewrite Hc.
    destruct (decide (inf = false ∧ key ∈ podKeys pod (podContainers pod))); [right; left; done|by left].
  - apply bind_Some in Hex as (t & Hid & Hex). simplify_eq/=. unfold advanceCursor.
    destruct (owns (rcv s) (g_key t) (g_gen t)) eqn:Ho; simpl; [|by left].
    rewrite lookup_Advance. case_decide as Hk; [subst|by left]. right; right. by exists id, c, t.
  - apply bind_Some in Hex as (t & Hid & Hex). simplify_eq/=. left. by rewrite releaseStream_store.
  - simplify_eq/=. rewrite lookup_Prune. case_decide; [right; left; done|by left].
  - simplify_eq/=. left. by destruct (dropPruned_spec (rcv s) keys) as (_ & _ & -> & _).
Qed.

Lemma adv_le o c : cur_le (default Cur.zero o) (default Cur.zero (adv o c)).
Proof.
  unfold adv. destruct (Cur.IsZero c); [done|]. destruct (Cur.After c _) eqn:Ha; [by right|done].
Qed.

Lemma exec_cursor_le s a s' key :
  exec s a = Some s' → ¬ drops_cursor s key a →
  cur_le (cursorFor s.(rcv) key) (cursorFor s'.(rcv) key).
Proof.
  intros Hex Hd. unfold cursorFor, Get.
  destruct (exec_cursor _ _ _ key Hex) as [->|[[? _]|(id & d & t & _ & _ & _ & _ & ->)]]; [done..|apply adv_le].
Qed.

(** A run of steps, none of which drops the cursor of [key]. *)
Fixpoint keeps_cursor (s : sys) (key : string) (l : list action) : Prop :=
  match l with
  | [] => True
  | a :: l' => ¬ drops_cursor s key a ∧
      match exec s a with Some s' => keeps_cursor s' key l' | None => True end
  end.

#[export] Instance keeps_cursor_dec s key l : Decision (keeps_cursor s key l).
Proof.
  revert s. induction l as [|a l IH]; intros s; simpl; [apply _|].
  apply and_dec; [apply _|]. destruct (exec s a); [apply IH|apply _].
Defined.

Lemma exec_all_cursor_le s l s' key :
  exec_all s l = Some s' → keeps_cursor s key l →
  cur_le (cursorFor s.(rcv) key) (cursorFor s'.(rcv) key).
Proof.
  revert s. induction l as [|a l IH]; intros s Hex Hk; simpl in *; [by simplify_eq|].
  destruct Hk as [Hd Hk]. destruct (exec s a) as [s1|] eqn:H1; simpl in *; [|done].
  etrans; [by eapply exec_cursor_le|]. by apply IH.
Qed.

(** * Drained containers *)

(** The actions after which a container may be read again. *)
Definition revives (key : string) (a : action) : Prop :=
  match a with
  | ActDelete pod _ => key ∈ podKeys pod (podContainers pod)
  | ActDropPruned keys => key ∈ keys
  | _ => False
  end.

#[export] Instance revives_dec key a : Decision (revives key a).
Proof. destruct a; simpl; apply _. Defined.

Lemma exec_drained s a s' key :
  exec s a = Some s' → ¬ revives key a →
  key ∈ s.(rcv).(drainedContainers) → key ∈ s'.(rcv).(drainedContainers).
Proof.
  intros Hex Hr Hk. destruct a as [uid now|pod|pod c|pod inf|id c|id|now|keys]; simpl in Hex, Hr.
  - by simplify_eq.
  - simplify_eq. simpl. by destruct (markContainerStates_spec (rcv s) pod) as (_ & _ & -> & _).
  - simplify_eq. rewrite with_outputs_rcv.
    destruct (ensureStream_cases pod (rcv s) c) as [[-> _]|(_ & _ & r' & a & -> & (_ & Hc & _) & _)];
      simpl; [done|by rewrite Hc].
  - simplify_eq. rewrite with_outputs_rcv.
    destruct (onPodDeleted telemetry (rcv s) pod inf) as [r' out] eqn:Hd.
    destruct (onPodDeleted_spec _ _ _ _ _ Hd) as (_ & _ & _ & _ & Hc & _). simpl. by rewrite Hc.
  - apply bind_Some in Hex as (t & Hid & Hex). simplify_eq/=. unfold advanceCursor.
    by destruct (owns _ _ _).
  - apply bind_Some in Hex as (t & Hid & Hex). simplify_eq/=. unfold releaseStream.
    destruct (owns _ _ _); [|done]. simpl. case_decide; simpl; set_solver.
  - by simplify_eq.
  - simplify_eq/=. destruct (dropPruned_spec (rcv s) keys) as (_ & _ & _ & _ & Hd & _). by rewrite Hd.
Qed.

Lemma exec_all_drained s l s' key :
  exec_all s l = Some s' → Forall (λ a, ¬ revives key a) l →
  key ∈ s.(rcv).(drainedContainers) → key ∈ s'.(rcv).(drainedContainers).
Proof.
  revert s. induction l as [|a l IH]; intros s Hex Hl Hk; simpl in *; [by simplify_eq|].
  apply Forall_cons in Hl as [Ha Hl]. destruct (exec s a) as [s1|] eqn:H1; simpl in *; [|done].
  eapply IH; [done|done|]. by eapply exec_drained.
Qed.

(** * Streams over time *)

(** The steps that end the stream of a container: the deletion of its pod, and the
    exit of the goroutine itself. *)
Definition ends_stream (s : sys) (key : string) (a : action) : Prop :=
  match a with
  | ActDelete pod _ => key ∈ podKeys pod (podContainers pod)
  | ActExit id =>
      match s.(running) !! id with
      | Some t => t.(g_key) = key ∧ t.(g_cancelled) = false
      | None => False
      end
  | _ => False
  end.

#[export] Instance ends_stream_dec s key a : Decision (ends_stream s key a).
Proof. destruct a; simpl; try apply _. destruct (running s !! id); apply _. Defined.

Lemma exec_stream s a s' key h :
  sys_inv s → s.(started) < 2 ^ 64 → exec s a = Some s' → ¬ ends_stream s key a →
  s.(rcv).(activeStreams) !! key = Some h → s'.(rcv).(activeStreams) !! key = Some h.
Proof.
  intros Hinv Hlt Hex Hne Hk. destruct a as [uid now|pod|pod c|pod inf|id c|id|now|keys]; simpl in Hex, Hne.
  - by simplify_eq.
  - simplify_eq. simpl. by destruct (markContainerStates_spec (rcv s) pod) as (-> & _).
  - simplify_eq. rewrite with_outputs_rcv.
    destruct (ensureStream_cases pod (rcv s) c) as [[-> _]|(_ & Hnone & r' & a & -> & _ & _ & _ & Hm)];
      simpl; [done|]. rewrite Hm, lookup_insert_ne; [done|]. intros <-. congruence.
  - simplify_eq. rewrite with_outputs_rcv.
    destruct (onPodDeleted telemetry (rcv s) pod inf) as [r' out] eqn:Hd.
    destruct (onPodDeleted_spec _ _ _ _ _ Hd) as (_ & _ & Ha & _). simpl. by rewrite Ha, decide_False.
  - apply bind_Some in Hex as (t & Hid & Hex). simplify_eq/=. unfold advanceCursor.
    by destruct (owns _ _ _).
  - apply bind_Some in Hex as (t & Hid & Hex). simplify_eq/=. rewrite Hid in Hne.
    unfold releaseStream. rewrite (owner_live s id t Hinv Hlt Hid).
    destruct (g_cancelled t) eqn:Hc; simpl; [done|].
    assert (Hkey : g_key t ≠ key) by tauto.
    by case_decide; simpl; rewrite lookup_delete_ne.
  - by simplify_eq.
  - simplify_eq/=. by destruct (dropPruned_spec (rcv s) keys) as (-> & _).
Qed.

Fixpoint keeps_stream (s : sys) (key : string) (l : list action) : Prop :=
  match l with
  | [] => True
  | a :: l' => ¬ ends_stream s key a ∧
      match exec s a with Some s' => keeps_stream s' key l' | None => True end
  end.

#[export] Instance keeps_stream_dec s key l : Decision (keeps_stream s key l).
Proof.
  revert s. induction l as [|a l IH]; intros s; simpl; [apply _|].
  apply and_dec; [apply _|]. destruct (exec s a); [apply IH|apply _].
Defined.

Lemma exec_all_mono s l s' : exec_all s l = Some s' → s.(started) ≤ s'.(started).
Proof.
  revert s. induction l as [|a l IH]; intros s Hex; simpl in Hex; [by simplify_eq|].
  destruct (exec s a) as [s1|] eqn:H1; simpl in Hex; [|done].
  etrans; [by eapply started_mono|by apply IH].
Qed.

Lemma exec_all_reaches store s l s' :
  reachable store s → exec_all s l = Some s' → reachable store s'.
Proof.
  revert s. induction l as [|a l IH]; intros s Hr Hex; simpl in Hex; [by simplify_eq|].
  destruct (exec s a) as [s1|] eqn:H1; simpl in Hex; [|done].
  apply (IH s1); [by eapply reach_step|done].
Qed.

Lemma exec_all_stream store s l s' key h :
  reachable store s → s'.(started) < 2 ^ 64 → exec_all s l = Some s' → keeps_stream s key l →
  s.(rcv).(activeStreams) !! key = Some h → s'.(rcv).(activeStreams) !! key = Some h.
Proof.
  revert s. induction l as [|a l IH]; intros s Hr Hlt Hex Hk Hh; simpl in *; [by simplify_eq|].
  destruct Hk as [Hd Hk]. destruct (exec s a) as [s1|] eqn:H1; simpl in *; [|done].
  pose proof (exec_all_mono _ _ _ Hex). pose proof (started_mono _ _ _ H1).
  apply (IH s1); [by eapply reach_step|done|done|done|].
  eapply exec_stream; [eapply reachable_inv; [exact Hr|lia]|lia|done|done|done].
Qed.
End system.

(** * Properties *)

Section properties.
Context (telemetry : bool).
Notation exec := (exec telemetry).
Notation exec_all := (exec_all telemetry).
Notation reachable := (reachable telemetry).

(** C7: In every reachable state, whatever the interleaving, streams and their
    bookkeeping agree: every tracked stream is a running goroutine nobody has
    cancelled, and every goroutine nobody has cancelled is tracked under its
    container; so no container is ever read by two live streams, and none is
    read by a stream that deleting its pod would not stop. *)
Theorem streams_tracked store s :
  reachable store s → s.(started) < 2 ^ 64 →
  (∀ key h, s.(rcv).(activeStreams) !! key = Some h →
     ∃ id, s.(running) !! id = Some (MkGoroutine key h.(gen) false)) ∧
  (∀ id t, s.(running) !! id = Some t → t.(g_cancelled) = false →
     s.(rcv).(activeStreams) !! t.(g_key) = Some (MkHandle t.(g_gen))) ∧
  (∀ id1 id2 t1 t2, s.(running) !! id1 = Some t1 → s.(running) !! id2 = Some t2 →
     t1.(g_cancelled) = false → t2.(g_cancelled) = false → t1.(g_key) = t2.(g_key) → id1 = id2).
Proof.
  intros Hr Hlt. pose proof (reachable_inv telemetry store s Hr Hlt) as Hinv.
  split_and!; [apply Hinv..|]. intros. by eapply (live_unique s).
Qed.

(** C8: A cancelled stream can do no harm while it winds down: what it delivers
    moves no cursor and its exit leaves the bookkeeping, which may belong to a
    replacement by then, untouched. *)
Theorem stale_stream_harmless store s id t c :
  reachable store s → s.(started) < 2 ^ 64 →
  s.(running) !! id = Some t → t.(g_cancelled) = true →
  exec s (ActDeliver id c) = Some s ∧
  exec s (ActExit id) = Some (MkSys s.(rcv) s.(started) (delete id s.(running))).
Proof.
  intros Hr Hlt Hid Hc. pose proof (reachable_inv telemetry store s Hr Hlt) as Hinv.
  pose proof (owner_live s id t Hinv Hlt Hid) as Ho. rewrite Hc in Ho. simpl in Ho.
  simpl. rewrite Hid. simpl. unfold advanceCursor, releaseStream. rewrite Ho. simpl. by destruct s.
Qed.

(** C17: A container's cursor changes only when its own live stream delivers, and
    then forwards, or when its pod is deleted for real or expires, and then it
    is dropped; through any run of other steps it never goes backwards. *)
Theorem cursor_monotone s l s' key :
  exec_all s l = Some s' → keeps_cursor telemetry s key l →
  cur_le (cursorFor s.(rcv) key) (cursorFor s'.(rcv) key).
Proof. apply exec_all_cursor_le. Qed.

(** Once its stream has been removed, a container's cursor cannot come back or
    move until a new stream of it is started: no step but that start changes it,
    save to drop it. *)
Theorem no_resurrection s a s' key :
  exec s a = Some s' → s.(rcv).(activeStreams) !! key = None →
  s'.(rcv).(r_cursors).(cursors) !! key = s.(rcv).(r_cursors).(cursors) !! key ∨
  s'.(rcv).(r_cursors).(cursors) !! key = None.
Proof.
  intros Hex Hn. destruct (exec_cursor telemetry s a s' key Hex) as [?|[[_ ?]|(id & d & t & _ & _ & <- & Ho & _)]];
    [by left|by right|].
  apply owns_spec in Ho. congruence.
Qed.

(** C18: A drained container stays drained, and so is never opened again, until its
    pod is deleted or its state expires, however many events and resyncs come
    in between; and only terminal containers are ever drained. *)
Theorem drained_stays_closed store s l s' key :
  reachable store s → s'.(started) < 2 ^ 64 →
  exec_all s l = Some s' → Forall (λ a, ¬ revives key a) l →
  key ∈ s.(rcv).(drainedContainers) →
  key ∈ s'.(rcv).(drainedContainers) ∧ key ∈ s'.(rcv).(terminatedContainers) ∧
  s'.(rcv).(activeStreams) !! key = None.
Proof.
  intros Hr Hlt Hex Hl Hk. pose proof (exec_all_drained _ _ _ _ _ Hex Hl Hk) as Hk'.
  split; [done|]. apply (si_drained s'); [|done]. apply (reachable_inv telemetry store); [|done].
  by eapply exec_all_reaches.
Qed.

(** C33: A stream is never lost: once a container is being streamed, the same
    goroutine keeps its entry and runs on, not cancelled, not restarted and not
    replaced, through any pod events, resyncs, inferred deletes and relists of
    other pods, expiries, deliveries and exits of other streams, until it ends
    itself or its own pod is deleted. *)
Theorem stream_never_lost store s l s' key h :
  reachable store s → s'.(started) < 2 ^ 64 →
  exec_all s l = Some s' → keeps_stream telemetry s key l →
  s.(rcv).(activeStreams) !! key = Some h →
  s'.(rcv).(activeStreams) !! key = Some h ∧
  ∃ id, s.(running) !! id = Some (MkGoroutine key h.(gen) false) ∧
    s'.(running) !! id = Some (MkGoroutine key h.(gen) false).
Proof.
  intros Hr Hlt Hex Hk Hh. pose proof (exec_all_mono _ _ _ _ Hex) as Hmono.
  pose proof (exec_all_stream _ _ _ _ _ _ _ Hr Hlt Hex Hk Hh) as Hh'. split; [done|].
  assert (Hinv : sys_inv s) by (eapply reachable_inv; [exact Hr|lia]).
  assert (Hinv' : sys_inv s') by (eapply reachable_inv; [by eapply exec_all_reaches|done]).
  destruct (si_tracked _ Hinv _ _ Hh) as [id Hid]. destruct (si_tracked _ Hinv' _ _ Hh') as [id' Hid'].
  exists id. split; [done|]. destruct (si_ids _ Hinv _ _ Hid) as [? G]. destruct (si_ids _ Hinv' _ _ Hid') as [? G'].
  simpl in G, G'. assert (id = id') as -> by (apply uint64_inj; [lia|lia|congruence]). done.
Qed.

(** C23: A deleted pod leaves no stream, terminal mark or drained mark behind, and
    cancels exactly the streams of its containers; its cursors go with it when
    the API server reported the delete and stay when the informer only inferred
    it.  Its restart counts stay behind either way.  Of every other container
    nothing is touched: its stream, its marks and its cursor are what they were;
    and no generation is spent. *)
Theorem delete_cleans_up r pod inferred r' out :
  onPodDeleted telemetry r pod inferred = (r', out) →
  (∀ key, key ∈ container_keys pod →
     r'.(activeStreams) !! key = None ∧ key ∉ r'.(terminatedContainers) ∧
     key ∉ r'.(drainedContainers) ∧ r'.(restartCounts) !! key = r.(restartCounts) !! key ∧
     r'.(r_cursors).(cursors) !! key = (if inferred then r.(r_cursors).(cursors) !! key else None)) ∧
  (∀ key, key ∉ container_keys pod →
     r'.(activeStreams) !! key = r.(activeStreams) !! key ∧
     (key ∈ r'.(terminatedContainers) ↔ key ∈ r.(terminatedContainers)) ∧
     (key ∈ r'.(drainedContainers) ↔ key ∈ r.(drainedContainers)) ∧
     r'.(restartCounts) !! key = r.(restartCounts) !! key ∧
     r'.(r_cursors).(cursors) !! key = r.(r_cursors).(cursors) !! key) ∧
  r'.(nextStreamGen) = r.(nextStreamGen) ∧ starts out = [] ∧
  (∀ key g, (key, g) ∈ cancels out ↔
     key ∈ container_keys pod ∧ r.(activeStreams) !! key = Some (MkHandle g)).
Proof.
  intros Hd. destruct (onPodDeleted_spec telemetry _ _ _ _ _ Hd) as (Hg & Hrc & Ha & Ht & Hdr & Hc & Hst & Hcan).
  fold (container_keys pod) in *. split_and!; [| |done|done|done].
  - intros key Hk. rewrite Ha, Ht, Hdr, Hrc, Hc. rewrite (decide_True (P := key ∈ _)) by done.
    split_and!; [done|tauto|tauto|done|].
    destruct inferred; [rewrite decide_False by naive_solver|rewrite decide_True by done]; done.
  - intros key Hk. rewrite Ha, Hc, Hrc, Ht, Hdr. rewrite !decide_False by tauto. split_and!; tauto.
Qed.
End properties.

Module SystemSample.
Import ReceiverSample.

Definition key : string := podKey pod "app".

(** The pod is added; its watch breaks, so it is deleted and added again while the
    first stream is still winding down. *)
Definition actions : list action :=
  handler_actions (CallAdd pod) 0 ++ [ActDeliver 2 (MkCursor 5 1); ActDelete pod true] ++
  handler_actions (CallAdd pod) 10.

Definition booted : sys := boot (NewStore false).
Definition state : sys := default booted (exec_all false booted actions).

Lemma state_reachable : reachable false (NewStore false) state.
Proof. apply (exec_all_reaches false _ booted actions); [constructor|vm_compute; reflexivity]. Qed.

Lemma streams_tracked_witness :
  ∃ id, running state !! id = Some (MkGoroutine key 4 false).
Proof.
  refine (proj1 (streams_tracked false (NewStore false) state state_reachable _) key (MkHandle 4) _);
    vm_compute; reflexivity.
Defined.

Lemma stale_stream_harmless_witness :
  exec false state (ActDeliver 2 (MkCursor 9 1)) = Some state ∧
  exec false state (ActExit 2) = Some (MkSys (rcv state) (started state) (delete 2 (running state))).
Proof.
  apply (stale_stream_harmless false (NewStore false) state 2 (MkGoroutine key 2 true) (MkCursor 9 1)
    state_reachable); vm_compute; reflexivity.
Defined.

Lemma cursor_monotone_witness :
  cur_le (cursorFor (rcv booted) key) (cursorFor (rcv state) key).
Proof.
  apply (cursor_monotone false booted actions state key).
  - vm_compute. reflexivity.
  - apply (bool_decide_eq_true_1 _). vm_compute. reflexivity.
Defined.

Lemma no_resurrection_witness :
  let s := default booted (exec_all false booted (handler_actions (CallDelete pod false) 0)) in
  ∃ s', exec false s (ActMark pod) = Some s' ∧
  (s'.(rcv).(r_cursors).(cursors) !! key = s.(rcv).(r_cursors).(cursors) !! key ∨
   s'.(rcv).(r_cursors).(cursors) !! key = None).
Proof.
  intros s. eexists. split; [reflexivity|].
  apply (no_resurrection false s (ActMark pod)); [reflexivity|vm_compute; reflexivity].
Defined.

(** The init container has succeeded: its stream runs to the end, and the resyncs
    that follow leave it closed. *)
Definition init_key : string := podKey pod "init".
Definition drained_state : sys :=
  default booted (exec_all false booted (handler_actions (CallAdd pod) 0 ++ [ActExit 1])).

Lemma drained_stays_closed_witness :
  ∃ s', exec_all false drained_state (handler_actions (CallUpdate pod) 60) = Some s' ∧
    init_key ∈ s'.(rcv).(drainedContainers) ∧ init_key ∈ s'.(rcv).(terminatedContainers) ∧
    s'.(rcv).(activeStreams) !! init_key = None.
Proof.
  eexists. split; [vm_compute; reflexivity|].
  apply (drained_stays_closed false (NewStore false) drained_state (handler_actions (CallUpdate pod) 60)).
  - apply (exec_all_reaches false _ booted (handler_actions (CallAdd pod) 0 ++ [ActExit 1]));
      [constructor|vm_compute; reflexivity].
  - vm_compute. reflexivity.
  - vm_compute. reflexivity.
  - apply (bool_decide_eq_true_1 _). vm_compute. reflexivity.
  - apply (bool_decide_eq_true_1 _). vm_compute. reflexivity.
Defined.

Lemma delete_cleans_up_witness :
  activeStreams (onPodDeleted false (rcv state) pod false).1 !! key = None.
Proof.
  refine (proj1 (proj1 (delete_cleans_up false (rcv state) pod false
    (onPodDeleted false (rcv state) pod false).1 (onPodDeleted false (rcv state) pod false).2 _) key _)).
  - apply surjective_pairing.
  - apply (bool_decide_eq_true_1 _). vm_compute. reflexivity.
Defined.

(** The app container's stream outlives a resync, another stream's end, an expiry
    and the late exit of the goroutine it replaced. *)
Definition later : list action :=
  handler_actions (CallUpdate pod) 600 ++ [ActExit 2; ActPruneStore (3 * Hour); ActExit 3].

Lemma stream_never_lost_witness :
  ∃ s', exec_all false state later = Some s' ∧ s'.(rcv).(activeStreams) !! key = Some (MkHandle 4).
Proof.
  eexists. split; [vm_compute; reflexivity|].
  refine (proj1 (stream_never_lost false (NewStore false) state later _ key (MkHandle 4) state_reachable _ _ _ _)).
  - vm_compute. reflexivity.
  - vm_compute. reflexivity.
  - apply (bool_decide_eq_true_1 _). vm_compute. reflexivity.
  - vm_compute. reflexivity.
Defined.

(** A stream that has delivered nothing gives up just after its container was
    marked terminal: the container counts as drained, and the next resync does
    not start it again although its log was never read. *)
Definition dying : Pod :=
  MkPod "default" "job-0" "77aa" [] "node-1" "Never" [] [MkContainer "main" None]
    [MkContainerStatus "main" 0 true None None] [].
Definition dead : Pod :=
  MkPod "default" "job-0" "77aa" [] "node-1" "Never" [] [MkContainer "main" None]
    [MkContainerStatus "main" 0 false (Some 0) None] [].

Definition gave_up_actions : list action :=
  handler_actions (CallAdd dying) 0 ++ [ActMark dead; ActExit 1] ++ handler_actions (CallUpdate dead) 600.

Example gave_up_never_revived :
  match exec_all false booted gave_up_actions with
  | Some s => s.(rcv).(activeStreams) !! podKey dead "main" = None ∧ s.(started) = 1 ∧
      bool_decide (podKey dead "main" ∈ s.(rcv).(drainedContainers)) = true ∧
      cursorFor s.(rcv) (podKey dead "main") = Cur.zero
  | None => False
  end.
Proof. vm_compute. repeat split. Qed.
End SystemSample.
