(* ===== verification/Typing.v ===== *)
(** The types the receiver's state keeps to: the widths of its integers, which Go
    enforces, and the shape of its keys and cursors, which it does not.

    Every key is one [streamKey] built from names without a slash, so that
    [podUIDFromStreamKey] finds the pod of every entry; no cursor in the store is
    zero.  Every step of System.v preserves this. *)
From S2P Require Import Prelude GoTime Cursor Stream Store PodDiscovery Receiver System.
Open Scope Z_scope.

Definition in_int32 (z : Z) : Prop := - 2 ^ 31 ≤ z < 2 ^ 31.

(** A key of one container. *)
Definition key_ok (key : string) : Prop :=
  ∃ ns pod uid c, no_slash ns ∧ no_slash pod ∧ no_slash uid ∧ no_slash c ∧ key = streamKey ns pod uid c.

(** A cursor worth storing. *)
Definition cursor_ok (c : Cursor) : Prop := Cur.IsZero c = false ∧ in_int64 c.(Delivered).

(** * The state *)

Record rcv_typed (r : logsReceiver) : Prop := {
  ty_gen : 0 ≤ r.(nextStreamGen) < 2 ^ 64;
  ty_active : map_Forall (λ k h, key_ok k ∧ 0 ≤ h.(gen) < 2 ^ 64) r.(activeStreams);
  ty_terminated : set_Forall key_ok r.(terminatedContainers);
  ty_drained : set_Forall key_ok r.(drainedContainers);
  ty_counts : map_Forall (λ k n, key_ok k ∧ in_int32 n) r.(restartCounts);
  ty_cursors : map_Forall (λ k c, key_ok k ∧ cursor_ok c) r.(r_cursors).(cursors);
}.

Record sys_typed (s : sys) : Prop := {
  ty_rcv : rcv_typed s.(rcv);
  ty_running : map_Forall (λ _ t, key_ok t.(g_key) ∧ 0 ≤ t.(g_gen) < 2 ^ 64) s.(running);
}.

(** * The inputs

    Namespaces, names, UIDs and container names hold no slash; counts are
    32-bit. *)
Record pod_typed (pod : Pod) : Prop := {
  pt_namespace : no_slash pod.(p_Namespace);
  pt_name : no_slash pod.(p_Name);
  pt_uid : no_slash pod.(p_UID);
  pt_containers : Forall (λ c, no_slash c.(c_Name)) (podContainers pod);
  pt_statuses : Forall (λ cs, no_slash cs.(cs_Name) ∧ in_int32 cs.(cs_RestartCount))
    (pod.(p_ContainerStatuses) ++ pod.(p_InitContainerStatuses));
}.

Definition action_typed (a : action) : Prop :=
  match a with
  | ActMark pod => pod_typed pod
  | ActEnsure pod c => pod_typed pod ∧ c ∈ podContainers pod
  | ActDeliver _ c => in_int64 c.(Delivered)
  | _ => True
  end.

Lemma podKey_ok pod name : pod_typed pod → no_slash name → key_ok (podKey pod name).
Proof. intros [? ? ? _ _] ?. by exists pod.(p_Namespace), pod.(p_Name), pod.(p_UID), name. Qed.

Lemma uint64_typed z : 0 ≤ uint64 z < 2 ^ 64.
Proof. unfold uint64. apply Z.mod_pos_bound. lia. Qed.

(** * Taking entries away *)

Record shrinks (r r' : logsReceiver) : Prop := {
  sh_gen : r'.(nextStreamGen) = r.(nextStreamGen);
  sh_active : r'.(activeStreams) ⊆ r.(activeStreams);
  sh_terminated : r'.(terminatedContainers) ⊆ r.(terminatedContainers);
  sh_drained : r'.(drainedContainers) ⊆ r.(drainedContainers);
  sh_counts : r'.(restartCounts) ⊆ r.(restartCounts);
  sh_cursors : r'.(r_cursors).(cursors) ⊆ r.(r_cursors).(cursors);
}.

Lemma map_Forall_subseteq {A} (P : string → A → Prop) (m m' : gmap string A) :
  m' ⊆ m → map_Forall P m → map_Forall P m'.
Proof. intros Hs Hm k x Hk. eapply Hm, lookup_weaken; done. Qed.

Lemma shrinks_typed r r' : shrinks r r' → rcv_typed r → rcv_typed r'.
Proof.
  intros [Hg Ha Ht Hd Hc Hcur] [? ? Hty ? ? ?].
  split; [congruence|by eapply map_Forall_subseteq|set_solver|set_solver
    |by eapply map_Forall_subseteq..].
Qed.

(** A map none of whose entries is new is part of the other. *)
Lemma shrunk_map {A} (m m' : gmap string A) :
  (∀ k, m' !! k = m !! k ∨ m' !! k = None) → m' ⊆ m.
Proof. intros H. apply map_subseteq_spec. intros k x Hk. destruct (H k); congruence. Qed.

Lemma shrunk_if {A} (P : string → Prop) `{!∀ k, Decision (P k)} (m m' : gmap string A) :
  (∀ k, m' !! k = if decide (P k) then None else m !! k) → m' ⊆ m.
Proof. intros Hm. apply shrunk_map. intros k. rewrite Hm. case_decide; auto. Qed.

Section preservation.
Context (telemetry : bool).

Lemma delete_shrinks r pod inferred : shrinks r (onPodDeleted telemetry r pod inferred).1.
Proof.
  destruct (onPodDeleted telemetry r pod inferred) as [r' out] eqn:Hd.
  destruct (onPodDeleted_spec _ _ _ _ _ _ Hd) as (Hg & Hrc & Ha & Ht & Hdr & Hc & _). simpl.
  split; [done| |set_solver|set_solver|by rewrite Hrc|].
  - by apply (shrunk_if (λ key, key ∈ podKeys pod (podContainers pod))).
  - by apply (shrunk_if (λ key, inferred = false ∧ key ∈ podKeys pod (podContainers pod))).
Qed.

Lemma drop_shrinks r keys : shrinks r (dropPruned r keys).
Proof.
  destruct (dropPruned_spec r keys) as (Ha & Hg & Hc & Ht & Hd & Hrc).
  split; [done|by rewrite Ha|set_solver|set_solver|by apply (shrunk_if (λ key, key ∈ keys))|by rewrite Hc].
Qed.

Lemma prune_shrinks r cutoff :
  shrinks r (set_store r (Prune podUIDFromStreamKey r.(r_cursors) cutoff).1).
Proof.
  split; simpl; try done. eapply (shrunk_if (λ k, is_Some (stale_pods _ cutoff !! podUIDFromStreamKey k))).
  intros k. apply lookup_Prune.
Qed.

Lemma mark_typed pod isInit cs r :
  pod_typed pod → no_slash cs.(cs_Name) → in_int32 cs.(cs_RestartCount) →
  rcv_typed r → rcv_typed (markContainer pod isInit r cs).
Proof.
  intros Hp Hn Hi [Hg Ha Ht Hd Hc Hcur]. pose proof (podKey_ok pod _ Hp Hn) as Hk.
  unfold markContainer. set (r1 := set_restartCounts _ _).
  assert (Hr1 : rcv_typed r1) by (split; try done; by apply map_Forall_insert_2).
  case_match; [|done]. split; try apply Hr1. simpl.
  apply set_Forall_union; [done|by apply set_Forall_singleton].
Qed.

Lemma marks_typed r pod : pod_typed pod → rcv_typed r → rcv_typed (markContainerStates r pod).
Proof.
  intros Hp Hr. pose proof (pt_statuses _ Hp) as Hs. apply Forall_app in Hs as [Hs Hi].
  assert (Hall : ∀ isInit l r, Forall (λ cs, no_slash cs.(cs_Name) ∧ in_int32 cs.(cs_RestartCount)) l →
    rcv_typed r → rcv_typed (foldl (markContainer pod isInit) r l)).
  { intros isInit l. induction l as [|cs l IH]; intros r0 Hl Hr0; simpl; [done|].
    apply Forall_cons in Hl as [[? ?] Hl]. apply IH; [done|]. by apply mark_typed. }
  by apply Hall, Hall.
Qed.

(** A stream that starts. *)
Lemma ensure_typed s pod c :
  pod_typed pod → c ∈ podContainers pod → sys_typed s →
  sys_typed (with_outputs s (ensureStream pod s.(rcv) c)).
Proof.
  intros Hp Hc [Hr Hrun]. pose proof Hr as [Hg Ha Ht Hd Hrc Hcur].
  assert (Hk : key_ok (podKey pod (c_Name c))).
  { apply podKey_ok; [done|]. pose proof (pt_containers _ Hp) as Hall. rewrite Forall_forall in Hall. by apply Hall. }
  destruct (ensureStream_cases pod (rcv s) c)
    as [[-> _]|(_ & _ & r' & a & -> & (Ht' & Hd' & Hc' & Hrc') & Hgen & -> & Hm)];
    unfold with_outputs, spawn; simpl; [done|].
  pose proof (uint64_typed (nextStreamGen (rcv s) + 1)) as Hu. rewrite <- Hgen in Hu.
  split; simpl; [|by apply map_Forall_insert_2].
  split; [done| |by rewrite Ht'|by rewrite Hd'|by rewrite Hrc'|by rewrite Hc'].
  rewrite Hm. by apply map_Forall_insert_2.
Qed.

(** Cancelling goroutines leaves their keys and generations. *)
Lemma cancel_typed s ro :
  starts ro.2 = [] → rcv_typed ro.1 → sys_typed s → sys_typed (with_outputs s ro).
Proof.
  intros Hst Hr [_ Hrun]. unfold with_outputs.
  destruct (spawn_cancels (started s) (running s) ro.2 Hst) as [_ Hs].
  destruct (spawn _ _ _) as [st run]. simpl in *. split; simpl; [done|].
  intros id t Ht. rewrite Hs in Ht. apply fmap_Some in Ht as (t0 & Ht0 & ->).
  apply Hrun in Ht0. by case_match.
Qed.

Lemma advance_typed r key g c :
  key_ok key → in_int64 c.(Delivered) → rcv_typed r → rcv_typed (advanceCursor r key g c).
Proof.
  intros Hk Hi Hr. unfold advanceCursor. destruct (owns r key g); simpl; [|done].
  pose proof Hr as [Hg Ha Ht Hd Hc Hcur]. split; simpl; try done. unfold Advance.
  destruct (Cur.IsZero c) eqn:Hz; [done|]. case_match; [|done]. simpl.
  by apply map_Forall_insert_2.
Qed.

Lemma release_typed r key g :
  key_ok key → rcv_typed r → rcv_typed (releaseStream telemetry r key g).1.
Proof.
  intros Hk [Hg Ha Ht Hd Hc Hcur]. unfold releaseStream. destruct (owns r key g); simpl; [|done].
  assert (Hdel : map_Forall (λ k h, key_ok k ∧ 0 ≤ h.(gen) < 2 ^ 64) (delete key r.(activeStreams)))
    by by apply map_Forall_delete.
  case_decide; split; simpl; try done. apply set_Forall_union; [done|by apply set_Forall_singleton].
Qed.

Lemma exec_typed s a s' :
  sys_typed s → action_typed a → exec telemetry s a = Some s' → sys_typed s'.
Proof.
  intros Hs Ha Hex. pose proof Hs as [Hr Hrun].
  destruct a as [uid now|pod|pod c|pod inf|id c|id|now|keys]; simpl in Hex, Ha.
  - injection Hex as <-. by split; [destruct Hr|].
  - injection Hex as <-. split; [by apply marks_typed|done].
  - injection Hex as <-. by apply ensure_typed; [apply Ha..|].
  - injection Hex as <-. apply cancel_typed; [|by eapply shrinks_typed; [apply delete_shrinks|]|done].
    destruct (onPodDeleted telemetry (rcv s) pod inf) as [r' out] eqn:Hd.
    by destruct (onPodDeleted_spec _ _ _ _ _ _ Hd) as (_ & _ & _ & _ & _ & _ & ? & _).
  - apply bind_Some in Hex as (t & Hid & [= <-]). split; [|done].
    apply advance_typed; [by apply (Hrun id t)|done|done].
  - apply bind_Some in Hex as (t & Hid & [= <-]). split; simpl; [|by apply map_Forall_delete].
    apply release_typed; [by apply (Hrun id t)|done].
  - injection Hex as <-. split; [|done]. by eapply shrinks_typed; [apply prune_shrinks|].
  - injection Hex as <-. split; [|done]. by eapply shrinks_typed; [apply drop_shrinks|].
Qed.

Lemma exec_all_typed s l s' :
  sys_typed s → Forall action_typed l → exec_all telemetry s l = Some s' → sys_typed s'.
Proof.
  revert s. induction l as [|a l IH]; intros s Hs Hl Hex; simpl in Hex; [by simplify_eq|].
  apply Forall_cons in Hl as [Ha Hl]. apply bind_Some in Hex as (s1 & H1 & Hex).
  by eapply (IH s1); [eapply exec_typed| |].
Qed.
End preservation.

(** * Properties *)

(** C19: The receiver's state is well typed in every state it can reach from a store
    of well-formed entries: each key of each of its maps and of the store is the
    key of one container, from which the pod's UID is recovered, counters and
    generations keep to their width, and no stored cursor is zero. *)
Theorem state_well_typed telemetry store l s :
  map_Forall (λ k c, key_ok k ∧ cursor_ok c) store.(cursors) →
  Forall action_typed l → exec_all telemetry (boot store) l = Some s →
  sys_typed s ∧
  ∀ key, is_Some (s.(rcv).(r_cursors).(cursors) !! key) ∨ is_Some (s.(rcv).(activeStreams) !! key) →
    ∃ ns pod uid c, key = streamKey ns pod uid c ∧ podUIDFromStreamKey key = uid.
Proof.
  intros Hst Hl Hex. assert (Hs : sys_typed s).
  { eapply exec_all_typed; [|done|done]. split; [|apply map_Forall_empty].
    split; simpl; [lia|apply map_Forall_empty|set_solver|set_solver|apply map_Forall_empty|done]. }
  split; [done|]. intros key Hkey.
  assert (key_ok key) as (ns & pod & uid & c & ? & ? & ? & ? & ->).
  { destruct Hs as [[_ Ha _ _ _ Hc] _]. destruct Hkey as [[x Hx]|[x Hx]].
    - by apply Hc in Hx as [? _].
    - by apply Ha in Hx as [? _]. }
  exists ns, pod, uid, c. split; [done|]. unfold podUIDFromStreamKey. by rewrite Split_streamKey.
Qed.

Module TypingSample.
Import ReceiverSample SystemSample.

Lemma no_slash_check s : bool_decide (slash ∈ String.list_ascii_of_string s) = false → no_slash s.
Proof. by intros ?%bool_decide_eq_false. Qed.

Lemma pod_is_typed : pod_typed pod.
Proof.
  split; [by apply no_slash_check..| |].
  - repeat (apply Forall_cons; split; [by apply no_slash_check|]). by apply Forall_nil.
  - repeat (apply Forall_cons; split; [split; [by apply no_slash_check|vm_compute; split; [discriminate|reflexivity]]|]).
    by apply Forall_nil.
Qed.

Lemma state_well_typed_witness : sys_typed state.
Proof.
  apply (state_well_typed false (NewStore false) actions state).
  - apply map_Forall_empty.
  - unfold actions, handler_actions. cbn [app fmap list_fmap podContainers pod].
    repeat (apply Forall_cons; split;
      [first [exact I|exact pod_is_typed|split; [exact pod_is_typed|set_solver]
             |vm_compute; split; discriminate]|]).
    apply Forall_nil. exact I.
  - vm_compute. reflexivity.
Defined.
End TypingSample.
