(* ===== verification/Lifecycle.v ===== *)
(** From start to shutdown and over a restart: [Start] and [Shutdown] of
    [receiver.go], and what they make of the cursors.

    Files above it prove what one stream does with the log (Delivery.v), what the
    store keeps (Store.v) and how streams and pods interleave (System.v); this one
    puts them together. *)
From S2P Require Import Prelude GoTime Retry Cursor LogLine Scanner Consumer Samples Connection Stream Delivery Store Json DurationText CursorJson K8sConfig PodDiscovery Config Receiver System.
Open Scope Z_scope.

(** * [Start] *)

Inductive StartErr (E : Type) :=
| ErrStorage (e : StorageError E)
| ErrRestConfig (e : RestError E)
| ErrHTTPClient (e : E)
| ErrClientset (e : E)
| ErrDiscovery (e : PodDiscovery.StartError E).
Arguments ErrStorage {E} _. Arguments ErrRestConfig {E} _. Arguments ErrHTTPClient {E} _.
Arguments ErrClientset {E} _. Arguments ErrDiscovery {E} _.

(** The goroutines [Start] starts, the streams apart, all of them tracked in
    [wg]. *)
Inductive background := BgDiscovery (g : PodDiscovery.goroutine) | BgPruning | BgFlush.

(** The run context, the parent of every goroutine's: not made yet, running, or
    cancelled. *)
Inductive run_ctx := CtxNone | CtxLive | CtxCancelled.

(** What [Start] leaves behind next to the receiver's state: whether there is an
    HTTP client, the context, and the goroutines started. *)
Record launched := MkLaunched {
  ru_httpClient : bool;
  ru_ctx : run_ctx;
  ru_bg : list background;
}.

(** What the calls [Start] makes answer: the host's extensions, the storage's
    content and whether it can be read, and the constructors of client-go. *)
Record start_env (C E : Type) := MkStartEnv {
  env_extensions : gmap string (Extension C E);
  env_disk : disk;
  env_disk_ok : bool;
  env_HTTPClientFor : option E;
  env_NewForConfig : option E;
  env_informers : InformerCalls E;
}.
Arguments env_extensions {C E} _. Arguments env_disk {C E} _. Arguments env_disk_ok {C E} _.
Arguments env_HTTPClientFor {C E} _. Arguments env_NewForConfig {C E} _.
Arguments env_informers {C E} _.

(** [sinceForLog]: the three states of [SinceSeconds]; the product is one of
    64-bit integers. *)
Definition sinceForLog (sinceSeconds : option Z) : bytes :=
  match sinceSeconds with
  | None => bs "full available history"
  | Some n => Duration_String (int64 (n * Second))
  end.

(** The fields of the line [Start] logs when it succeeds. *)
Record start_log := MkStartLog {
  sl_since : bytes;
  sl_max_batch_size : Z;
  sl_flush_interval : Z;
  sl_max_log_size : Z;
  sl_behavior : Behavior;
}.

Definition startLog (cfg : Config.Config) : start_log :=
  MkStartLog (sinceForLog cfg.(SinceSeconds_)) (batchSize (Some cfg)) (Config.flushInterval (Some cfg))
    (Config.maxLogSize (Some cfg)) (logSizeBehavior (Some cfg)).

Section lifecycle.
Context {C X E : Type} `{!Codec} `{!ClientGo X E}.

(** [startPodDiscovery]: all three handlers are set. *)
Definition startPodDiscovery (env : start_env C E) (cfg : Config.Config)
    : list PodDiscovery.goroutine * option (PodDiscovery.StartError E) :=
  PodDiscovery.Start env.(env_informers)
    (PodDiscovery.New
       (PodDiscovery.MkConfig cfg.(Config.Namespaces) cfg.(PodLabelSelector) (podResyncPeriod (Some cfg)))
       (MkHandler true true true)).

(** The receiver's state, what runs, and the error.  When discovery fails the
    context is cancelled, and what discovery has started is what is left. *)
Definition Start (env : start_env C E) (cfg : Config.Config)
    : logsReceiver * launched * option (StartErr E) :=
  let r := newLogsReceiver (NewStore false) in
  match OpenStorage env.(env_extensions) cfg.(StorageID) with
  | Err e => (r, MkLaunched false CtxNone [], Some (ErrStorage e))
  | Ok client =>
      let store := NewStore (bool_decide (is_Some client)) in
      let r := newLogsReceiver (Load store env.(env_disk) env.(env_disk_ok)) in
      match CreateRestConfig cfg.(APIConfig_) with
      | Err e => (r, MkLaunched false CtxNone [], Some (ErrRestConfig e))
      | Ok _ =>
          match env.(env_HTTPClientFor) with
          | Some e => (r, MkLaunched false CtxNone [], Some (ErrHTTPClient e))
          | None =>
              match env.(env_NewForConfig) with
              | Some e => (r, MkLaunched true CtxNone [], Some (ErrClientset e))
              | None =>
                  let (discovery, err) := startPodDiscovery env cfg in
                  let bg := BgDiscovery <$> discovery in
                  match err with
                  | Some e => (r, MkLaunched true CtxCancelled bg, Some (ErrDiscovery e))
                  | None =>
                      (r, MkLaunched true CtxLive
                            (bg ++ [BgPruning] ++ (if Persists r.(r_cursors) then [BgFlush] else [])),
                       None)
                  end
              end
          end
      end
  end.

(** * The background loops

    Each is one [select] over its ticker and the end of the run context. *)
Inductive prune_event := PruneTick (now : Z) | PruneDone.

Fixpoint runCursorPruning (r : logsReceiver) (evs : list prune_event) : logsReceiver :=
  match evs with
  | [] => r
  | PruneDone :: _ => r
  | PruneTick now :: evs' => runCursorPruning (pruneStaleCursors r now) evs'
  end.

Definition runCursorFlush (d : disk) (evs : list flush_event) : disk := RunFlushLoop d evs.

(** * [Shutdown]

    What [Shutdown] does, in order.  [hasRun] is whether [Start] got as far as
    the run context, [hasHTTP] as far as the HTTP client. *)
Inductive shutdown_effect :=
| SdCancel                     (* the run context, and with it every goroutine's *)
| SdLog (draining : nat)
| SdFlush                      (* after [wg.Wait] *)
| SdClose (err : option E)
| SdCloseIdle.

(** [wg]: one for each goroutine. *)
Definition wg_count (s : sys) (bg : list background) : nat := (size s.(running) + length bg)%nat.

(** Up to [wg.Wait]... *)
Definition shutdown_begin (hasRun : bool) (s : sys) : list shutdown_effect :=
  (if hasRun then [SdCancel] else []) ++ [SdLog (size s.(rcv).(activeStreams))].

(** ... and from there on, when no goroutine is left; [None] is a shutdown that is
    still waiting.  The result is the disk; the return value is always nil. *)
Definition Shutdown (hasHTTP : bool) (s : sys) (bg : list background) (d : disk) (set_ok : bool)
    (close_err : option E) : option (list shutdown_effect * disk) :=
  if decide (wg_count s bg = 0%nat) then
    Some ([SdFlush; SdClose (Close s.(rcv).(r_cursors) close_err)] ++ (if hasHTTP then [SdCloseIdle] else []),
          Flush s.(rcv).(r_cursors) d set_ok)
  else None.

(** * [streamContainerLogs]

    A stream's goroutine from its start to its deferred cleanup, on its own:
    [attempts] is what its [run] meets.  System.v and Collector.v interleave its
    steps with everybody else's. *)
Definition streamContainerLogs {E Str} `{!ApiErrors E} (telemetry : bool) (cfg : Config.Config)
    (r : logsReceiver) (a : streamArgs) (attempts : list (attempt E Str))
    : logsReceiver * list stream_output * option stop_reason :=
  let '(_, out, stop) := run (newStreamCfg telemetry cfg) (newContainerStream r a) attempts in
  let r := deliver_outputs a.(sa_key) a.(sa_gen) r out in
  (if stop is Some _ then (releaseStream telemetry r a.(sa_key) a.(sa_gen)).1 else r, out, stop).

(** * Results *)

(** What discovery is told to watch. *)
Definition discoveryConfig (cfg : Config.Config) : PodDiscovery.Config :=
  PodDiscovery.MkConfig cfg.(Config.Namespaces) cfg.(PodLabelSelector) (podResyncPeriod (Some cfg)).

(** Discovery that fails has started nothing. *)
Lemma startPodDiscovery_Err env cfg l e :
  startPodDiscovery env cfg = (l, Some e) →
  l = [] ∧ ¬ Forall (buildable env.(env_informers)) (watched (discoveryConfig cfg)).
Proof.
  unfold startPodDiscovery, PodDiscovery.Start. simpl. fold (discoveryConfig cfg).
  destruct (buildInformers _ _ _) as [informers|e'] eqn:Hb; [done|]. intros [= <- <-].
  split; [done|]. intros Hall.
  by rewrite (proj2 (buildInformers_Ok _ _ _ _) (conj eq_refl Hall)) in Hb.
Qed.

(** A start that succeeds watches every namespace configured. *)
Lemma Start_ok env cfg r bg :
  Start env cfg = (r, bg, None) →
  ∃ client, OpenStorage env.(env_extensions) cfg.(StorageID) = Ok client ∧
    r = newLogsReceiver (Load (NewStore (bool_decide (is_Some client))) env.(env_disk) env.(env_disk_ok)) ∧
    Forall (buildable env.(env_informers)) (watched (discoveryConfig cfg)) ∧
    (let informers := podInformer (discoveryConfig cfg) <$> watched (discoveryConfig cfg) in
     bg = MkLaunched true CtxLive
       ((BgDiscovery <$> (RunInformer <$> informers) ++ [ReportSync informers]) ++
        [BgPruning] ++ (if Persists r.(r_cursors) then [BgFlush] else []))).
Proof.
  unfold Start. destruct (OpenStorage _ _) as [client|] eqn:Hs; [|done].
  destruct (CreateRestConfig _); [|done]. destruct (env_HTTPClientFor env); [done|].
  destruct (env_NewForConfig env); [done|].
  destruct (startPodDiscovery env cfg) as [discovery [e|]] eqn:Hd; [done|].
  intros. simplify_eq. exists client.
  apply PodDiscovery.Start_Ok in Hd as (-> & Hb & _). cbn [d_cfg PodDiscovery.New] in *.
  split_and!; [done|done|exact Hb|]. fold (discoveryConfig cfg). by rewrite list_fmap_compose.
Qed.

(** What is written at shutdown is what the next start reads. *)
Lemma Shutdown_Start hasHTTP s bg0 d d' eff close_err env cfg r bg err encodable `{!CodecOk encodable} client :
  Shutdown hasHTTP s bg0 d true close_err = Some (eff, d') → s.(rcv).(r_cursors).(has_client) = true →
  encodable s.(rcv).(r_cursors).(cursors) →
  env.(env_disk) = d' → env.(env_disk_ok) = true →
  OpenStorage env.(env_extensions) cfg.(StorageID) = Ok (Some client) →
  Start env cfg = (r, bg, err) →
  r.(r_cursors).(cursors) = s.(rcv).(r_cursors).(cursors).
Proof.
  unfold Shutdown. intros Hsh Hc He Hd Hok Hopen Hst. case_decide; [|done].
  injection Hsh as _ Hsh. rewrite <- Hsh in Hd.
  assert (r = newLogsReceiver (Load (NewStore true) (Flush (r_cursors (rcv s)) d true) true)) as ->.
  { unfold Start in Hst. rewrite Hopen, Hok, Hd in Hst. simpl in Hst.
    repeat (case_match; simplify_eq/=; try done). }
  simpl. by apply (Flush_Load _ _ encodable).
Qed.
End lifecycle.

(** * A stream and the store *)

Section handover.
Context (W : list Line) (HW : log_ok W).

Lemma position_zero c : position W c → Cur.IsZero c = true → c = Cur.zero.
Proof. intros (b & n & Hst) Hz. apply (stands_zero W HW _ _ _ Hst). by apply Z.eqb_eq in Hz. Qed.

Lemma position_ge c : position W c → cur_le Cur.zero c.
Proof.
  intros (b & n & [Hf _ ->]). change Cur.zero with (Cursor.pos Timestamp []).
  rewrite <- (slice_same W b). apply (pos_slice_le W HW). lia.
Qed.

(** Publishing positions in order leaves the store at the last of them. *)
Lemma advance_all_ascending r key g l :
  owns r key g = true → position W (cursorFor r key) →
  ascending (cursorFor r key) l → Forall (position W) l →
  let r' := foldl (λ r c, advanceCursor r key g c) r l in
  cursorFor r' key = default (cursorFor r key) (last l) ∧
  r'.(activeStreams) = r.(activeStreams) ∧ r'.(terminatedContainers) = r.(terminatedContainers).
Proof.
  revert r. induction l as [|c l IH]; intros r Hown Hpos Hasc Hl; [done|].
  destruct Hasc as [Hle Hasc]. apply Forall_cons in Hl as [Hc Hl].
  cbn [foldl]. set (r1 := advanceCursor r key g c).
  assert (Hr1 : r1 = set_store r (Advance (r_cursors r) key c)) by by apply advanceCursor_owned.
  assert (Hget : cursorFor r1 key = c).
  { rewrite Hr1. unfold cursorFor. simpl. rewrite Get_Advance, decide_True by done.
    fold (cursorFor r key). destruct (Cur.IsZero c) eqn:Hz.
    - apply position_zero in Hz as ->; [|done].
      assert (Hge := position_ge _ Hpos). destruct Hle as [?|Hlt]; [done|].
      destruct Hge as [?|Hgt]; [done|]. exfalso. apply (irreflexivity cur_lt Cur.zero). by etrans.
    - unfold cur_max. destruct Hle as [->|Hlt]; [by case_match|]. unfold cur_lt in Hlt. by rewrite Hlt. }
  destruct (IH r1) as (Hc' & Ha' & Ht').
  - by rewrite Hr1.
  - by rewrite Hget.
  - by rewrite Hget.
  - done.
  - rewrite Hc', Ha', Ht', Hget, Hr1, last_cons. split_and!; [by destruct (last l)|done|done].
Qed.

Context {S E CE : Type} `{!PData} `{!Consumer S Batch CE} `{!ConsumerErrors Batch CE} `{!ApiErrors E}.
Context (maxBatch : Z) (maxBatch_pos : 0 < maxBatch ≤ max_int64).

(** A stream started from the store's cursor leaves the store where it stopped
    reading, for as long as it owns the key: the next stream of the container
    resumes there. *)
Lemma stream_hands_over telemetry r a cfg attempts s' out stop :
  Forall (reads_log W maxBatch) attempts →
  owns r a.(sa_key) a.(sa_gen) = true → position W (cursorFor r a.(sa_key)) →
  run (newStreamCfg telemetry cfg) (newContainerStream r a) attempts = (s', out, stop) →
  let r' := deliver_outputs a.(sa_key) a.(sa_gen) r out in
  cursorFor r' a.(sa_key) = s'.(resume) ∧
  r'.(activeStreams) = r.(activeStreams) ∧ r'.(terminatedContainers) = r.(terminatedContainers).
Proof.
  intros Ha Hown Hpos Hrun r'. unfold r', run in *.
  destruct (run_loop_publishes (position W) _ (newStreamCfg telemetry cfg)
    (set_backoff (newContainerStream r a) (InitialInterval (ReconnectBackoff cfg))) _ _ _ _
    (attempts_contract W HW _ maxBatch_pos _ _ Ha) eq_refl Hpos Hrun) as (Hasc & Hok & Hr).
  unfold deliver_outputs. destruct (advance_all_ascending r a.(sa_key) a.(sa_gen) (published out))
    as [Hc Hrest]; [done|done|done|done|]. rewrite Hc, Hr. done.
Qed.
End handover.

(** * Properties *)

(** Every step of [Start] succeeds. *)
Definition startable {C X E} `{!ClientGo X E} (env : start_env C E) (cfg : Config.Config) : Prop :=
  (∃ client, OpenStorage env.(env_extensions) cfg.(StorageID) = Ok client) ∧
  (∃ rest, CreateRestConfig (X := X) (E := E) cfg.(APIConfig_) = Ok rest) ∧
  env.(env_HTTPClientFor) = None ∧ env.(env_NewForConfig) = None ∧
  Forall (buildable env.(env_informers)) (watched (discoveryConfig cfg)).

Lemma Start_startable {C X E} `{!Codec} `{!ClientGo X E} (env : start_env C E) cfg r bg err :
  Start env cfg = (r, bg, err) → err = None ↔ startable env cfg.
Proof.
  intros Hs. split.
  - intros ->. destruct (Start_ok _ _ _ _ Hs) as (client & Ho & _ & Hb & _).
    unfold Start in Hs. repeat (case_match; simplify_eq/=; try done). split_and!; eauto.
  - intros ((client & Ho) & (rest & Hr) & Hh & Hn & Hb). unfold Start in Hs. rewrite Ho, Hr, Hh, Hn in Hs.
    destruct (startPodDiscovery env cfg) as [discovery [e|]] eqn:Hd; [|by simplify_eq].
    by apply startPodDiscovery_Err in Hd as [_ []].
Qed.

Lemma Persists_loaded `{!Codec} b d ok :
  Persists (r_cursors (newLogsReceiver (Load (NewStore b) d ok))) = b.
Proof. unfold Persists, Load. simpl. by repeat (case_match; simpl). Qed.

(** C39: Start succeeds exactly when the storage opens, the client's configuration
    and the client are built, and the informer of every configured namespace is.
    When it fails no goroutine is running, and the run context is cancelled if
    it was made.  When it succeeds what runs is exactly one informer for each
    configured namespace, in order, the report of their first listing, the
    pruner, and the flusher if and only if cursors are persisted, over a store
    loaded from the configured storage. *)
Theorem start_outcome {C X E} `{!Codec} `{!ClientGo X E} (env : start_env C E) cfg r bg err :
  Start env cfg = (r, bg, err) →
  (err = None ↔ startable env cfg) ∧
  match err with
  | Some e => bg.(ru_bg) = [] ∧
      bg.(ru_ctx) = (if e is ErrDiscovery _ then CtxCancelled else CtxNone)
  | None => ∃ client, OpenStorage env.(env_extensions) cfg.(StorageID) = Ok client ∧
      r = newLogsReceiver (Load (NewStore (bool_decide (is_Some client))) env.(env_disk) env.(env_disk_ok)) ∧
      bg.(ru_ctx) = CtxLive ∧
      let informers := podInformer (discoveryConfig cfg) <$> watched (discoveryConfig cfg) in
      bg.(ru_bg) = (BgDiscovery ∘ RunInformer <$> informers) ++ [BgDiscovery (ReportSync informers)] ++
        [BgPruning] ++ (if client is Some _ then [BgFlush] else [])
  end.
Proof.
  intros Hs. split; [by eapply Start_startable|]. destruct err as [e|].
  - unfold Start in Hs. repeat (case_match; simplify_eq/=; try done).
    by match goal with H : startPodDiscovery _ _ = _ |- _ => apply startPodDiscovery_Err in H as [-> _] end.
  - destruct (Start_ok _ _ _ _ Hs) as (client & Ho & -> & _ & ->). exists client.
    split_and!; [done..|]. cbv zeta. cbn [ru_bg]. rewrite Persists_loaded, fmap_app, <- list_fmap_compose, <- !app_assoc.
    by destruct client.
Qed.

(** C21: A clean restart loses no position: what shutdown writes once every stream
    has ended is what the next start resumes from, for every container. *)
Theorem restart_restores {C X E} `{!Codec} `{!ClientGo X E} encodable `{!CodecOk encodable}
    hasHTTP s bg0 d d' eff (close_err : option E) (env : start_env C E) cfg r bg err client key :
  Shutdown hasHTTP s bg0 d true close_err = Some (eff, d') → s.(rcv).(r_cursors).(has_client) = true →
  encodable s.(rcv).(r_cursors).(cursors) →
  env.(env_disk) = d' → env.(env_disk_ok) = true →
  OpenStorage env.(env_extensions) cfg.(StorageID) = Ok (Some client) →
  Start env cfg = (r, bg, err) →
  cursorFor r key = cursorFor s.(rcv) key.
Proof.
  intros Hsh Hc He Hd Hok Ho Hst. unfold cursorFor, Get.
  by rewrite (Shutdown_Start _ _ _ _ _ _ _ _ _ _ _ _ _ _ Hsh Hc He Hd Hok Ho Hst).
Qed.

(** C9: Streams of one container continue one another: a stream that starts from
    the cursor its predecessor left in the store, after a restart or a re-added
    pod, goes on where that one stopped, so that what both together are done
    with, taken or dropped for good, is consecutive lines of the log, each once.
    They begin where the first stream's cursor stood; or, when it had none,
    where the window of one of their requests without a cursor begins. *)
Theorem next_stream_continues {S E CE : Type} `{!PData} `{!Consumer S Batch CE}
    `{!ConsumerErrors Batch CE} `{!ApiErrors E} W maxBatch telemetry cfg n
    r1 a1 (attempts1 : list (attempt E (podStream S))) s1 out1 stop1
    r2 a2 (attempts2 : list (attempt E (podStream S))) s2 out2 stop2 :
  log_ok W → Forall (λ x, Timestamp x ≠ 0) W → 0 < maxBatch ≤ max_int64 →
  Forall (reads_log W maxBatch) attempts1 → Forall (reads_log W maxBatch) attempts2 →
  (n ≤ length W)%nat → cursorFor r1 a1.(sa_key) = Cursor.pos Timestamp (take n W) →
  owns r1 a1.(sa_key) a1.(sa_gen) = true →
  run (newStreamCfg telemetry cfg) (newContainerStream r1 a1) attempts1 = (s1, out1, stop1) →
  cursorFor r2 a2.(sa_key) = cursorFor (deliver_outputs a1.(sa_key) a1.(sa_gen) r1 out1) a1.(sa_key) →
  run (newStreamCfg telemetry cfg) (newContainerStream r2 a2) attempts2 = (s2, out2, stop2) →
  ∃ b n', (b = n ∨ (n = 0%nat ∧ begins W cfg.(SinceSeconds_) (opens out1 ++ opens out2) b)) ∧
    (b ≤ n' ≤ length W)%nat ∧ settled out1 ++ settled out2 = Body <$> slice W b n' ∧
    ((∀ e : CE, IsPermanent e = false) →
     accepted out1 ++ accepted out2 = settled out1 ++ settled out2).
Proof.
  intros HW Hst Hmax H1 H2 Hn Hpos Hown Hrun1 Hcur Hrun2.
  assert (Hst0 : stands W 0 n (cursorFor r1 a1.(sa_key))) by (rewrite Hpos; by apply stands_take).
  destruct (stream_hands_over W HW maxBatch Hmax telemetry r1 a1 cfg attempts1 s1 out1 stop1)
    as [Hover _]; [done|done|by exists 0%nat, n|done|]. rewrite Hover in Hcur.
  destruct (run_moves W HW maxBatch Hmax _ (newStreamCfg telemetry cfg) _ _ _ _ _ H1 eq_refl Hrun1 0%nat n Hst0)
    as (b1 & n1 & fl1 & Ha1 & Hr1 & _).
  pose proof (proj1 Hr1) as Hst1. rewrite <- Hcur in Hst1.
  destruct (run_moves W HW maxBatch Hmax _ (newStreamCfg telemetry cfg) _ _ _ _ _ H2 eq_refl Hrun2 b1 n1 Hst1)
    as (b2 & n2 & fl2 & Ha2 & Hr2 & _).
  cbn [resume newContainerStream] in Hr2. rewrite Hcur in Hr2.
  assert (Hr : reaches W (sinceSeconds (newStreamCfg telemetry cfg)) (opens out1 ++ opens out2)
    (cursorFor r1 a1.(sa_key)) 0 n (fl1 ++ fl2) (resume s2) b2 n2) by by eapply reaches_trans.
  destruct (reaches_stamped W HW _ _ _ n _ _ _ _ Hst Hpos Hn Hr) as (b & Hb & Hf & Hfl & _).
  exists b, n2. rewrite Ha1, Ha2, <- fmap_app, Hfl. split_and!; [done|lia|lia|done|].
  intros Hperm. rewrite <- Hfl, fmap_app, <- Ha1, <- Ha2.
  f_equal; [by eapply (run_drops_nothing W); [| |exact Hrun1]|by eapply (run_drops_nothing W); [| |exact Hrun2]].
Qed.

(** C6: A terminal container is read to its end and then left alone: a stream that
    stops because its container is terminal, and whose final read succeeds, is
    done with all of the rest of the log, which it has handed over to be taken or
    refused for good; its cursor in the store stands at the end, unless no line
    it read has a timestamp, the container counts as drained, and no later event
    of its pod starts it again.  The rest begins where the cursor it started from
    stood; or, when it had none, where the window of one of its own requests
    without a cursor begins. *)
Theorem terminal_stream_drains {S E CE : Type} `{!PData} `{!Consumer S Batch CE}
    `{!ConsumerErrors Batch CE} `{!ApiErrors E} W maxBatch telemetry cfg n
    r a (attempts : list (attempt E (podStream S))) r' out pod c :
  log_ok W → 0 < maxBatch ≤ max_int64 →
  Forall (reads_log W maxBatch) attempts → Forall last_read_clean attempts →
  (n ≤ length W)%nat → cursorFor r a.(sa_key) = Cursor.pos Timestamp (take n W) →
  owns r a.(sa_key) a.(sa_gen) = true → a.(sa_key) ∈ r.(terminatedContainers) →
  streamContainerLogs telemetry cfg r a attempts = (r', out, Some StopTerminal) →
  podKey pod c.(c_Name) = a.(sa_key) →
  (∃ b fl, (b = n ∨ (TS (cursorFor r a.(sa_key)) = 0 ∧ begins W cfg.(SinceSeconds_) (opens out) b)) ∧
     settled out = Body <$> fl ∧ drop b W `sublist_of` fl ∧
     (cursorFor r' a.(sa_key) = Cursor.pos Timestamp W ∨
      (cursorFor r' a.(sa_key) = Cur.zero ∧ Forall (λ x, Timestamp x = 0) (drop b W)))) ∧
  ((∀ e : CE, IsPermanent e = false) → accepted out = settled out) ∧
  a.(sa_key) ∈ r'.(drainedContainers) ∧ ensureStream pod r' c = (r', []).
Proof.
  intros HW Hmax Ha Hl Hn Hpos Hown Hterm Hst Hkey. unfold streamContainerLogs in Hst.
  destruct (run _ _ attempts) as [[s' out'] stop] eqn:Hrun. simplify_eq/=.
  assert (Hst0 : stands W 0 n (cursorFor r a.(sa_key))) by (rewrite Hpos; by apply stands_take).
  destruct (stream_hands_over W HW maxBatch Hmax telemetry r a cfg attempts s' out (Some StopTerminal))
    as (Hcur & Hact & Ht); [done|done|by exists 0%nat, n|done|].
  destruct (run_moves W HW maxBatch Hmax _ (newStreamCfg telemetry cfg) _ _ _ _ _ Ha eq_refl Hrun 0%nat n Hst0)
    as (b & n' & fl & Hacc & Hreach & _ & Hend). rewrite Hend in Hreach by done.
  destruct (reaches_covers W HW _ _ _ n _ _ _ _ Hreach) as (b0 & Hb & [Hf Hall _ _] & Hres).
  rewrite slice_end in Hall, Hres by lia. rewrite take_ge in Hres by lia. rewrite <- Hcur in Hres.
  set (r1 := deliver_outputs _ _ r out) in *.
  assert (Hown1 : owns r1 (sa_key a) (sa_gen a) = true) by (unfold owns; by rewrite Hact).
  assert (Hdr : a.(sa_key) ∈ (releaseStream telemetry r1 (sa_key a) (sa_gen a)).1.(drainedContainers)).
  { unfold releaseStream. rewrite Hown1. simpl. rewrite decide_True by by rewrite Ht.
    simpl. set_solver. }
  split_and!; [| |done|].
  - exists b0, fl. unfold cursorFor in *. rewrite releaseStream_store. by split_and!.
  - intros Hperm. by eapply run_drops_nothing.
  - unfold ensureStream. rewrite Hkey. repeat case_match; done.
Qed.

(** Shutdown returns only once no goroutine is left that could still move a
    position: what it writes is final. *)
Theorem shutdown_is_final {E : Type} `{!Codec} telemetry hasHTTP s bg d ok (close_err : option E) eff d' id c :
  Shutdown hasHTTP s bg d ok close_err = Some (eff, d') →
  bg = [] ∧ exec telemetry s (ActDeliver id c) = None ∧ exec telemetry s (ActExit id) = None ∧
  d' = Flush s.(rcv).(r_cursors) d ok ∧
  ∃ rest, eff = SdFlush :: SdClose (Close s.(rcv).(r_cursors) close_err) :: rest.
Proof.
  unfold Shutdown, wg_count. intros Hs. case_decide as Hz; [|done]. simplify_eq.
  assert (running s = ∅) as Hr by (apply map_size_empty_inv; lia).
  split_and!; [by destruct bg; [|simpl in Hz; lia]|simpl; by rewrite Hr|simpl; by rewrite Hr|done|by eexists].
Qed.

(** The starting point is logged as the number of seconds configured, in the range
    a duration can hold. *)
Theorem sinceForLog_reads n :
  0 ≤ n ≤ 9223372036 → read_clock (sinceForLog (Some n)) = n.
Proof.
  intros Hn. unfold sinceForLog. rewrite int64_small by (unfold Second; in_range).
  rewrite Duration_String_seconds by lia. apply read_fmtClock. lia.
Qed.

(** Beyond it the product wraps around: the log line names another time. *)
Example since_wraps :
  sinceForLog (Some 10000000000) = bs "-2346317h47m53.709551616s" ∧
  sinceForLog (Some 300) = bs "5m0s" ∧ sinceForLog None = bs "full available history".
Proof. repeat split; vm_compute; reflexivity. Qed.

Module LifecycleSample.
Import DeliverySample.
#[local] Existing Instance sample_pdata.
#[local] Existing Instance sample_consumer.
#[local] Existing Instance sample_errors.
#[local] Existing Instance StreamSample.api_errors.
#[local] Instance codec : Codec := json_codec (λ _ _, 0).
#[local] Instance codec_ok : CodecOk (encodable (λ _ _, 0)) := json_codec_ok (λ _ _, 0).
#[local] Existing Instance K8sSample.client_go.

(** The default configuration, with storage. *)
Definition config : Config.Config :=
  MkConfig (MkAPIConfig AuthTypeServiceAccount EmptyString float32_zero 0)
    [] EmptyString (Some 300) (Some "file_storage"%string) defaultMaxStreamLifetime None
    (MkReconnectBackoff (1 * Second) (30 * Second) 0)
    ConsumerRetry.NewDefaultConfig
    defaultMaxBatchSize defaultFlushInterval defaultMaxLogSize BehaviorSplitName.

Definition stopped : sys := boot StoreSample.store.
Definition saved : disk := from_option snd ∅ (Shutdown (E := string) true stopped [] ∅ true None).

Definition env : start_env unit string :=
  MkStartEnv _ _ {["file_storage"%string := StorageExtension (Ok tt)]} saved true None None
    (MkInformerCalls (λ _, None) (λ _, None) (λ _, None)).

Definition restarted := Start (X := unit) env config.

(** Two namespaces are watched; the second's informer cannot be set up. *)
Definition config2 : Config.Config :=
  MkConfig (MkAPIConfig AuthTypeServiceAccount EmptyString float32_zero 0)
    ["a"; "b"]%string EmptyString (Some 300) None defaultMaxStreamLifetime None
    (MkReconnectBackoff (1 * Second) (30 * Second) 0)
    ConsumerRetry.NewDefaultConfig
    defaultMaxBatchSize defaultFlushInterval defaultMaxLogSize BehaviorSplitName.
Definition env2 : start_env unit string :=
  MkStartEnv _ _ ∅ saved true None None
    (MkInformerCalls (λ _, None) (λ _, None) (λ ns, if decide (ns = "b"%string) then Some "no"%string else None)).

Lemma start_outcome_witness :
  ((restarted.2 = None ↔ startable (X := unit) env config) ∧
   ∃ client, OpenStorage env.(env_extensions) config.(StorageID) = Ok client ∧
    restarted.1.1 = newLogsReceiver (Load (NewStore (bool_decide (is_Some client))) saved true) ∧
    restarted.1.2.(ru_ctx) = CtxLive ∧
    let informers := podInformer (discoveryConfig config) <$> watched (discoveryConfig config) in
    restarted.1.2.(ru_bg) = (BgDiscovery ∘ RunInformer <$> informers) ++ [BgDiscovery (ReportSync informers)] ++
      [BgPruning] ++ (if client is Some _ then [BgFlush] else [])) ∧
  (let failed := Start (X := unit) env2 config2 in
   failed.1.2.(ru_bg) = [] ∧ failed.1.2.(ru_ctx) = CtxCancelled).
Proof.
  split; [exact (start_outcome env config restarted.1.1 restarted.1.2 None eq_refl)|].
  exact (proj2 (start_outcome (X := unit) env2 config2 _ _ (Some (ErrDiscovery (InformerError (EventHandlerErr "no"%string)))) eq_refl)).
Defined.

Lemma restart_restores_witness :
  cursorFor restarted.1.1 "b" = MkCursor 7 2.
Proof.
  assert (He : encodable (λ _ _, 0) StoreSample.store.(cursors)).
  { intros key c Hl. unfold StoreSample.store in Hl. cbn [cursors] in Hl. rewrite lookup_insert_Some in Hl.
    destruct Hl as [[<- <-]|[_ Hl]]; [|apply lookup_singleton_Some in Hl as [<- <-]];
      (split_and!; [apply (bool_decide_eq_true_1 _); vm_compute; reflexivity|vm_compute; reflexivity
        |cbn [Delivered]; in_range..]). }
  rewrite (restart_restores (encodable (λ _ _, 0)) true stopped [] ∅ saved [SdFlush; SdClose None; SdCloseIdle] None
    env config restarted.1.1 restarted.1.2 restarted.2 tt "b"); try exact He; vm_compute; reflexivity.
Defined.

(** A stream reads two lines before its collector stops; the next collector's
    stream of the same container reads the rest. *)
Definition args : streamArgs := MkStreamArgs "default" "web-0" "6f1c" "app" "node-1" "k" 1.

Definition owner (store : Store) : logsReceiver :=
  MkReceiver {["k"%string := MkHandle 1]} 1 ∅ ∅ store ∅.

Definition before : list (attempt string (podStream script)) :=
  [DeliverySample.turn 2 [] (Some (ReadFailed "reset")) false (clock 10)].
Definition after : list (attempt string (podStream script)) :=
  [DeliverySample.turn 9 [] None true (clock 20)].

Lemma before_reads : Forall (reads_log log 2) before.
Proof.
  apply Forall_cons; split; [apply turn_reads|]. apply Forall_nil. exact I.
Qed.

Lemma after_reads : Forall (reads_log log 2) after.
Proof.
  apply Forall_cons; split; [apply turn_reads|]. apply Forall_nil. exact I.
Qed.

Definition r1 : logsReceiver := owner (NewStore true).
Definition run1 := run (newStreamCfg true config) (newContainerStream r1 args) before.
Definition r2 : logsReceiver :=
  owner (deliver_outputs "k" 1 r1 run1.1.2).(r_cursors).
Definition run2 := run (newStreamCfg true config) (newContainerStream r2 args) after.

Lemma next_stream_continues_witness :
  ∃ b n', (b = 0%nat ∨ (0%nat = 0%nat ∧ begins log (Some 300) (opens run1.1.2 ++ opens run2.1.2) b)) ∧
    (b ≤ n' ≤ length log)%nat ∧ settled run1.1.2 ++ settled run2.1.2 = Body <$> slice log b n' ∧
    ((∀ e : sample_err, IsPermanent e = false) →
     accepted run1.1.2 ++ accepted run2.1.2 = settled run1.1.2 ++ settled run2.1.2).
Proof.
  apply (next_stream_continues log 2 true config 0 r1 args before run1.1.1 run1.1.2 run1.2
    r2 args after run2.1.1 run2.1.2 run2.2).
  - exact log_is_ok.
  - exact log_stamped.
  - vm_compute. split; [reflexivity|discriminate].
  - exact before_reads.
  - exact after_reads.
  - apply Nat.le_0_l.
  - reflexivity.
  - reflexivity.
  - vm_compute. reflexivity.
  - reflexivity.
  - vm_compute. reflexivity.
Defined.

(** The container of [DeliverySample.last_turn] is gone when its last batch is
    refused; the final read drains it, and it is not started again. *)
Definition dead_pod : Pod :=
  MkPod "default" "web-0" "6f1c" [] "node-1" "Never" [] [MkContainer "app" None]
    [MkContainerStatus "app" 0 false (Some 0) None] [].
Definition dead_key : string := podKey dead_pod "app".
Definition dead_args : streamArgs := MkStreamArgs "default" "web-0" "6f1c" "app" "node-1" dead_key 1.
Definition dead_r : logsReceiver :=
  MkReceiver {[dead_key := MkHandle 1]} 1 {[dead_key]} ∅ (NewStore false) ∅.
Definition drained := streamContainerLogs true config dead_r dead_args [last_turn].

Lemma terminal_stream_drains_witness :
  (∃ b fl, (b = 0%nat ∨ (TS (cursorFor dead_r dead_key) = 0 ∧ begins log (Some 300) (opens drained.1.2) b)) ∧
     settled drained.1.2 = Body <$> fl ∧ drop b log `sublist_of` fl ∧
     (cursorFor drained.1.1 dead_key = Cursor.pos Timestamp log ∨
      (cursorFor drained.1.1 dead_key = Cur.zero ∧ Forall (λ x, Timestamp x = 0) (drop b log)))) ∧
  ((∀ e : sample_err, IsPermanent e = false) → accepted drained.1.2 = settled drained.1.2) ∧
  dead_key ∈ drained.1.1.(drainedContainers) ∧
  ensureStream dead_pod drained.1.1 (MkContainer "app" None) = (drained.1.1, []).
Proof.
  apply (terminal_stream_drains log 2 true config 0 dead_r dead_args [last_turn] drained.1.1 drained.1.2
    dead_pod (MkContainer "app" None)).
  - exact log_is_ok.
  - vm_compute. split; [reflexivity|discriminate].
  - apply Forall_cons. split; [exact last_turn_reads|apply Forall_nil; exact I].
  - apply Forall_cons. split; [exact last_turn_clean|apply Forall_nil; exact I].
  - apply Nat.le_0_l.
  - reflexivity.
  - vm_compute. reflexivity.
  - apply (bool_decide_eq_true_1 _). vm_compute. reflexivity.
  - vm_compute. reflexivity.
  - reflexivity.
Defined.

Example continues_run :
  accepted run1.1.2 = [bs "a"; bs "b"] ∧ accepted run2.1.2 = [bs "c"; bs "d"].
Proof. split; vm_compute; reflexivity. Qed.
End LifecycleSample.
