(* ===== verification/Collector.v ===== *)
(** The collector on its node: the running receiver of System.v with what its
    streams of one container really read, hand over and report, the cursors on
    disk, crashes and restarts.

    Everything interleaves: pods come and go, cursors expire, several streams of
    the container overlap while one winds down, each is cut off anywhere between
    a batch taken and its report, and the process may die at any step.  The state
    next to the receiver's is what outlives it: the records the pipeline has
    taken or refused for good, the requests made, and the disk. *)
From S2P Require Import Prelude GoTime TimeText Retry Cursor LogLine Scanner Consumer Samples Connection Stream Delivery Store Json CursorJson K8sConfig PodDiscovery Config Receiver System Lifecycle.
Open Scope Z_scope.

(** * State *)

(** [streams] is what each stream of the container has yet to do of what it is
    going to do; [taken] the records of the container the pipeline has taken so
    far, [dropped] those discarded because it refused them for good, by whichever
    stream and incarnation of the collector; [requests] the requests made for its
    log, under which [since_seconds] and by which clock of the API server. *)
Record collector := MkCollector {
  co_cfg : Config.Config;
  co_sys : sys;
  co_streams : gmap Z (list stream_output);
  co_taken : list bytes;
  co_dropped : list bytes;
  co_requests : list (option Z * (PodLogOptions * Z));
  co_disk : disk;
}.

Definition set_sys (c : collector) (s : sys) : collector :=
  MkCollector c.(co_cfg) s c.(co_streams) c.(co_taken) c.(co_dropped) c.(co_requests) c.(co_disk).
Definition set_stream (c : collector) (id : Z) (out : list stream_output) : collector :=
  MkCollector c.(co_cfg) c.(co_sys) (<[id := out]> c.(co_streams)) c.(co_taken) c.(co_dropped)
    c.(co_requests) c.(co_disk).
Definition add_taken (c : collector) (l : list bytes) : collector :=
  MkCollector c.(co_cfg) c.(co_sys) c.(co_streams) (c.(co_taken) ++ l) c.(co_dropped) c.(co_requests)
    c.(co_disk).
Definition add_dropped (c : collector) (l : list bytes) : collector :=
  MkCollector c.(co_cfg) c.(co_sys) c.(co_streams) c.(co_taken) (c.(co_dropped) ++ l) c.(co_requests)
    c.(co_disk).
Definition add_request (c : collector) (opts : PodLogOptions) (server : Z) : collector :=
  MkCollector c.(co_cfg) c.(co_sys) c.(co_streams) c.(co_taken) c.(co_dropped)
    (c.(co_requests) ++ [(c.(co_cfg).(SinceSeconds_), (opts, server))]) c.(co_disk).
Definition set_disk (c : collector) (d : disk) : collector :=
  MkCollector c.(co_cfg) c.(co_sys) c.(co_streams) c.(co_taken) c.(co_dropped) c.(co_requests) d.

(** The records there is nothing left to do for. *)
Definition co_settled (c : collector) : list bytes := c.(co_taken) ++ c.(co_dropped).

Section collector.
Context {S E CE C X SE : Type} `{!PData} `{!Consumer S Batch CE} `{!ConsumerErrors Batch CE} `{!ApiErrors E}.
Context `{!Codec} `{!ClientGo X SE}.
Context (telemetry : bool) (key : string).

(** * Steps *)

Inductive event :=
| EvAct (a : action)                 (* a step of System.v *)
| EvBegin (id : Z) (a : streamArgs) (attempts : list (attempt E (podStream S)))
                                     (* goroutine [id] calls [run]; this is what it meets *)
| EvEmit (id : Z)                    (* and does the next thing *)
| EvFlush (ok : bool)                (* the flush loop, or the end of [Shutdown] *)
| EvRestart (env : start_env C SE) (cfg : Config.Config).

(** The goroutine reads [key] and has these arguments. *)
Definition runs_with (t : goroutine) (a : streamArgs) : Prop :=
  t.(g_key) = key ∧ a.(sa_key) = key ∧ a.(sa_gen) = t.(g_gen).

#[export] Instance runs_with_dec t a : Decision (runs_with t a).
Proof. unfold runs_with. apply _. Defined.

(** Deliveries of [key] come from its streams only. *)
Definition elsewhere (s : sys) (a : action) : bool :=
  match a with
  | ActDeliver id _ =>
      match s.(running) !! id with Some t => negb (bool_decide (t.(g_key) = key)) | None => false end
  | _ => true
  end.

Definition with_disk (env : start_env C SE) (d : disk) : start_env C SE :=
  MkStartEnv _ _ env.(env_extensions) d env.(env_disk_ok) env.(env_HTTPClientFor)
    env.(env_NewForConfig) env.(env_informers).

(** The effect of one output of goroutine [id] outside its stream. *)
Definition emit (c : collector) (id : Z) (o : stream_output) : option collector :=
  match o with
  | OutOpen opts server => Some (add_request c opts server)
  | OutAccepted l => Some (add_taken c l)
  | OutDropped l => Some (add_dropped c l)
  | OutDelivered d => s ← exec telemetry c.(co_sys) (ActDeliver id d); Some (set_sys c s)
  | _ => Some c
  end.

(** [None]: the event cannot happen now. *)
Definition step (c : collector) (e : event) : option collector :=
  let s := c.(co_sys) in
  match e with
  | EvAct a =>
      if elsewhere s a then s' ← exec telemetry s a; Some (set_sys c s') else None
  | EvBegin id a attempts =>
      t ← s.(running) !! id;
      if decide (runs_with t a ∧ c.(co_streams) !! id = None) then
        let '(_, out, _) := run (newStreamCfg telemetry c.(co_cfg)) (newContainerStream s.(rcv) a) attempts in
        Some (set_stream c id out)
      else None
  | EvEmit id =>
      _ ← s.(running) !! id;
      match c.(co_streams) !! id with
      | Some (o :: out) => emit (set_stream c id out) id o
      | _ => None
      end
  | EvFlush ok => Some (set_disk c (Flush s.(rcv).(r_cursors) c.(co_disk) ok))
  | EvRestart env cfg =>
      match Start (X := X) (with_disk env c.(co_disk)) cfg with
      | (r, _, None) => Some (MkCollector cfg (MkSys r 0 ∅) ∅ c.(co_taken) c.(co_dropped) c.(co_requests) c.(co_disk))
      | (_, _, Some _) => None
      end
  end.

Fixpoint steps (c : collector) (l : list event) : option collector :=
  match l with
  | [] => Some c
  | e :: l' => c' ← step c e; steps c' l'
  end.

(** What is assumed of the world: the container's log is [W], streams read it, the
    batch size is a machine integer, and the sets of cursors flushed can be
    written down. *)
Definition cfg_reads (cfg : Config.Config) : Prop :=
  batchSize (Some cfg) ≤ max_int64.

Definition event_ok (W : list Line) (encodable : gmap string Cursor → Prop) (c : collector) (e : event)
    : Prop :=
  match e with
  | EvBegin _ _ attempts => Forall (reads_log W (batchSize (Some c.(co_cfg)))) attempts
  | EvFlush _ => encodable c.(co_sys).(rcv).(r_cursors).(cursors)
  | EvRestart _ cfg => cfg_reads cfg
  | EvAct _ | EvEmit _ => True
  end.

(** Before the first start: nothing read, nothing stored. *)
Definition unborn (cfg : Config.Config) : collector :=
  MkCollector cfg (boot (NewStore false)) ∅ [] [] [] ∅.

Inductive co_reachable (W : list Line) (encodable : gmap string Cursor → Prop) : collector → Prop :=
| co_unborn cfg : cfg_reads cfg → co_reachable W encodable (unborn cfg)
| co_step c e c' :
    co_reachable W encodable c → event_ok W encodable c e → step c e = Some c' →
    co_reachable W encodable c'.

(** * No gap *)

(** The cursors a start would load. *)
Definition disk_cursors (d : disk) : gmap string Cursor :=
  let raw := default [] (d !! storageKey) in
  if decide (raw = []) then ∅ else default ∅ (Unmarshal raw).

Definition disk_cursor (d : disk) : Cursor := default Cur.zero (disk_cursors d !! key).

(** Line [b] is where one of these requests, made without a position, begins. *)
Definition window (W : list Line) (reqs : list (option Z * (PodLogOptions * Z))) (b : nat) : Prop :=
  ∃ since opts server, (since, (opts, server)) ∈ reqs ∧ from_nothing since opts ∧
    b = first_since W (cutoff server opts).

Lemma window_mono W reqs reqs' b : reqs ⊆ reqs' → window W reqs b → window W reqs' b.
Proof. intros Hr (since & opts & server & ? & ? & ?). exists since, opts, server. split_and!; auto. Qed.

(** A cursor that stands after lines all of which are among [settled], from the
    log's first line or the beginning of a window on. *)
Definition covered (W : list Line) (settled : list bytes) (reqs : list (option Z * (PodLogOptions * Z)))
    (c : Cursor) : Prop :=
  ∃ b n, stands W b n c ∧ (b = 0%nat ∨ window W reqs b) ∧ Body <$> slice W b n ⊆+ settled.

Lemma covered_mono W done done' reqs reqs' c :
  done ⊆+ done' → reqs ⊆ reqs' → covered W done reqs c → covered W done' reqs' c.
Proof.
  intros Ht Hr (b & n & ? & Hb & ?). exists b, n. split_and!; [done| |by etrans].
  destruct Hb as [?|?]; [by left|right; by eapply window_mono].
Qed.

Lemma covered_zero W done reqs : covered W done reqs Cur.zero.
Proof.
  exists 0%nat, 0%nat. split_and!; [apply (stands_take W 0); lia|by left|].
  rewrite slice_same. apply submseteq_nil_l.
Qed.

(** What a stream has yet to do keeps its reports behind what is settled: it began
    where the cursor [c] stands, and has handed over [handed] and made the
    requests [made] since. *)
Definition owed (W : list Line) (since : option Z) (done : list bytes)
    (reqs : list (option Z * (PodLogOptions * Z))) (out : list stream_output) : Prop :=
  ∃ c b n handed made,
    stands W b n c ∧ (b = 0%nat ∨ window W reqs b) ∧ (Body <$> slice W b n) ++ handed ⊆+ done ∧
    (∀ r, r ∈ made → (since, r) ∈ reqs) ∧
    (∀ x, x ∈ settled out → x ∈ Body <$> W) ∧
    ∀ p d q, out = p ++ OutDelivered d :: q →
    ∃ b' n' fl, handed ++ settled p = Body <$> fl ∧
      reaches W since (made ++ opens p) c b n fl d b' n'.

Lemma owed_mono W since done done' reqs reqs' out :
  done ⊆+ done' → reqs ⊆ reqs' → owed W since done reqs out → owed W since done' reqs' out.
Proof.
  intros Ht Hr (c & b & n & h & m & ? & Hb & ? & Hm & ? & ?). exists c, b, n, h, m.
  split_and!; [done| |by etrans|by auto|done|done].
  destruct Hb as [?|?]; [by left|right; by eapply window_mono].
Qed.

(** A report due now is covered. *)
Lemma owed_delivered W since done reqs d out :
  owed W since done reqs (OutDelivered d :: out) → covered W done reqs d.
Proof.
  intros (c & b & n & h & m & Hst & Hb & Ht & Hm & _ & Hd).
  destruct (Hd [] d out eq_refl) as (b' & n' & fl & Ha & Hst' & Hext).
  rewrite !app_nil_r in *. exists b', n'. split; [done|].
  destruct Hext as [[-> [Hf Hall _ _]]|(_ & (opts & server & Hin & Hfrom & ->) & [Hf Hall _ _])].
  - split; [done|]. etrans; [|exact Ht]. destruct Hst.
    rewrite <- (slice_app W b n n'), fmap_app, Ha by lia. apply submseteq_app; [done|].
    by apply fmap_submseteq, sublist_submseteq.
  - split; [right; exists since, opts, server; split_and!; auto|].
    etrans; [|exact Ht]. rewrite Ha. apply submseteq_inserts_l. by apply fmap_submseteq, sublist_submseteq.
Qed.

(** Doing the next thing leaves the rest owed. *)
Lemma owed_next W since done reqs o out :
  owed W since done reqs (o :: out) →
  owed W since (done ++ settled [o]) (reqs ++ ((since,.) <$> opens [o])) out.
Proof.
  intros (c & b & n & h & m & Hst & Hb & Ht & Hm & Hg & Hd). change (o :: out) with ([o] ++ out) in Hg.
  rewrite settled_app in Hg. exists c, b, n, (h ++ settled [o]), (m ++ opens [o]). split_and!; [done| | | |set_solver|].
  - destruct Hb as [?|Hb]; [by left|right]. eapply window_mono; [|exact Hb]. set_solver.
  - rewrite app_assoc. by apply submseteq_skips_r.
  - intros r [Hr|Hr]%elem_of_app; apply elem_of_app; [left; auto|right]. by apply list_elem_of_fmap_2.
  - intros p d q ->. destruct (Hd (o :: p) d q eq_refl) as (b' & n' & fl & Ha & Hp).
    exists b', n', fl. change (o :: p) with ([o] ++ p) in Ha, Hp.
    rewrite settled_app in Ha. rewrite opens_app in Hp. by rewrite <- !app_assoc.
Qed.

Lemma owed_genuine W since done reqs o out x :
  owed W since done reqs (o :: out) → x ∈ settled [o] → x ∈ Body <$> W.
Proof.
  intros (_ & _ & _ & _ & _ & _ & _ & _ & _ & Hg & _) Hx. apply Hg. change (o :: out) with ([o] ++ out).
  rewrite settled_app. set_solver.
Qed.

Lemma batchSize_ok cfg : cfg_reads cfg → 0 < batchSize (Some cfg) ≤ max_int64.
Proof.
  split; [|done]. unfold batchSize, positive_or, Config.defaultMaxBatchSize.
  destruct (Z.ltb_spec 0 (MaxBatchSize cfg)); lia.
Qed.

(** A stream that begins at a covered cursor owes nothing it will not have paid. *)
Lemma owed_begin W cfg r a attempts s' out stop done reqs :
  log_ok W → cfg_reads cfg → a.(sa_key) = key → covered W done reqs (cursorFor r key) →
  Forall (reads_log W (batchSize (Some cfg))) attempts →
  run (newStreamCfg telemetry cfg) (newContainerStream r a) attempts = (s', out, stop) →
  owed W cfg.(SinceSeconds_) done reqs out.
Proof.
  intros HW Hmax Hkey (b & n & Hst & Hb & Ht) Ha Hrun. rewrite <- Hkey in Hst.
  destruct (run_moves W HW _ (batchSize_ok _ Hmax) _ (newStreamCfg telemetry cfg) _ _ _ _ _
    Ha eq_refl Hrun b n Hst) as (b' & n' & fl & Hacc & [_ Hext] & Htr & _).
  eexists _, b, n, [], []. rewrite app_nil_r. split_and!; [exact Hst|done|done|by intros ? ?%not_elem_of_nil| |exact Htr].
  rewrite Hacc. intros x (y & -> & Hy)%list_elem_of_fmap. apply list_elem_of_fmap_2.
  by destruct Hext as [[_ Hc]|(_ & _ & Hc)]; eapply cv_from.
Qed.

(** The invariant: the cursor in memory, the one on disk, and the reports every
    stream still owes stand behind what is settled; and nothing is dropped unless
    the pipeline knows permanent errors. *)
Record co_inv (W : list Line) (c : collector) : Prop := {
  co_reads : cfg_reads c.(co_cfg);
  co_genuine : ∀ x, x ∈ co_settled c → x ∈ Body <$> W;
  co_memory : covered W (co_settled c) c.(co_requests) (cursorFor c.(co_sys).(rcv) key);
  co_saved : covered W (co_settled c) c.(co_requests) (disk_cursor c.(co_disk));
  co_owed : ∀ id out, c.(co_streams) !! id = Some out →
    owed W c.(co_cfg).(SinceSeconds_) (co_settled c) c.(co_requests) out;
  co_kept : (∀ e : CE, IsPermanent e = false) →
    c.(co_dropped) = [] ∧ ∀ id out, c.(co_streams) !! id = Some out → dropped out = [];
}.

(** A step of the receiver that does not deliver for [key]. *)
Lemma exec_covered W done reqs s a s' :
  exec telemetry s a = Some s' → covered W done reqs (cursorFor s.(rcv) key) →
  (∀ id d t, a = ActDeliver id d → s.(running) !! id = Some t → t.(g_key) = key →
     covered W done reqs d) →
  covered W done reqs (cursorFor s'.(rcv) key).
Proof.
  intros Hex Hc Hd. unfold cursorFor, Get in *.
  destruct (exec_cursor telemetry s a s' key Hex) as [->|[[_ ->]|(id & d & t & -> & Hid & Hk & _ & ->)]];
    [done|apply covered_zero|].
  unfold adv. destruct (Cur.IsZero d); [done|]. destruct (Cur.After d _); [|done]. simpl. by eapply Hd.
Qed.

(** What a start loads is what the disk holds, or nothing. *)
Lemma Load_cursors b d ok :
  (Load (NewStore b) d ok).(cursors) = ∅ ∨ (Load (NewStore b) d ok).(cursors) = disk_cursors d.
Proof.
  unfold Load, disk_cursors. destruct b, ok; simpl; try by left.
  case_decide; [by left|]. destruct (Unmarshal _); simpl; [right; apply map_union_empty|by left].
Qed.

(** What the disk holds after a flush is what the store holds, or what it held. *)
Lemma Flush_cursors encodable `{!CodecOk encodable} s d ok :
  encodable s.(cursors) →
  disk_cursors (Flush s d ok) = s.(cursors) ∨ disk_cursors (Flush s d ok) = disk_cursors d.
Proof.
  intros He. destruct (codec_roundtrip _ He) as (raw & Hm & Hne & Hu).
  unfold Flush. rewrite Hm. destruct (has_client s), ok; simpl; try by right.
  left. unfold disk_cursors. rewrite lookup_insert_eq. simpl. by rewrite decide_False, Hu.
Qed.

(** The step of an output, its report apart: it leaves the stream and joins what is
    settled, or the requests. *)
Definition emitted (c : collector) (id : Z) (o : stream_output) (out : list stream_output) : collector :=
  MkCollector c.(co_cfg) c.(co_sys) (<[id := out]> c.(co_streams)) (c.(co_taken) ++ accepted [o])
    (c.(co_dropped) ++ dropped [o]) (c.(co_requests) ++ ((c.(co_cfg).(SinceSeconds_),.) <$> opens [o]))
    c.(co_disk).

Lemma emitted_settled c id o out : co_settled (emitted c id o out) ≡ₚ co_settled c ++ settled [o].
Proof.
  unfold co_settled. cbn [co_taken co_dropped emitted]. rewrite settled_split.
  rewrite <- !app_assoc. apply Permutation_app_head. rewrite !app_assoc.
  apply Permutation_app_tail, Permutation_app_comm.
Qed.

Lemma emitted_inv W c id o out :
  co_inv W c → c.(co_streams) !! id = Some (o :: out) → co_inv W (emitted c id o out).
Proof.
  intros [Hr Hg Hm Hs Ho Hk] Hout. pose proof (Ho _ _ Hout) as Hcur.
  pose proof (emitted_settled c id o out) as Hset.
  assert (Hgrow : co_settled c ⊆+ co_settled (emitted c id o out)).
  { rewrite Hset. by apply submseteq_inserts_r. }
  assert (Hreq : co_requests c ⊆ co_requests (emitted c id o out)) by (simpl; set_solver).
  split; [done| |by eapply covered_mono|by eapply covered_mono| |].
  - intros x. rewrite Hset, elem_of_app. intros [?|?]; [by apply Hg|by eapply owed_genuine].
  - intros id' out'. cbn [emitted co_streams]. rewrite lookup_insert_Some.
    intros [[<- <-]|[_ Hl]]; [|by eapply owed_mono, Ho].
    eapply owed_mono; [|reflexivity|by apply owed_next]. by rewrite Hset.
  - intros Hperm. destruct (Hk Hperm) as [Hd Hall]. pose proof (Hall _ _ Hout) as Hdo.
    change (o :: out) with ([o] ++ out) in Hdo. rewrite dropped_app in Hdo.
    apply app_eq_nil in Hdo as [Hd1 Hd2]. cbn [emitted co_dropped co_streams]. rewrite Hd, Hd1.
    split; [done|]. intros id' out'. rewrite lookup_insert_Some. intros [[<- <-]|[_ Hl]]; [done|by eapply Hall].
Qed.

Lemma emit_inv W c id o out c' :
  co_inv W c → c.(co_streams) !! id = Some (o :: out) →
  emit (set_stream c id out) id o = Some c' → co_inv W c'.
Proof.
  intros Hinv Hout Hst. pose proof (co_owed _ _ Hinv _ _ Hout) as Hcur.
  pose proof (emitted_inv _ _ _ _ _ Hinv Hout) as Hrest. unfold emitted, accepted, dropped, opens in Hrest.
  destruct o as [|reason|opts server|l|l|d|d]; simpl in Hst, Hrest; rewrite ?app_nil_r in Hrest;
    try (injection Hst as <-; exact Hrest).
  apply bind_Some in Hst as (s' & Hex & [= <-]).
  destruct Hrest as [Hr1 Hg1 Hm1 Hs1 Ho1 Hk1]. split; [done|done| |done|done|done].
  eapply (exec_covered _ _ _ _ (ActDeliver id d)); [exact Hex|done|].
  intros id' d' t' [= -> ->] _ _. by eapply owed_delivered.
Qed.

Lemma step_inv W encodable `{!CodecOk encodable} c e c' :
  log_ok W → co_inv W c → event_ok W encodable c e → step c e = Some c' → co_inv W c'.
Proof.
  intros HW Hinv Hok Hst. pose proof Hinv as [Hr Hg Hm Hs Ho Hk].
  destruct e as [a|id a attempts|id|ok|env cfg]; simpl in Hst.
  - destruct (elsewhere (co_sys c) a) eqn:Hel; [|done].
    apply bind_Some in Hst as (s' & Hex & [= <-]). split; simpl; [done|done| |done|done|done].
    eapply exec_covered; [done|done|]. intros id d t -> Hid Hkey. simpl in Hel.
    by rewrite Hid, bool_decide_true in Hel.
  - apply bind_Some in Hst as (t & Hid & Hst). case_decide as Hd; [|done]. destruct Hd as [(Hkey & Ha & _) _].
    destruct (run _ _ _) as [[s' out] stop] eqn:Hrun. injection Hst as <-.
    split; simpl; [done..| |].
    + intros id' out'. rewrite lookup_insert_Some. intros [[<- <-]|[_ ?]]; [|by eapply Ho].
      eapply owed_begin; [exact HW|exact Hr|exact Ha|exact Hm|exact Hok|exact Hrun].
    + intros Hperm. destruct (Hk Hperm) as [Hd Hall]. split; [done|]. intros id' out'.
      rewrite lookup_insert_Some. intros [[<- <-]|[_ ?]]; [|by eapply Hall].
      eapply (run_never_drops W); [exact Hperm|exact Hok|exact Hrun].
  - apply bind_Some in Hst as (t & Hid & Hst).
    destruct (co_streams c !! id) as [[|o out]|] eqn:Hout; [done| |done]. by eapply emit_inv.
  - injection Hst as <-. split; simpl; [done|done|done| |done|done]. simpl in Hok.
    unfold disk_cursor. destruct (Flush_cursors encodable _ (co_disk c) ok Hok) as [-> | ->]; [exact Hm|exact Hs].
  - destruct (Start _ _) as [[r bg] [err|]] eqn:Hstart; [done|]. injection Hst as <-.
    destruct (Start_ok _ _ _ _ Hstart) as (client & _ & -> & _). split; simpl; [done|done| |done| |].
    + unfold cursorFor, Get. simpl. unfold disk_cursor in Hs.
      destruct (Load_cursors (bool_decide (is_Some client)) (co_disk c) (env_disk_ok env)) as [-> | ->];
        [apply covered_zero|exact Hs].
    + by intros id out ?%lookup_empty_Some.
    + intros Hperm. split; [by apply Hk|]. by intros id out ?%lookup_empty_Some.
Qed.

Lemma reachable_co_inv W encodable `{!CodecOk encodable} c :
  log_ok W → co_reachable W encodable c → co_inv W c.
Proof.
  intros HW. induction 1 as [cfg Hcfg|c e c' Hr IH Hok Hst]; [|by eapply step_inv].
  split; simpl; [done|by intros b ?%not_elem_of_nil|apply covered_zero|apply covered_zero| |].
  - by intros id out ?%lookup_empty_Some.
  - intros _. split; [done|]. by intros id out ?%lookup_empty_Some.
Qed.

(** A run in a world that is as assumed. *)
Fixpoint steps_ok W encodable (c : collector) (l : list event) : Prop :=
  match l with
  | [] => True
  | e :: l' => event_ok W encodable c e ∧
      match step c e with Some c' => steps_ok W encodable c' l' | None => True end
  end.

Lemma steps_reachable W encodable c l c' :
  co_reachable W encodable c → steps_ok W encodable c l → steps c l = Some c' →
  co_reachable W encodable c'.
Proof.
  revert c. induction l as [|e l IH]; intros c Hr Hok Hst; simpl in *; [by simplify_eq|].
  apply bind_Some in Hst as (c1 & H1 & Hst). rewrite H1 in Hok. destruct Hok as [He Hok].
  apply (IH c1); [by eapply co_step|done|done].
Qed.

(** * Crashes *)

(** Between two flushes the disk stays as it is. *)
Definition keeps_disk (e : event) : bool :=
  match e with EvFlush _ | EvRestart _ _ => false | _ => true end.

Lemma step_disk c e c' : step c e = Some c' → keeps_disk e = true → c'.(co_disk) = c.(co_disk).
Proof.
  intros Hst Hk. destruct e as [a|id a attempts|id|ok|env cfg]; simpl in Hst; try done.
  - repeat case_match; try done. apply bind_Some in Hst as (s' & _ & [= <-]). done.
  - apply bind_Some in Hst as (t & _ & Hst). repeat case_match; by simplify_eq.
  - apply bind_Some in Hst as (t & _ & Hst). repeat case_match; try done. unfold emit in Hst.
    case_match; simplify_eq; try done. apply bind_Some in Hst as (s' & _ & [= <-]). done.
Qed.

Lemma steps_disk c l c' :
  steps c l = Some c' → Forall (λ e, keeps_disk e = true) l → c'.(co_disk) = c.(co_disk).
Proof.
  revert c. induction l as [|e l IH]; intros c Hst Hl; simpl in Hst; [by simplify_eq|].
  apply Forall_cons in Hl as [He Hl]. apply bind_Some in Hst as (c1 & H1 & Hst).
  rewrite (IH c1) by done. by eapply step_disk.
Qed.

(** Nothing on the way drops the cursor of [k]. *)
Fixpoint keeps_position (k : string) (c : collector) (l : list event) : Prop :=
  match l with
  | [] => True
  | e :: l' =>
      match e with EvAct a => ¬ drops_cursor c.(co_sys) k a | _ => True end ∧
      match step c e with Some c' => keeps_position k c' l' | None => True end
  end.

#[export] Instance keeps_position_dec k c l : Decision (keeps_position k c l).
Proof.
  revert c. induction l as [|e l IH]; intros c; simpl; [apply _|].
  apply and_dec; [destruct e; apply _|]. destruct (step c e); [apply IH|apply _].
Defined.

Lemma step_cursor_le k c e c' :
  step c e = Some c' → keeps_disk e = true →
  match e with EvAct a => ¬ drops_cursor c.(co_sys) k a | _ => True end →
  cur_le (cursorFor c.(co_sys).(rcv) k) (cursorFor c'.(co_sys).(rcv) k).
Proof.
  intros Hst Hk Hd. destruct e as [a|id a attempts|id|ok|env cfg]; simpl in Hst; try done.
  - case_match; [|done]. apply bind_Some in Hst as (s' & Hex & [= <-]). simpl. by eapply exec_cursor_le.
  - apply bind_Some in Hst as (t & _ & Hst). repeat case_match; by simplify_eq.
  - apply bind_Some in Hst as (t & _ & Hst). repeat case_match; try done. unfold emit in Hst.
    case_match; simplify_eq; try done. apply bind_Some in Hst as (s' & Hex & [= <-]).
    simpl in *. by eapply (exec_cursor_le telemetry _ (ActDeliver _ _)); [exact Hex|intros []].
Qed.

Lemma steps_cursor_le k c l c' :
  steps c l = Some c' → Forall (λ e, keeps_disk e = true) l → keeps_position k c l →
  cur_le (cursorFor c.(co_sys).(rcv) k) (cursorFor c'.(co_sys).(rcv) k).
Proof.
  revert c. induction l as [|e l IH]; intros c Hst Hl Hk; simpl in Hst; [by simplify_eq|].
  apply Forall_cons in Hl as [He Hl]. apply bind_Some in Hst as (c1 & H1 & Hst).
  simpl in Hk. rewrite H1 in Hk. destruct Hk as [Hd Hk].
  etrans; [by eapply step_cursor_le|by apply IH].
Qed.

Lemma restart_loads c env cfg c' client :
  step c (EvRestart env cfg) = Some c' → env.(env_disk_ok) = true →
  OpenStorage env.(env_extensions) cfg.(StorageID) = Ok (Some client) →
  c'.(co_sys).(rcv).(r_cursors).(cursors) = disk_cursors c.(co_disk).
Proof.
  simpl. intros Hst Hok Hopen. destruct (Start _ _) as [[r bg] [err|]] eqn:Hstart; [done|]. injection Hst as <-.
  destruct (Start_ok _ _ _ _ Hstart) as (client' & Ho & -> & _). simpl in Ho. rewrite Hopen in Ho.
  injection Ho as <-. simpl. rewrite Hok. unfold Load, disk_cursors. simpl.
  case_decide; [done|]. destruct (Unmarshal _); [apply map_union_empty|done].
Qed.
End collector.

(** * Properties *)

Section properties.
Context {S E CE C X SE : Type} `{!PData} `{!Consumer S Batch CE} `{!ConsumerErrors Batch CE} `{!ApiErrors E}.
Context `{!Codec} `{!ClientGo X SE}.
Notation co_reachable := (co_reachable (S := S) (E := E) (C := C) (X := X) (SE := SE)).
Notation step := (step (S := S) (E := E) (C := C) (X := X) (SE := SE)).
Notation steps := (steps (S := S) (E := E) (C := C) (X := X) (SE := SE)).


(** C10: A crash costs no more than the progress made since the last flush: whatever
    happens between a flush that succeeds and the crash, the next start resumes
    every container where it stood at the flush, which is never past where it
    stood at the crash unless its cursor was dropped in between. *)
Theorem crash_resumes_from_flush telemetry key encodable `{!CodecOk encodable} c c1 l c2 env cfg c3 client :
  step telemetry key c (EvFlush true) = Some c1 →
  c.(co_sys).(rcv).(r_cursors).(has_client) = true →
  encodable c.(co_sys).(rcv).(r_cursors).(cursors) →
  steps telemetry key c1 l = Some c2 → Forall (λ e, keeps_disk e = true) l →
  step telemetry key c2 (EvRestart env cfg) = Some c3 → env.(env_disk_ok) = true →
  OpenStorage env.(env_extensions) cfg.(StorageID) = Ok (Some client) →
  ∀ k, cursorFor c3.(co_sys).(rcv) k = cursorFor c.(co_sys).(rcv) k ∧
    (keeps_position telemetry key k c1 l →
     cur_le (cursorFor c3.(co_sys).(rcv) k) (cursorFor c2.(co_sys).(rcv) k)).
Proof.
  intros Hf Hc He Hs Hl Hr Hok Ho k.
  assert (Heq : cursorFor c3.(co_sys).(rcv) k = cursorFor c.(co_sys).(rcv) k).
  { unfold cursorFor, Get. rewrite (restart_loads _ _ _ _ _ _ _ Hr Hok Ho).
    rewrite (steps_disk _ _ _ _ _ Hs Hl). simpl in Hf. injection Hf as <-. simpl.
    destruct (codec_roundtrip _ He) as (raw & Hm & Hne & Hu).
    unfold Flush. rewrite Hc, Hm. simpl. unfold disk_cursors. rewrite lookup_insert_eq. simpl.
    by rewrite decide_False, Hu. }
  split; [done|]. intros Hk. rewrite Heq.
  pose proof (steps_cursor_le _ _ _ _ _ _ Hs Hl Hk) as Hle. simpl in Hf. by injection Hf as <-.
Qed.
End properties.

Module CollectorSample.
Import ReceiverSample DeliverySample LifecycleSample.
#[local] Existing Instance sample_pdata.
#[local] Existing Instance sample_consumer.
#[local] Existing Instance sample_errors.
#[local] Existing Instance StreamSample.api_errors.
#[local] Existing Instance LifecycleSample.codec.
#[local] Existing Instance LifecycleSample.codec_ok.
#[local] Existing Instance K8sSample.client_go.

Notation event := (event (S := script) (E := string) (C := unit) (SE := string)).

Definition key : string := podKey pod "app".
Definition config : Config.Config :=
  MkConfig (MkAPIConfig AuthTypeServiceAccount EmptyString float32_zero 0)
    [] EmptyString (Some 300) (Some "file_storage"%string) defaultMaxStreamLifetime None
    (MkReconnectBackoff (1 * Second) (30 * Second) 0)
    ConsumerRetry.NewDefaultConfig 2 defaultFlushInterval defaultMaxLogSize BehaviorSplitName.

Definition args (g : Z) : streamArgs := MkStreamArgs "default" "web-0" "6f1c" "app" "node-1" key g.

(** The collector starts, and the pod's app container gets its stream, the second
    one started; the stream's connection breaks after three of the four lines
    of its window.  The first batch of two is taken and reported, and flushed; of the
    third line the pipeline has taken the batch when the process dies.  The next
    collector's stream starts again from the flushed position. *)
Definition up : list event :=
  EvRestart env config :: (EvAct <$> handler_actions (CallAdd pod) 0).

Definition first_life : list event :=
  up ++ [EvBegin 2 (args 2) [turn 3 [] (Some (ReadFailed "reset")) false (clock 10)];
         EvEmit 2; EvEmit 2; EvEmit 2].
Definition crash : list event := [EvEmit 2].
Definition second_life : list event :=
  up ++ [EvBegin 2 (args 2) [turn 9 [] None false (clock 20)]; EvEmit 2; EvEmit 2].

Definition run_ (l : list event) (c : collector) : collector :=
  default c (steps (X := unit) false key c l).

Definition c0 : collector := unborn config.
Definition c1 : collector := run_ first_life c0.
Definition c2 : collector := run_ [EvFlush true] c1.
Definition c3 : collector := run_ crash c2.
Definition c4 : collector := run_ second_life c3.

(** The third line comes out twice, and no line is missing. *)
Example collector_run :
  c3.(co_taken) = [bs "a"; bs "b"; bs "c"] ∧ cursorFor c3.(co_sys).(rcv) key = pos (take 3 log) ∧
  c4.(co_taken) = [bs "a"; bs "b"; bs "c"; bs "c"; bs "d"] ∧
  disk_cursor key c4.(co_disk) = pos (take 3 log).
Proof. vm_compute. repeat split. Qed.

Lemma reads k ans e t now : Forall (reads_log log 2) [turn k ans e t now].
Proof.
  apply Forall_cons; split; [apply turn_reads|]. apply Forall_nil. exact I.
Qed.

Lemma config_reads : cfg_reads config.
Proof. vm_compute. discriminate. Qed.

Lemma encodable_one : encodable (λ _ _, 0) c1.(co_sys).(rcv).(r_cursors).(cursors).
Proof.
  set (c := MkCursor (Date 2024 1 1 0 0 0 2) 1).
  assert (Hc : marshalable c.(TS) 0 = true) by (vm_compute; reflexivity).
  assert (Heq : c1.(co_sys).(rcv).(r_cursors).(cursors) = {["default/web-0/6f1c/app"%string := c]}) by (vm_compute; reflexivity).
  rewrite Heq. intros k' c' Hl. apply lookup_singleton_Some in Hl as [<- <-].
  split; [apply (bool_decide_eq_true_1 _); vm_compute; reflexivity|]. split; [exact Hc|].
  cbn [c Delivered]. in_range.
Qed.

Notation reached := (co_reachable (C := unit) (X := unit) (SE := string) false key log (encodable (λ _ _, 0))).

(** Events that ask nothing of the world, up to a restart with the same
    configuration. *)
Definition plain (e : event) : Prop :=
  match e with EvAct _ | EvEmit _ => True | EvRestart _ cfg => cfg = config | _ => False end.

Lemma reach_plain c l c' :
  reached c → Forall plain l → steps (X := unit) false key c l = Some c' → reached c'.
Proof.
  intros Hr Hl. apply steps_reachable; [done|]. clear Hr c'. revert c.
  induction Hl as [|e l He Hl IH]; intros c; [done|]. simpl. split; [|by destruct (step _ _ c e)].
  destruct e; simpl in *; try done. subst. apply config_reads.
Qed.

Lemma reach_begin c id a k ans e t now c' :
  reached c → c.(co_cfg) = config →
  step (C := unit) (X := unit) (SE := string) false key c (EvBegin id a [turn k ans e t now]) = Some c' → reached c'.
Proof. intros Hr Hc. eapply co_step; [exact Hr|]. simpl. rewrite Hc. apply reads. Qed.

Lemma history_reachable : reached c4.
Proof.
  assert (Hup : Forall plain up) by (repeat constructor).
  assert (H1 : reached c1).
  { apply (reach_plain (run_ (take (length up + 1) first_life) c0) [EvEmit 2; EvEmit 2; EvEmit 2]);
      [|repeat constructor|vm_compute; reflexivity].
    apply (reach_begin (run_ up c0) 2 (args 2) 3 [] (Some (ReadFailed "reset")) false (clock 10));
      [|vm_compute; reflexivity..].
    apply (reach_plain c0 up); [apply co_unborn, config_reads|done|vm_compute; reflexivity]. }
  assert (H3 : reached c3).
  { apply (reach_plain c2 crash); [|repeat constructor|vm_compute; reflexivity].
    apply (co_step false key log _ c1 (EvFlush true)); [done|exact encodable_one|vm_compute; reflexivity]. }
  apply (reach_plain (run_ (take (length up + 1) second_life) c3) [EvEmit 2; EvEmit 2]);
    [|repeat constructor|vm_compute; reflexivity].
  apply (reach_begin (run_ up c3) 2 (args 2) 9 [] None false (clock 20)); [|vm_compute; reflexivity..].
  by apply (reach_plain c3 up); [|done|vm_compute; reflexivity].
Qed.


Lemma crash_resumes_from_flush_witness :
  cursorFor (run_ [EvRestart env config] c3).(co_sys).(rcv) key = pos (take 3 log).
Proof.
  transitivity (cursorFor c1.(co_sys).(rcv) key); [|vm_compute; reflexivity].
  apply (crash_resumes_from_flush (S := script) (E := string) (C := unit) (X := unit) (SE := string)
    false key (encodable (λ _ _, 0)) c1 c2 crash c3 env config (run_ [EvRestart env config] c3) tt).
  - vm_compute. reflexivity.
  - vm_compute. reflexivity.
  - exact encodable_one.
  - vm_compute. reflexivity.
  - repeat constructor.
  - vm_compute. reflexivity.
  - reflexivity.
  - reflexivity.
Defined.
End CollectorSample.
